(* ===== verification/_CoqProject ===== *)
-Q . S2P
Prelude.v
Fifo.v
Cbuf.v
CbufConc.v
GlipUtil.v
State.v
Uart.v
UartStream.v
Osd.v
OsdEnum.v
OsdMem.v
OsdMemWrite.v
OsdMemRead.v
Str.v
StrSpec.v
Machine.v
SoftFloat.v
SoftFloatArith.v
SoftFloatSpec.v
SoftFloatFields.v
SoftFloatAdd.v
SoftFloatMul.v
SoftFloatEstimate.v
SoftFloatDiv.v
Isa.v
MulDiv.v
Misaligned.v
TrapSpec.v
FpEmulation.v
Emulation.v
EmulationSpec.v
EmulationSafe.v
FpSpec.v
Ipi.v
ConfigString.v
ConfigSpec.v
Boot.v
BootTables.v
BootElf.v
Pk.v
PkFile.v
PkMmap.v
PkTree.v
PkWalk.v
PkVm.v
PkMap.v
PkFault.v
PkSpec.v
PkCalls.v
PkSyscall.v
PkUser.v
PkProt.v
PkSafe.v
PkInit.v
PkTop.v
