(* ===== verification/Prelude.v ===== *)
(** * Host and boot software of the lowRISC v0.4 tagged-memory chip

    The repository holds the hardware of a RISC-V system on a chip, the software
    that runs on it before an operating system does, and the software of a host
    that is connected to it for debugging.  This library models the C code of
    the last two and proves what makes it correct.

    ** The program

    - GLIP (src/opensocdebug/glip/src) carries a byte stream between host and
      target.  A lock-free circular buffer (cbuf.c) connects the user's thread
      with a backend thread; util.c has blocking transfers over it; the UART
      backend (backend_uart.c) runs credit-based flow control over a serial
      line.
    - The Open SoC Debug library (src/opensocdebug/software/src) talks to the
      debug modules of the chip in packets of 16-bit words that GLIP carries:
      register access, enumeration, control of the cores, access to memory.
    - The boot loader (src/fpga/bootloader) loads a kernel and stays resident in
      machine mode: its trap handlers emulate instructions the core does not
      have and misaligned accesses, hand other traps to the supervisor, and pass
      interrupts between the cores (harts).
    - The proxy kernel (src/fpga/bootloader/pk) runs one program in place of an
      operating system: it keeps the program's address space and open files
      and passes the program's other requests to a host.

    ** Files

    Generic: this file (outcomes of C functions, machine integers, lists and
    buffers indexed by Z), State.v (programs with state, weakest preconditions).

    GLIP:
    - Fifo.v: [ByteFifo] and [FifoLaws], what users of the buffer rely on.
    - Cbuf.v: every function of cbuf.c, the queue of bytes it implements, and
      the instance of [FifoLaws].
    - CbufConc.v: one writer and one reader, interleaved at every access to a
      shared field.
    - GlipUtil.v: util.c and util.h, proved against [FifoLaws].
    - Uart.v, UartStream.v: backend_uart.c over the same interface; the grammar
      of the serial line and the theorems.

    Open SoC Debug:
    - Osd.v: connection.c, regaccess.c, control.c, system-info.c, context.c.
      The target is a function from packets to packets.
    - OsdEnum.v: the theorems on register access and enumeration.
    - OsdMem.v: memory.c; OsdMemWrite.v and OsdMemRead.v: its theorems, against
      a memory access module given as an interpreter of the words it receives.

    Boot loader:
    - Str.v, StrSpec.v: util/string.c and util/snprintf.c.
    - Machine.v: the state of a hart, control and status registers, access to
      the memory of the interrupted program, handing over a trap (mtrap.c,
      unprivileged_memory.h, bits.h, emulation.h, fp_emulation.h).
    - SoftFloat.v, SoftFloatArith.v: the operations of softfloat/ that the
      emulation uses, comparisons, conversions and rounding in the one,
      arithmetic in the other.
    - SoftFloatSpec.v: formats, values and rounding as the IEEE standard defines
      them, and the functions that round and pack; SoftFloatFields.v: fields,
      normalisation, and the class [Rounder] of a precision's functions;
      SoftFloatAdd.v, SoftFloatMul.v, SoftFloatEstimate.v (quotients of 128 by
      64 bits) and SoftFloatDiv.v: the operations are correctly rounded.
    - MulDiv.v, Misaligned.v, FpEmulation.v, Emulation.v: muldiv_emulation.c,
      misaligned_ldst.c, fp_emulation.c with fp_ldst.c, and emulation.c.
    - Isa.v: instructions, registers and traps as the instruction-set manual
      names them, the terms of the theorems in TrapSpec.v (hand-over, misaligned
      accesses), EmulationSpec.v (multiplication and division, control and
      status registers), EmulationSafe.v (safety of every handler) and FpSpec.v
      (the arithmetic instructions of the F and D extensions).
    - Ipi.v: interrupts between harts in mtrap.c.
    - ConfigString.v, ConfigSpec.v: configstring.h and configstring.c; the
      grammar of configuration strings as trees, and the theorems.
    - Boot.v: bbl.c, kernel_elf.c, minit.c and sbi_impl.c; BootTables.v: how the
      hardware translates an address, and the page tables of the kernel;
      BootElf.v: the loading of the kernel and the whole of the boot loader.

    Proxy kernel:
    - Pk.v: its state, a record [pk], and the host, an argument of class [Host]
      (what it answers to a list of requests and writes to memory), for
      frontend.c and the locks of atomic.h.
    - PkFile.v: file.c and the calls of syscall.c on descriptors; the counts of
      references, and how they fare in any sequence of calls.
    - PkMmap.v: mmap.c.  PkTree.v: the page tables as a tree of the kernel's own
      pages; PkWalk.v: the tables that a walk adds; PkVm.v: the invariant of pages, regions and open files, and
      munmap; PkMap.v: the search for a free range, and mmap; PkFault.v: page
      faults; PkSpec.v: the address space the program sees, a function from
      pages, and mmap, munmap and faults in its terms; PkCalls.v: brk and the
      calls of the program; PkProt.v: mprotect; PkSafe.v: any sequence of
      calls; PkTop.v: the theorems, with a kernel they apply to; PkInit.v: the
      start, from the memory the monitor leaves.
    - PkSyscall.v: the calls of syscall.c that pass a buffer or a name to the
      host, and how the kernel reaches the buffer; PkUser.v: the bytes the
      program sees, and that these calls move them.

    ** How the model corresponds to the code

    A definition has the name of the function, type or macro it translates; a
    loop is a Fixpoint named after its function.  A struct is a record whose
    fields keep their names, with a prefix where two structs share one.  Machine
    integers are numbers in Z, and every operation that can leave its width is
    wrapped ([u8] to [u64], [s32], [s64]) where C wraps it.  What C leaves
    undefined (an access outside an object, signed overflow in a division, a
    failed assertion) is a [Fault] with its reason, never a value.  A function
    that changes a struct takes and returns it; longer programs are in the monad
    [M] of State.v or [T] of Machine.v.

    What the environment does is an argument: the results of system calls and
    the arrival of bytes are the [port] of Uart.v, the turns of other threads
    the schedules of GlipUtil.v, the answers of the target the function
    [respond] of Osd.v.  Where threads or harts run concurrently (CbufConc.v,
    Ipi.v) their steps are relations and every interleaving is considered.

    ** What the theorems show

    - C1 and C2: the circular buffer is a bounded queue, with its error cases,
      on every alignment to the end of the array.
    - C3: with one writer and one reader the reader gets the written bytes in
      order, whatever the interleaving.
    - C4 to C7: blocking transfers: what they return, when they end, and how
      far their deadline can be trusted.
    - C8 to C11: the UART backend decodes the grammar of the line from chunks
      of any size, sends with the same grammar, never fails an assertion and
      never grants more than it has room for.
    - C12: enumeration reconstructs the modules of the target, or reports the
      first error of the reads it makes.
    - C13 to C15: memory writes change exactly the bytes asked for, memory reads
      return them, and the sizes for which the code leaves its buffers.
    - C16 to C18: memcpy, memset, vsnprintf and atol.
    - C19 to C21: floating-point addition, multiplication and division give the
      exact result rounded as the IEEE standard asks, with its flags.
    - C22 to C24: a handed-over trap looks to the supervisor as if it had been
      delegated; misaligned loads and stores.
    - C25 to C28: emulated instructions do what the manual says, and no handler
      changes more than the target register of its instruction.
    - C29: no interrupt between harts is lost and no wait for other harts hangs.
    - C30 and C31: queries of the configuration string find the value of a path
      and its number; the monitor learns the memory, the clock and the harts.
    - C32 and C33: the page tables translate exactly the addresses of the kernel
      and of the binary interface; the kernel is entered in supervisor mode with
      every byte of its image at its virtual address.
    - C34, C35 and C39: mmap, munmap, brk and mprotect do to the address space
      of the program what a map from pages would say; the first access to a
      page fills it from its file.
    - C36: every sequence of calls and accesses keeps the tables, the counts of
      the regions and those of the files consistent.
    - C37: reads and writes move the bytes the program sees in its buffers.
    - C38: the proxy kernel starts: it maps its own memory, the page of the
      binary interface and the stack of the program, and nothing else.
    - C40: an opened file is never closed, and a program can open 125.

    ** Bounds and fuel

    A loop the code bounds is a recursion on that bound.  The other loops take
    fuel that their callers compute from the input: the 64 bits of a number for
    log2 and for counting digits, the length of the memory for the string
    functions, the quotient plus one for the division by subtraction of util.h,
    the number of modules for the searches of a table, the number of waiting
    packets for a wait, the size of the data for the bursts of a memory access,
    twice the length of the string and two for a query of the configuration
    string, the size of the memory in megapages for the page tables, the pages of
    a range and two for the loops of mmap.c, three walks for the two tables
    that may be missing on the way to an entry.
    [parse_config_string] takes its fuel as an argument; more than the number of
    harts and one is enough (C31).
    Running out would be an end of the memory or [Blocked]; the theorems state
    the result, not a result if there is one.  The blocking transfers of
    GlipUtil.v run against a schedule as long as the theorem wants: that they
    return (C5) and that one of them never times out ([GlipUtil]) are theorems about
    every schedule of a kind.  Termination of Ipi.v is by a measure on the states.

    ** Assumptions

    The harts of Ipi.v have atomic memory operations.  [malloc] and [calloc] succeed in the Open SoC Debug library and return
    contents of the environment's choice ([fresh]); realloc in cbuf.c may fail.
    Steps of threads are sequentially consistent.  A control and status register
    holds what is written to it.  The boot loader is compiled for RV64 with
    floating-point emulation, for a core without M, F, D and C.  Shifts of
    negative numbers, conversions to signed types and wrap-around of signed
    left shifts are those of GCC.

    The host of the proxy kernel answers a failed request with a negated error
    number of at most 12 bits, and writes what it likes where it likes unless a
    theorem says otherwise (C35 and C37: it serves a file, and only reads what it
    is given to write); closing a file, it writes nothing.  The proxy kernel runs on
    one hart, so its atomic operations are ordinary ones and the lock around
    the page tables is free when it is taken.  A program of C34 to C37 does not
    ask for a new range longer than its part of the address space, nor for
    mprotect on a range at the end of the 64-bit addresses, and its buffers lie
    in its part of the address space: what the code does otherwise is among the
    findings of the manifest.  The names of files are given with their sizes,
    their text being in pages that have been accessed.  The bits of an entry
    that record accesses are left out; nothing reads them.

    ** Not modelled

    Of the C code above: printing, the command-line tool, the daemon and the
    Python bindings, the TCP, JTAG and Cypress backends and the set-up of the
    terminal, which are calls of libraries around the parts modelled; device
    drivers, whose effect is that of registers; in the monitor the console, the
    timer and the dispatch of its calls, and the order in which the first hart
    and the others go through the steps of Boot.v; of the proxy kernel the loading of a
    program and its arguments, the console, the dispatch of traps and calls,
    writev and the calls that fill a struct of the program; the assembly
    code but for the frame a handler gets.  FatFs, the toolchain, Linux, BusyBox and glibc are
    third-party code, and the hardware is written in Chisel and SystemVerilog. *)

From Stdlib Require Export ZArith Lia.
From stdpp Require Export base tactics numbers list.

#[global] Open Scope Z_scope.

(** ** Outcomes

    A C function that the model runs to its end gives [Ret]; a run that reads
    or writes outside an object, fails an [assert], divides by zero, or waits
    for input that never comes gives [Fault] with the reason.  Nothing after a
    fault is executed. *)

Inductive fault : Type :=
  | OutOfBounds   (* access outside the object a pointer points to *)
  | NullDeref     (* access through a null pointer *)
  | AssertFail    (* a failed assert() *)
  | UndefArith    (* arithmetic the C standard leaves undefined *)
  | Blocked       (* the schedule of the environment has been used up *)
  | Die.          (* the boot loader or the proxy kernel prints a message and stops *)

Inductive outcome (A : Type) : Type :=
  | Ret (a : A)
  | Fault (f : fault).
Arguments Ret {A} _.
Arguments Fault {A} _.

#[export] Instance fault_eq_dec : EqDecision fault.
Proof. solve_decision. Defined.

#[export] Instance outcome_eq_dec {A} `{EqDecision A} : EqDecision (outcome A).
Proof. solve_decision. Defined.

#[export] Instance outcome_ret : MRet outcome := @Ret.

#[export] Instance outcome_bind : MBind outcome := fun A B f m =>
  match m with Ret a => f a | Fault e => Fault e end.

#[export] Instance outcome_fmap : FMap outcome := fun A B f m =>
  match m with Ret a => Ret (f a) | Fault e => Fault e end.

(** [assert(b)]. *)
Definition c_assert (b : bool) : outcome unit := if b then Ret tt else Fault AssertFail.

Lemma bind_ret {A B} (a : A) (f : A -> outcome B) : (Ret a ≫= f) = f a.
Proof. done. Qed.

Lemma bind_Ret_inv {A B} (m : outcome A) (f : A -> outcome B) b :
  m ≫= f = Ret b -> exists a, m = Ret a /\ f a = Ret b.
Proof. destruct m as [a|e]; [eauto | discriminate]. Qed.

Lemma bind_assoc {A B C} (m : outcome A) (f : A -> outcome B) (g : B -> outcome C) :
  (m ≫= f) ≫= g = m ≫= (fun a => f a ≫= g).
Proof. by destruct m. Qed.

Lemma c_assert_true b : b = true -> c_assert b = Ret tt.
Proof. by intros ->. Qed.

Lemma c_assert_Ret b u : c_assert b = Ret u -> b = true.
Proof. by destruct b. Qed.

(** ** Machine integers

    A [w]-bit unsigned value is the [Z] in [0, 2^w); a signed one is the [Z] in
    [-2^(w-1), 2^(w-1)).  Conversions wrap around. *)

Definition uwrap (w x : Z) : Z := x mod 2 ^ w.
Definition swrap (w x : Z) : Z :=
  let y := x mod 2 ^ w in if y <? 2 ^ (w - 1) then y else y - 2 ^ w.

Definition u8 (x : Z) : Z := x mod 2 ^ 8.
Definition u16 (x : Z) : Z := x mod 2 ^ 16.
Definition u32 (x : Z) : Z := x mod 2 ^ 32.
Definition u64 (x : Z) : Z := x mod 2 ^ 64.
Definition s32 (x : Z) : Z := swrap 32 x.
Definition s64 (x : Z) : Z := swrap 64 x.

Declare Scope c_scope.
Delimit Scope c_scope with c.
Notation "a &&& b" := (Z.land a b) (at level 40, left associativity) : c_scope.
Notation "a ||| b" := (Z.lor a b) (at level 50, left associativity) : c_scope.
Notation "a ^^^ b" := (Z.lxor a b) (at level 50, left associativity) : c_scope.
Notation "a <<< n" := (Z.shiftl a n) (at level 45, left associativity) : c_scope.
Notation "a >>> n" := (Z.shiftr a n) (at level 45, left associativity) : c_scope.
#[global] Open Scope c_scope.

(** [n]-bit values, and lists of bytes. *)
Definition is_uint (w x : Z) : Prop := 0 <= x < 2 ^ w.
Definition is_byte (x : Z) : Prop := 0 <= x < 256.

(** Values of [errno] the code returns negated. *)
Definition EAGAIN : Z := 11.
Definition ENOMEM : Z := 12.
Definition EINVAL : Z := 22.
Definition ETIMEDOUT : Z := 110.
Definition ECANCELED : Z := 125.

(** [struct timespec] of POSIX. *)
Record timespec : Type := MkTimespec { tv_sec : Z; tv_nsec : Z }.

(** Linear arithmetic with division and remainder by constants. *)
Ltac zdm := Z.to_euclidean_division_equations; lia.

(** Closed comparisons, by evaluation. *)
Ltac zcompute := vm_compute; repeat split; congruence.

(** Decides the comparisons of constants in the goal. *)
Ltac zbool :=
  repeat match goal with
    | |- context [?a =? ?b] =>
        let r := eval vm_compute in (a =? b) in
        lazymatch r with true => idtac | false => idtac end;
        change (a =? b) with r
    end; cbv iota.

Ltac unfold_ints :=
  unfold u8, u16, u32, u64, s32, s64, swrap, uwrap, is_uint, is_byte in *.

Lemma u64_small x : 0 <= x < 2 ^ 64 -> u64 x = x.
Proof. apply Z.mod_small. Qed.
Lemma u32_small x : 0 <= x < 2 ^ 32 -> u32 x = x.
Proof. apply Z.mod_small. Qed.
Lemma u16_small x : 0 <= x < 2 ^ 16 -> u16 x = x.
Proof. apply Z.mod_small. Qed.
Lemma u8_small x : 0 <= x < 2 ^ 8 -> u8 x = x.
Proof. apply Z.mod_small. Qed.

Lemma s32_small x : - 2 ^ 31 <= x < 2 ^ 31 -> s32 x = x.
Proof. intros H. unfold_ints. cbv zeta. case_match; zdm. Qed.
Lemma s64_small x : - 2 ^ 63 <= x < 2 ^ 63 -> s64 x = x.
Proof. intros H. unfold_ints. cbv zeta. case_match; zdm. Qed.

Lemma s64_u64 x : - 2 ^ 63 <= x < 2 ^ 63 -> s64 (u64 x) = x.
Proof. intros H. unfold_ints. cbv zeta. rewrite Z.mod_mod by lia. case_match; zdm. Qed.
Lemma s32_u64 x : - 2 ^ 31 <= x < 2 ^ 31 -> s32 (u64 x) = x.
Proof. intros H. unfold_ints. cbv zeta. case_match; zdm. Qed.

Lemma u64_range x : 0 <= u64 x < 2 ^ 64.
Proof. apply Z.mod_pos_bound. lia. Qed.
Lemma u32_range x : 0 <= u32 x < 2 ^ 32.
Proof. apply Z.mod_pos_bound. lia. Qed.
Lemma u16_range x : 0 <= u16 x < 2 ^ 16.
Proof. apply Z.mod_pos_bound. lia. Qed.
Lemma u8_range x : 0 <= u8 x < 2 ^ 8.
Proof. apply Z.mod_pos_bound. lia. Qed.

Create HintDb cint discriminated.
Create Rewrite HintDb cint_simpl.
#[export] Hint Resolve u64_range u32_range u16_range u8_range : cint.
#[export] Hint Rewrite u64_small u32_small u16_small u8_small s32_small s64_small
  using lia : cint_simpl.

(** Conversions keep the bit pattern: a signed and an unsigned reading of one
    value agree modulo the width. *)
Lemma pow2_pos k : 0 <= k -> 0 < 2 ^ k.
Proof. intros. by apply Z.pow_pos_nonneg. Qed.

Lemma pow2_mono j k : 0 <= j <= k -> 2 ^ j <= 2 ^ k.
Proof. intros. apply Z.pow_le_mono_r; lia. Qed.

Lemma swrap_mod w x : 0 <= w -> (swrap w x) mod 2 ^ w = x mod 2 ^ w.
Proof.
  intros Hw. pose proof (pow2_pos w Hw). unfold swrap. cbv zeta.
  case_match; [apply Z.mod_mod; lia|].
  rewrite Zminus_mod, Z.mod_same, Z.sub_0_r by lia. by rewrite !Z.mod_mod by lia.
Qed.

Lemma swrap_range w x : 0 < w -> - 2 ^ (w - 1) <= swrap w x < 2 ^ (w - 1).
Proof.
  intros Hw. unfold swrap. cbv zeta.
  pose proof (Z.mod_pos_bound x (2 ^ w) (pow2_pos w ltac:(lia))).
  assert (2 ^ w = 2 * 2 ^ (w - 1)) by (rewrite <- Z.pow_succ_r by lia; f_equal; lia).
  case_match; lia.
Qed.

(** ** Bit masks that are powers of two *)

Lemma land_pow2_mask x k : 0 <= k -> x &&& (2 ^ k - 1) = x mod 2 ^ k.
Proof. intros Hk. rewrite <- Z.land_ones, Z.ones_equiv, Z.sub_1_r by done. done. Qed.

Lemma land_ones_pow2 x k : 0 <= k -> x &&& Z.ones k = x mod 2 ^ k.
Proof. apply Z.land_ones. Qed.

Lemma testbit_high y k n : 0 <= y < 2 ^ k -> 0 <= k <= n -> Z.testbit y n = false.
Proof.
  intros Hy Hn. rewrite <- (Z.mod_small y (2 ^ k)) by done.
  apply Z.mod_pow2_bits_high. lia.
Qed.

Lemma lor_disjoint_add x y k :
  0 <= k -> 0 <= y < 2 ^ k -> (x <<< k) ||| y = x * 2 ^ k + y.
Proof.
  intros Hk Hy. rewrite <- Z.shiftl_mul_pow2 by done.
  assert (Hz : (x <<< k) &&& y = 0).
  { apply Z.bits_inj'; intros n Hn. rewrite Z.land_spec, Z.bits_0.
    destruct (decide (n < k)).
    - by rewrite Z.shiftl_spec_low.
    - rewrite (testbit_high y k) by lia. apply andb_false_r. }
  by rewrite <- Z.lxor_lor, <- Z.add_nocarry_lxor.
Qed.

Lemma lor_disjoint_add' x y k :
  0 <= k -> 0 <= y < 2 ^ k -> y ||| (x <<< k) = x * 2 ^ k + y.
Proof. intros. rewrite Z.lor_comm. by apply lor_disjoint_add. Qed.

Lemma shiftr_div x k : 0 <= k -> x >>> k = x / 2 ^ k.
Proof. apply Z.shiftr_div_pow2. Qed.

Lemma shiftl_mul x k : 0 <= k -> x <<< k = x * 2 ^ k.
Proof. apply Z.shiftl_mul_pow2. Qed.

Lemma lxor_pow2 x k :
  0 <= k -> 0 <= x < 2 ^ (k + 1) ->
  x ^^^ 2 ^ k = if x <? 2 ^ k then x + 2 ^ k else x - 2 ^ k.
Proof.
  intros Hk Hx. rewrite Z.pow_add_r, Z.pow_1_r in Hx by lia.
  assert (Hlow : forall y, 0 <= y < 2 ^ k -> y ^^^ 2 ^ k = y + 2 ^ k).
  { intros y Hy. symmetry. rewrite <- Z.add_nocarry_lxor; [done|].
    apply Z.bits_inj'; intros n Hn. rewrite Z.land_spec, Z.bits_0, Z.pow2_bits_eqb by lia.
    destruct (Z.eqb_spec k n) as [<-|]; [|apply andb_false_r].
    by rewrite (testbit_high y k) by lia. }
  destruct (Z.ltb_spec x (2 ^ k)) as [Hlt|Hge]; [apply Hlow; lia|].
  replace x with ((x - 2 ^ k) ^^^ 2 ^ k) at 1 by (rewrite Hlow; lia).
  by rewrite Z.lxor_assoc, Z.lxor_nilpotent, Z.lxor_0_r.
Qed.

(** ** Arrays

    A C array of integers is a list; [a !z i] reads element [i] (0 outside the
    array: the model reads there only after a bounds test), and [load] and
    [store] are [memcpy] out of and into an array with the bounds made
    explicit. *)

Definition nthz (l : list Z) (i : Z) : Z := if i <? 0 then 0 else nth (Z.to_nat i) l 0.
Notation "l !z i" := (nthz l i) (at level 20) : c_scope.

Definition lenz {A} (l : list A) : Z := Z.of_nat (length l).

Definition load (l : list Z) (off n : Z) : outcome (list Z) :=
  if (0 <=? off) && (0 <=? n) && (off + n <=? lenz l)
  then Ret (take (Z.to_nat n) (drop (Z.to_nat off) l))
  else Fault OutOfBounds.

Definition store (l : list Z) (off : Z) (d : list Z) : outcome (list Z) :=
  if (0 <=? off) && (off + lenz d <=? lenz l)
  then Ret (take (Z.to_nat off) l ++ d ++ drop (Z.to_nat (off + lenz d)) l)
  else Fault OutOfBounds.

(** One element read or written through a pointer. *)
Definition get (l : list Z) (i : Z) : outcome Z :=
  if (0 <=? i) && (i <? lenz l) then Ret (l !z i) else Fault OutOfBounds.

Definition put (l : list Z) (i x : Z) : outcome (list Z) := store l i [x].

Definition zeros (n : Z) : list Z := replicate (Z.to_nat n) 0.

Lemma lenz_nonneg {A} (l : list A) : 0 <= lenz l.
Proof. unfold lenz. lia. Qed.
Lemma lenz_nil {A} : lenz (@nil A) = 0.
Proof. done. Qed.
Lemma lenz_cons {A} (x : A) l : lenz (x :: l) = 1 + lenz l.
Proof. unfold lenz. simpl. lia. Qed.
Lemma lenz_app {A} (l1 l2 : list A) : lenz (l1 ++ l2) = lenz l1 + lenz l2.
Proof. unfold lenz. rewrite length_app. lia. Qed.
Lemma lenz_take {A} n (l : list A) : 0 <= n -> lenz (take (Z.to_nat n) l) = Z.min n (lenz l).
Proof. intros. unfold lenz. rewrite length_take. lia. Qed.
Lemma lenz_drop {A} n (l : list A) : 0 <= n -> lenz (drop (Z.to_nat n) l) = Z.max 0 (lenz l - n).
Proof. intros. unfold lenz. rewrite length_drop. lia. Qed.
Lemma lenz_zeros n : 0 <= n -> lenz (zeros n) = n.
Proof. intros. unfold lenz, zeros. rewrite length_replicate. lia. Qed.

Lemma nthz_lookup l i : 0 <= i < lenz l -> l !! Z.to_nat i = Some (l !z i).
Proof.
  intros Hi. unfold lenz in Hi. unfold nthz.
  destruct (Z.ltb_spec i 0); [lia|].
  rewrite nth_lookup.
  destruct (lookup_lt_is_Some_2 l (Z.to_nat i) ltac:(lia)) as [x Hx]. by rewrite Hx.
Qed.

Lemma nthz_out l i : lenz l <= i -> l !z i = 0.
Proof.
  intros Hi. unfold lenz in Hi. unfold nthz. case_match; [done|].
  apply nth_overflow. lia.
Qed.

Lemma nthz_app l1 l2 i :
  0 <= i -> (l1 ++ l2) !z i = if i <? lenz l1 then l1 !z i else l2 !z (i - lenz l1).
Proof.
  intros Hi. pose proof (lenz_nonneg l1). unfold nthz, lenz in *.
  destruct (Z.ltb_spec i 0); [lia|].
  destruct (Z.ltb_spec i (Z.of_nat (length l1))).
  - apply app_nth1. lia.
  - destruct (Z.ltb_spec (i - Z.of_nat (length l1)) 0); [lia|].
    rewrite app_nth2 by lia. f_equal. lia.
Qed.

Lemma nthz_take n l i : 0 <= i < n -> take (Z.to_nat n) l !z i = l !z i.
Proof.
  intros Hi. unfold nthz. case_match; [done|]. rewrite !nth_lookup.
  by rewrite lookup_take_lt by lia.
Qed.

Lemma nthz_drop n l i : 0 <= i -> 0 <= n -> drop (Z.to_nat n) l !z i = l !z (n + i).
Proof.
  intros Hi Hn. unfold nthz. repeat case_match; try lia. rewrite !nth_lookup, lookup_drop.
  do 2 f_equal. lia.
Qed.

Lemma nthz_cons x l i : 0 <= i -> (x :: l) !z i = if i =? 0 then x else l !z (i - 1).
Proof.
  intros Hi. change (x :: l) with ([x] ++ l). rewrite nthz_app by done.
  change (lenz [x]) with 1.
  destruct (Z.eqb_spec i 0) as [->|]; [done|]. by destruct (Z.ltb_spec i 1); [lia|].
Qed.

Lemma listz_eq (l1 l2 : list Z) :
  lenz l1 = lenz l2 -> (forall i, 0 <= i < lenz l1 -> l1 !z i = l2 !z i) -> l1 = l2.
Proof.
  intros Hlen Hi. apply list_eq_same_length with (length l2); [done|unfold lenz in *; lia|].
  intros i x y Hlt Hx Hy.
  assert (0 <= Z.of_nat i < lenz l1) as Hr by (unfold lenz in *; lia).
  pose proof (nthz_lookup l1 _ Hr) as H1. rewrite Hlen in Hr.
  pose proof (nthz_lookup l2 _ Hr) as H2. rewrite Nat2Z.id in H1, H2.
  rewrite <- Hlen in Hr. rewrite (Hi _ Hr) in H1. congruence.
Qed.

(** [load] and [store]: when they are defined, their length, their elements. *)
Lemma load_Ret l off n d :
  load l off n = Ret d <->
  0 <= off /\ 0 <= n /\ off + n <= lenz l /\ d = take (Z.to_nat n) (drop (Z.to_nat off) l).
Proof.
  unfold load. destruct (Z.leb_spec 0 off), (Z.leb_spec 0 n), (Z.leb_spec (off + n) (lenz l));
    simpl; split; try (intros [=]; lia); try lia; try (intros (?&?&?&?); lia).
  - intros [= <-]. done.
  - intros (?&?&?&->). done.
Qed.

Lemma load_spec l off n :
  0 <= off -> 0 <= n -> off + n <= lenz l ->
  exists d, load l off n = Ret d /\ lenz d = n /\ (forall i, 0 <= i < n -> d !z i = l !z (off + i)).
Proof.
  intros. eexists. split; [by apply load_Ret|]. split.
  - rewrite lenz_take, lenz_drop by lia. lia.
  - intros i Hi. rewrite nthz_take, nthz_drop by lia. done.
Qed.

Lemma store_spec l off d :
  0 <= off -> off + lenz d <= lenz l ->
  exists l', store l off d = Ret l' /\ lenz l' = lenz l /\
    (forall i, 0 <= i -> l' !z i = if (off <=? i) && (i <? off + lenz d) then d !z (i - off) else l !z i).
Proof.
  intros Hoff Hd. pose proof (lenz_nonneg d). unfold store.
  destruct (Z.leb_spec 0 off), (Z.leb_spec (off + lenz d) (lenz l)); try lia. simpl.
  eexists. split; [done|]. split.
  - rewrite !lenz_app, lenz_take, lenz_drop by lia. lia.
  - intros i Hi. rewrite nthz_app, lenz_take, Z.min_l by lia.
    destruct (Z.ltb_spec i off).
    { rewrite nthz_take by lia. by destruct (Z.leb_spec off i); [lia|]. }
    rewrite nthz_app by lia. destruct (Z.leb_spec off i); [simpl|lia].
    destruct (Z.ltb_spec (i - off) (lenz d)), (Z.ltb_spec i (off + lenz d)); try lia.
    rewrite nthz_drop by lia. f_equal. lia.
Qed.

Lemma store_Ret_inv l off d l' :
  store l off d = Ret l' -> 0 <= off /\ off + lenz d <= lenz l.
Proof.
  unfold store. destruct (Z.leb_spec 0 off), (Z.leb_spec (off + lenz d) (lenz l)); simpl;
    intros [=]; lia.
Qed.

Lemma nthz_zeros n i : zeros n !z i = 0.
Proof.
  unfold zeros, nthz. case_match; [done|]. rewrite nth_lookup.
  destruct (replicate _ _ !! _) as [x|] eqn:Hx; [|done].
  by apply lookup_replicate in Hx as [-> _].
Qed.

(** A property of all elements, by index. *)
Lemma Forall_nthz_iff (P : Z -> Prop) l : Forall P l <-> forall i, 0 <= i < lenz l -> P (l !z i).
Proof.
  split.
  - intros H i Hi. eapply Forall_lookup_1; [done|]. by apply nthz_lookup.
  - intros H. apply Forall_lookup_2. intros i v Hi.
    pose proof (lookup_lt_Some _ _ _ Hi) as Hlt.
    specialize (H (Z.of_nat i) ltac:(unfold lenz; lia)).
    pose proof (nthz_lookup l (Z.of_nat i) ltac:(unfold lenz; lia)) as Hn.
    rewrite Nat2Z.id in Hn. congruence.
Qed.

(** Reads and writes within the bounds. *)
Lemma get_ok l i : 0 <= i < lenz l -> get l i = Ret (l !z i).
Proof.
  intros Hi. unfold get. by destruct (Z.leb_spec 0 i), (Z.ltb_spec i (lenz l)); try lia.
Qed.

Lemma put_insert l i x : 0 <= i < lenz l -> put l i x = Ret (<[Z.to_nat i := x]> l).
Proof.
  intros Hi. unfold put, store. change (lenz [x]) with 1.
  destruct (Z.leb_spec 0 i), (Z.leb_spec (i + 1) (lenz l)); try lia. simpl.
  unfold lenz in Hi. rewrite insert_take_drop by lia. do 4 f_equal. lia.
Qed.

Lemma nthz_insert l i j x :
  0 <= i < lenz l -> 0 <= j -> <[Z.to_nat i := x]> l !z j = if i =? j then x else l !z j.
Proof.
  intros Hi Hj. unfold nthz, lenz in *. destruct (Z.ltb_spec j 0); [lia|]. rewrite !nth_lookup.
  destruct (Z.eqb_spec i j) as [->|].
  - by rewrite list_lookup_insert_eq by lia.
  - by rewrite list_lookup_insert_ne by lia.
Qed.

Lemma lenz_insert {A} (l : list A) i x : lenz (<[i := x]> l) = lenz l.
Proof. unfold lenz. by rewrite length_insert. Qed.

(** The values of a function on a range. *)
Lemma lenz_seqZ (m : Z -> Z) a n : 0 <= n -> lenz (m <$> seqZ a n) = n.
Proof. intros. unfold lenz. rewrite length_fmap, length_seqZ. lia. Qed.

Lemma nthz_seqZ (m : Z -> Z) a n i : 0 <= i < n -> (m <$> seqZ a n) !z i = m (a + i).
Proof.
  intros Hi. unfold nthz. destruct (Z.ltb_spec i 0); [lia|]. rewrite nth_lookup, list_lookup_fmap.
  rewrite lookup_seqZ_lt by lia. simpl. f_equal. lia.
Qed.

(** ** Fields of a number *)

(** The bits selected by the mask of a field. *)
Lemma land_field x k n : 0 <= k -> 0 <= n -> x &&& (Z.ones n <<< k) = (x / 2 ^ k) mod 2 ^ n * 2 ^ k.
Proof.
  intros Hk Hn. rewrite <- shiftl_mul by done. apply Z.bits_inj'. intros i Hi.
  rewrite Z.land_spec, !Z.shiftl_spec by done.
  destruct (decide (i < k)).
  - rewrite !(Z.testbit_neg_r _ (i - k)) by lia. apply andb_false_r.
  - rewrite <- land_ones_pow2, Z.land_spec, Z.div_pow2_bits by lia.
    do 2 f_equal. lia.
Qed.

Lemma land_lor_mask x a b : x &&& (a ||| b) = (x &&& a) ||| (x &&& b).
Proof. apply Z.land_lor_distr_r. Qed.

Lemma swrap_mod_eq w x : 0 <= w -> swrap w (x mod 2 ^ w) = swrap w x.
Proof.
  intros. pose proof (pow2_pos w ltac:(lia)). unfold swrap. cbv zeta. by rewrite Z.mod_mod by lia.
Qed.

Lemma mod_pow2_mod x j k : 0 <= j <= k -> (x mod 2 ^ k) mod 2 ^ j = x mod 2 ^ j.
Proof.
  intros H. apply Z.bits_inj'. intros n Hn. destruct (decide (n < j)).
  - by rewrite !Z.mod_pow2_bits_low by lia.
  - by rewrite !Z.mod_pow2_bits_high by lia.
Qed.

Lemma u64_s32_mod x : u64 (s32 x) mod 2 ^ 32 = x mod 2 ^ 32.
Proof. unfold u64, s32. rewrite mod_pow2_mod by lia. by apply swrap_mod. Qed.
