(* ===== verification/Fifo.v ===== *)
(** * What GLIP's users of a circular buffer rely on

    The backends and the helpers of util.c use the circular buffer of cbuf.c
    only through the operations below.  [ByteFifo] names them, [FifoLaws] says
    what they promise: a bounded queue of bytes.  Cbuf.v discharges the laws
    for cbuf.c; GlipUtil.v and the UART files are proved against the laws. *)

From S2P Require Import Prelude.

Class ByteFifo (B : Type) : Type := {
  fifo_size : B -> Z;
  fifo_fill_level : B -> Z;
  fifo_free_level : B -> Z;
  (* [fifo_write b d n]: the return code and the buffer *)
  fifo_write : B -> list Z -> Z -> outcome (Z * B);
  (* [fifo_read b n]: the return code, the bytes, and the buffer *)
  fifo_read : B -> Z -> outcome (Z * list Z * B);
  fifo_discard : B -> Z -> Z * B;
  fifo_cancel_waits : B -> bool;
  (* the outcomes of locking and of waiting come from the environment *)
  fifo_wait_for_level_change : Z -> (B -> Z * B) -> B -> Z -> Z * B;
  fifo_timedwait_for_level_change :
    (timespec -> Z) -> (timespec -> B -> Z * B) -> B -> Z -> timespec -> Z * B;
  (* the abstract queue *)
  fifo_wf : B -> Prop;
  fifo_contents : B -> list Z
}.

Class FifoLaws (B : Type) `{!ByteFifo B} : Prop := {
  fifo_size_bounds (b : B) : fifo_wf b -> 1 <= fifo_size b <= 2 ^ 29;
  fifo_fill_level_eq (b : B) : fifo_wf b -> fifo_fill_level b = lenz (fifo_contents b);
  fifo_free_level_eq (b : B) :
    fifo_wf b -> fifo_free_level b = fifo_size b - lenz (fifo_contents b);
  fifo_contents_bound (b : B) : fifo_wf b -> lenz (fifo_contents b) <= fifo_size b;
  fifo_write_fits (b : B) d n :
    fifo_wf b -> 0 <= n <= lenz d -> n <= fifo_free_level b ->
    exists b', fifo_write b d n = Ret (0, b') /\ fifo_wf b' /\ fifo_size b' = fifo_size b /\
      fifo_contents b' = fifo_contents b ++ take (Z.to_nat n) d;
  fifo_write_cancel_waits (b : B) d n rv b' :
    fifo_write b d n = Ret (rv, b') -> fifo_cancel_waits b' = fifo_cancel_waits b;
  fifo_write_full (b : B) d n :
    fifo_wf b -> fifo_free_level b < n -> fifo_write b d n = Ret (- EINVAL, b);
  fifo_read_fits (b : B) n :
    fifo_wf b -> 0 <= n <= fifo_fill_level b ->
    exists b', fifo_read b n = Ret (0, take (Z.to_nat n) (fifo_contents b), b') /\
      fifo_wf b' /\ fifo_size b' = fifo_size b /\
      fifo_contents b' = drop (Z.to_nat n) (fifo_contents b);
  fifo_read_short (b : B) n :
    fifo_wf b -> 0 <= n -> fifo_fill_level b < n -> fifo_read b n = Ret (- EINVAL, [], b);
  fifo_discard_fits (b : B) n :
    fifo_wf b -> 0 <= n <= fifo_fill_level b ->
    exists b', fifo_discard b n = (0, b') /\ fifo_wf b' /\ fifo_size b' = fifo_size b /\
      fifo_contents b' = drop (Z.to_nat n) (fifo_contents b);
  fifo_wait_eq lock_rv wait (b : B) level :
    fifo_wait_for_level_change lock_rv wait b level =
      let '(rv, b') := if negb (lock_rv =? 0) then (lock_rv, b)
                       else if negb (fifo_fill_level b =? level) then (0, b) else wait b in
      (- (if fifo_cancel_waits b' then ECANCELED else rv), b');
  fifo_timedwait_eq lock_rv wait (b : B) level ts :
    fifo_timedwait_for_level_change lock_rv wait b level ts =
      fifo_wait_for_level_change (lock_rv ts) (wait ts) b level
}.

Section derived.
Context `{FifoLaws B}.
Implicit Type b : B.

Lemma fifo_levels b :
  fifo_wf b -> 0 <= fifo_fill_level b <= fifo_size b /\
  fifo_free_level b = fifo_size b - fifo_fill_level b.
Proof.
  intros Hb. rewrite fifo_free_level_eq, fifo_fill_level_eq by done.
  pose proof (fifo_contents_bound b Hb). pose proof (lenz_nonneg (fifo_contents b)). lia.
Qed.

(** Emptying the queue. *)
Lemma fifo_discard_all b :
  fifo_wf b -> exists b', fifo_discard b (fifo_fill_level b) = (0, b') /\ fifo_wf b' /\
    fifo_size b' = fifo_size b /\ fifo_contents b' = [].
Proof.
  intros Hb. pose proof (fifo_levels b Hb).
  destruct (fifo_discard_fits b (fifo_fill_level b)) as (b' & ? & ? & ? & Hc); [done|lia|].
  exists b'. split_and!; [done..|]. rewrite Hc, fifo_fill_level_eq by done.
  apply drop_ge. unfold lenz. lia.
Qed.

(** One byte more. *)
Lemma fifo_write_one b x :
  fifo_wf b -> 1 <= fifo_free_level b ->
  exists b', fifo_write b [x] 1 = Ret (0, b') /\ fifo_wf b' /\ fifo_size b' = fifo_size b /\
    fifo_contents b' = fifo_contents b ++ [x] /\ fifo_free_level b' = fifo_free_level b - 1.
Proof.
  intros Hb Hf. destruct (fifo_write_fits b [x] 1) as (b' & ? & ? & Hs & Hc); [done|done|lia|].
  exists b'. split_and!; [done..|]. rewrite !fifo_free_level_eq by done.
  rewrite Hc, Hs, lenz_app. change (lenz (take (Z.to_nat 1) [x])) with 1. lia.
Qed.
End derived.
