(* ===== verification/Cbuf.v ===== *)
(** * The circular buffer of GLIP: opensocdebug/glip/src/cbuf.c

    The state of [struct cbuf] is the record [cbuf]; every function of the file
    is a definition of the same name.  A [uint8_t *] handed out by
    [cbuf_reserve] or [cbuf_peek] points into the data array, into one of the
    two temporary blocks, or is null ([ptr]).  The mutex and condition variable
    appear as the points where an operation publishes its pointer
    ([_cbuf_publish_wr], [_cbuf_publish_rd]): between them the two sides run
    concurrently, which is the subject of CbufConc.v. *)

From S2P Require Import Prelude.
From S2P Require Import Fifo.

(** ** State *)

Record cbuf : Type := MkCbuf {
  wr_ptr : Z;
  rd_ptr : Z;
  size : Z;
  data : list Z;
  hint_max_read_size : Z;
  read_data_tmp_size : Z;
  read_data_tmp : option (list Z);
  hint_max_write_size : Z;
  write_data_tmp_size : Z;
  write_data_tmp : option (list Z);
  cancel_waits : bool;
  level_changed : Z  (* how often the condition variable has been broadcast *)
}.

Inductive ptr : Type :=
  | PNull
  | PData (off : Z)
  | PReadTmp
  | PWriteTmp.

#[export] Instance ptr_eq_dec : EqDecision ptr.
Proof. solve_decision. Defined.

Definition set_wr_ptr (b : cbuf) (x : Z) : cbuf :=
  MkCbuf x (rd_ptr b) (size b) (data b) (hint_max_read_size b) (read_data_tmp_size b)
    (read_data_tmp b) (hint_max_write_size b) (write_data_tmp_size b) (write_data_tmp b)
    (cancel_waits b) (level_changed b).
Definition set_rd_ptr (b : cbuf) (x : Z) : cbuf :=
  MkCbuf (wr_ptr b) x (size b) (data b) (hint_max_read_size b) (read_data_tmp_size b)
    (read_data_tmp b) (hint_max_write_size b) (write_data_tmp_size b) (write_data_tmp b)
    (cancel_waits b) (level_changed b).
Definition set_data (b : cbuf) (d : list Z) : cbuf :=
  MkCbuf (wr_ptr b) (rd_ptr b) (size b) d (hint_max_read_size b) (read_data_tmp_size b)
    (read_data_tmp b) (hint_max_write_size b) (write_data_tmp_size b) (write_data_tmp b)
    (cancel_waits b) (level_changed b).
Definition set_read_tmp (b : cbuf) (n : Z) (t : option (list Z)) : cbuf :=
  MkCbuf (wr_ptr b) (rd_ptr b) (size b) (data b) (hint_max_read_size b) n t
    (hint_max_write_size b) (write_data_tmp_size b) (write_data_tmp b)
    (cancel_waits b) (level_changed b).
Definition set_write_tmp (b : cbuf) (n : Z) (t : option (list Z)) : cbuf :=
  MkCbuf (wr_ptr b) (rd_ptr b) (size b) (data b) (hint_max_read_size b) (read_data_tmp_size b)
    (read_data_tmp b) (hint_max_write_size b) n t (cancel_waits b) (level_changed b).
Definition set_hints (b : cbuf) (r w : Z) : cbuf :=
  MkCbuf (wr_ptr b) (rd_ptr b) (size b) (data b) r (read_data_tmp_size b)
    (read_data_tmp b) w (write_data_tmp_size b) (write_data_tmp b)
    (cancel_waits b) (level_changed b).
Definition set_cancel_waits (b : cbuf) (c : bool) : cbuf :=
  MkCbuf (wr_ptr b) (rd_ptr b) (size b) (data b) (hint_max_read_size b) (read_data_tmp_size b)
    (read_data_tmp b) (hint_max_write_size b) (write_data_tmp_size b) (write_data_tmp b)
    c (level_changed b).
Definition broadcast (b : cbuf) : cbuf :=
  MkCbuf (wr_ptr b) (rd_ptr b) (size b) (data b) (hint_max_read_size b) (read_data_tmp_size b)
    (read_data_tmp b) (hint_max_write_size b) (write_data_tmp_size b) (write_data_tmp b)
    (cancel_waits b) (level_changed b + 1).

(** ** Local helpers *)

Definition _cbuf_ptr_add (b : cbuf) (val1 val2 : Z) : Z :=
  u64 (val1 + val2) &&& u64 (2 * size b - 1).

(** [while (size_tmp >>= 1) log2_size++;]: a [size_t] is zero after 64 halvings. *)
Fixpoint log2_loop (fuel : nat) (size_tmp log2_size : Z) : Z :=
  match fuel with
  | O => log2_size
  | S f =>
      let size_tmp := size_tmp >>> 1 in
      if size_tmp =? 0 then log2_size else log2_loop f size_tmp (log2_size + 1)
  end.

(** [1 << n] is an [int]: it is undefined from [n = 31] on. *)
Definition _cbuf_calc_bufsize (size_req size_max : Z) : outcome Z :=
  let log2_size := log2_loop 64 size_req 0 in
  pow_two ← (if 31 <=? log2_size + 1 then Fault UndefArith else Ret (1 <<< (log2_size + 1)));
  Ret (if size_max <? pow_two then size_max else pow_two).

Definition _cbuf_cancel_waits (b : cbuf) : cbuf := broadcast (set_cancel_waits b true).

(** The critical sections that end [cbuf_write] and [cbuf_commit], and
    [cbuf_read] and [cbuf_discard]. *)
Definition _cbuf_publish_wr (b : cbuf) (n : Z) : cbuf :=
  broadcast (set_wr_ptr b (_cbuf_ptr_add b (wr_ptr b) n)).
Definition _cbuf_publish_rd (b : cbuf) (n : Z) : cbuf :=
  broadcast (set_rd_ptr b (_cbuf_ptr_add b (rd_ptr b) n)).

(** [realloc(t, n)]: null when memory is exhausted, else a block of [n] bytes
    that starts with the old contents. *)
Definition realloc (mem_ok : bool) (t : option (list Z)) (n : Z) : option (list Z) :=
  if mem_ok
  then let old := default [] t in
       Some (take (Z.to_nat n) (old ++ zeros (n - lenz old)))
  else None.

(** ** Construction and destruction *)

Definition cbuf_init (calloc1 calloc2 : bool) (n : Z) : outcome (Z * option cbuf) :=
  _ ← c_assert (negb (n =? 0) && ((n &&& u64 (n - 1)) =? 0));
  if negb calloc1 then Ret (- ENOMEM, None) else
  if negb calloc2 then Ret (- ENOMEM, None) else
  Ret (0, Some (MkCbuf 0 0 n (zeros n) 0 0 None 0 0 None false 0)).

Inductive block : Type := BlkData | BlkReadTmp | BlkWriteTmp | BlkStruct.

(** The blocks [cbuf_free] gives back; [free(NULL)] gives nothing back. *)
Definition cbuf_free (b : option cbuf) : Z * list block :=
  match b with
  | None => (0, [])
  | Some b =>
      let b := _cbuf_cancel_waits b in
      (0, [BlkData] ++ match read_data_tmp b with Some _ => [BlkReadTmp] | None => [] end
                    ++ match write_data_tmp b with Some _ => [BlkWriteTmp] | None => [] end ++ [BlkStruct])
  end.

Definition cbuf_set_hint_max_read_size (b : cbuf) (h : Z) : Z * cbuf :=
  (0, set_hints b h (hint_max_write_size b)).

Definition cbuf_set_hint_max_write_size (b : cbuf) (h : Z) : Z * cbuf :=
  (0, set_hints b (hint_max_read_size b) h).

(** ** Fill level *)

Definition cbuf_is_empty (b : cbuf) : bool := wr_ptr b =? rd_ptr b.

Definition cbuf_is_full (b : cbuf) : bool := wr_ptr b =? (rd_ptr b ^^^ size b).

(** The level from the array positions alone, which cannot tell full from empty. *)
Definition _cbuf_level_of_positions (b : cbuf) : Z :=
  let fill_level :=
    s64 (u64 ((wr_ptr b &&& u64 (size b - 1)) - (rd_ptr b &&& u64 (size b - 1)))) in
  let fill_level :=
    if fill_level <? 0 then s64 (u64 (fill_level + size b)) else fill_level in
  u64 fill_level.

Definition cbuf_fill_level (b : cbuf) : Z :=
  if cbuf_is_full b then size b else _cbuf_level_of_positions b.

Definition cbuf_free_level (b : cbuf) : Z := u64 (size b - cbuf_fill_level b).

Definition cbuf_size (b : cbuf) : Z := size b.

(** ** The write side *)

Definition cbuf_write (b : cbuf) (d : list Z) (n : Z) : outcome (Z * cbuf) :=
  let free_level := cbuf_free_level b in
  if free_level <? n then Ret (- EINVAL, b) else
  let pos := wr_ptr b &&& u64 (size b - 1) in
  d' ← (if u64 (pos + n) <=? size b then
          src ← load d 0 n;
          store (data b) pos src
        else
          let size_at_end := u64 (size b - pos) in
          let size_at_start := u64 (n - size_at_end) in
          src1 ← load d 0 size_at_end;
          d1 ← store (data b) pos src1;
          src2 ← load d size_at_end size_at_start;
          store d1 0 src2);
  Ret (0, _cbuf_publish_wr (set_data b d') n).

Definition cbuf_reserve (mem_ok : bool) (b : cbuf) (n : Z) : outcome (Z * option ptr * cbuf) :=
  let free_level := cbuf_free_level b in
  if free_level <? n then Ret (- EINVAL, None, b) else
  let pos := wr_ptr b &&& u64 (size b - 1) in
  if u64 (pos + n) <=? size b then Ret (0, Some (PData pos), b) else
  if write_data_tmp_size b <? n then
    tmp_size ← (if n <=? hint_max_write_size b then Ret (hint_max_write_size b)
                else _cbuf_calc_bufsize n (size b));
    let b := set_write_tmp b tmp_size (realloc mem_ok (write_data_tmp b) tmp_size) in
    match write_data_tmp b with
    | Some _ => Ret (0, Some PWriteTmp, b)
    | None => Ret (- ENOMEM, None, b)
    end
  else Ret (0, Some match write_data_tmp b with Some _ => PWriteTmp | None => PNull end, b).

(** [data == buf->write_data_tmp] *)
Definition is_write_data_tmp (b : cbuf) (p : ptr) : bool :=
  match p, write_data_tmp b with
  | PWriteTmp, Some _ | PNull, None => true
  | _, _ => false
  end.

Definition load_tmp (t : option (list Z)) (off n : Z) : outcome (list Z) :=
  match t with Some t => load t off n | None => Fault NullDeref end.

Definition cbuf_commit (b : cbuf) (p : ptr) (n : Z) : outcome (Z * cbuf) :=
  if n =? 0 then Ret (0, b) else
  let pos := wr_ptr b &&& u64 (size b - 1) in
  d' ← (if is_write_data_tmp b p then
          let size_at_end := u64 (size b - pos) in
          src1 ← load_tmp (write_data_tmp b) 0 size_at_end;
          d1 ← store (data b) pos src1;
          if size_at_end <? n then
            let size_at_start := u64 (n - size_at_end) in
            src2 ← load_tmp (write_data_tmp b) size_at_end size_at_start;
            store d1 0 src2
          else Ret d1
        else Ret (data b));
  Ret (0, _cbuf_publish_wr (set_data b d') n).

(** ** The read side *)

(** The bytes copied out are the second component. *)
Definition cbuf_read (b : cbuf) (n : Z) : outcome (Z * list Z * cbuf) :=
  if n =? 0 then Ret (0, [], b) else
  let fill_level := cbuf_fill_level b in
  if fill_level <? n then Ret (- EINVAL, [], b) else
  let pos := rd_ptr b &&& u64 (size b - 1) in
  out ← (if u64 (pos + n) <=? size b then load (data b) pos n
         else
           let size_to_end := s32 (u64 (size b - pos)) in
           part1 ← load (data b) pos (u64 size_to_end);
           part2 ← load (data b) 0 (u64 (n - size_to_end));
           Ret (part1 ++ part2));
  Ret (0, out, _cbuf_publish_rd b n).

Definition store_tmp (t : option (list Z)) (off : Z) (d : list Z) : outcome (option (list Z)) :=
  match t with Some t => Some <$> store t off d | None => Fault NullDeref end.

(** The end of [cbuf_peek]: both segments go to the temporary block. *)
Definition _cbuf_peek_copy (b : cbuf) (n : Z) : outcome (Z * option ptr * cbuf) :=
  let pos := rd_ptr b &&& u64 (size b - 1) in
  let size_to_end := s32 (u64 (size b - pos)) in
  src1 ← load (data b) pos (u64 size_to_end);
  t1 ← store_tmp (read_data_tmp b) 0 src1;
  src2 ← load (data b) 0 (u64 (n - size_to_end));
  t2 ← store_tmp t1 size_to_end src2;
  Ret (0, Some PReadTmp, set_read_tmp b (read_data_tmp_size b) t2).

Definition cbuf_peek (mem_ok : bool) (b : cbuf) (n : Z) : outcome (Z * option ptr * cbuf) :=
  if n =? 0 then Ret (0, None, b) else
  let fill_level := cbuf_fill_level b in
  if fill_level <? n then Ret (- EINVAL, None, b) else
  let pos := rd_ptr b &&& u64 (size b - 1) in
  if u64 (pos + n) <=? size b then Ret (0, Some (PData pos), b) else
  if read_data_tmp_size b <? n then
    tmp_size ← (if n <=? hint_max_read_size b then Ret (hint_max_read_size b)
                else _cbuf_calc_bufsize n (size b));
    let b := set_read_tmp b tmp_size (realloc mem_ok (read_data_tmp b) tmp_size) in
    match read_data_tmp b with
    | Some _ => _cbuf_peek_copy b n
    | None => Ret (- ENOMEM, None, b)
    end
  else _cbuf_peek_copy b n.

Definition cbuf_discard (b : cbuf) (n : Z) : Z * cbuf :=
  if cbuf_fill_level b <? n then (- EINVAL, b) else (0, _cbuf_publish_rd b n).

(** ** Waiting for the other side

    [lock_rv] is what locking the mutex returns; [wait] is what the wait on the
    condition variable returns and the buffer as the other threads left it.  The
    timed calls get the absolute time at which they give up. *)

Definition cbuf_wait_for_level_change (lock_rv : Z) (wait : cbuf -> Z * cbuf)
    (b : cbuf) (level : Z) : Z * cbuf :=
  let '(rv, b) :=
    if negb (lock_rv =? 0) then (lock_rv, b)
    else if negb (cbuf_fill_level b =? level) then (0, b)
    else wait b in
  let rv := if cancel_waits b then ECANCELED else rv in
  (- rv, b).

Definition cbuf_timedwait_for_level_change (timedlock_rv : timespec -> Z)
    (timedwait : timespec -> cbuf -> Z * cbuf)
    (b : cbuf) (level : Z) (abs_timeout : timespec) : Z * cbuf :=
  let lock_rv := timedlock_rv abs_timeout in
  let '(rv, b) :=
    if negb (lock_rv =? 0) then (lock_rv, b)
    else if negb (cbuf_fill_level b =? level) then (0, b)
    else timedwait abs_timeout b in
  let rv := if cancel_waits b then ECANCELED else rv in
  (- rv, b).

(** ** What a caller does with the pointers it is given *)

(** A library function fills memory through the pointer of [cbuf_reserve]. *)
Definition api_fill (b : cbuf) (p : ptr) (d : list Z) : outcome cbuf :=
  match p with
  | PData off => d' ← store (data b) off d; Ret (set_data b d')
  | PWriteTmp => t ← store_tmp (write_data_tmp b) 0 d; Ret (set_write_tmp b (write_data_tmp_size b) t)
  | PReadTmp => t ← store_tmp (read_data_tmp b) 0 d; Ret (set_read_tmp b (read_data_tmp_size b) t)
  | PNull => Fault NullDeref
  end.

(** A library function reads [n] bytes through the pointer of [cbuf_peek]. *)
Definition api_fetch (b : cbuf) (p : ptr) (n : Z) : outcome (list Z) :=
  match p with
  | PData off => load (data b) off n
  | PWriteTmp => load_tmp (write_data_tmp b) 0 n
  | PReadTmp => load_tmp (read_data_tmp b) 0 n
  | PNull => Fault NullDeref
  end.

(** ** Abstract view: a bounded queue of bytes

    The contents are the [cbuf_fill_level] bytes that start at the read pointer
    and wrap around the end of the array. *)

Definition cbuf_contents (b : cbuf) : list Z :=
  (fun i => data b !z ((rd_ptr b + i) mod size b)) <$> seqZ 0 (cbuf_fill_level b).

Definition tmp_wf (t : option (list Z)) (n : Z) : Prop :=
  match t with Some l => lenz l = n | None => n = 0 end.

(** The sizes for which every [int] of the file is in range: 2^29 bytes. *)
Definition CBUF_MAX_LOG2 : Z := 29.

Record cbuf_wf (b : cbuf) : Prop := {
  wf_size : exists k, 0 <= k <= CBUF_MAX_LOG2 /\ size b = 2 ^ k;
  wf_data : lenz (data b) = size b;
  wf_rd : 0 <= rd_ptr b < 2 * size b;
  wf_wr : 0 <= wr_ptr b < 2 * size b;
  wf_fill : (wr_ptr b - rd_ptr b) mod (2 * size b) <= size b;
  wf_read_tmp : tmp_wf (read_data_tmp b) (read_data_tmp_size b);
  wf_write_tmp : tmp_wf (write_data_tmp b) (write_data_tmp_size b);
  wf_hints : 0 <= hint_max_read_size b < 2 ^ 64 /\ 0 <= hint_max_write_size b < 2 ^ 64
}.

(** *** Pointer arithmetic *)

Lemma mod_once x s : 0 < s -> 0 <= x < 2 * s -> x mod s = if x <? s then x else x - s.
Proof.
  intros Hs Hx. destruct (Z.ltb_spec x s); [by rewrite Z.mod_small by lia|].
  symmetry. apply Z.mod_unique with 1; lia.
Qed.

Lemma mod_once_neg x s : 0 < s -> - s <= x < s -> x mod s = if x <? 0 then x + s else x.
Proof.
  intros Hs Hx. destruct (Z.ltb_spec x 0); [|by rewrite Z.mod_small by lia].
  symmetry. apply Z.mod_unique with (-1); lia.
Qed.

Lemma mod_diff a b s : 0 < s -> (a mod s - b mod s) mod s = (a - b) mod s.
Proof. intros. by rewrite <- Zminus_mod. Qed.

Section facts.
Context (b : cbuf) (Hwf : cbuf_wf b).
Local Abbreviation sz := (size b).

Lemma size_bounds : 1 <= sz <= 2 ^ 29.
Proof.
  destruct (wf_size b Hwf) as (k & Hk & ->). unfold CBUF_MAX_LOG2 in Hk.
  pose proof (pow2_mono k 29). pose proof (pow2_pos k). lia.
Qed.

Lemma mask_mod x : x &&& u64 (sz - 1) = x mod sz.
Proof.
  pose proof size_bounds. rewrite u64_small by lia.
  destruct (wf_size b Hwf) as (k & Hk & ->). apply land_pow2_mask. lia.
Qed.

Lemma ptr_add_mod x y :
  0 <= x < 2 * sz -> 0 <= y < 2 ^ 63 -> _cbuf_ptr_add b x y = (x + y) mod (2 * sz).
Proof.
  intros Hx Hy. pose proof size_bounds. unfold _cbuf_ptr_add. rewrite !u64_small by lia.
  destruct (wf_size b Hwf) as (k & Hk & ->).
  rewrite <- Z.pow_succ_r by lia. apply land_pow2_mask. lia.
Qed.

Lemma is_full_iff : cbuf_is_full b = ((wr_ptr b - rd_ptr b) mod (2 * sz) =? sz).
Proof.
  pose proof size_bounds. pose proof (wf_rd b Hwf) as Hr. pose proof (wf_wr b Hwf) as Hw.
  unfold cbuf_is_full. rewrite (mod_once_neg _ (2 * sz)) by lia.
  assert (Hx : rd_ptr b ^^^ sz = if rd_ptr b <? sz then rd_ptr b + sz else rd_ptr b - sz).
  { destruct (wf_size b Hwf) as (k & Hk & Hs). rewrite Hs in *. apply lxor_pow2; [lia|].
    rewrite Z.pow_add_r by lia. lia. }
  rewrite Hx. repeat case_match; lia.
Qed.

Lemma is_empty_iff : cbuf_is_empty b = ((wr_ptr b - rd_ptr b) mod (2 * sz) =? 0).
Proof.
  pose proof size_bounds. pose proof (wf_rd b Hwf) as Hr. pose proof (wf_wr b Hwf) as Hw.
  unfold cbuf_is_empty. rewrite (mod_once_neg _ (2 * sz)) by lia. repeat case_match; lia.
Qed.

Lemma level_of_positions_mod :
  _cbuf_level_of_positions b = (wr_ptr b - rd_ptr b) mod sz.
Proof.
  pose proof size_bounds. pose proof (wf_rd b Hwf) as Hr. pose proof (wf_wr b Hwf) as Hw.
  unfold _cbuf_level_of_positions. rewrite !mask_mod.
  pose proof (Z.mod_pos_bound (wr_ptr b) sz ltac:(lia)).
  pose proof (Z.mod_pos_bound (rd_ptr b) sz ltac:(lia)).
  rewrite <- mod_diff by lia.
  rewrite (mod_once_neg (wr_ptr b mod sz - rd_ptr b mod sz)) by lia.
  rewrite s64_u64 by lia. cbv zeta.
  destruct (Z.ltb_spec (wr_ptr b mod sz - rd_ptr b mod sz) 0);
    [rewrite s64_u64 by lia|]; apply u64_small; lia.
Qed.

Lemma fill_level_mod : cbuf_fill_level b = (wr_ptr b - rd_ptr b) mod (2 * sz).
Proof.
  pose proof size_bounds. pose proof (wf_rd b Hwf) as Hr. pose proof (wf_wr b Hwf) as Hw.
  pose proof (wf_fill b Hwf) as Hf. unfold cbuf_fill_level.
  rewrite is_full_iff, level_of_positions_mod.
  destruct (Z.eqb_spec ((wr_ptr b - rd_ptr b) mod (2 * sz)) sz); [done|].
  rewrite <- (Z.mod_mod_divide _ (2 * sz) sz) by (exists 2; lia).
  apply Z.mod_small. pose proof (Z.mod_pos_bound (wr_ptr b - rd_ptr b) (2 * sz)). lia.
Qed.

Lemma fill_level_bounds : 0 <= cbuf_fill_level b <= sz.
Proof.
  pose proof size_bounds. rewrite fill_level_mod. split; [|apply (wf_fill b Hwf)].
  apply Z.mod_pos_bound. lia.
Qed.

Lemma free_level_eq : cbuf_free_level b = sz - cbuf_fill_level b.
Proof.
  pose proof size_bounds. pose proof fill_level_bounds. unfold cbuf_free_level.
  apply u64_small. lia.
Qed.

Lemma wr_mod : wr_ptr b mod sz = (rd_ptr b + cbuf_fill_level b) mod sz.
Proof.
  pose proof size_bounds. pose proof (wf_rd b Hwf) as Hr. pose proof (wf_wr b Hwf) as Hw.
  rewrite fill_level_mod, (mod_once_neg _ (2 * sz)) by lia.
  case_match; [|f_equal; lia].
  rewrite <- (Z.mod_add (wr_ptr b) 2 sz) by lia. f_equal. lia.
Qed.

Lemma lenz_contents : lenz (cbuf_contents b) = cbuf_fill_level b.
Proof.
  pose proof fill_level_bounds. unfold cbuf_contents, lenz.
  rewrite length_fmap, length_seqZ. lia.
Qed.

Lemma nthz_contents i :
  0 <= i < cbuf_fill_level b -> cbuf_contents b !z i = data b !z ((rd_ptr b + i) mod sz).
Proof.
  intros Hi. pose proof lenz_contents as Hl.
  pose proof (nthz_lookup (cbuf_contents b) i ltac:(lia)) as Hn.
  unfold cbuf_contents in Hn at 1. rewrite list_lookup_fmap, lookup_seqZ_lt in Hn by lia.
  simpl in Hn. injection Hn as <-. do 2 f_equal. lia.
Qed.
End facts.

(** *** Publishing a pointer *)

Lemma publish_wr_wf b d n :
  cbuf_wf b -> lenz d = size b -> 0 <= n <= cbuf_free_level b ->
  cbuf_wf (_cbuf_publish_wr (set_data b d) n) /\
  cbuf_fill_level (_cbuf_publish_wr (set_data b d) n) = cbuf_fill_level b + n.
Proof.
  intros Hwf Hd Hn. pose proof (size_bounds b Hwf). pose proof (fill_level_bounds b Hwf).
  rewrite free_level_eq in Hn by done. rewrite (fill_level_mod b Hwf) in *.
  pose proof (wf_rd b Hwf). pose proof (wf_wr b Hwf).
  set (b' := _cbuf_publish_wr (set_data b d) n).
  assert (Hp : wr_ptr b' = (wr_ptr b + n) mod (2 * size b)).
  { change (wr_ptr b') with (_cbuf_ptr_add b (wr_ptr b) n). apply ptr_add_mod; [done|lia..]. }
  assert (Hm : (wr_ptr b' - rd_ptr b) mod (2 * size b)
               = (wr_ptr b - rd_ptr b) mod (2 * size b) + n).
  { rewrite Hp, Zminus_mod_idemp_l. replace (wr_ptr b + n - rd_ptr b) with ((wr_ptr b - rd_ptr b) + n) by lia.
    rewrite <- Zplus_mod_idemp_l. rewrite Z.mod_small; [done|].
    split; [lia|]. assert (size b < 2 * size b) by lia. lia. }
  assert (Hwf' : cbuf_wf b').
  { destruct Hwf. constructor; try done.
    - change (size b') with (size b). rewrite Hp. apply Z.mod_pos_bound. lia.
    - change (rd_ptr b') with (rd_ptr b). change (size b') with (size b). lia. }
  split; [done|]. rewrite (fill_level_mod b' Hwf'). done.
Qed.

Lemma publish_rd_wf b n :
  cbuf_wf b -> 0 <= n <= cbuf_fill_level b ->
  cbuf_wf (_cbuf_publish_rd b n) /\
  cbuf_fill_level (_cbuf_publish_rd b n) = cbuf_fill_level b - n /\
  rd_ptr (_cbuf_publish_rd b n) mod size b = (rd_ptr b + n) mod size b.
Proof.
  intros Hwf Hn. pose proof (size_bounds b Hwf). pose proof (fill_level_bounds b Hwf).
  rewrite (fill_level_mod b Hwf) in *. pose proof (wf_rd b Hwf). pose proof (wf_wr b Hwf).
  set (b' := _cbuf_publish_rd b n).
  assert (Hp : rd_ptr b' = (rd_ptr b + n) mod (2 * size b)).
  { change (rd_ptr b') with (_cbuf_ptr_add b (rd_ptr b) n). apply ptr_add_mod; [done|lia..]. }
  assert (Hm : (wr_ptr b - rd_ptr b') mod (2 * size b)
               = (wr_ptr b - rd_ptr b) mod (2 * size b) - n).
  { rewrite Hp, Zminus_mod_idemp_r. replace (wr_ptr b - (rd_ptr b + n)) with ((wr_ptr b - rd_ptr b) - n) by lia.
    rewrite <- Zminus_mod_idemp_l. rewrite Z.mod_small; lia. }
  assert (Hwf' : cbuf_wf b').
  { destruct Hwf. constructor; try done.
    - change (size b') with (size b). rewrite Hp. apply Z.mod_pos_bound. lia.
    - change (wr_ptr b') with (wr_ptr b). change (size b') with (size b). lia. }
  split; [done|]. split; [by rewrite (fill_level_mod b' Hwf')|].
  rewrite Hp. rewrite <- (Z.mod_mod_divide (rd_ptr b + n) (2 * size b) (size b)); [done|].
  exists 2. lia.
Qed.

(** The index of position [i] of the array counted from the write pointer. *)
Local Notation "'wr_index' b i" := ((i - wr_ptr b) mod size b) (at level 10, b at level 9, i at level 9).

(** Publishing [n] bytes that are in place from the write pointer on appends
    them, as long as the bytes still in the queue were not touched. *)
Lemma publish_wr_contents b d n src :
  cbuf_wf b -> lenz d = size b -> lenz src = n -> n <= cbuf_free_level b ->
  (forall i, 0 <= i < size b ->
     (wr_index b i < n -> d !z i = src !z (wr_index b i)) /\
     (cbuf_free_level b <= wr_index b i -> d !z i = data b !z i)) ->
  cbuf_contents (_cbuf_publish_wr (set_data b d) n) = cbuf_contents b ++ src.
Proof.
  intros Hwf Hd Hsrc Hn Hdata. pose proof (lenz_nonneg src).
  pose proof (size_bounds b Hwf). pose proof (fill_level_bounds b Hwf).
  destruct (publish_wr_wf b d n) as [Hwf' Hfill]; [done..|lia|].
  rewrite (free_level_eq b Hwf) in *.
  apply listz_eq.
  { rewrite lenz_app, !lenz_contents by done. lia. }
  rewrite lenz_contents by done. rewrite Hfill. intros i Hi.
  rewrite nthz_contents by (done || lia).
  change (rd_ptr (_cbuf_publish_wr (set_data b d) n)) with (rd_ptr b).
  change (size (_cbuf_publish_wr (set_data b d) n)) with (size b).
  change (data (_cbuf_publish_wr (set_data b d) n)) with d.
  pose proof (Z.mod_pos_bound (rd_ptr b + i) (size b) ltac:(lia)) as Hpos.
  destruct (Hdata _ Hpos) as [Hin Hout].
  assert (Hidx : wr_index b ((rd_ptr b + i) mod size b) = (i - cbuf_fill_level b) mod size b).
  { rewrite <- Zminus_mod_idemp_r, (wr_mod b Hwf), mod_diff by lia. f_equal. lia. }
  rewrite Hidx in *. rewrite nthz_app, lenz_contents by (done || lia).
  rewrite mod_once_neg in * by lia.
  destruct (Z.ltb_spec i (cbuf_fill_level b)).
  - rewrite nthz_contents by (done || lia). apply Hout. case_match; lia.
  - destruct (Z.ltb_spec (i - cbuf_fill_level b) 0); [lia|]. rewrite Hin by lia. done.
Qed.

Lemma publish_rd_contents b n :
  cbuf_wf b -> 0 <= n <= cbuf_fill_level b ->
  cbuf_contents (_cbuf_publish_rd b n) = drop (Z.to_nat n) (cbuf_contents b).
Proof.
  intros Hwf Hn. pose proof (size_bounds b Hwf). pose proof (fill_level_bounds b Hwf).
  destruct (publish_rd_wf b n) as (Hwf' & Hfill & Hrd); [done..|].
  apply listz_eq.
  { rewrite lenz_drop, !lenz_contents by (done || lia). lia. }
  rewrite lenz_contents by done. rewrite Hfill. intros i Hi.
  rewrite nthz_contents, nthz_drop, nthz_contents by (done || lia).
  change (data (_cbuf_publish_rd b n)) with (data b).
  change (size (_cbuf_publish_rd b n)) with (size b) in *.
  f_equal. rewrite <- Zplus_mod_idemp_l, Hrd, Zplus_mod_idemp_l. f_equal. lia.
Qed.

(** *** Copying into and out of the ring *)

Section ring.
Context (b : cbuf) (Hwf : cbuf_wf b).

Lemma wr_index_pos i :
  0 <= i < size b ->
  wr_index b i = if i <? wr_ptr b mod size b
                 then i - wr_ptr b mod size b + size b else i - wr_ptr b mod size b.
Proof.
  intros Hi. pose proof (size_bounds b Hwf).
  pose proof (Z.mod_pos_bound (wr_ptr b) (size b) ltac:(lia)).
  rewrite <- Zminus_mod_idemp_r, mod_once_neg by lia. repeat case_match; lia.
Qed.

(** [d'] is the data array with [src] put at the write pointer. *)
Definition written (src d' : list Z) : Prop :=
  lenz d' = size b /\
  forall i, 0 <= i < size b ->
    d' !z i = if wr_index b i <? lenz src then src !z (wr_index b i) else data b !z i.

Lemma store_contiguous src :
  wr_ptr b mod size b + lenz src <= size b ->
  exists d', store (data b) (wr_ptr b mod size b) src = Ret d' /\ written src d'.
Proof.
  intros Hc. pose proof (size_bounds b Hwf). pose proof (wf_data b Hwf) as Hlen.
  pose proof (Z.mod_pos_bound (wr_ptr b) (size b) ltac:(lia)). pose proof (lenz_nonneg src).
  destruct (store_spec (data b) (wr_ptr b mod size b) src) as (d' & -> & Hl & Hd); [lia..|].
  exists d'. split; [done|]. split; [lia|]. intros i Hi. rewrite Hd, wr_index_pos by lia.
  repeat case_match; try lia; f_equal; lia.
Qed.

Lemma store_split src n :
  let e := size b - wr_ptr b mod size b in
  e < n <= size b -> lenz src = n ->
  exists d1 d', store (data b) (wr_ptr b mod size b) (take (Z.to_nat e) src) = Ret d1 /\
    store d1 0 (drop (Z.to_nat e) src) = Ret d' /\ written src d'.
Proof.
  intros e He Hn. pose proof (size_bounds b Hwf). pose proof (wf_data b Hwf) as Hlen.
  pose proof (Z.mod_pos_bound (wr_ptr b) (size b) ltac:(lia)).
  assert (Ht : lenz (take (Z.to_nat e) src) = e) by (rewrite lenz_take; lia).
  assert (Hdr : lenz (drop (Z.to_nat e) src) = n - e) by (rewrite lenz_drop; lia).
  destruct (store_spec (data b) (wr_ptr b mod size b) (take (Z.to_nat e) src))
    as (d1 & Hs1 & Hl1 & Hd1); [lia..|].
  destruct (store_spec d1 0 (drop (Z.to_nat e) src)) as (d' & Hs & Hl & Hd); [lia..|].
  exists d1, d'. split_and!; [done..|]. split; [lia|]. intros i Hi.
  rewrite Hd, wr_index_pos, Hdr, Z.sub_0_r by lia.
  destruct (Z.leb_spec 0 i); [|lia]. simpl.
  destruct (Z.ltb_spec i (0 + (n - e))).
  - rewrite nthz_drop by lia. destruct (Z.ltb_spec i (wr_ptr b mod size b)); [|lia].
    case_match; [f_equal; lia|lia].
  - rewrite Hd1, Ht by lia.
    destruct (Z.leb_spec (wr_ptr b mod size b) i); simpl.
    + destruct (Z.ltb_spec i (wr_ptr b mod size b)); [lia|].
      repeat case_match; try lia. rewrite nthz_take by lia. done.
    + repeat case_match; try lia; done.
Qed.

(** The [n] oldest bytes, read contiguously or in two parts. *)
Lemma load_contiguous n :
  0 <= n <= cbuf_fill_level b -> rd_ptr b mod size b + n <= size b ->
  load (data b) (rd_ptr b mod size b) n = Ret (take (Z.to_nat n) (cbuf_contents b)).
Proof.
  intros Hn Hc. pose proof (size_bounds b Hwf). pose proof (wf_data b Hwf) as Hlen.
  pose proof (Z.mod_pos_bound (rd_ptr b) (size b) ltac:(lia)).
  destruct (load_spec (data b) (rd_ptr b mod size b) n) as (d & -> & Hl & Hd); [lia..|].
  f_equal. apply listz_eq.
  { rewrite lenz_take, lenz_contents by (done || lia). lia. }
  rewrite Hl. intros i Hi. rewrite Hd, nthz_take, nthz_contents by (done || lia). f_equal.
  rewrite <- Zplus_mod_idemp_l. symmetry. apply Z.mod_small. lia.
Qed.

Lemma load_split n :
  let e := size b - rd_ptr b mod size b in
  e < n <= cbuf_fill_level b ->
  exists p1 p2, load (data b) (rd_ptr b mod size b) e = Ret p1 /\
    load (data b) 0 (n - e) = Ret p2 /\ lenz p1 = e /\ lenz p2 = n - e /\
    p1 ++ p2 = take (Z.to_nat n) (cbuf_contents b).
Proof.
  intros e He. pose proof (size_bounds b Hwf). pose proof (wf_data b Hwf) as Hlen.
  pose proof (fill_level_bounds b Hwf).
  pose proof (Z.mod_pos_bound (rd_ptr b) (size b) ltac:(lia)).
  destruct (load_spec (data b) (rd_ptr b mod size b) e) as (p1 & Hd1 & Hl1 & Hp1); [lia..|].
  destruct (load_spec (data b) 0 (n - e)) as (p2 & Hd2 & Hl2 & Hp2); [lia..|].
  exists p1, p2. split_and!; [done..|]. apply listz_eq.
  { rewrite lenz_app, lenz_take, lenz_contents by (done || lia). lia. }
  rewrite lenz_app. intros i Hi.
  rewrite nthz_app, nthz_take, nthz_contents by (done || lia). rewrite Hl1.
  rewrite <- Zplus_mod_idemp_l, mod_once by lia.
  destruct (Z.ltb_spec i e); [rewrite Hp1 by lia|rewrite Hp2 by lia];
    case_match; try lia; f_equal; lia.
Qed.
End ring.

(** ** The operations refine a bounded queue *)

Lemma load_prefix d n : 0 <= n <= lenz d -> load d 0 n = Ret (take (Z.to_nat n) d).
Proof. intros. apply load_Ret. split_and!; try lia. done. Qed.

Lemma load_rest d e n :
  0 <= e -> e + n = lenz d -> 0 <= n -> load d e n = Ret (drop (Z.to_nat e) d).
Proof.
  intros. apply load_Ret. split_and!; try lia.
  rewrite take_ge; [done|]. rewrite length_drop. unfold lenz in *. lia.
Qed.

Lemma written_publish b src d' n :
  cbuf_wf b -> written b src d' -> 0 <= n <= lenz src -> lenz src <= cbuf_free_level b ->
  let b' := _cbuf_publish_wr (set_data b d') n in
  cbuf_wf b' /\ cbuf_contents b' = cbuf_contents b ++ take (Z.to_nat n) src.
Proof.
  intros Hwf [Hl Hd] Hn Hsrc. split; [by apply publish_wr_wf; [..|lia]|].
  apply publish_wr_contents; [done..| |lia|].
  - rewrite lenz_take; lia.
  - intros i Hi. pose proof (Z.mod_pos_bound (i - wr_ptr b) (size b) ltac:(lia)).
    rewrite Hd by done. split; intros.
    + rewrite nthz_take by lia. case_match; [done|lia].
    + case_match; [lia|done].
Qed.

(** [cbuf_write] puts the bytes at the write pointer before it publishes. *)
Lemma cbuf_write_data b d n :
  cbuf_wf b -> 0 <= n <= cbuf_free_level b -> n <= lenz d ->
  exists d', cbuf_write b d n = Ret (0, _cbuf_publish_wr (set_data b d') n) /\
    written b (take (Z.to_nat n) d) d'.
Proof.
  intros Hwf Hn Hd. pose proof (size_bounds b Hwf). pose proof (fill_level_bounds b Hwf).
  pose proof (free_level_eq b Hwf) as Hfree.
  pose proof (Z.mod_pos_bound (wr_ptr b) (size b) ltac:(lia)).
  set (src := take (Z.to_nat n) d).
  assert (Hsrc : lenz src = n) by (unfold src; rewrite lenz_take; lia).
  unfold cbuf_write. destruct (Z.ltb_spec (cbuf_free_level b) n); [lia|].
  rewrite mask_mod by done. rewrite u64_small by lia.
  destruct (Z.leb_spec (wr_ptr b mod size b + n) (size b)).
  - rewrite load_prefix by lia. fold src. rewrite bind_ret.
    destruct (store_contiguous b Hwf src) as (d' & -> & Hw); [lia|]. by exists d'.
  - rewrite u64_small by lia.
    destruct (store_split b Hwf src n) as (d1 & d' & Hs1 & Hs2 & Hw); [lia..|].
    rewrite load_prefix by lia. rewrite bind_ret.
    unfold src in Hs1. rewrite take_take, Nat.min_l in Hs1 by lia. rewrite Hs1, bind_ret.
    rewrite u64_small by lia.
    replace (load d (size b - wr_ptr b mod size b) (n - (size b - wr_ptr b mod size b)))
      with (Ret (drop (Z.to_nat (size b - wr_ptr b mod size b)) src)).
    2:{ symmetry. apply load_Ret. split_and!; try lia. unfold src.
        rewrite take_drop_commute. do 2 f_equal. lia. }
    rewrite bind_ret, Hs2, bind_ret. by exists d'.
Qed.

Lemma cbuf_write_fits b d n :
  cbuf_wf b -> 0 <= n <= cbuf_free_level b -> n <= lenz d ->
  exists b', cbuf_write b d n = Ret (0, b') /\ cbuf_wf b' /\ size b' = size b /\
    cbuf_contents b' = cbuf_contents b ++ take (Z.to_nat n) d.
Proof.
  intros Hwf Hn Hd. destruct (cbuf_write_data b d n) as (d' & -> & Hw); [done..|].
  destruct (written_publish b (take (Z.to_nat n) d) d' n) as [Hwf' Hc];
    [done|done|rewrite lenz_take; lia|rewrite lenz_take; lia|].
  eexists. split_and!; [done..|]. by rewrite Hc, take_take, Nat.min_id.
Qed.

Lemma log2_loop_spec fuel x a :
  0 < x < 2 ^ Z.of_nat fuel -> log2_loop fuel x a = a + Z.log2 x.
Proof.
  revert x a. induction fuel as [|f IH]; intros x a Hx; [simpl in Hx; lia|].
  rewrite Nat2Z.inj_succ, Z.pow_succ_r in Hx by lia. simpl.
  rewrite <- Z.div2_spec. destruct (decide (x = 1)) as [->|Hne]; [simpl; lia|].
  assert (Hd : Z.div2 x = x / 2) by apply Z.div2_div.
  destruct (Z.eqb_spec (Z.div2 x) 0); [zdm|].
  rewrite IH by zdm. enough (Z.log2 x = Z.succ (Z.log2 (Z.div2 x))) by lia.
  rewrite Hd. pose proof (Z.log2_spec (x / 2) ltac:(zdm)) as Hl.
  pose proof (Z.log2_nonneg (x / 2)). rewrite Z.pow_succ_r in Hl by lia.
  apply Z.log2_unique; [lia|]. rewrite !Z.pow_succ_r by lia. zdm.
Qed.

Lemma calc_bufsize_spec req max :
  1 <= req < 2 ^ 30 ->
  _cbuf_calc_bufsize req max = Ret (Z.min (2 ^ (Z.log2 req + 1)) max) /\
  req < 2 ^ (Z.log2 req + 1) <= 2 * req.
Proof.
  intros Hr. pose proof (Z.log2_spec req ltac:(lia)) as Hl. pose proof (Z.log2_nonneg req).
  rewrite Z.pow_succ_r in Hl by lia. split; [|rewrite Z.pow_add_r, Z.pow_1_r by lia; lia].
  unfold _cbuf_calc_bufsize. rewrite log2_loop_spec by (simpl; lia).
  assert (Z.log2 req < 30) by (apply Z.log2_lt_pow2; lia).
  destruct (Z.leb_spec 31 (0 + Z.log2 req + 1)); [lia|]. rewrite bind_ret.
  rewrite Z.shiftl_mul_pow2, Z.mul_1_l, Z.add_0_l by lia. f_equal. case_match; lia.
Qed.

(** Changing a temporary block or a hint leaves the queue as it is. *)
Lemma set_write_tmp_wf b n t :
  cbuf_wf b -> tmp_wf t n -> cbuf_wf (set_write_tmp b n t).
Proof. by intros [] ?. Qed.

Lemma set_read_tmp_wf b n t :
  cbuf_wf b -> tmp_wf t n -> cbuf_wf (set_read_tmp b n t).
Proof. by intros [] ?. Qed.

Lemma realloc_some t n : 0 <= n -> exists l, realloc true t n = Some l /\ lenz l = n.
Proof.
  intros Hn. unfold realloc. eexists. split; [done|]. rewrite lenz_take, lenz_app by done.
  unfold zeros. pose proof (lenz_nonneg (default [] t)).
  unfold lenz at 2. rewrite length_replicate. lia.
Qed.

(** The block a reservation or a peek of [n] bytes uses is big enough. *)
Lemma tmp_size_ok b n h :
  cbuf_wf b -> 0 <= h < 2 ^ 64 -> 1 <= n <= size b ->
  exists k, (if n <=? h then Ret h else _cbuf_calc_bufsize n (size b)) = Ret k /\ n <= k.
Proof.
  intros Hwf Hh Hn. pose proof (size_bounds b Hwf).
  destruct (Z.leb_spec n h); [eauto|].
  destruct (calc_bufsize_spec n (size b)) as [-> ?]; [lia|]. eexists. split; [done|]. lia.
Qed.

(** What [cbuf_reserve] promises about the pointer it hands out. *)
Definition reserved (b1 : cbuf) (p : ptr) (n : Z) : Prop :=
  (wr_ptr b1 mod size b1 + n <= size b1 /\ p = PData (wr_ptr b1 mod size b1)) \/
  (size b1 < wr_ptr b1 mod size b1 + n /\ p = PWriteTmp /\
   exists t, write_data_tmp b1 = Some t /\ n <= lenz t).

Lemma cbuf_reserve_fits b n :
  cbuf_wf b -> 0 <= n <= cbuf_free_level b ->
  exists p b1, cbuf_reserve true b n = Ret (0, Some p, b1) /\ cbuf_wf b1 /\
    size b1 = size b /\ cbuf_contents b1 = cbuf_contents b /\ reserved b1 p n.
Proof.
  intros Hwf Hn. pose proof (size_bounds b Hwf). pose proof (fill_level_bounds b Hwf).
  pose proof (free_level_eq b Hwf) as Hfree.
  pose proof (Z.mod_pos_bound (wr_ptr b) (size b) ltac:(lia)).
  unfold cbuf_reserve. destruct (Z.ltb_spec (cbuf_free_level b) n); [lia|].
  rewrite mask_mod by done. rewrite u64_small by lia.
  destruct (Z.leb_spec (wr_ptr b mod size b + n) (size b)).
  { eexists _, b. split_and!; [done..|]. by left. }
  destruct (Z.ltb_spec (write_data_tmp_size b) n).
  - destruct (tmp_size_ok b n (hint_max_write_size b)) as (k & -> & Hk);
      [done|apply (wf_hints b Hwf)|lia|].
    rewrite bind_ret. destruct (realloc_some (write_data_tmp b) k) as (t & -> & Ht); [lia|].
    simpl. eexists _, _. split; [done|]. split_and!; [by apply set_write_tmp_wf|done..|].
    right. split_and!; [done..|]. exists t. split; [done|]. lia.
  - pose proof (wf_write_tmp b Hwf) as Hw. unfold tmp_wf in Hw.
    destruct (write_data_tmp b) as [t|] eqn:Ht; [|lia].
    eexists _, b. split_and!; [done..|]. right. eauto with lia.
Qed.

(** Bytes put beyond the write pointer are not in the queue until published. *)
Lemma written_contents b src d' :
  cbuf_wf b -> written b src d' -> lenz src <= cbuf_free_level b ->
  cbuf_wf (set_data b d') /\ cbuf_contents (set_data b d') = cbuf_contents b.
Proof.
  intros Hwf [Hl Hd] Hsrc. pose proof (size_bounds b Hwf).
  pose proof (free_level_eq b Hwf). pose proof (fill_level_bounds b Hwf).
  assert (Hwf' : cbuf_wf (set_data b d')) by (destruct Hwf; by constructor).
  split; [done|]. apply listz_eq; [by rewrite !lenz_contents by done|].
  rewrite lenz_contents by done. intros i Hi.
  change (cbuf_fill_level (set_data b d')) with (cbuf_fill_level b) in Hi.
  rewrite !nthz_contents by done. simpl.
  pose proof (Z.mod_pos_bound (rd_ptr b + i) (size b) ltac:(lia)) as Hpos. rewrite Hd by done.
  rewrite <- Zminus_mod_idemp_r, (wr_mod b Hwf), mod_diff, mod_once_neg by lia.
  repeat case_match; try lia; done.
Qed.

Section commit.
Context (b : cbuf) (n n' : Z) (d : list Z) (Hwf : cbuf_wf b).
Context (Hn : 0 <= n <= cbuf_free_level b) (Hd : lenz d <= n) (Hn' : 0 <= n' <= lenz d).

(** The pointer leads into the array itself. *)
Lemma commit_data :
  wr_ptr b mod size b + n <= size b ->
  exists b2 b3, api_fill b (PData (wr_ptr b mod size b)) d = Ret b2 /\
    cbuf_commit b2 (PData (wr_ptr b mod size b)) n' = Ret (0, b3) /\
    cbuf_wf b3 /\ size b3 = size b /\
    cbuf_contents b3 = cbuf_contents b ++ take (Z.to_nat n') d.
Proof.
  intros Hc. destruct (store_contiguous b Hwf d) as (d' & Hs & Hw); [lia|].
  simpl. rewrite Hs, bind_ret. eexists. unfold cbuf_commit.
  destruct (Z.eqb_spec n' 0) as [->|].
  - destruct (written_contents b d d') as [Hwf' Hct]; [done..|lia|].
    eexists. split_and!; [done..|]. by rewrite Hct, app_nil_r.
  - destruct (written_publish b d d' n') as [Hwf' Hct]; [done..|lia|].
    simpl. eexists. split_and!; [done..|]. exact Hct.
Qed.

(** The pointer leads to the temporary block [t]; [t'] is its contents. *)
Context (t : list Z) (Ht : write_data_tmp b = Some t) (Htn : n <= lenz t).
Context (Hc : size b < wr_ptr b mod size b + n).
Local Abbreviation e := (size b - wr_ptr b mod size b).

Lemma fill_tmp_ok :
  exists t', api_fill b PWriteTmp d = Ret (set_write_tmp b (write_data_tmp_size b) (Some t')) /\
    lenz t' = lenz t /\ take (Z.to_nat n') t' = take (Z.to_nat n') d /\
    cbuf_wf (set_write_tmp b (write_data_tmp_size b) (Some t')).
Proof using Hwf Hd Hn' Ht Htn.
  destruct (store_spec t 0 d) as (t' & Hst & Hlt & Ht'); [lia..|].
  exists t'. simpl. rewrite Ht. simpl. rewrite Hst. split_and!; [done|done|..].
  - apply listz_eq; [rewrite !lenz_take by lia; lia|]. rewrite lenz_take by lia. intros i Hi.
    rewrite !nthz_take, Ht' by lia. rewrite Z.sub_0_r.
    destruct (Z.leb_spec 0 i), (Z.ltb_spec i (0 + lenz d)); [done|lia..].
  - apply set_write_tmp_wf; [done|]. simpl. pose proof (wf_write_tmp b Hwf) as Hw.
    rewrite Ht in Hw. simpl in Hw. lia.
Qed.

(** The copy of [cbuf_commit] puts the bytes it takes at the write pointer. *)
Lemma copy_tmp_ok t' :
  lenz t' = lenz t -> 0 < n' ->
  exists d', (let b2 := set_write_tmp b (write_data_tmp_size b) (Some t') in
              cbuf_commit b2 PWriteTmp n' = Ret (0, _cbuf_publish_wr (set_data b2 d') n')) /\
    written b (take (Z.to_nat (Z.max e n')) t') d'.
Proof using Hwf Hn Hd Hn' Htn Hc.
  intros Hl Hpos. pose proof (size_bounds b Hwf). pose proof (fill_level_bounds b Hwf).
  pose proof (free_level_eq b Hwf) as Hfree.
  pose proof (Z.mod_pos_bound (wr_ptr b) (size b) ltac:(lia)).
  unfold cbuf_commit. destruct (Z.eqb_spec n' 0); [lia|]. simpl.
  rewrite mask_mod by done. rewrite (u64_small (size b - _)) by lia.
  rewrite load_prefix by lia. rewrite bind_ret. destruct (Z.ltb_spec e n').
  - rewrite Z.max_r by lia.
    destruct (store_split b Hwf (take (Z.to_nat n') t') n') as (d1 & d' & Hs1 & Hs2 & Hw);
      [lia|rewrite lenz_take; lia|].
    exists d'. split; [|done]. rewrite take_take, Nat.min_l in Hs1 by lia.
    rewrite Hs1, bind_ret, u64_small by lia.
    replace (load t' e (n' - e)) with (Ret (drop (Z.to_nat e) (take (Z.to_nat n') t'))).
    2:{ symmetry. apply load_Ret. split_and!; try lia. rewrite take_drop_commute. do 2 f_equal. lia. }
    by rewrite bind_ret, Hs2, bind_ret.
  - rewrite Z.max_l by lia.
    destruct (store_contiguous b Hwf (take (Z.to_nat e) t')) as (d' & Hs & Hw);
      [rewrite lenz_take; lia|].
    exists d'. by rewrite Hs, !bind_ret.
Qed.

Lemma commit_tmp :
  exists b2 b3, api_fill b PWriteTmp d = Ret b2 /\
    cbuf_commit b2 PWriteTmp n' = Ret (0, b3) /\
    cbuf_wf b3 /\ size b3 = size b /\
    cbuf_contents b3 = cbuf_contents b ++ take (Z.to_nat n') d.
Proof using Hwf Hn Hd Hn' Ht Htn Hc.
  destruct fill_tmp_ok as (t' & Hfill & Hl & Hpre & Hwf2).
  eexists. rewrite Hfill. destruct (decide (n' = 0)) as [->|].
  { eexists. split_and!; [done..|]. simpl. by rewrite app_nil_r. }
  destruct (copy_tmp_ok t') as (d' & -> & Hw); [done|lia|].
  pose proof (free_level_eq b Hwf) as Hfree. pose proof (fill_level_bounds b Hwf).
  set (b2 := set_write_tmp b (write_data_tmp_size b) (Some t')) in *.
  destruct (written_publish b2 (take (Z.to_nat (Z.max e n')) t') d' n') as [Hwf3 Hct];
    [done|exact Hw|rewrite lenz_take; lia| |].
  { rewrite lenz_take by lia. change (cbuf_free_level b2) with (cbuf_free_level b). lia. }
  eexists. split_and!; [done|done|exact Hwf3|done|]. etrans; [exact Hct|].
  by rewrite take_take, Nat.min_l, Hpre by lia.
Qed.
End commit.

Lemma commit_fits b p n d n' :
  cbuf_wf b -> reserved b p n -> 0 <= n <= cbuf_free_level b -> lenz d <= n ->
  0 <= n' <= lenz d ->
  exists b2 b3, api_fill b p d = Ret b2 /\ cbuf_commit b2 p n' = Ret (0, b3) /\
    cbuf_wf b3 /\ size b3 = size b /\
    cbuf_contents b3 = cbuf_contents b ++ take (Z.to_nat n') d.
Proof.
  intros Hwf [[Hc ->]|(Hc & -> & t & Ht & Htn)] Hn Hd Hn'.
  - by apply commit_data with n.
  - by apply commit_tmp with n t.
Qed.

Lemma size_to_end_small b :
  cbuf_wf b -> s32 (u64 (size b - rd_ptr b mod size b)) = size b - rd_ptr b mod size b.
Proof.
  intros Hwf. pose proof (size_bounds b Hwf).
  pose proof (Z.mod_pos_bound (rd_ptr b) (size b) ltac:(lia)). apply s32_u64. lia.
Qed.

Lemma cbuf_read_fits b n :
  cbuf_wf b -> 0 <= n <= cbuf_fill_level b ->
  exists b', cbuf_read b n = Ret (0, take (Z.to_nat n) (cbuf_contents b), b') /\
    cbuf_wf b' /\ size b' = size b /\ cbuf_contents b' = drop (Z.to_nat n) (cbuf_contents b).
Proof.
  intros Hwf Hn. pose proof (size_bounds b Hwf). pose proof (fill_level_bounds b Hwf).
  pose proof (Z.mod_pos_bound (rd_ptr b) (size b) ltac:(lia)).
  destruct (publish_rd_wf b n) as (Hwf' & _ & _); [done..|].
  pose proof (publish_rd_contents b n Hwf Hn) as Hct.
  unfold cbuf_read. destruct (Z.eqb_spec n 0) as [->|]; [by exists b|].
  destruct (Z.ltb_spec (cbuf_fill_level b) n); [lia|].
  rewrite mask_mod by done. rewrite u64_small by lia.
  destruct (Z.leb_spec (rd_ptr b mod size b + n) (size b)).
  - rewrite load_contiguous by (done || lia). rewrite bind_ret. eauto.
  - rewrite size_to_end_small, !u64_small by (done || lia).
    destruct (load_split b Hwf n) as (p1 & p2 & -> & Hp2 & _ & _ & Hp); [lia|].
    rewrite bind_ret, Hp2, !bind_ret, Hp. eauto.
Qed.

Lemma peek_copy_ok b n t :
  cbuf_wf b -> read_data_tmp b = Some t -> n <= lenz t ->
  size b - rd_ptr b mod size b < n <= cbuf_fill_level b ->
  exists t', _cbuf_peek_copy b n =
      Ret (0, Some PReadTmp, set_read_tmp b (read_data_tmp_size b) (Some t')) /\
    lenz t' = lenz t /\ load t' 0 n = Ret (take (Z.to_nat n) (cbuf_contents b)).
Proof.
  intros Hwf Ht Htn Hn. pose proof (size_bounds b Hwf). pose proof (fill_level_bounds b Hwf).
  pose proof (Z.mod_pos_bound (rd_ptr b) (size b) ltac:(lia)).
  destruct (load_split b Hwf n) as (p1 & p2 & Hp1 & Hp2 & Hl1 & Hl2 & Hp); [lia|].
  destruct (store_spec t 0 p1) as (t1 & Hs1 & Ht1 & Hn1); [lia..|].
  destruct (store_spec t1 (size b - rd_ptr b mod size b) p2) as (t2 & Hs2 & Ht2 & Hn2); [lia..|].
  exists t2. unfold _cbuf_peek_copy. rewrite mask_mod, size_to_end_small, !u64_small by (done || lia).
  rewrite Hp1, bind_ret, Ht. simpl store_tmp. rewrite Hs1. simpl fmap. rewrite bind_ret, Hp2, bind_ret.
  simpl. rewrite Hs2. simpl. split_and!; [done|lia|].
  rewrite load_prefix by lia. f_equal. rewrite <- Hp.
  apply listz_eq; rewrite lenz_take, ?lenz_app by lia; [lia|].
  intros i Hi. rewrite nthz_take, nthz_app, Hn2, Hn1, Hl1, Hl2 by lia. rewrite Z.sub_0_r.
  destruct (Z.leb_spec 0 i); [|lia].
  repeat match goal with |- context [?x <=? ?y] => destruct (Z.leb_spec x y)
                       | |- context [?x <? ?y] => destruct (Z.ltb_spec x y) end;
    simpl; try lia; done.
Qed.

Lemma cbuf_peek_fits b n :
  cbuf_wf b -> 0 < n <= cbuf_fill_level b ->
  exists p b1, cbuf_peek true b n = Ret (0, Some p, b1) /\ cbuf_wf b1 /\ size b1 = size b /\
    cbuf_contents b1 = cbuf_contents b /\
    api_fetch b1 p n = Ret (take (Z.to_nat n) (cbuf_contents b)).
Proof.
  intros Hwf Hn. pose proof (size_bounds b Hwf). pose proof (fill_level_bounds b Hwf).
  pose proof (Z.mod_pos_bound (rd_ptr b) (size b) ltac:(lia)).
  unfold cbuf_peek. destruct (Z.eqb_spec n 0); [lia|].
  destruct (Z.ltb_spec (cbuf_fill_level b) n); [lia|].
  rewrite mask_mod by done. rewrite u64_small by lia.
  destruct (Z.leb_spec (rd_ptr b mod size b + n) (size b)).
  { eexists _, b. split_and!; [done..|]. by apply load_contiguous; [|lia|]. }
  destruct (Z.ltb_spec (read_data_tmp_size b) n).
  - destruct (tmp_size_ok b n (hint_max_read_size b)) as (k & -> & Hk);
      [done|apply (wf_hints b Hwf)|lia|].
    rewrite bind_ret. destruct (realloc_some (read_data_tmp b) k) as (t & -> & Ht); [lia|].
    assert (Hwf1 : cbuf_wf (set_read_tmp b k (Some t))) by by apply set_read_tmp_wf.
    destruct (peek_copy_ok (set_read_tmp b k (Some t)) n t) as (t' & Hc & Hl & Hld);
      [done|done|lia|change (size b - rd_ptr b mod size b < n <= cbuf_fill_level b); lia|].
    simpl read_data_tmp. cbv beta match. rewrite Hc. eexists _, _. split_and!; [done| |done..].
    apply set_read_tmp_wf; [done|]. simpl. lia.
  - pose proof (wf_read_tmp b Hwf) as Hw. destruct (read_data_tmp b) as [t|] eqn:Ht; simpl in Hw; [|lia].
    destruct (peek_copy_ok b n t) as (t' & Hc & Hl & Hld); [done|done|lia|lia|].
    rewrite Hc. eexists _, _. split_and!; [done| |done..].
    apply set_read_tmp_wf; [done|]. simpl. lia.
Qed.

Lemma cbuf_discard_fits b n :
  cbuf_wf b -> 0 <= n <= cbuf_fill_level b ->
  exists b', cbuf_discard b n = (0, b') /\ cbuf_wf b' /\ size b' = size b /\
    cbuf_contents b' = drop (Z.to_nat n) (cbuf_contents b).
Proof.
  intros Hwf Hn. unfold cbuf_discard. destruct (Z.ltb_spec (cbuf_fill_level b) n); [lia|].
  destruct (publish_rd_wf b n) as (Hwf' & _ & _); [done..|].
  eexists. split_and!; [done..|]. by apply publish_rd_contents.
Qed.

(** A power of two is what the assertion of [cbuf_init] tests for. *)
Lemma init_assert n k : 0 <= k < 64 -> n = 2 ^ k -> n &&& u64 (n - 1) = 0.
Proof.
  intros Hk ->. rewrite u64_small.
  2:{ pose proof (pow2_pos k). pose proof (pow2_mono k 63). lia. }
  rewrite land_pow2_mask by lia. apply Z.mod_same. pose proof (pow2_pos k). lia.
Qed.

Lemma cbuf_init_ok k :
  0 <= k <= CBUF_MAX_LOG2 ->
  exists b, cbuf_init true true (2 ^ k) = Ret (0, Some b) /\ cbuf_wf b /\
    size b = 2 ^ k /\ cbuf_contents b = [].
Proof.
  unfold CBUF_MAX_LOG2. intros Hk. unfold cbuf_init. pose proof (pow2_pos k).
  rewrite (init_assert _ k), c_assert_true by (lia || (destruct (Z.eqb_spec (2 ^ k) 0); [lia|done])).
  rewrite bind_ret. simpl. eexists. split; [done|].
  match goal with |- cbuf_wf ?b /\ _ => assert (Hwf : cbuf_wf b) end.
  { constructor; simpl; try done; try lia.
    - exists k. unfold CBUF_MAX_LOG2. split; [lia|done].
    - apply lenz_zeros. lia.
    - rewrite Z.mod_0_l; lia. }
  split_and!; [done..|]. apply listz_eq; [|intros i; rewrite lenz_contents by done].
  - rewrite lenz_contents, fill_level_mod by done. done.
  - rewrite fill_level_mod by done. simpl. rewrite Z.mod_0_l; lia.
Qed.

(** ** Correctness of the circular buffer *)

(** A buffer of eight bytes holding 6, 7, 8, 9 around the end of its array. *)
Definition demo_cbuf : cbuf :=
  MkCbuf 10 6 8 [8; 9; 0; 0; 0; 0; 6; 7] 0 0 None 0 0 None false 0.

Lemma demo_cbuf_wf : cbuf_wf demo_cbuf.
Proof. constructor; simpl; try done; try lia. exists 3. done. Qed.

(** C1: [cbuf_write] appends the first [size] bytes of its argument to the
    queue when they fit, touches no byte outside the array, and keeps the buffer
    well-formed; when they do not fit it returns -EINVAL and changes nothing. *)
Theorem cbuf_write_correct (b : cbuf) (d : list Z) (n : Z) :
  cbuf_wf b -> 0 <= n <= lenz d ->
  (n <= size b - lenz (cbuf_contents b) ->
   exists b', cbuf_write b d n = Ret (0, b') /\ cbuf_wf b' /\ size b' = size b /\
     cbuf_contents b' = cbuf_contents b ++ take (Z.to_nat n) d) /\
  (size b - lenz (cbuf_contents b) < n -> cbuf_write b d n = Ret (- EINVAL, b)).
Proof.
  intros Hwf Hn. rewrite lenz_contents by done. pose proof (free_level_eq b Hwf).
  split; intros Hfit; [apply cbuf_write_fits; [done|lia..]|].
  unfold cbuf_write. by destruct (Z.ltb_spec (cbuf_free_level b) n); [|lia].
Qed.

Lemma cbuf_write_correct_witness :
  exists b', cbuf_write demo_cbuf [1; 2; 3] 3 = Ret (0, b') /\ cbuf_wf b' /\ size b' = 8 /\
    cbuf_contents b' = [6; 7; 8; 9; 1; 2; 3].
Proof.
  apply (cbuf_write_correct demo_cbuf [1; 2; 3] 3); [apply demo_cbuf_wf|zcompute..].
Defined.

(** A reservation of [n] free bytes hands out a pointer; when the caller
    fills [d] through it and commits [n'] of those bytes, the queue grows by
    exactly these [n'] bytes, also when the reservation wraps around the end of
    the array and when fewer bytes are committed than were reserved. *)
Theorem cbuf_reserve_commit_correct (b : cbuf) (n n' : Z) (d : list Z) :
  cbuf_wf b -> 0 <= n <= size b - lenz (cbuf_contents b) -> lenz d <= n -> 0 <= n' <= lenz d ->
  exists p b1 b2 b3,
    cbuf_reserve true b n = Ret (0, Some p, b1) /\ cbuf_contents b1 = cbuf_contents b /\
    api_fill b1 p d = Ret b2 /\ cbuf_commit b2 p n' = Ret (0, b3) /\
    cbuf_wf b3 /\ size b3 = size b /\
    cbuf_contents b3 = cbuf_contents b ++ take (Z.to_nat n') d.
Proof.
  intros Hwf Hn Hd Hn'. rewrite lenz_contents in Hn by done. pose proof (free_level_eq b Hwf).
  destruct (cbuf_reserve_fits b n) as (p & b1 & Hr & Hwf1 & Hs & Hc & Hres); [done|lia|].
  destruct (commit_fits b1 p n d n') as (b2 & b3 & ? & ? & ? & Hs3 & Hc3); [done..| |done|done|].
  { rewrite free_level_eq, <- lenz_contents, Hc, lenz_contents, Hs by done. lia. }
  rewrite Hc in Hc3. rewrite Hs in Hs3. eauto 12.
Qed.

Lemma cbuf_reserve_commit_correct_witness :
  exists p b1 b2 b3,
    cbuf_reserve true demo_cbuf 3 = Ret (0, Some p, b1) /\
    api_fill b1 p [1; 2; 3] = Ret b2 /\ cbuf_commit b2 p 2 = Ret (0, b3) /\
    cbuf_contents b3 = [6; 7; 8; 9; 1; 2].
Proof.
  destruct (cbuf_reserve_commit_correct demo_cbuf 3 2 [1; 2; 3])
    as (p & b1 & b2 & b3 & ? & ? & ? & ? & ? & ? & Hc);
    [apply demo_cbuf_wf|zcompute..|].
  exists p, b1, b2, b3. split_and!; [done..|]. rewrite Hc. reflexivity.
Defined.

(** C2: [cbuf_read] returns the oldest [n] bytes and removes exactly them when
    the queue holds that many, and otherwise returns -EINVAL and changes
    nothing. *)
Theorem cbuf_read_correct (b : cbuf) (n : Z) :
  cbuf_wf b -> 0 <= n ->
  (n <= lenz (cbuf_contents b) ->
   exists b', cbuf_read b n = Ret (0, take (Z.to_nat n) (cbuf_contents b), b') /\
     cbuf_wf b' /\ size b' = size b /\ cbuf_contents b' = drop (Z.to_nat n) (cbuf_contents b)) /\
  (lenz (cbuf_contents b) < n -> cbuf_read b n = Ret (- EINVAL, [], b)).
Proof.
  intros Hwf Hn. rewrite lenz_contents by done. pose proof (fill_level_bounds b Hwf).
  split; intros Hfit; [apply cbuf_read_fits; [done|lia]|].
  unfold cbuf_read. destruct (Z.eqb_spec n 0); [lia|].
  by destruct (Z.ltb_spec (cbuf_fill_level b) n); [|lia].
Qed.

Lemma cbuf_read_correct_witness :
  exists b', cbuf_read demo_cbuf 3 = Ret (0, [6; 7; 8], b') /\ cbuf_wf b' /\ size b' = 8 /\
    cbuf_contents b' = [9].
Proof. apply (cbuf_read_correct demo_cbuf 3); [apply demo_cbuf_wf|zcompute..]. Defined.

(** [cbuf_peek] hands out a pointer to the oldest [n] bytes, contiguous in
    memory even when they wrap around in the array, without removing them;
    [cbuf_discard] of any [m] of them then removes exactly the [m] oldest. *)
Theorem cbuf_peek_discard_correct (b : cbuf) (n m : Z) :
  cbuf_wf b -> 0 < n <= lenz (cbuf_contents b) -> 0 <= m <= n ->
  exists p b1 b2, cbuf_peek true b n = Ret (0, Some p, b1) /\
    api_fetch b1 p n = Ret (take (Z.to_nat n) (cbuf_contents b)) /\
    cbuf_contents b1 = cbuf_contents b /\
    cbuf_discard b1 m = (0, b2) /\ cbuf_wf b2 /\ size b2 = size b /\
    cbuf_contents b2 = drop (Z.to_nat m) (cbuf_contents b).
Proof.
  intros Hwf Hn Hm. rewrite lenz_contents in Hn by done.
  destruct (cbuf_peek_fits b n) as (p & b1 & Hp & Hwf1 & Hs & Hc & Hf); [done..|].
  destruct (cbuf_discard_fits b1 m) as (b2 & ? & ? & Hs2 & Hc2); [done| |].
  { rewrite <- lenz_contents, Hc, lenz_contents by done. lia. }
  rewrite Hc in Hc2. rewrite Hs in Hs2. eauto 12.
Qed.

Lemma cbuf_peek_discard_correct_witness :
  exists p b1 b2, cbuf_peek true demo_cbuf 4 = Ret (0, Some p, b1) /\
    api_fetch b1 p 4 = Ret [6; 7; 8; 9] /\ cbuf_contents b1 = [6; 7; 8; 9] /\
    cbuf_discard b1 1 = (0, b2) /\ cbuf_wf b2 /\ size b2 = 8 /\ cbuf_contents b2 = [7; 8; 9].
Proof.
  apply (cbuf_peek_discard_correct demo_cbuf 4 1); [apply demo_cbuf_wf|zcompute..].
Defined.

(** The queue [cbuf_init] builds is empty and well-formed for every power of
    two up to 2^29; the levels the buffer reports are those of the queue, and
    "empty" and "full" are told apart although both have equal array positions. *)
Theorem cbuf_levels_correct (b : cbuf) (k : Z) :
  cbuf_wf b -> 0 <= k <= CBUF_MAX_LOG2 ->
  (exists b0, cbuf_init true true (2 ^ k) = Ret (0, Some b0) /\ cbuf_wf b0 /\
     size b0 = 2 ^ k /\ cbuf_contents b0 = []) /\
  cbuf_fill_level b = lenz (cbuf_contents b) /\
  cbuf_free_level b = size b - lenz (cbuf_contents b) /\
  (cbuf_is_empty b = true <-> cbuf_contents b = []) /\
  (cbuf_is_full b = true <-> lenz (cbuf_contents b) = cbuf_size b).
Proof.
  intros Hwf Hk. split; [by apply cbuf_init_ok|].
  pose proof (lenz_contents b Hwf) as Hl. rewrite Hl, free_level_eq by done.
  rewrite is_empty_iff, is_full_iff, <- fill_level_mod by done. split_and!; [done..| |].
  - rewrite Z.eqb_eq, <- Hl. split; [|by intros ->]. unfold lenz.
    intros H0. apply length_zero_iff_nil. lia.
  - apply Z.eqb_eq.
Qed.

Lemma cbuf_levels_correct_witness :
  cbuf_fill_level demo_cbuf = 4 /\ (cbuf_is_full demo_cbuf = true <-> 4 = 8).
Proof.
  destruct (cbuf_levels_correct demo_cbuf 3) as (_ & H & _ & _ & Hf);
    [apply demo_cbuf_wf|zcompute|]. split; [exact H|exact Hf].
Defined.

(** Once an allocation for a wrapping reservation has failed, the recorded
    size of the temporary block no longer matches the block, which is gone: the
    next reservation of the same size reports success and hands out a null
    pointer, and filling it is an access through null. *)
Theorem cbuf_reserve_after_failed_realloc (b b1 : cbuf) (n : Z) (d : list Z) :
  cbuf_wf b -> 0 < n <= size b - lenz (cbuf_contents b) ->
  cbuf_reserve false b n = Ret (- ENOMEM, None, b1) ->
  cbuf_reserve true b1 n = Ret (0, Some PNull, b1) /\ api_fill b1 PNull d = Fault NullDeref.
Proof.
  intros Hwf Hn Hr. split; [|done]. rewrite lenz_contents in Hn by done.
  pose proof (free_level_eq b Hwf) as Hfree. pose proof (size_bounds b Hwf).
  pose proof (fill_level_bounds b Hwf). unfold cbuf_reserve in Hr.
  destruct (Z.ltb_spec (cbuf_free_level b) n); [lia|].
  destruct (Z.leb_spec (u64 ((wr_ptr b &&& u64 (size b - 1)) + n)) (size b)) as [|Hwrap]; [done|].
  destruct (Z.ltb_spec (write_data_tmp_size b) n); [|done].
  destruct (tmp_size_ok b n (hint_max_write_size b)) as (k & Hk & Hkn);
    [done|apply (wf_hints b Hwf)|lia|].
  rewrite Hk, bind_ret in Hr. simpl in Hr. injection Hr as <-. unfold cbuf_reserve.
  change (cbuf_free_level (set_write_tmp b k None)) with (cbuf_free_level b). simpl.
  destruct (Z.ltb_spec (cbuf_free_level b) n); [lia|].
  destruct (Z.leb_spec (u64 ((wr_ptr b &&& u64 (size b - 1)) + n)) (size b)); [lia|].
  by destruct (Z.ltb_spec k n); [lia|].
Qed.

Lemma cbuf_reserve_after_failed_realloc_witness :
  let b := set_rd_ptr (set_wr_ptr demo_cbuf 6) 6 in
  let b1 := set_write_tmp b 8 None in
  cbuf_reserve false b 4 = Ret (- ENOMEM, None, b1) /\
  cbuf_reserve true b1 4 = Ret (0, Some PNull, b1).
Proof.
  intros b b1. split; [reflexivity|].
  apply (cbuf_reserve_after_failed_realloc b b1 4 [1]); [|zcompute|reflexivity].
  constructor; simpl; try done; try lia. exists 3. done.
Defined.

(** ** cbuf.c implements the interface of Fifo.v *)

#[export] Instance cbuf_fifo : ByteFifo cbuf := {
  fifo_size := cbuf_size;
  fifo_fill_level := cbuf_fill_level;
  fifo_free_level := cbuf_free_level;
  fifo_write := cbuf_write;
  fifo_read := cbuf_read;
  fifo_discard := cbuf_discard;
  fifo_cancel_waits := cancel_waits;
  fifo_wait_for_level_change := cbuf_wait_for_level_change;
  fifo_timedwait_for_level_change := cbuf_timedwait_for_level_change;
  fifo_wf := cbuf_wf;
  fifo_contents := cbuf_contents
}.

Lemma cbuf_write_cancel_waits b d n rv b' :
  cbuf_write b d n = Ret (rv, b') -> cancel_waits b' = cancel_waits b.
Proof.
  unfold cbuf_write. destruct (_ <? _); [by intros [= _ <-]|].
  intros (d' & _ & [= _ <-])%bind_Ret_inv. done.
Qed.

#[export] Instance cbuf_fifo_laws : FifoLaws cbuf.
Proof.
  split; simpl; intros b; intros; try (pose proof (fill_level_bounds b ltac:(done))).
  - by apply size_bounds.
  - by rewrite lenz_contents.
  - by rewrite lenz_contents, free_level_eq.
  - rewrite lenz_contents by done. unfold cbuf_size. lia.
  - apply cbuf_write_fits; [done|lia..].
  - by eapply cbuf_write_cancel_waits.
  - unfold cbuf_write. destruct (Z.ltb_spec (cbuf_free_level b) n); [done|lia].
  - by apply cbuf_read_fits.
  - unfold cbuf_read. destruct (Z.eqb_spec n 0); [lia|].
    by destruct (Z.ltb_spec (cbuf_fill_level b) n); [|lia].
  - by apply cbuf_discard_fits.
  - done.
  - done.
Qed.
