(* ===== verification/CbufConc.v ===== *)
(** * One writer and one reader of the circular buffer, interleaved

    cbuf.c is used by one thread that writes and one that reads, without a lock
    around the data: [cbuf_write] and [cbuf_read] look at the other side's
    pointer twice (once in [cbuf_is_full], once for the level), copy bytes with
    [memcpy] while the other side runs, and only the update of the own pointer
    is a critical section.  Here every one of these accesses is a step of its
    own.  [memcpy] copies its bytes in an order it does not promise, so a copy
    step may take any byte that is still missing.  Steps are sequentially
    consistent. *)

From stdpp Require Import relations.
From S2P Require Import Prelude.
From S2P Require Import Cbuf.

(** ** The two threads *)

Inductive writer : Type :=
  | WIdle
  | WLevel (d : list Z) (n : Z)                    (* "not full" has been seen *)
  | WCopy (d : list Z) (n : Z) (todo : list Z).    (* these bytes are to be copied *)

Inductive reader : Type :=
  | RIdle
  | RLevel (n : Z) (out : list Z)
  | RCopy (n : Z) (out : list Z) (todo : list Z).

Record conc : Type := MkConc {
  c_buf : cbuf;
  c_writer : writer;
  c_reader : reader;
  c_written : list Z;   (* all bytes of the calls of cbuf_write that returned 0 *)
  c_read : list Z       (* all bytes the calls of cbuf_read handed out *)
}.

(** Where byte [j] of a transfer of [n] bytes lies when it starts at [p]. *)
Definition byte_index (b : cbuf) (p n j : Z) : Z :=
  let pos := p &&& u64 (size b - 1) in
  if u64 (pos + n) <=? size b then pos + j
  else let size_at_end := u64 (size b - pos) in
       if j <? size_at_end then pos + j else j - size_at_end.

(** [cbuf_write] after its fill level is known. *)
Definition w_enter (b : cbuf) (fill : Z) (d : list Z) (n : Z) : writer :=
  if u64 (size b - fill) <? n then WIdle else WCopy d n (seqZ 0 n).

(** [cbuf_write] up to the outcome of [cbuf_is_full]. *)
Definition w_check (b : cbuf) (d : list Z) (n : Z) : writer :=
  if cbuf_is_full b then w_enter b (size b) d n else WLevel d n.

(** [cbuf_read], the same; [out] is the caller's memory. *)
Definition r_enter (fill n : Z) (out : list Z) : reader :=
  if fill <? n then RIdle else RCopy n out (seqZ 0 n).

Definition r_check (b : cbuf) (n : Z) (out : list Z) : reader :=
  if n =? 0 then RIdle
  else if cbuf_is_full b then r_enter (size b) n out else RLevel n out.

Inductive wstep : conc -> conc -> Prop :=
  | W_call b r hw hr d n :
      0 <= n <= lenz d ->
      wstep (MkConc b WIdle r hw hr) (MkConc b (w_check b d n) r hw hr)
  | W_level b r hw hr d n :
      wstep (MkConc b (WLevel d n) r hw hr)
            (MkConc b (w_enter b (_cbuf_level_of_positions b) d n) r hw hr)
  | W_byte b r hw hr d n t1 j t2 a :
      put (data b) (byte_index b (wr_ptr b) n j) (d !z j) = Ret a ->
      wstep (MkConc b (WCopy d n (t1 ++ j :: t2)) r hw hr)
            (MkConc (set_data b a) (WCopy d n (t1 ++ t2)) r hw hr)
  | W_publish b r hw hr d n :
      wstep (MkConc b (WCopy d n []) r hw hr)
            (MkConc (_cbuf_publish_wr b n) WIdle r (hw ++ take (Z.to_nat n) d) hr).

Inductive rstep : conc -> conc -> Prop :=
  | R_call b w hw hr n out :
      0 <= n -> lenz out = n ->
      rstep (MkConc b w RIdle hw hr) (MkConc b w (r_check b n out) hw hr)
  | R_level b w hw hr n out :
      rstep (MkConc b w (RLevel n out) hw hr)
            (MkConc b w (r_enter (_cbuf_level_of_positions b) n out) hw hr)
  | R_byte b w hw hr n out t1 j t2 x out' :
      get (data b) (byte_index b (rd_ptr b) n j) = Ret x -> put out j x = Ret out' ->
      rstep (MkConc b w (RCopy n out (t1 ++ j :: t2)) hw hr)
            (MkConc b w (RCopy n out' (t1 ++ t2)) hw hr)
  | R_publish b w hw hr n out :
      rstep (MkConc b w (RCopy n out []) hw hr)
            (MkConc (_cbuf_publish_rd b n) w RIdle hw (hr ++ out)).

Definition step (s s' : conc) : Prop := wstep s s' \/ rstep s s'.

Definition start (b : cbuf) : conc := MkConc b WIdle RIdle [] [].

(** ** Invariant *)

Definition w_ok (b : cbuf) (w : writer) : Prop :=
  match w with
  | WIdle => True
  | WLevel d n => 0 <= n <= lenz d /\ cbuf_is_full b = false
  | WCopy d n todo =>
      0 <= n <= lenz d /\ n <= cbuf_free_level b /\ (forall j, j ∈ todo -> 0 <= j < n) /\
      (forall j, 0 <= j < n -> j ∉ todo -> data b !z ((wr_ptr b + j) mod size b) = d !z j)
  end.

Definition r_ok (b : cbuf) (r : reader) : Prop :=
  match r with
  | RIdle => True
  | RLevel n out => 0 <= n /\ lenz out = n
  | RCopy n out todo =>
      0 <= n <= cbuf_fill_level b /\ lenz out = n /\ (forall j, j ∈ todo -> 0 <= j < n) /\
      (forall j, 0 <= j < n -> j ∉ todo -> out !z j = cbuf_contents b !z j)
  end.

Record inv (s : conc) : Prop := {
  inv_wf : cbuf_wf (c_buf s);
  inv_stream : c_written s = c_read s ++ cbuf_contents (c_buf s);
  inv_w : w_ok (c_buf s) (c_writer s);
  inv_r : r_ok (c_buf s) (c_reader s)
}.

(** ** Lemmas on the shared array *)

Lemma byte_index_mod b p n j :
  cbuf_wf b -> 0 <= j < n -> n <= size b -> byte_index b p n j = (p + j) mod size b.
Proof.
  intros Hwf Hj Hn. pose proof (size_bounds b Hwf).
  pose proof (Z.mod_pos_bound p (size b) ltac:(lia)).
  unfold byte_index. rewrite mask_mod by done. cbv zeta. rewrite !u64_small by lia.
  rewrite <- Zplus_mod_idemp_l, (mod_once (p mod size b + j)) by lia. repeat case_match; lia.
Qed.

Lemma is_full_level b : cbuf_wf b -> cbuf_is_full b = (cbuf_fill_level b =? size b).
Proof. intros Hwf. by rewrite is_full_iff, fill_level_mod. Qed.

(** What a side that has seen "not full" computes from the positions: the level
    when it is below the capacity, and 0 when the buffer has become full since. *)
Lemma level_of_positions_level b :
  cbuf_wf b ->
  _cbuf_level_of_positions b = if cbuf_is_full b then 0 else cbuf_fill_level b.
Proof.
  intros Hwf. pose proof (size_bounds b Hwf). pose proof (fill_level_bounds b Hwf).
  rewrite level_of_positions_mod, is_full_level by done.
  rewrite <- (Z.mod_mod_divide _ (2 * size b) (size b)), <- fill_level_mod by (done || exists 2; lia).
  destruct (Z.eqb_spec (cbuf_fill_level b) (size b)) as [->|]; [by apply Z.mod_same; lia|].
  apply Z.mod_small. lia.
Qed.

(** Bytes outside the queue may change freely. *)
Lemma set_data_contents b a :
  cbuf_wf b ->
  (forall i, 0 <= i < cbuf_fill_level b ->
     a !z ((rd_ptr b + i) mod size b) = data b !z ((rd_ptr b + i) mod size b)) ->
  cbuf_contents (set_data b a) = cbuf_contents b.
Proof.
  intros Hwf Ha. unfold cbuf_contents.
  change (cbuf_fill_level (set_data b a)) with (cbuf_fill_level b).
  apply list_fmap_ext. intros k i Hk. apply lookup_seqZ in Hk as [-> ?]. apply Ha. lia.
Qed.

Lemma set_data_wf b a : cbuf_wf b -> lenz a = size b -> cbuf_wf (set_data b a).
Proof. intros [] ?. by constructor. Qed.

(** Positions counted from one pointer that lie less than the capacity apart
    differ. *)
Lemma ring_inj p i j s : 0 < s -> - s < i - j < s -> (p + i) mod s = (p + j) mod s -> i = j.
Proof.
  intros Hs Hij Heq.
  assert (Hd : ((p + i) - (p + j)) mod s = 0) by (rewrite Zminus_mod, Heq, Z.sub_diag; apply Z.mod_0_l; lia).
  replace (p + i - (p + j)) with (i - j) in Hd by lia.
  rewrite mod_once_neg in Hd by lia. case_match; lia.
Qed.

Lemma wr_byte_apart b i j :
  cbuf_wf b -> 0 <= i < cbuf_fill_level b -> 0 <= j < cbuf_free_level b ->
  (rd_ptr b + i) mod size b <> (wr_ptr b + j) mod size b.
Proof.
  intros Hwf Hi Hj Heq. pose proof (size_bounds b Hwf). rewrite free_level_eq in Hj by done.
  rewrite <- (Zplus_mod_idemp_l (wr_ptr b)), (wr_mod b Hwf), Zplus_mod_idemp_l, <- Z.add_assoc in Heq.
  apply ring_inj in Heq; lia.
Qed.

(** ** The invariant is kept by every step *)

Lemma w_enter_ok b fill d n :
  cbuf_wf b -> 0 <= n <= lenz d -> cbuf_fill_level b <= fill <= size b ->
  w_ok b (w_enter b fill d n).
Proof.
  intros Hwf Hn Hf. pose proof (size_bounds b Hwf). pose proof (fill_level_bounds b Hwf).
  unfold w_enter. rewrite u64_small by lia. case_match; simpl; [done|].
  rewrite free_level_eq by done. split_and!; [lia..| |].
  - intros j Hj%elem_of_seqZ. lia.
  - intros j Hj []. by apply elem_of_seqZ; lia.
Qed.

Lemma r_enter_ok b fill n out :
  0 <= n -> lenz out = n -> fill <= cbuf_fill_level b -> r_ok b (r_enter fill n out).
Proof.
  intros Hn Ho Hf. unfold r_enter. case_match; simpl; [done|]. split_and!; [lia..| |].
  - intros j Hj%elem_of_seqZ. lia.
  - intros j Hj []. by apply elem_of_seqZ; lia.
Qed.

(** The reader keeps what it has when the queue grows at the end. *)
Lemma r_ok_mono b b' r :
  cbuf_fill_level b <= cbuf_fill_level b' ->
  (forall j, 0 <= j < cbuf_fill_level b -> cbuf_contents b' !z j = cbuf_contents b !z j) ->
  r_ok b r -> r_ok b' r.
Proof.
  intros Hf Hc. destruct r as [|n out|n out todo]; simpl; [done..|].
  intros (? & ? & ? & Hj). split_and!; [lia..|done|].
  intros j Hr Ht. rewrite Hc by lia. by apply Hj.
Qed.

(** The writer keeps what it has when the queue shrinks at the front. *)
Lemma w_ok_publish_rd b n w :
  cbuf_wf b -> 0 <= n <= cbuf_fill_level b -> w_ok b w -> w_ok (_cbuf_publish_rd b n) w.
Proof.
  intros Hwf Hn. destruct (publish_rd_wf b n Hwf Hn) as (Hwf' & Hf & _).
  pose proof (fill_level_bounds b Hwf).
  destruct w as [|d m|d m todo]; simpl; [done| |].
  - rewrite !is_full_level, Hf by done. change (size (_cbuf_publish_rd b n)) with (size b).
    intros [? ?%Z.eqb_neq]. split; [done|]. apply Z.eqb_neq. lia.
  - rewrite !free_level_eq, Hf by done. change (size (_cbuf_publish_rd b n)) with (size b).
    intros (? & ? & ? & Hd). split_and!; [lia..|done|apply Hd].
Qed.

Ltac todo_solver := rewrite ?elem_of_app, ?elem_of_cons in *; naive_solver.

(** The byte the writer copies lands in the free part of the array. *)
Lemma w_byte_ok b d n t1 j t2 :
  cbuf_wf b -> w_ok b (WCopy d n (t1 ++ j :: t2)) ->
  exists a, put (data b) (byte_index b (wr_ptr b) n j) (d !z j) = Ret a /\
    cbuf_wf (set_data b a) /\ cbuf_contents (set_data b a) = cbuf_contents b /\
    w_ok (set_data b a) (WCopy d n (t1 ++ t2)).
Proof.
  intros Hwf (Hn & Hfree & Htodo & Hdone). pose proof (size_bounds b Hwf).
  pose proof (fill_level_bounds b Hwf). pose proof (free_level_eq b Hwf).
  assert (Hj : 0 <= j < n) by (apply Htodo; todo_solver).
  rewrite byte_index_mod by (done || lia).
  pose proof (Z.mod_pos_bound (wr_ptr b + j) (size b) ltac:(lia)).
  destruct (store_spec (data b) ((wr_ptr b + j) mod size b) [d !z j]) as (a & Ha & Hl & Hv);
    [lia|rewrite (wf_data b Hwf); change (lenz [_]) with 1; lia|].
  change (lenz [_]) with 1 in Hv.
  assert (Hsame : forall i, 0 <= i < size b -> i <> (wr_ptr b + j) mod size b -> a !z i = data b !z i).
  { intros i Hi Hne. rewrite Hv by lia. destruct (_ && _) eqn:Hb; [lia|done]. }
  exists a. split_and!; [done| | |].
  - apply set_data_wf; [done|]. rewrite Hl. apply (wf_data b Hwf).
  - apply set_data_contents; [done|]. intros i Hi.
    apply Hsame; [apply Z.mod_pos_bound; lia|]. apply wr_byte_apart; [done|lia..].
  - simpl. split_and!; [lia..|done|intros; apply Htodo; todo_solver|].
    change (size (set_data b a)) with (size b). intros i Hi Hnot.
    destruct (decide (i = j)) as [->|Hne].
    + rewrite Hv by lia. destruct (_ && _) eqn:Hb; [|lia].
      by replace (_ - _) with 0 by lia.
    + rewrite Hsame; [apply Hdone; todo_solver|apply Z.mod_pos_bound; lia|].
      intros Heq. apply Hne. apply ring_inj in Heq; lia.
Qed.

(** The byte the reader copies is a byte of the queue. *)
Lemma r_byte_ok b n out t1 j t2 :
  cbuf_wf b -> r_ok b (RCopy n out (t1 ++ j :: t2)) ->
  exists x out', get (data b) (byte_index b (rd_ptr b) n j) = Ret x /\ put out j x = Ret out' /\
    r_ok b (RCopy n out' (t1 ++ t2)).
Proof.
  intros Hwf (Hn & Hout & Htodo & Hdone). pose proof (size_bounds b Hwf).
  pose proof (fill_level_bounds b Hwf).
  assert (Hj : 0 <= j < n) by (apply Htodo; todo_solver).
  rewrite byte_index_mod by (done || lia).
  pose proof (Z.mod_pos_bound (rd_ptr b + j) (size b) ltac:(lia)).
  destruct (store_spec out j [cbuf_contents b !z j]) as (o & Ho & Hl & Hv);
    [lia|change (lenz [_]) with 1; lia|].
  change (lenz [_]) with 1 in Hv.
  exists (cbuf_contents b !z j), o. split_and!; [|done|].
  - unfold get. rewrite (wf_data b Hwf), nthz_contents by (done || lia).
    destruct (_ && _) eqn:Hb; [done|lia].
  - simpl. split_and!; [lia..|intros; apply Htodo; todo_solver|].
    intros i Hi Hnot. rewrite Hv by lia.
    destruct (decide (i = j)) as [->|Hne].
    + destruct (_ && _) eqn:Hb; [|lia]. by replace (j - j) with 0 by lia.
    + destruct (_ && _) eqn:Hb; [lia|]. apply Hdone; todo_solver.
Qed.

Lemma wstep_inv s s' : inv s -> wstep s s' -> inv s'.
Proof.
  intros [Hwf Hs Hw Hr] Hstep; destruct Hstep as [b r hw hr d n Hn|b r hw hr d n|b r hw hr d n t1 j t2 a Ha|b r hw hr d n];
    simpl in *; pose proof (fill_level_bounds b Hwf).
  - constructor; simpl; try done. unfold w_check. case_match; [apply w_enter_ok; [done..|lia]|done].
  - destruct Hw as [Hn Hnf]. constructor; simpl; try done. apply w_enter_ok; [done..|].
    rewrite level_of_positions_level, Hnf by done. lia.
  - destruct (w_byte_ok b d n t1 j t2 Hwf Hw) as (a' & Ha' & Hwf' & Hc & Hw').
    rewrite Ha in Ha'. injection Ha' as <-. constructor; simpl; [done|by rewrite Hc|done|].
    apply r_ok_mono with b; [done|by rewrite Hc|done].
  - destruct Hw as (Hn & Hfree & _ & Hdone).
    destruct (publish_wr_wf b (data b) n) as [Hwf' Hf]; [done|apply (wf_data b Hwf)|lia|].
    replace (_cbuf_publish_wr b n) with (_cbuf_publish_wr (set_data b (data b)) n) by by destruct b.
    assert (Hc : cbuf_contents (_cbuf_publish_wr (set_data b (data b)) n)
                 = cbuf_contents b ++ take (Z.to_nat n) d).
    { apply publish_wr_contents; [done|apply (wf_data b Hwf)|rewrite lenz_take; lia|lia|].
      intros i Hi. split; [|done]. intros Hlt.
      pose proof (Z.mod_pos_bound (i - wr_ptr b) (size b) ltac:(lia)).
      rewrite nthz_take by lia. rewrite <- Hdone; [|lia|apply not_elem_of_nil].
      rewrite Zplus_mod_idemp_r, Zplus_minus, Z.mod_small by lia. done. }
    constructor; simpl; [done|by rewrite Hs, Hc, app_assoc|done|].
    apply r_ok_mono with b; [lia| |done].
    intros j Hj. rewrite Hc, nthz_app, lenz_contents by (done || lia). case_match; [done|lia].
Qed.

Lemma rstep_inv s s' : inv s -> rstep s s' -> inv s'.
Proof.
  intros [Hwf Hs Hw Hr] Hstep; destruct Hstep as [b w hw hr n out Hn Ho|b w hw hr n out|b w hw hr n out t1 j t2 x o Hx Ho|b w hw hr n out];
    simpl in *; pose proof (fill_level_bounds b Hwf).
  - constructor; simpl; try done. unfold r_check. case_match; [done|]. case_match eqn:Hf; [|done].
    rewrite is_full_level in Hf by done. apply r_enter_ok; [done..|lia].
  - destruct Hr as [Hn Ho]. constructor; simpl; try done. apply r_enter_ok; [done..|].
    rewrite level_of_positions_level by done. case_match; lia.
  - destruct (r_byte_ok b n out t1 j t2 Hwf Hr) as (x' & o' & Hx' & Ho' & Hr').
    rewrite Hx in Hx'. injection Hx' as <-. rewrite Ho in Ho'. injection Ho' as <-.
    by constructor.
  - destruct Hr as (Hn & Ho & _ & Hdone).
    destruct (publish_rd_wf b n Hwf Hn) as (Hwf' & _ & _).
    assert (Hout : out = take (Z.to_nat n) (cbuf_contents b)).
    { apply listz_eq; [rewrite lenz_take, lenz_contents by (done || lia); lia|].
      intros i Hi. rewrite nthz_take by lia. apply Hdone; [lia|apply not_elem_of_nil]. }
    constructor; simpl; [done| |by apply w_ok_publish_rd|done].
    rewrite publish_rd_contents, Hs, Hout, <- app_assoc, take_drop by done. done.
Qed.

Lemma start_inv b : cbuf_wf b -> cbuf_contents b = [] -> inv (start b).
Proof. intros. constructor; simpl; try done. Qed.

Lemma reachable_inv s s' : inv s -> rtc step s s' -> inv s'.
Proof.
  intros Hi Hr. induction Hr as [|s1 s2 s3 [Hs|Hs] _ IH]; [done|apply IH..].
  - by apply wstep_inv with s1.
  - by apply rstep_inv with s1.
Qed.

(** ** A thread that runs alone does what Cbuf.v says *)

Lemma written_unique b src a a' :
  cbuf_wf b -> written b src a -> written b src a' -> a = a'.
Proof.
  intros Hwf [Hl Ha] [Hl' Ha']. apply listz_eq; [congruence|]. intros i Hi.
  by rewrite Ha, Ha' by lia.
Qed.

Lemma written_next b d k a :
  cbuf_wf b -> 0 <= k < cbuf_free_level b -> k < lenz d ->
  written b (take (Z.to_nat k) d) a ->
  exists a', put a ((wr_ptr b + k) mod size b) (d !z k) = Ret a' /\
    written b (take (Z.to_nat (k + 1)) d) a'.
Proof.
  intros Hwf Hk Hd [Hl Ha]. pose proof (size_bounds b Hwf). pose proof (fill_level_bounds b Hwf).
  rewrite free_level_eq in Hk by done.
  pose proof (Z.mod_pos_bound (wr_ptr b + k) (size b) ltac:(lia)).
  destruct (store_spec a ((wr_ptr b + k) mod size b) [d !z k]) as (a' & Hs & Hl' & Hv);
    [lia|change (lenz [_]) with 1; lia|]. change (lenz [_]) with 1 in Hv.
  exists a'. split; [done|]. split; [lia|]. intros i Hi.
  rewrite lenz_take in Ha |- * by lia. rewrite Hv by lia.
  pose proof (Z.mod_pos_bound (i - wr_ptr b) (size b) ltac:(lia)) as Hb.
  destruct (_ && _) eqn:He.
  - assert (Hw : (i - wr_ptr b) mod size b = k).
    { replace i with ((wr_ptr b + k) mod size b) by lia.
      rewrite Zminus_mod_idemp_l, Z.add_simpl_l. apply Z.mod_small. lia. }
    rewrite Hw. destruct (Z.ltb_spec k (Z.min (k + 1) (lenz d))); [|lia].
    rewrite nthz_take by lia. replace (i - (wr_ptr b + k) mod size b) with 0 by lia. done.
  - assert (Hw : (i - wr_ptr b) mod size b <> k).
    { intros Hw. rewrite <- Hw, Zplus_mod_idemp_r, Zplus_minus, Z.mod_small in He by lia. lia. }
    rewrite Ha by done. repeat case_match; try lia; by rewrite ?nthz_take by lia.
Qed.

Lemma seqZ_next k n : k < n -> seqZ k (n - k) = k :: seqZ (k + 1) (n - (k + 1)).
Proof. intros. rewrite seqZ_cons by lia. do 2 f_equal; lia. Qed.

Lemma w_copy_run b r hw hr d n m k a :
  cbuf_wf b -> n <= cbuf_free_level b -> n <= lenz d -> Z.of_nat m = n - k -> 0 <= k ->
  written b (take (Z.to_nat k) d) a ->
  exists a', written b (take (Z.to_nat n) d) a' /\
    rtc wstep (MkConc (set_data b a) (WCopy d n (seqZ k (n - k))) r hw hr)
              (MkConc (set_data b a') (WCopy d n []) r hw hr).
Proof.
  intros Hwf Hfree Hd. pose proof (size_bounds b Hwf). pose proof (fill_level_bounds b Hwf).
  pose proof (free_level_eq b Hwf).
  revert k a. induction m as [|m IH]; intros k a Hm Hk Hw.
  { exists a. replace k with n in * by lia. split; [done|]. by rewrite Z.sub_diag. }
  destruct (written_next b d k a) as (a1 & Hp & Hw1); [done|lia|lia|done|].
  destruct (IH (k + 1) a1) as (a' & Hw' & Hr); [lia|lia|done|].
  exists a'. split; [done|]. apply rtc_l with (2 := Hr). rewrite seqZ_next by lia.
  apply (W_byte (set_data b a) r hw hr d n [] k).
  rewrite byte_index_mod; [done|apply set_data_wf; [done|apply Hw]|lia|simpl; lia].
Qed.

Lemma writer_alone b r hw hr d n :
  cbuf_wf b -> 0 <= n <= cbuf_free_level b -> n <= lenz d ->
  exists b', cbuf_write b d n = Ret (0, b') /\
    rtc wstep (MkConc b WIdle r hw hr) (MkConc b' WIdle r (hw ++ take (Z.to_nat n) d) hr).
Proof.
  intros Hwf Hn Hd. pose proof (size_bounds b Hwf). pose proof (fill_level_bounds b Hwf).
  pose proof (free_level_eq b Hwf) as Hfree.
  destruct (cbuf_write_data b d n) as (d' & Hwr & Hw); [done..|].
  destruct (w_copy_run b r hw hr d n (Z.to_nat n) 0 (data b)) as (a & Hw' & Hrun); [done|lia..| |].
  { split; [apply (wf_data b Hwf)|]. intros i Hi. change (lenz (take _ _)) with 0.
    pose proof (Z.mod_pos_bound (i - wr_ptr b) (size b) ltac:(lia)). case_match; [lia|done]. }
  rewrite (written_unique b _ d' a Hwf Hw Hw') in Hwr. clear d' Hw.
  eexists. split; [done|]. replace (set_data b (data b)) with b in Hrun by by destruct b.
  assert (Henter : w_enter b (cbuf_fill_level b) d n = WCopy d n (seqZ 0 (n - 0))).
  { unfold w_enter. rewrite u64_small, Z.sub_0_r by lia. by case_match; [lia|]. }
  assert (Hpre : rtc wstep (MkConc b WIdle r hw hr) (MkConc b (WCopy d n (seqZ 0 (n - 0))) r hw hr)).
  { eapply rtc_l; [apply (W_call b r hw hr d n); lia|]. unfold w_check.
    rewrite is_full_level by done. destruct (Z.eqb_spec (cbuf_fill_level b) (size b)) as [He|He].
    - by rewrite <- He, Henter.
    - rewrite <- Henter. apply rtc_once. pose proof (W_level b r hw hr d n) as Hst.
      rewrite level_of_positions_level, is_full_level in Hst by done.
      by destruct (Z.eqb_spec (cbuf_fill_level b) (size b)). }
  etrans; [exact Hpre|]. etrans; [exact Hrun|]. apply rtc_once, W_publish.
Qed.

Lemma r_copy_run b w hw hr n out todo :
  cbuf_wf b -> r_ok b (RCopy n out todo) ->
  exists out', rtc rstep (MkConc b w (RCopy n out todo) hw hr) (MkConc b w (RCopy n out' []) hw hr) /\
    r_ok b (RCopy n out' []).
Proof.
  intros Hwf. revert out. induction todo as [|j todo IH]; intros out Hr; [by exists out|].
  destruct (r_byte_ok b n out [] j todo Hwf Hr) as (x & o & Hx & Ho & Hr').
  destruct (IH o Hr') as (out' & Hrun & Hok). exists out'. split; [|done].
  apply rtc_l with (2 := Hrun). by apply (R_byte b w hw hr n out [] j todo x o).
Qed.

Lemma reader_alone b w hw hr n (out : list Z) :
  cbuf_wf b -> 0 < n <= cbuf_fill_level b -> lenz out = n ->
  exists got b', cbuf_read b n = Ret (0, got, b') /\
    rtc rstep (MkConc b w RIdle hw hr) (MkConc b' w RIdle hw (hr ++ got)).
Proof.
  intros Hwf Hn Ho. pose proof (size_bounds b Hwf). pose proof (fill_level_bounds b Hwf).
  destruct (r_copy_run b w hw hr n out (seqZ 0 n)) as (o & Hrun & Hok & Hlo & _ & Hdone); [done| |].
  { pose proof (r_enter_ok b (cbuf_fill_level b) n out ltac:(lia) Ho ltac:(lia)) as Hr.
    unfold r_enter in Hr. by case_match; [lia|]. }
  assert (Hgot : o = take (Z.to_nat n) (cbuf_contents b)).
  { apply listz_eq; [rewrite lenz_take, lenz_contents by (done || lia); lia|].
    intros i Hi. rewrite nthz_take by lia. apply Hdone; [lia|apply not_elem_of_nil]. }
  assert (Hpub : exists got, cbuf_read b n = Ret (0, got, _cbuf_publish_rd b n)).
  { destruct (cbuf_read_fits b n) as (b' & Hr & _); [done|lia|].
    unfold cbuf_read in Hr |- *. destruct (Z.eqb_spec n 0); [lia|].
    destruct (Z.ltb_spec (cbuf_fill_level b) n); [lia|].
    apply bind_Ret_inv in Hr as (got & -> & _). by exists got. }
  destruct Hpub as [got Hpub]. exists got, (_cbuf_publish_rd b n). split; [done|].
  destruct (cbuf_read_fits b n) as (b' & Hr & _); [done|lia|].
  rewrite Hpub in Hr. injection Hr as -> _. rewrite <- Hgot.
  assert (Henter : r_enter (cbuf_fill_level b) n out = RCopy n out (seqZ 0 n)).
  { unfold r_enter. by case_match; [lia|]. }
  assert (Hpre : rtc rstep (MkConc b w RIdle hw hr) (MkConc b w (RCopy n out (seqZ 0 n)) hw hr)).
  { eapply rtc_l; [apply (R_call b w hw hr n out); lia|]. unfold r_check.
    destruct (Z.eqb_spec n 0); [lia|].
    rewrite is_full_level by done. destruct (Z.eqb_spec (cbuf_fill_level b) (size b)) as [He|He].
    - by rewrite <- He, Henter.
    - rewrite <- Henter. apply rtc_once. pose proof (R_level b w hw hr n out) as Hst.
      rewrite level_of_positions_level, is_full_level in Hst by done.
      by destruct (Z.eqb_spec (cbuf_fill_level b) (size b)). }
  etrans; [exact Hpre|]. etrans; [exact Hrun|]. apply rtc_once, R_publish.
Qed.

(** ** Correctness under every interleaving *)

(** The next byte of a transfer can be copied: no access leaves its array. *)
Definition copies_in_bounds (s : conc) : Prop :=
  (forall d n t1 j t2, c_writer s = WCopy d n (t1 ++ j :: t2) ->
     exists a, put (data (c_buf s)) (byte_index (c_buf s) (wr_ptr (c_buf s)) n j) (d !z j) = Ret a) /\
  (forall n out t1 j t2, c_reader s = RCopy n out (t1 ++ j :: t2) ->
     exists x out', get (data (c_buf s)) (byte_index (c_buf s) (rd_ptr (c_buf s)) n j) = Ret x /\
       put out j x = Ret out').

(** C3: however the accesses of one writer and one reader of a fresh buffer
    interleave, the reader has received exactly the bytes written so far, in
    order, except for those still in the queue; the queue never exceeds its
    capacity; and no byte is copied outside an array. *)
Theorem cbuf_spsc_stream (b : cbuf) (k : Z) (s : conc) :
  0 <= k <= CBUF_MAX_LOG2 -> cbuf_init true true (2 ^ k) = Ret (0, Some b) ->
  rtc step (start b) s ->
  c_written s = c_read s ++ cbuf_contents (c_buf s) /\
  lenz (cbuf_contents (c_buf s)) <= size (c_buf s) /\ copies_in_bounds s.
Proof.
  intros Hk Hb Hr. destruct (cbuf_init_ok k Hk) as (b0 & Hb0 & Hwf & _ & Hc).
  rewrite Hb in Hb0. injection Hb0 as <-.
  destruct (reachable_inv _ _ (start_inv b Hwf Hc) Hr) as [Hwf' Hs Hw Hrd].
  split; [done|]. split; [rewrite lenz_contents by done; by apply fill_level_bounds|].
  split.
  - intros d n t1 j t2 Heq. rewrite Heq in Hw.
    destruct (w_byte_ok _ d n t1 j t2 Hwf' Hw) as (a & Ha & _). eauto.
  - intros n out t1 j t2 Heq. rewrite Heq in Hrd.
    destruct (r_byte_ok _ n out t1 j t2 Hwf' Hrd) as (x & o & Hx & Ho & _). eauto.
Qed.

(** A buffer of one byte, and the steps of a thread that writes one byte. *)
Definition demo_one : cbuf := MkCbuf 0 0 1 [0] 0 0 None 0 0 None false 0.

Definition demo_one_full : cbuf := MkCbuf 1 0 1 [5] 0 0 None 0 0 None false 1.

Lemma demo_write_run r hr :
  rtc step (MkConc demo_one WIdle r [] hr) (MkConc demo_one_full WIdle r [5] hr).
Proof.
  eapply rtc_l; [left; by apply (W_call demo_one r [] hr [5] 1)|].
  eapply rtc_l; [left; apply W_level|].
  eapply rtc_l; [left; by apply (W_byte demo_one r [] hr [5] 1 [] 0 [] [5])|].
  eapply rtc_l; [left; apply W_publish|]. apply rtc_refl.
Qed.

Lemma cbuf_spsc_stream_witness :
  c_written (MkConc demo_one_full WIdle RIdle [5] []) = [] ++ [5] /\
  1 <= 1 /\ copies_in_bounds (MkConc demo_one_full WIdle RIdle [5] []).
Proof.
  apply (cbuf_spsc_stream demo_one 0); [zcompute|reflexivity|apply demo_write_run].
Defined.

(** A thread whose accesses are not interleaved with the other side's does
    exactly what the sequential [cbuf_write] and [cbuf_read] do: the step
    relation is a refinement of both functions. *)
Theorem cbuf_alone_refines (b : cbuf) (d out hw hr : list Z) (w : writer) (r : reader) (n m : Z) :
  cbuf_wf b -> 0 <= n <= cbuf_free_level b -> n <= lenz d ->
  0 < m <= cbuf_fill_level b -> lenz out = m ->
  (exists b', cbuf_write b d n = Ret (0, b') /\
     rtc wstep (MkConc b WIdle r hw hr) (MkConc b' WIdle r (hw ++ take (Z.to_nat n) d) hr)) /\
  (exists got b', cbuf_read b m = Ret (0, got, b') /\
     rtc rstep (MkConc b w RIdle hw hr) (MkConc b' w RIdle hw (hr ++ got))).
Proof. intros. split; [by apply writer_alone|by apply (reader_alone b w hw hr m out)]. Qed.

Lemma cbuf_alone_refines_witness :
  (exists b', cbuf_write demo_cbuf [1; 2; 3] 3 = Ret (0, b') /\
     rtc wstep (MkConc demo_cbuf WIdle RIdle [] []) (MkConc b' WIdle RIdle [1; 2; 3] [])) /\
  (exists got b', cbuf_read demo_cbuf 4 = Ret (0, got, b') /\
     rtc rstep (MkConc demo_cbuf WIdle RIdle [] []) (MkConc b' WIdle RIdle [] got)).
Proof.
  apply (cbuf_alone_refines demo_cbuf [1; 2; 3] [0; 0; 0; 0] [] [] WIdle RIdle 3 4);
    [apply demo_cbuf_wf|zcompute..].
Defined.

(** A reader that finds the buffer not full and computes the level after the
    writer has filled it sees level 0: [cbuf_read] of one byte then returns
    -EINVAL although the queue is full. *)
Theorem cbuf_read_torn_level :
  exists s, rtc step (start demo_one) s /\ c_reader s = RLevel 1 [0] /\
    cbuf_is_full (c_buf s) = true /\ cbuf_contents (c_buf s) = [5] /\
    rstep s (MkConc (c_buf s) (c_writer s) RIdle (c_written s) (c_read s)).
Proof.
  exists (MkConc demo_one_full WIdle (RLevel 1 [0]) [5] []). split_and!; [|done..|].
  - eapply rtc_l; [right; by apply (R_call demo_one WIdle [] [] 1 [0])|]. apply demo_write_run.
  - apply R_level.
Qed.
