(* ===== verification/GlipUtil.v ===== *)
(** * Reading and writing a circular buffer for GLIP's users: util.c

    The non-blocking and blocking transfers of opensocdebug/glip/src/util.c and
    the time arithmetic of util.h, over any queue that keeps the laws of Fifo.v.

    What other threads do is a schedule of turns: in every round of a blocking
    transfer the environment acts on the buffer before the caller takes the
    lock, says how locking and waiting end, and acts while the caller waits.  A
    transfer that needs more rounds than the schedule has is [Blocked]. *)

From S2P Require Import Prelude.
From S2P Require Import Fifo.
From S2P Require Import Cbuf.

(** ** util.h *)

Definition NSEC_PER_SEC : Z := 1000000000.

(** [while (dividend >= divisor) { dividend -= divisor; ret++; }] *)
Fixpoint iter_div_loop (fuel : nat) (dividend divisor ret : Z) : outcome (Z * Z) :=
  match fuel with
  | O => Fault Blocked
  | S f =>
      if divisor <=? dividend
      then iter_div_loop f (u64 (dividend - divisor)) divisor (u32 (ret + 1))
      else Ret (ret, dividend)
  end.

(** The quotient and the remainder; the fuel is one more than the rounds. *)
Definition __iter_div_u64_rem (dividend divisor : Z) : outcome (Z * Z) :=
  iter_div_loop (S (Z.to_nat (dividend / divisor))) dividend divisor 0.

Definition timespec_add_ns (a : timespec) (ns : Z) : outcome timespec :=
  '(q, ns) ← __iter_div_u64_rem (u64 (tv_nsec a + ns)) (u32 NSEC_PER_SEC);
  Ret (MkTimespec (s64 (tv_sec a + q)) (s64 ns)).

(** The parameters are [int]s. *)
Definition max (a b : Z) : Z := let a := s32 a in let b := s32 b in if b <? a then a else b.
Definition min (a b : Z) : Z := let a := s32 a in let b := s32 b in if b <? a then b else a.

(** [clock_gettime(...); timespec_add_ns(&ts, timeout * 1000 * 1000)], where
    [timeout] is an [unsigned int]; no deadline for a timeout of 0. *)
Definition deadline (now : timespec) (timeout : Z) : outcome (option timespec) :=
  if timeout =? 0 then Ret None
  else Some <$> timespec_add_ns now (u32 (u32 (timeout * 1000) * 1000)).

(** ** The environment *)

Record turn (B : Type) : Type := MkTurn {
  t_before : B -> B;
  t_lock : option timespec -> Z;
  t_rv : option timespec -> Z;
  t_during : B -> B
}.
Arguments MkTurn {B} _ _ _ _.
Arguments t_before {B} _ _.
Arguments t_lock {B} _ _.
Arguments t_rv {B} _ _.
Arguments t_during {B} _ _.

Section util.
Context {B : Type} `{!ByteFifo B}.
Implicit Types (b : B) (t : turn B) (sched : list (turn B)).

(** [if (timeout == 0) cbuf_wait_for_level_change(...) else
    cbuf_timedwait_for_level_change(..., &ts)] *)
Definition wait_level (dl : option timespec) t b (level : Z) : Z * B :=
  match dl with
  | None =>
      fifo_wait_for_level_change (t_lock t None) (fun b => (t_rv t None, t_during t b)) b level
  | Some ts =>
      fifo_timedwait_for_level_change (fun ts => t_lock t (Some ts))
        (fun ts b => (t_rv t (Some ts), t_during t b)) b level ts
  end.

(** ** Reading *)

(** The return code, the bytes, [*size_read] and the buffer; [*size_read] is
    left alone when reading fails. *)
Definition gb_util_cbuf_read b (size size_read : Z) : outcome (Z * list Z * Z * B) :=
  let fill_level := fifo_fill_level b in
  let size_read_req := u64 (min fill_level size) in
  '(rv, got, b) ← fifo_read b size_read_req;
  if rv <? 0 then Ret (-1, [], size_read, b) else Ret (0, got, size_read_req, b).

(** The loop [while (level < size)]; [true] stands for [goto read_ret] or the
    end of the loop, [false] for [goto ret]. *)
Fixpoint read_b_wait sched (dl : option timespec) b (size level retval : Z) :
    outcome (Z * bool * B) :=
  if level <? size then
    match sched with
    | [] => Fault Blocked
    | t :: sched =>
        let '(rv, b) := wait_level dl t (t_before t b) level in
        if rv =? - ETIMEDOUT then Ret (rv, true, b)
        else if negb (rv =? 0) then Ret (rv, false, b)
        else read_b_wait sched dl b size (fifo_fill_level b) rv
    end
  else Ret (retval, true, b).

Definition gb_util_cbuf_read_b (now : timespec) sched b (size timeout : Z) :
    outcome (Z * list Z * Z * B) :=
  if fifo_size b <? size then Ret (-1, [], 0, b) else
  dl ← deadline now timeout;
  '(retval, read_ret, b) ← read_b_wait sched dl b size (fifo_fill_level b) 0;
  if (read_ret : bool) then
    '(rv, got, size_read, b) ← gb_util_cbuf_read b size 0;
    let retval := if (rv =? 0) && negb (size =? size_read) then - ETIMEDOUT else retval in
    Ret (retval, got, size_read, b)
  else Ret (retval, [], 0, b).

(** ** Writing *)

(** The return code, [*size_written] and the buffer. *)
Definition gb_util_cbuf_write b (size : Z) (data : list Z) : outcome (Z * Z * B) :=
  let buf_size_free := u32 (fifo_free_level b) in
  let size_written := if buf_size_free <? size then buf_size_free else size in
  '(rv, b) ← fifo_write b data size_written;
  Ret (rv, size_written, b).

Fixpoint write_b_loop sched (dl : option timespec) b (size : Z) (data : list Z) (size_done : Z) :
    outcome (Z * Z * B) :=
  '(_, size_done_tmp, b) ←
    gb_util_cbuf_write b (u64 (size - size_done)) (drop (Z.to_nat size_done) data);
  let size_done := u64 (size_done + size_done_tmp) in
  if size_done =? size then Ret (0, size_done, b) else
  match sched with
  | [] => Fault Blocked
  | t :: sched =>
      let b := t_before t b in
      if fifo_free_level b =? 0 then
        let '(rv, b) := wait_level dl t b 0 in
        if negb (rv =? 0) then Ret (rv, size_done, b)
        else write_b_loop sched dl b size data size_done
      else write_b_loop sched dl b size data size_done
  end.

Definition gb_util_cbuf_write_b (now : timespec) sched b (size : Z) (data : list Z) (timeout : Z) :
    outcome (Z * Z * B) :=
  dl ← deadline now timeout;
  write_b_loop sched dl b size data 0.

(** ** What the other side may do *)

(** The other end of the buffer we read from only appends. *)
Definition producer (f : B -> B) : Prop :=
  forall b, fifo_wf b ->
    fifo_wf (f b) /\ fifo_size (f b) = fifo_size b /\
    exists new, fifo_contents (f b) = fifo_contents b ++ new.

(** The other end of the buffer we write to only takes away. *)
Definition consumer (f : B -> B) : Prop :=
  forall b, fifo_wf b ->
    fifo_wf (f b) /\ fifo_size (f b) = fifo_size b /\
    exists gone, fifo_contents b = gone ++ fifo_contents (f b).

Definition acts (P : (B -> B) -> Prop) sched : Prop :=
  Forall (fun t => P (t_before t) /\ P (t_during t)) sched.

(** Waiting works, is not cancelled, and lasts until something has been added. *)
Definition fills t : Prop :=
  (forall dl, t_lock t dl = 0) /\ (forall dl, t_rv t dl = 0) /\
  forall b, fifo_wf b -> fifo_cancel_waits b = false ->
    fifo_cancel_waits (t_before t b) = false /\ fifo_cancel_waits (t_during t b) = false /\
    (fifo_fill_level b < fifo_size b -> fifo_fill_level b < fifo_fill_level (t_during t b)).

(** The reader takes something in every round. *)
Definition drains t : Prop :=
  forall b, fifo_wf b ->
    0 < fifo_fill_level b -> fifo_fill_level (t_before t b) < fifo_fill_level b.
End util.

(** ** Time arithmetic *)

Lemma iter_div_loop_spec fuel x d ret :
  0 < d -> 0 <= x < 2 ^ 64 -> x / d < Z.of_nat fuel ->
  iter_div_loop fuel x d (u32 ret) = Ret (u32 (ret + x / d), x mod d).
Proof.
  intros Hd. revert x ret. induction fuel as [|f IH]; intros x ret Hx Hf.
  { pose proof (Z.div_pos x d). lia. }
  simpl. destruct (Z.leb_spec d x).
  - assert (Hq : (x - d) / d = x / d - 1).
    { replace (x - d) with (x + (-1) * d) by lia. rewrite Z.div_add by lia. lia. }
    assert (Hr : (x - d) mod d = x mod d).
    { replace (x - d) with (x + (-1) * d) by lia. apply Z.mod_add. lia. }
    replace (u32 (u32 ret + 1)) with (u32 (ret + 1)).
    2:{ unfold u32. by rewrite Zplus_mod_idemp_l. }
    rewrite u64_small, IH by lia. rewrite Hq, Hr. do 3 f_equal. lia.
  - rewrite Z.div_small, Z.mod_small by lia. by rewrite Z.add_0_r.
Qed.

Lemma iter_div_u64_rem_spec x d :
  0 < d -> 0 <= x < 2 ^ 64 -> __iter_div_u64_rem x d = Ret (u32 (x / d), x mod d).
Proof.
  intros Hd Hx. unfold __iter_div_u64_rem. change 0 with (u32 0) at 1.
  rewrite iter_div_loop_spec; [done|done|done|]. pose proof (Z.div_pos x d). lia.
Qed.

(** A normalised time whose seconds leave room for 2^32 more. *)
Definition timespec_ok (a : timespec) : Prop :=
  0 <= tv_sec a < 2 ^ 62 /\ 0 <= tv_nsec a < NSEC_PER_SEC.

Definition nanoseconds (a : timespec) : Z := tv_sec a * NSEC_PER_SEC + tv_nsec a.

Lemma timespec_add_ns_spec a ns :
  timespec_ok a -> 0 <= ns < 2 ^ 32 ->
  exists a', timespec_add_ns a ns = Ret a' /\ nanoseconds a' = nanoseconds a + ns /\
    0 <= tv_nsec a' < NSEC_PER_SEC.
Proof.
  unfold timespec_ok, nanoseconds, NSEC_PER_SEC. intros [Hs Hn] Hns.
  assert (Hq : 0 <= (tv_nsec a + ns) / 1000000000 < 8) by zdm.
  pose proof (Z.mod_pos_bound (tv_nsec a + ns) 1000000000 ltac:(lia)).
  pose proof (Z.div_mod (tv_nsec a + ns) 1000000000 ltac:(lia)) as Hdm.
  unfold timespec_add_ns. change (u32 NSEC_PER_SEC) with 1000000000.
  rewrite u64_small, iter_div_u64_rem_spec, bind_ret, u32_small, !s64_small by lia.
  eexists. split; [done|]. simpl. lia.
Qed.

Lemma deadline_total now timeout :
  timespec_ok now -> exists dl, deadline now timeout = Ret dl.
Proof.
  intros Hnow. unfold deadline. case_match; [eauto|].
  destruct (timespec_add_ns_spec now (u32 (u32 (timeout * 1000) * 1000))) as (a & -> & _);
    [done|apply u32_range|]. by eexists.
Qed.

(** ** The transfers *)

Section laws.
Context `{FifoLaws B}.
Implicit Types (b : B) (t : turn B) (sched : list (turn B)).

Lemma wait_level_eq dl t b level :
  wait_level dl t b level =
    let '(rv, b') := if negb (t_lock t dl =? 0) then (t_lock t dl, b)
                     else if negb (fifo_fill_level b =? level) then (0, b)
                     else (t_rv t dl, t_during t b) in
    (- (if fifo_cancel_waits b' then ECANCELED else rv), b').
Proof.
  destruct dl as [ts|]; simpl; [rewrite fifo_timedwait_eq|]; by rewrite fifo_wait_eq.
Qed.

(** The buffer after a wait is the one before it, or what the turn made of it. *)
Lemma wait_level_buf dl t b level :
  snd (wait_level dl t b level) = b \/ snd (wait_level dl t b level) = t_during t b.
Proof.
  rewrite wait_level_eq. destruct (negb _); [by left|]. destruct (negb _); [by left|by right].
Qed.

Lemma wait_producer dl t b level rv b' :
  producer (t_before t) -> producer (t_during t) -> fifo_wf b ->
  wait_level dl t (t_before t b) level = (rv, b') ->
  fifo_wf b' /\ fifo_size b' = fifo_size b /\
  exists new, fifo_contents b' = fifo_contents b ++ new.
Proof.
  intros Hb Hd Hwf Hw. destruct (Hb b Hwf) as (Hwf1 & Hs1 & new1 & Hc1).
  destruct (wait_level_buf dl t (t_before t b) level) as [He|He]; rewrite Hw in He; simpl in He; subst b'.
  - eauto.
  - destruct (Hd _ Hwf1) as (Hwf2 & Hs2 & new2 & Hc2). split_and!; [done|congruence|].
    exists (new1 ++ new2). by rewrite Hc2, Hc1, app_assoc.
Qed.

Lemma wait_consumer dl t b level rv b' :
  consumer (t_during t) -> fifo_wf b -> wait_level dl t b level = (rv, b') ->
  fifo_wf b' /\ fifo_size b' = fifo_size b /\
  exists gone, fifo_contents b = gone ++ fifo_contents b'.
Proof.
  intros Hd Hwf Hw. destruct (wait_level_buf dl t b level) as [He|He]; rewrite Hw in He; simpl in He; subst b'.
  - split_and!; [done..|]. by exists [].
  - destruct (Hd _ Hwf) as (? & ? & ?). eauto.
Qed.

(** *** Reading *)

Lemma c_min_small (x y : Z) :
  0 <= x < 2 ^ 31 -> 0 <= y < 2 ^ 31 -> u64 (min x y) = Z.min x y.
Proof.
  intros Ha Hb. unfold min. rewrite !s32_small by lia. cbv zeta.
  rewrite u64_small; case_match; lia.
Qed.

Lemma util_read_spec b size old :
  fifo_wf b -> 0 <= size < 2 ^ 31 ->
  exists b', gb_util_cbuf_read b size old =
      Ret (0, take (Z.to_nat size) (fifo_contents b), Z.min (fifo_fill_level b) size, b') /\
    fifo_wf b' /\ fifo_size b' = fifo_size b /\
    fifo_contents b' = drop (Z.to_nat size) (fifo_contents b).
Proof.
  intros Hwf Hs. pose proof (fifo_levels b Hwf) as [Hf _]. pose proof (fifo_size_bounds b Hwf).
  unfold gb_util_cbuf_read. rewrite c_min_small by lia.
  destruct (fifo_read_fits b (Z.min (fifo_fill_level b) size)) as (b' & -> & ? & ? & Hc); [done|lia|].
  rewrite bind_ret. exists b'. pose proof (fifo_fill_level_eq b Hwf) as Hl. unfold lenz in Hl.
  rewrite Hc. destruct (decide (size <= fifo_fill_level b)).
  - rewrite !Z.min_r by lia. done.
  - rewrite !Z.min_l by lia. rewrite !(take_ge (fifo_contents b)), !(drop_ge (fifo_contents b)) by lia.
    done.
Qed.

Lemma read_b_wait_spec sched dl b size retval rv read_ret b' :
  acts producer sched -> fifo_wf b -> (retval = 0 \/ fifo_fill_level b < size) ->
  read_b_wait sched dl b size (fifo_fill_level b) retval = Ret (rv, read_ret, b') ->
  fifo_wf b' /\ fifo_size b' = fifo_size b /\
  (exists new, fifo_contents b' = fifo_contents b ++ new) /\
  (read_ret = true -> rv = - ETIMEDOUT \/ (rv = 0 /\ size <= fifo_fill_level b')) /\
  (read_ret = false -> rv <> 0).
Proof.
  intros Hacts. revert b retval. induction Hacts as [|t sched [Hb Hd] _ IH]; intros b retval Hwf Hrv;
    simpl; destruct (Z.ltb_spec (fifo_fill_level b) size) as [Hlt|Hge]; try done.
  1, 3: intros [= <- <- <-]; split_and!; [done..|exists []; by rewrite app_nil_r|right; lia|done].
  destruct (wait_level dl t (t_before t b) (fifo_fill_level b)) as [rv1 b1] eqn:Hw.
  destruct (wait_producer _ _ _ _ _ _ Hb Hd Hwf Hw) as (Hwf1 & Hs1 & new1 & Hc1).
  destruct (Z.eqb_spec rv1 (- ETIMEDOUT)); [|destruct (Z.eqb_spec rv1 0); simpl].
  - intros [= <- <- <-]. split_and!; [done..|eauto|auto|done].
  - intros Hr. apply IH in Hr as (? & Hs & [new Hc] & ? & ?); [|done|by left].
    split_and!; [done|congruence| |done..]. exists (new1 ++ new). by rewrite Hc, Hc1, app_assoc.
  - intros [= <- <- <-]. split_and!; [done..|eauto|done|done].
Qed.

Lemma read_b_wait_fault sched dl b size level retval f :
  read_b_wait sched dl b size level retval = Fault f -> f = Blocked.
Proof.
  revert b level retval. induction sched as [|t sched IH]; intros b level retval; simpl.
  - case_match; intros [=]. done.
  - repeat case_match; try done. apply IH.
Qed.

(** Enough rounds in which something arrives. *)
Lemma read_b_wait_live sched dl b size :
  acts producer sched -> Forall fills sched -> fifo_wf b -> fifo_cancel_waits b = false ->
  size <= fifo_size b -> size - fifo_fill_level b <= lenz sched ->
  exists b', read_b_wait sched dl b size (fifo_fill_level b) 0 = Ret (0, true, b').
Proof.
  intros Hacts Hfills. revert b. induction Hacts as [|t sched [Hb Hd] _ IH];
    intros b Hwf Hcan Hs Hlen; simpl; rewrite ?lenz_nil, ?lenz_cons in Hlen;
    destruct (Z.ltb_spec (fifo_fill_level b) size); try lia; [eauto| |eauto].
  apply Forall_cons in Hfills as [(Hlock & Hrv & Hfill) Hfills].
  destruct (wait_level dl t (t_before t b) (fifo_fill_level b)) as [rv1 b1] eqn:Hw.
  destruct (wait_producer _ _ _ _ _ _ Hb Hd Hwf Hw) as (Hwf1 & Hs1 & new & Hc1).
  destruct (Hb b Hwf) as (Hwfb & Hsb & newb & Hcb).
  assert (fifo_fill_level b <= fifo_fill_level (t_before t b)).
  { rewrite !fifo_fill_level_eq, Hcb, lenz_app by done. pose proof (lenz_nonneg newb). lia. }
  rewrite wait_level_eq, Hlock, Hrv in Hw. simpl in Hw.
  assert (Hb1 : rv1 = 0 /\ fifo_cancel_waits b1 = false /\ fifo_fill_level b < fifo_fill_level b1).
  { destruct (Hfill b Hwf Hcan) as (Hc & _). destruct (Hfill _ Hwfb Hc) as (_ & Hcd & Hf).
    destruct (Z.eqb_spec (fifo_fill_level (t_before t b)) (fifo_fill_level b)); simpl in Hw;
      injection Hw as <- <-; rewrite ?Hc, ?Hcd; split_and!; (done || lia). }
  destruct Hb1 as (-> & Hcan1 & Hb1). simpl. apply IH; [done..|lia|lia].
Qed.

(** *** Writing *)

Lemma util_write_spec b size data :
  fifo_wf b -> 0 <= size <= lenz data ->
  let k := Z.min (fifo_free_level b) size in
  exists b', gb_util_cbuf_write b size data = Ret (0, k, b') /\
    fifo_wf b' /\ fifo_size b' = fifo_size b /\
    fifo_contents b' = fifo_contents b ++ take (Z.to_nat k) data.
Proof.
  intros Hwf Hs k. pose proof (fifo_levels b Hwf) as [Hf Hfree]. pose proof (fifo_size_bounds b Hwf).
  unfold gb_util_cbuf_write. rewrite u32_small by lia.
  destruct (fifo_write_fits b data k) as (b' & Hw & ? & ? & ?); [done|lia..|].
  exists b'. replace (if fifo_free_level b <? size then fifo_free_level b else size) with k
    by (case_match; lia).
  by rewrite Hw.
Qed.

Lemma take_drop_glue (data : list Z) i k n :
  0 <= i -> 0 <= k -> i + k <= n ->
  take (Z.to_nat k) (drop (Z.to_nat i) data) ++ drop (Z.to_nat (i + k)) (take (Z.to_nat n) data)
  = drop (Z.to_nat i) (take (Z.to_nat n) data).
Proof.
  intros. rewrite !skipn_firstn_comm.
  replace (Z.to_nat (i + k)) with (Z.to_nat i + Z.to_nat k)%nat by lia.
  rewrite <- drop_drop.
  replace (Z.to_nat n - Z.to_nat i)%nat with (Z.to_nat k + (Z.to_nat n - (Z.to_nat i + Z.to_nat k)))%nat by lia.
  by rewrite <- take_take_drop.
Qed.

(** One round of the loop: what is written, and where it stands. *)
Lemma write_b_round sched dl b size data i :
  fifo_wf b -> 0 <= i <= size -> size <= lenz data -> size < 2 ^ 64 ->
  let k := Z.min (fifo_free_level b) (size - i) in
  exists b1, fifo_wf b1 /\ fifo_size b1 = fifo_size b /\
    fifo_contents b1 = fifo_contents b ++ take (Z.to_nat k) (drop (Z.to_nat i) data) /\
    write_b_loop sched dl b size data i =
      if i + k =? size then Ret (0, i + k, b1) else
      match sched with
      | [] => Fault Blocked
      | t :: sched =>
          if fifo_free_level (t_before t b1) =? 0 then
            let '(rv, b) := wait_level dl t (t_before t b1) 0 in
            if negb (rv =? 0) then Ret (rv, i + k, b)
            else write_b_loop sched dl b size data (i + k)
          else write_b_loop sched dl (t_before t b1) size data (i + k)
      end.
Proof.
  intros Hwf Hi Hd Hs k. pose proof (fifo_levels b Hwf).
  destruct (util_write_spec b (size - i) (drop (Z.to_nat i) data)) as (b1 & Hw & ? & ? & ?);
    [done|rewrite lenz_drop; lia|].
  exists b1. split_and!; [done..|].
  destruct sched; simpl; rewrite u64_small, Hw by lia; simpl; rewrite u64_small by lia; done.
Qed.

Lemma write_b_loop_spec sched dl b size data i rv n b' :
  acts consumer sched -> fifo_wf b -> 0 <= i <= size -> size <= lenz data -> size < 2 ^ 64 ->
  write_b_loop sched dl b size data i = Ret (rv, n, b') ->
  fifo_wf b' /\ fifo_size b' = fifo_size b /\ i <= n <= size /\ (rv = 0 <-> n = size) /\
  exists gone, fifo_contents b ++ drop (Z.to_nat i) (take (Z.to_nat n) data) = gone ++ fifo_contents b'.
Proof.
  intros Hacts. revert b i. induction Hacts as [|t sched [Hb Hd] _ IH]; intros b i Hwf Hi Hdl Hs.
  all: match goal with |- write_b_loop ?s _ _ _ _ _ = _ -> _ =>
      destruct (write_b_round s dl b size data i) as (b1 & Hwf1 & Hs1 & Hc1 & ->) end; try done.
  all: set (k := Z.min _ _) in *; pose proof (fifo_levels b Hwf).
  all: assert (Hn0 : forall b2 n, fifo_wf b2 -> i + k <= n ->
      (exists gone, fifo_contents b1 ++ drop (Z.to_nat (i + k)) (take (Z.to_nat n) data) = gone ++ fifo_contents b2) ->
      exists gone, fifo_contents b ++ drop (Z.to_nat i) (take (Z.to_nat n) data) = gone ++ fifo_contents b2)
    by (intros b2 n0 _ Hn0 [g Hg]; exists g; rewrite <- Hg, Hc1, <- app_assoc, take_drop_glue by lia; done).
  all: assert (Hend : forall b2, (exists gone, fifo_contents b1 = gone ++ fifo_contents b2) ->
      exists gone, fifo_contents b1 ++ drop (Z.to_nat (i + k)) (take (Z.to_nat (i + k)) data) = gone ++ fifo_contents b2)
    by (intros b2 [g Hg]; exists g; rewrite drop_ge, app_nil_r by (rewrite length_take; lia); done).
  all: destruct (Z.eqb_spec (i + k) size) as [Heq|Hne];
    [intros [= <- <- <-]; split_and!; [done..|lia|lia|done|apply Hn0; [done|lia|apply Hend; by exists []]]|].
  { intros [=]. }
  destruct (Hb b1 Hwf1) as (Hwfb & Hsb & gone1 & Hcb).
  destruct (fifo_free_level (t_before t b1) =? 0).
  - destruct (wait_level dl t (t_before t b1) 0) as [rv1 b2] eqn:Hw.
    destruct (wait_consumer _ _ _ _ _ _ Hd Hwfb Hw) as (Hwf2 & Hs2 & gone2 & Hc2).
    assert (Hg : fifo_contents b1 = (gone1 ++ gone2) ++ fifo_contents b2)
      by by rewrite Hcb, Hc2, app_assoc.
    destruct (Z.eqb_spec rv1 0); simpl.
    + intros Hr. apply IH in Hr as (? & ? & ? & ? & g & Hg'); [|done|lia|done..].
      split_and!; [done|congruence|lia|lia|done|]. apply Hn0; [done|lia|].
      exists ((gone1 ++ gone2) ++ g). by rewrite Hg, <- app_assoc, Hg', app_assoc.
    + intros [= <- <- <-]. split_and!; [done|congruence|lia|lia|lia|].
      apply Hn0; [done|lia|]. apply Hend. eauto.
  - intros Hr. apply IH in Hr as (? & ? & ? & ? & g & Hg'); [|done|lia|done..].
    split_and!; [done|congruence|lia|lia|done|]. apply Hn0; [done|lia|].
    exists (gone1 ++ g). by rewrite Hcb, <- app_assoc, Hg', app_assoc.
Qed.

(** After a round that did not finish, the buffer is full. *)
Lemma write_b_round_full b b1 :
  fifo_wf b -> fifo_wf b1 -> fifo_size b1 = fifo_size b ->
  lenz (fifo_contents b1) = lenz (fifo_contents b) + fifo_free_level b ->
  fifo_free_level b1 = 0 /\ fifo_fill_level b1 = fifo_size b.
Proof.
  intros Hwf Hwf1 Hs Hl. rewrite !fifo_free_level_eq, !fifo_fill_level_eq in * by done. lia.
Qed.

Lemma write_b_loop_live sched dl b size data i :
  acts consumer sched -> Forall drains sched ->
  fifo_wf b -> 0 <= i <= size -> size <= lenz data -> size < 2 ^ 64 ->
  size - i - fifo_free_level b <= lenz sched ->
  exists b', write_b_loop sched dl b size data i = Ret (0, size, b').
Proof.
  intros Hacts Hdr. revert b i. induction Hacts as [|t sched [Hb Hd] _ IH]; intros b i Hwf Hi Hdl Hs Hlen.
  all: match goal with |- exists _, write_b_loop ?s _ _ _ _ _ = _ =>
      destruct (write_b_round s dl b size data i) as (b1 & Hwf1 & Hs1 & Hc1 & ->) end; try done.
  all: rewrite ?lenz_nil, ?lenz_cons in Hlen; pose proof (fifo_levels b Hwf).
  all: destruct (Z.eqb_spec (i + Z.min (fifo_free_level b) (size - i)) size) as [->|]; [by eexists|].
  { lia. }
  assert (Hlt : fifo_free_level b < size - i) by lia.
  rewrite Z.min_l in * by lia. apply Forall_cons in Hdr as [Hdt Hdr].
  destruct (write_b_round_full b b1) as [Hf1 Hl1]; [done..| |].
  { rewrite Hc1, lenz_app, lenz_take, lenz_drop by lia. lia. }
  destruct (Hb b1 Hwf1) as (Hwf2 & Hs2 & _). pose proof (fifo_size_bounds b Hwf).
  specialize (Hdt b1 Hwf1 ltac:(lia)). pose proof (fifo_levels _ Hwf2).
  destruct (Z.eqb_spec (fifo_free_level (t_before t b1)) 0); [lia|].
  apply IH; [done..|lia|done|done|lia].
Qed.

(** The other side does nothing and the lock is free; how waits end is open. *)
Definition idle t : Prop := (forall b, t_before t b = b) /\ (forall dl, t_lock t dl = 0).

Lemma write_b_loop_idle sched dl b size data i :
  Forall idle sched -> fifo_wf b -> fifo_cancel_waits b = false ->
  0 <= i <= size -> size <= lenz data -> size < 2 ^ 64 -> fifo_free_level b < size - i ->
  write_b_loop sched dl b size data i = Fault Blocked.
Proof.
  intros Hidle. revert b i. induction Hidle as [|t sched [Hb Hlock] _ IH];
    intros b i Hwf Hcan Hi Hdl Hs Hlt.
  all: pose proof (fifo_levels b Hwf).
  all: destruct (util_write_spec b (size - i) (drop (Z.to_nat i) data)) as (b1 & Hw & Hwf1 & Hs1 & Hc1);
    [done|rewrite lenz_drop; lia|]; rewrite Z.min_l in * by lia.
  all: simpl; rewrite u64_small, Hw by lia; simpl; rewrite u64_small by lia.
  all: destruct (Z.eqb_spec (i + fifo_free_level b) size); [lia|].
  { done. }
  destruct (write_b_round_full b b1) as [Hf1 Hl1]; [done..| |].
  { rewrite Hc1, lenz_app, lenz_take, lenz_drop by lia. lia. }
  assert (Hcan1 : fifo_cancel_waits b1 = false).
  { unfold gb_util_cbuf_write in Hw. apply bind_Ret_inv in Hw as ([rv b2] & Hw & [= -> _ ->]).
    by rewrite (fifo_write_cancel_waits _ _ _ _ _ Hw). }
  pose proof (fifo_size_bounds b Hwf).
  rewrite Hb, wait_level_eq, Hlock, Hf1, Hl1. simpl.
  destruct (Z.eqb_spec (fifo_size b) 0); [lia|]. simpl. rewrite Hcan1. simpl.
  apply IH; [done..|lia|done|done|lia].
Qed.
End laws.

(** ** Correctness of the blocking transfers *)

(** A turn that does nothing, and one whose other side adds or takes one byte. *)
Definition demo_idle (rv : Z) : turn cbuf := MkTurn id (fun _ => 0) (fun _ => rv) id.

Definition demo_feed (b : cbuf) : cbuf :=
  match cbuf_write b [42] 1 with Ret (_, b') => b' | Fault _ => b end.

Definition demo_feeder : turn cbuf := MkTurn id (fun _ => 0) (fun _ => 0) demo_feed.

Lemma demo_feed_spec b :
  cbuf_wf b -> let b' := demo_feed b in
  cbuf_wf b' /\ size b' = size b /\ cancel_waits b' = cancel_waits b /\
  cbuf_contents b' = cbuf_contents b ++ (if 1 <=? cbuf_free_level b then [42] else []).
Proof.
  intros Hwf. unfold demo_feed. destruct (Z.leb_spec 1 (cbuf_free_level b)).
  - destruct (fifo_write_one b 42) as (b' & Hw & Hwf' & Hs & Hc & _); [done..|].
    simpl in *. rewrite Hw. split_and!; [done..| |done].
    by apply (cbuf_write_cancel_waits _ _ _ _ _ Hw).
  - pose proof (fifo_write_full b [42] 1 Hwf ltac:(simpl; lia)) as Hw. simpl in Hw.
    by rewrite Hw, app_nil_r.
Qed.

Lemma demo_feed_producer : producer demo_feed.
Proof. intros b Hwf. destruct (demo_feed_spec b Hwf) as (? & ? & _ & Hc). simpl. eauto. Qed.

Lemma id_producer : producer (B := cbuf) id.
Proof. intros b Hwf. split_and!; [done..|]. exists []. by rewrite app_nil_r. Qed.

Lemma demo_feeder_fills : fills demo_feeder.
Proof.
  split_and!; [done..|]. intros b Hwf Hcan. destruct (demo_feed_spec b Hwf) as (Hwf' & Hs & Hc & Hct).
  simpl. split_and!; [done|by etrans; [apply Hc|]|]. intros Hlt. unfold cbuf_size in *.
  rewrite <- (lenz_contents (demo_feed b)), Hct, lenz_app, lenz_contents, free_level_eq by done.
  destruct (Z.leb_spec 1 (size b - cbuf_fill_level b)); [|lia]. change (lenz [42]) with 1. lia.
Qed.

Definition demo_now : timespec := MkTimespec 1000 999999999.

Lemma demo_now_ok : timespec_ok demo_now.
Proof. zcompute. Qed.





(** C6: a blocking write puts a prefix of the data into the queue, in order,
    whatever the reader takes meanwhile, and returns 0 exactly when that prefix
    is all of it; once enough rounds have passed in which the reader takes
    something, it has written everything. *)
Theorem gb_util_cbuf_write_b_correct `{FifoLaws B} (now : timespec) (sched : list (turn B)) (b : B)
    (size timeout : Z) (data : list Z) :
  timespec_ok now -> acts consumer sched -> fifo_wf b -> 0 <= size <= lenz data -> size < 2 ^ 64 ->
  (forall rv n b', gb_util_cbuf_write_b now sched b size data timeout = Ret (rv, n, b') ->
     fifo_wf b' /\ 0 <= n <= size /\ (rv = 0 <-> n = size) /\
     exists gone, fifo_contents b ++ take (Z.to_nat n) data = gone ++ fifo_contents b') /\
  (Forall drains sched -> size - fifo_free_level b <= lenz sched ->
   exists b', gb_util_cbuf_write_b now sched b size data timeout = Ret (0, size, b')).
Proof.
  intros Hnow Hacts Hwf Hsize Hmax. destruct (deadline_total now timeout Hnow) as [dl Hdl].
  unfold gb_util_cbuf_write_b. rewrite Hdl, bind_ret. split.
  - intros rv n b' Hr. apply write_b_loop_spec in Hr as (? & _ & ? & ? & ?); [done..|lia|lia|lia].
  - intros Hdr Hlen. apply write_b_loop_live; [done..|lia|lia|lia|lia].
Qed.

Definition demo_take (b : cbuf) : cbuf :=
  snd (cbuf_discard b (if cbuf_is_empty b then 0 else 1)).

Definition demo_drainer : turn cbuf := MkTurn demo_take (fun _ => 0) (fun _ => 0) id.

Lemma demo_take_spec b :
  cbuf_wf b -> let b' := demo_take b in let k := if cbuf_is_empty b then 0 else 1 in
  cbuf_wf b' /\ size b' = size b /\ k <= cbuf_fill_level b /\
  cbuf_contents b' = drop (Z.to_nat k) (cbuf_contents b).
Proof.
  intros Hwf b' k. pose proof (fill_level_bounds b Hwf).
  assert (Hk : 0 <= k <= cbuf_fill_level b /\ k <= 1).
  { subst k. destruct (cbuf_is_empty b) eqn:He; [lia|].
    rewrite is_empty_iff, <- fill_level_mod in He by done. lia. }
  destruct (cbuf_discard_fits b k) as (b2 & Hd & ? & ? & ?); [done|lia|].
  subst b'. unfold demo_take. fold k. rewrite Hd. split_and!; (done || lia).
Qed.

Lemma demo_take_consumer : consumer demo_take.
Proof.
  intros b Hwf. destruct (demo_take_spec b Hwf) as (? & ? & _ & Hc). simpl in *.
  split_and!; [done..|]. rewrite Hc. eexists. symmetry. apply take_drop.
Qed.

Lemma id_consumer : consumer (B := cbuf) id.
Proof. intros b Hwf. split_and!; [done..|]. by exists []. Qed.

Lemma demo_drainer_drains : drains demo_drainer.
Proof.
  intros b Hwf Hf. destruct (demo_take_spec b Hwf) as (Hwf' & _ & Hk & Hc). simpl in *.
  rewrite is_empty_iff, <- fill_level_mod in * by done.
  rewrite <- (lenz_contents (demo_take b)), Hc, lenz_drop, lenz_contents by (done || case_match; lia).
  case_match; lia.
Qed.

Lemma gb_util_cbuf_write_b_correct_witness :
  exists b', gb_util_cbuf_write_b demo_now (replicate 2 demo_drainer) demo_cbuf 6
               [1; 2; 3; 4; 5; 6] 100 = Ret (0, 6, b').
Proof.
  apply (gb_util_cbuf_write_b_correct demo_now (replicate 2 demo_drainer) demo_cbuf 6 100 [1; 2; 3; 4; 5; 6]);
    [apply demo_now_ok|apply Forall_replicate|apply demo_cbuf_wf|zcompute|zcompute|apply Forall_replicate|zcompute].
  - split; [apply demo_take_consumer|apply id_consumer].
  - apply demo_drainer_drains.
Defined.

(** A blocking write never times out.  It waits for the fill level to
    differ from 0 while the buffer is full, which holds at once, so it does not
    wait at all: as long as the reader does nothing it goes round forever, for
    every timeout and for every outcome the waits would have. *)
Theorem gb_util_cbuf_write_b_never_times_out `{FifoLaws B} (now : timespec) (sched : list (turn B))
    (b : B) (size timeout : Z) (data : list Z) :
  timespec_ok now -> Forall idle sched -> fifo_wf b -> fifo_cancel_waits b = false ->
  size <= lenz data -> size < 2 ^ 64 -> fifo_free_level b < size ->
  gb_util_cbuf_write_b now sched b size data timeout = Fault Blocked.
Proof.
  intros Hnow Hidle Hwf Hcan Hsize Hmax Hfull. destruct (deadline_total now timeout Hnow) as [dl Hdl].
  unfold gb_util_cbuf_write_b. rewrite Hdl, bind_ret. pose proof (fifo_levels b Hwf).
  apply write_b_loop_idle; [done..|lia|lia|lia|lia].
Qed.

Lemma gb_util_cbuf_write_b_never_times_out_witness :
  gb_util_cbuf_write_b demo_now (replicate 50 (demo_idle ETIMEDOUT)) demo_cbuf 6
    [1; 2; 3; 4; 5; 6] 1 = Fault Blocked.
Proof.
  apply (gb_util_cbuf_write_b_never_times_out demo_now (replicate 50 (demo_idle ETIMEDOUT)) demo_cbuf 6 1
           [1; 2; 3; 4; 5; 6]);
    [apply demo_now_ok|apply Forall_replicate; by split|apply demo_cbuf_wf|zcompute..].
Defined.

(** C7: the deadline of a blocking transfer is the present time plus the
    timeout, in nanoseconds modulo 2^32: exact up to 4294 milliseconds, and too
    early from 4295 on. *)
Theorem deadline_correct (now : timespec) (timeout : Z) :
  timespec_ok now -> 0 < timeout < 2 ^ 32 ->
  exists ts, deadline now timeout = Ret (Some ts) /\ 0 <= tv_nsec ts < NSEC_PER_SEC /\
    nanoseconds ts = nanoseconds now + (timeout * 1000000) mod 2 ^ 32 /\
    (nanoseconds ts = nanoseconds now + timeout * 1000000 <-> timeout <= 4294).
Proof.
  intros Hnow Ht. unfold deadline. destruct (Z.eqb_spec timeout 0); [lia|].
  destruct (timespec_add_ns_spec now (u32 (u32 (timeout * 1000) * 1000))) as (ts & -> & Hns & Hn);
    [done|apply u32_range|].
  assert (Hm : u32 (u32 (timeout * 1000) * 1000) = (timeout * 1000000) mod 2 ^ 32).
  { unfold u32. rewrite Zmult_mod_idemp_l. f_equal. lia. }
  rewrite Hm in Hns. exists ts. split; [done|]. split; [done|]. split; [done|].
  rewrite Hns. split; intros; zdm.
Qed.

Lemma deadline_correct_witness :
  exists ts, deadline demo_now 5000 = Ret (Some ts) /\
    nanoseconds ts = nanoseconds demo_now + 705032704.
Proof.
  destruct (deadline_correct demo_now 5000) as (ts & H & _ & Hn & _); [apply demo_now_ok|zcompute|].
  exists ts. split; [exact H|exact Hn].
Defined.
