(* ===== verification/State.v ===== *)
(** * Programs with state

    The control code of the UART backend, of the Open SoC Debug library and of
    the boot loader changes a state and may stop with a fault.  [M S A] is such
    a program; [wp] is its weakest precondition: the result and the final state
    satisfy [Q], and a fault, if the program ends in one, satisfies [E]. *)

From S2P Require Import Prelude.

Definition M (S A : Type) : Type := S -> outcome (A * S).

#[export] Instance M_ret {S} : MRet (M S) := fun A a s => Ret (a, s).
#[export] Instance M_bind {S} : MBind (M S) := fun A B f m s =>
  match m s with Ret (a, s') => f a s' | Fault e => Fault e end.

Section ops.
Context {S : Type}.

Definition fault_with {A} (e : fault) : M S A := fun _ => Fault e.
Definition gets {A} (f : S -> A) : M S A := fun s => Ret (f s, s).
Definition modify (f : S -> S) : M S unit := fun s => Ret (tt, f s).
Definition lift {A} (m : outcome A) : M S A := fun s =>
  match m with Ret a => Ret (a, s) | Fault e => Fault e end.
Definition m_assert (b : bool) : M S unit := lift (c_assert b).

Definition wp {A} (m : M S A) (E : fault -> Prop) (Q : A -> S -> Prop) (s : S) : Prop :=
  match m s with Ret (a, s') => Q a s' | Fault e => E e end.

Lemma wp_bind {A B} (m : M S A) (f : A -> M S B) E Q s :
  wp m E (fun a s' => wp (f a) E Q s') s -> wp (m ≫= f) E Q s.
Proof. unfold wp, mbind, M_bind. by destruct (m s) as [[a s']|e]. Qed.

Lemma wp_ret {A} (a : A) E (Q : A -> S -> Prop) s : Q a s -> wp (mret a) E Q s.
Proof. done. Qed.

Lemma wp_gets {A} (f : S -> A) E (Q : A -> S -> Prop) s : Q (f s) s -> wp (gets f) E Q s.
Proof. done. Qed.

Lemma wp_modify (f : S -> S) E Q s : Q tt (f s) -> wp (modify f) E Q s.
Proof. done. Qed.

Lemma wp_fault {A} e (E : fault -> Prop) (Q : A -> S -> Prop) s : E e -> wp (fault_with e) E Q s.
Proof. done. Qed.

Lemma wp_lift {A} (a : A) (m : outcome A) E (Q : A -> S -> Prop) s :
  m = Ret a -> Q a s -> wp (lift m) E Q s.
Proof. by intros ->. Qed.

Lemma wp_assert (b : bool) E (Q : unit -> S -> Prop) s : b = true -> Q tt s -> wp (m_assert b) E Q s.
Proof. by intros ->. Qed.

Lemma wp_mono {A} (m : M S A) E E' (Q Q' : A -> S -> Prop) s :
  wp m E Q s -> (forall e, E e -> E' e) -> (forall a s', Q a s' -> Q' a s') -> wp m E' Q' s.
Proof. unfold wp. destruct (m s) as [[a s']|e]; auto. Qed.

(** What [wp] says about a run that ends. *)
Lemma wp_Ret {A} (m : M S A) E Q s a s' : wp m E Q s -> m s = Ret (a, s') -> Q a s'.
Proof. unfold wp. intros H Hr. by rewrite Hr in H. Qed.

Lemma wp_Fault {A} (m : M S A) E (Q : A -> S -> Prop) s e : wp m E Q s -> m s = Fault e -> E e.
Proof. unfold wp. intros H Hr. by rewrite Hr in H. Qed.
(** A run of a sequence, step by step. *)
Lemma run_bind {A B} (m : M S A) (f : A -> M S B) s a s' :
  m s = Ret (a, s') -> (m ≫= f) s = f a s'.
Proof. unfold mbind, M_bind. by intros ->. Qed.

Lemma run_bind_Fault {A B} (m : M S A) (f : A -> M S B) s e :
  m s = Fault e -> (m ≫= f) s = Fault e.
Proof. unfold mbind, M_bind. by intros ->. Qed.

(** A run that cannot fault ends. *)
Lemma wp_total {A} (m : M S A) (Q : A -> S -> Prop) s :
  wp m (fun _ => False) Q s -> exists a s', m s = Ret (a, s') /\ Q a s'.
Proof. unfold wp. destruct (m s) as [[a s']|e]; [eauto|done]. Qed.
End ops.

(** The next call of a program, and its end. *)
Ltac wp_step :=
  first [ apply wp_bind | apply wp_ret | apply wp_gets | apply wp_modify
        | apply wp_assert; [done || lia |] ].
Ltac wp_steps := repeat (wp_step; cbv beta).
