(* ===== verification/Uart.v ===== *)
(** * The UART backend of GLIP: opensocdebug/glip/src/backend_uart/sw/backend_uart.c

    The serial line carries data bytes and control messages in both directions;
    a data byte 0xfe is doubled, and 0xfe followed by anything else starts a
    control message.  Each side may send only as many data bytes as the other
    side has granted: [credit] is what we granted, [debt] what we were granted.

    The serial line is a [port]: the bytes that arrive, the bytes sent, and for
    every system call of the future how it ends.  [b_user] are the reads of the
    library's user that happen while the backend thread sleeps. *)

From S2P Require Import Prelude.
From S2P Require Import Fifo.
From S2P Require Import Cbuf.
From S2P Require Import GlipUtil.
From S2P Require Import State.

(** ** The serial line *)

Inductive sys_event : Type :=
  | SysBytes (k : Z)      (* the call transfers at most [k] bytes *)
  | SysError (errno : Z).

(** [struct timeval] *)
Record timeval : Type := MkTimeval { tvu_sec : Z; tvu_usec : Z }.

Record port : Type := MkPort {
  p_line : list Z;            (* bytes that arrive *)
  p_sent : list Z;            (* bytes sent so far *)
  p_reads : list sys_event;   (* outcomes of the next calls of read() *)
  p_writes : list sys_event;  (* outcomes of the next calls of write() *)
  p_clock : list timeval;     (* results of the next calls of gettimeofday() *)
  p_ioctls : list Z;          (* results of the next calls of ioctl() *)
  p_speed : Z                 (* the speed the line has been set to *)
}.

(** ** The backend context *)

Record glip_backend_ctx (B : Type) : Type := MkCtx {
  b_port : port;
  speed : Z;
  fifo_width : Z;
  input_buffer : B;
  output_buffer : B;
  debt : Z;
  credit : Z;
  reset_request : Z;
  term_request : Z;
  b_user : list (B -> B)
}.
Arguments MkCtx {B} _ _ _ _ _ _ _ _ _ _.
Arguments b_port {B} _.
Arguments speed {B} _.
Arguments fifo_width {B} _.
Arguments input_buffer {B} _.
Arguments output_buffer {B} _.
Arguments debt {B} _.
Arguments credit {B} _.
Arguments reset_request {B} _.
Arguments term_request {B} _.
Arguments b_user {B} _.

Definition UART_MAX_TRANCHE : Z := 0x3fff.
Definition TMP_BUFFER_SIZE : Z := 256.
Definition UART_BUF_SIZE : Z := 32 * 1024.

Section fields.
Context {B : Type}.
Implicit Type c : glip_backend_ctx B.

Definition set_port (p : port) c : glip_backend_ctx B :=
  MkCtx p (speed c) (fifo_width c) (input_buffer c) (output_buffer c) (debt c) (credit c)
    (reset_request c) (term_request c) (b_user c).
Definition set_speed (x : Z) c : glip_backend_ctx B :=
  MkCtx (b_port c) x (fifo_width c) (input_buffer c) (output_buffer c) (debt c) (credit c)
    (reset_request c) (term_request c) (b_user c).
Definition set_fifo_width (x : Z) c : glip_backend_ctx B :=
  MkCtx (b_port c) (speed c) x (input_buffer c) (output_buffer c) (debt c) (credit c)
    (reset_request c) (term_request c) (b_user c).
Definition set_input (b : B) c : glip_backend_ctx B :=
  MkCtx (b_port c) (speed c) (fifo_width c) b (output_buffer c) (debt c) (credit c)
    (reset_request c) (term_request c) (b_user c).
Definition set_output (b : B) c : glip_backend_ctx B :=
  MkCtx (b_port c) (speed c) (fifo_width c) (input_buffer c) b (debt c) (credit c)
    (reset_request c) (term_request c) (b_user c).
Definition set_debt (x : Z) c : glip_backend_ctx B :=
  MkCtx (b_port c) (speed c) (fifo_width c) (input_buffer c) (output_buffer c) x (credit c)
    (reset_request c) (term_request c) (b_user c).
Definition set_credit (x : Z) c : glip_backend_ctx B :=
  MkCtx (b_port c) (speed c) (fifo_width c) (input_buffer c) (output_buffer c) (debt c) x
    (reset_request c) (term_request c) (b_user c).
Definition set_requests (r t : Z) c : glip_backend_ctx B :=
  MkCtx (b_port c) (speed c) (fifo_width c) (input_buffer c) (output_buffer c) (debt c) (credit c)
    r t (b_user c).
Definition set_user (u : list (B -> B)) c : glip_backend_ctx B :=
  MkCtx (b_port c) (speed c) (fifo_width c) (input_buffer c) (output_buffer c) (debt c) (credit c)
    (reset_request c) (term_request c) u.
End fields.

(** ** System calls *)

(** [read(fd, buf, n)]: the return value, [errno], the bytes read. *)
Definition sys_read (n : Z) (p : port) : outcome (Z * Z * list Z * port) :=
  match p_reads p with
  | [] => Fault Blocked
  | SysBytes k :: ev =>
      let k := Z.max 0 (Z.min (Z.min k n) (lenz (p_line p))) in
      Ret (k, 0, take (Z.to_nat k) (p_line p),
           MkPort (drop (Z.to_nat k) (p_line p)) (p_sent p) ev (p_writes p) (p_clock p)
             (p_ioctls p) (p_speed p))
  | SysError e :: ev =>
      Ret (-1, e, [], MkPort (p_line p) (p_sent p) ev (p_writes p) (p_clock p) (p_ioctls p) (p_speed p))
  end.

(** [write(fd, d, lenz d)]. *)
Definition sys_write (d : list Z) (p : port) : outcome (Z * Z * port) :=
  match p_writes p with
  | [] => Fault Blocked
  | SysBytes k :: ev =>
      let k := Z.max 0 (Z.min k (lenz d)) in
      Ret (k, 0, MkPort (p_line p) (p_sent p ++ take (Z.to_nat k) d) (p_reads p) ev (p_clock p)
                   (p_ioctls p) (p_speed p))
  | SysError e :: ev =>
      Ret (-1, e, MkPort (p_line p) (p_sent p) (p_reads p) ev (p_clock p) (p_ioctls p) (p_speed p))
  end.

Definition gettimeofday (p : port) : outcome (timeval * port) :=
  match p_clock p with
  | [] => Fault Blocked
  | t :: ts =>
      Ret (t, MkPort (p_line p) (p_sent p) (p_reads p) (p_writes p) ts (p_ioctls p) (p_speed p))
  end.

(** [ioctl(fd, TCGETS2, &tty)]. *)
Definition ioctl_get (p : port) : outcome (Z * port) :=
  match p_ioctls p with
  | [] => Fault Blocked
  | rv :: q =>
      Ret (rv, MkPort (p_line p) (p_sent p) (p_reads p) (p_writes p) (p_clock p) q (p_speed p))
  end.

(** [ioctl(fd, TCSETS2, &tty)]: on success the line runs at the speed in [tty]. *)
Definition ioctl_set (spd : Z) (p : port) : outcome (Z * port) :=
  match p_ioctls p with
  | [] => Fault Blocked
  | rv :: q =>
      Ret (rv, MkPort (p_line p) (p_sent p) (p_reads p) (p_writes p) (p_clock p) q
                 (if rv =? 0 then spd else p_speed p))
  end.

(** ** Blocking transfers on the line *)

(** The sum and product of [int]s and [long]s; [ms * 1000] is an [int]. *)
Definition elapsed (start current : timeval) : Z :=
  let diff_sec := s64 (tvu_sec current - tvu_sec start) in
  let diff_usec := s64 (tvu_usec current - tvu_usec start) in
  let '(diff_sec, diff_usec) :=
    if tvu_usec current <? tvu_usec start then (diff_sec + 1, diff_usec + 1000000)
    else (diff_sec, diff_usec) in
  s64 (diff_sec * 1000000 + diff_usec).

Definition check_timeout (start : timeval) (ms : Z) (p : port) : outcome (Z * port) :=
  '(tval_current, p) ← gettimeofday p;
  if (s32 ms * 1000 <? - 2 ^ 31) || (2 ^ 31 <=? s32 ms * 1000) then Fault UndefArith else
  Ret (if s32 ms * 1000 <? elapsed start tval_current then - ETIMEDOUT else 0, p).

(** The loop of [read_blocking]; [got] are the bytes read so far.  Every round
    takes one event, so the fuel is one more than there are events. *)
Fixpoint read_loop (fuel : nat) (start : option timeval) (size timeout : Z) (got : list Z)
    (p : port) : outcome (Z * list Z * port) :=
  match fuel with
  | O => Fault Blocked
  | S f =>
      '(rv, errno, d, p) ← sys_read (size - lenz got) p;
      let got := if 0 <=? rv then got ++ d else got in
      if (rv =? -1) && negb (errno =? EAGAIN) then Ret (-1, got, p) else
      '(late, p) ← match start with
                   | Some start => check_timeout start timeout p
                   | None => Ret (0, p)
                   end;
      if negb (late =? 0) then Ret (- ETIMEDOUT, got, p)
      else if negb (lenz got =? size) then read_loop f start size timeout got p
      else Ret (0, got, p)
  end.

(** The return value and the bytes, whose number is [*size_read]. *)
Definition read_blocking (size timeout : Z) (p : port) : outcome (Z * list Z * port) :=
  if 0 <? timeout then
    '(start, p) ← gettimeofday p;
    read_loop (S (length (p_reads p))) (Some start) size timeout [] p
  else read_loop (S (length (p_reads p))) None size timeout [] p.

Fixpoint write_loop (fuel : nat) (start : option timeval) (timeout : Z) (buffer : list Z)
    (size_written : Z) (p : port) : outcome (Z * Z * port) :=
  match fuel with
  | O => Fault Blocked
  | S f =>
      '(rv, errno, p) ← sys_write (drop (Z.to_nat size_written) buffer) p;
      let size_written := if 0 <=? rv then size_written + rv else size_written in
      if (rv =? -1) && negb (errno =? EAGAIN) then Ret (-1, size_written, p) else
      '(late, p) ← match start with
                   | Some start => check_timeout start timeout p
                   | None => Ret (0, p)
                   end;
      if negb (late =? 0) then Ret (- ETIMEDOUT, size_written, p)
      else if negb (size_written =? lenz buffer) then write_loop f start timeout buffer size_written p
      else Ret (0, size_written, p)
  end.

(** The return value and [*size_written]. *)
Definition write_blocking (buffer : list Z) (timeout : Z) (p : port) : outcome (Z * Z * port) :=
  if 0 <? timeout then
    '(start, p) ← gettimeofday p;
    write_loop (S (length (p_writes p))) (Some start) timeout buffer 0 p
  else write_loop (S (length (p_writes p))) None timeout buffer 0 p.

(** ** The protocol *)

Section uart.
Context {B : Type} `{!ByteFifo B}.
Local Abbreviation ctx := (glip_backend_ctx B).
Local Abbreviation MU := (M ctx).

Definition on_port {A} (f : port -> outcome (A * port)) : MU A := fun c =>
  '(a, p) ← f (b_port c); Ret (a, set_port p c).

Definition reset_logic (state : Z) : MU Z :=
  '(rv, _) ← on_port (write_blocking [0xfe; u8 (((state &&& 1) <<< 1) ||| 0x81)] 0);
  mret rv.

Definition reset_com (state : Z) : MU Z :=
  '(rv, _) ← on_port (write_blocking [0xfe; u8 (((state &&& 1) <<< 1) ||| 0x85)] 0);
  mret rv.

Definition debt_tranche (first second : Z) : Z := (((first >>> 1) &&& 0x7f) <<< 8) ||| second.

Definition update_debt (first second : Z) : MU unit :=
  modify (fun c => set_debt (u64 (debt c + debt_tranche first second)) c).

(** The three bytes of a message that grants [n] bytes. *)
Definition credit_message (n : Z) : list Z :=
  [0xfe; u8 (0x1 ||| ((n >>> 8) <<< 1)); u8 (n &&& 0xff)].

Definition update_credit : MU Z :=
  c ← gets id;
  let target_credit_add :=
    u64 (min (u64 (fifo_free_level (input_buffer c) - credit c)) UART_MAX_TRANCHE) in
  if target_credit_add =? 0 then mret (-1) else
  '(rv, _) ← on_port (write_blocking (credit_message target_credit_add) 0);
  if negb (rv =? 0) then mret (-1) else
  _ ← modify (set_credit (u64 (credit c + target_credit_add)));
  mret 0.

(** [assert(ctx->credit > 0); rv = cbuf_write(..., 1); assert(rv == 0); ctx->credit--] *)
Definition data_word (x : Z) : MU unit :=
  c ← gets id;
  _ ← m_assert (0 <? credit c);
  '(rv, b) ← lift (fifo_write (input_buffer c) [x] 1);
  _ ← m_assert (rv =? 0);
  modify (fun c => set_credit (u64 (credit c - 1)) (set_input b c)).

(** [usleep(10)]: the library's user may read from the input buffer. *)
Definition usleep : MU unit := fun c =>
  match b_user c with
  | [] => Fault Blocked
  | f :: fs => Ret (tt, set_user fs (set_input (f (input_buffer c)) c))
  end.

(** [while (ctx->credit < 2) { usleep(10); update_credit(ctx); }]: every round
    takes one action of the user. *)
Fixpoint credit_loop (fuel : nat) : MU unit :=
  c ← gets id;
  if credit c <? 2 then
    match fuel with
    | O => fault_with Blocked
    | S f => _ ← usleep; _ ← update_credit; credit_loop f
    end
  else mret tt.

(** [rv = read_blocking(ctx->fd, &buffer[at], n, &actual, 0); assert(rv == 0)] *)
Definition read_more (buffer : list Z) (off n : Z) : MU (list Z) :=
  '(rv, got) ← on_port (read_blocking n 0);
  _ ← m_assert (rv =? 0);
  lift (store buffer off got).

(** One round of the loop of [parse_buffer]: the buffer and the next index. *)
Definition parse_item (buffer : list Z) (size i : Z) : MU (list Z * Z) :=
  x ← lift (get buffer i);
  if x =? 0xfe then
    if i + 1 <? size then
      y ← lift (get buffer (i + 1));
      if y =? 0xfe then
        _ ← data_word x; mret (buffer, i + 2)
      else if i + 2 <? size then
        z ← lift (get buffer (i + 2));
        _ ← update_debt y z; mret (buffer, i + 3)
      else
        buffer ← read_more buffer 0 1;
        y ← lift (get buffer (i + 1));
        z ← lift (get buffer 0);
        _ ← update_debt y z; mret (buffer, i + 2)
    else
      n ← gets (fun c => length (b_user c));
      _ ← credit_loop (S n);
      buffer ← read_more buffer 0 1;
      y ← lift (get buffer 0);
      if y =? 0xfe then
        _ ← data_word y; mret (buffer, i + 1)
      else
        buffer ← read_more buffer 1 1;
        y ← lift (get buffer 0);
        z ← lift (get buffer 1);
        _ ← update_debt y z; mret (buffer, i + 1)
  else
    _ ← data_word x; mret (buffer, i + 1).

(** Every round advances the index: [size] rounds are enough. *)
Fixpoint parse_loop (fuel : nat) (buffer : list Z) (size i : Z) : MU (list Z) :=
  if i <? size then
    match fuel with
    | O => fault_with Blocked
    | S f => '(buffer, i) ← parse_item buffer size i; parse_loop f buffer size i
    end
  else mret buffer.

(** The result is what the caller's buffer holds afterwards. *)
Definition parse_buffer (buffer : list Z) (size : Z) : MU (list Z) :=
  parse_loop (Z.to_nat size) buffer size 0.

(** ** The thread *)

(** [for (i = 0; i < size; i++) ...]: one word and, for 0xfe, its repetition. *)
Definition write_word (x : Z) : MU unit :=
  '(rv, actual) ← on_port (write_blocking [x] 0);
  _ ← m_assert (rv =? 0);
  m_assert (actual =? 1).

Fixpoint write_words (d : list Z) : MU unit :=
  match d with
  | [] => mret tt
  | x :: d =>
      _ ← write_word x;
      _ ← (if x =? 0xfe then write_word x else mret tt);
      write_words d
  end.

Definition thread_reset : MU unit :=
  rv ← reset_logic 1;
  _ ← m_assert (rv =? 0);
  rv ← reset_logic 0;
  _ ← m_assert (rv =? 0);
  modify (fun c => set_requests 0 (term_request c) c).

(** [buffer] is the stack buffer of [thread_func]; its contents carry over. *)
Definition thread_read (buffer : list Z) : MU (list Z) :=
  avail ← gets (fun c => fifo_free_level (input_buffer c));
  if avail =? 0 then
    '(rv, errno, d) ← on_port (sys_read 1);
    buffer ← lift (store buffer 0 d);
    if rv =? 1 then
      x ← lift (get buffer 0);
      _ ← m_assert (x =? 0xfe);
      '(rv, got) ← on_port (read_blocking 2 0);
      buffer ← lift (store buffer 0 got);
      _ ← m_assert (rv =? 0);
      _ ← m_assert (lenz got =? 2);
      y ← lift (get buffer 0);
      z ← lift (get buffer 1);
      _ ← update_debt y z; mret buffer
    else mret buffer
  else
    let size := u64 (min avail TMP_BUFFER_SIZE) in
    '(rv, errno, d) ← on_port (sys_read size);
    buffer ← lift (store buffer 0 d);
    if 0 <? rv then parse_buffer buffer rv else mret buffer.

Definition thread_write (buffer : list Z) : MU (list Z) :=
  c ← gets id;
  if 0 <? debt c then
    let size := u64 (min (debt c) TMP_BUFFER_SIZE) in
    let avail := fifo_fill_level (output_buffer c) in
    if 0 <? avail then
      let size := u64 (min avail size) in
      '(rv, d, b) ← lift (fifo_read (output_buffer c) size);
      _ ← m_assert (negb (rv =? - EINVAL));
      _ ← modify (set_output b);
      buffer ← lift (store buffer 0 d);
      _ ← write_words d;
      _ ← modify (fun c => set_debt (u64 (debt c - size)) c);
      mret buffer
    else mret buffer
  else mret buffer.

(** One round of [while (1)]; [None] is the [break]. *)
Definition thread_round (buffer : list Z) : MU (option (list Z)) :=
  c ← gets id;
  _ ← (if reset_request c =? 1 then thread_reset else mret tt);
  c ← gets id;
  if negb (term_request c =? 0) then mret None else
  buffer ← thread_read buffer;
  buffer ← thread_write buffer;
  c ← gets id;
  _ ← (if credit c <? UART_MAX_TRANCHE then _ ← update_credit; mret tt else mret tt);
  mret (Some buffer).

(** Between two rounds the library's user reads, writes and makes requests. *)
Fixpoint thread_func (users : list (ctx -> ctx)) (buffer : list Z) : MU unit :=
  next ← thread_round buffer;
  match next, users with
  | None, _ => mret tt
  | Some _, [] => fault_with Blocked
  | Some buffer, f :: users => _ ← modify f; thread_func users buffer
  end.

(** ** Start, reset and stop *)

(** [do { rv = read(fd, buffer, n); } while (rv > 0);] *)
Fixpoint drain_loop (fuel : nat) (n : Z) : MU unit :=
  match fuel with
  | O => fault_with Blocked
  | S f => '(rv, errno, d) ← on_port (sys_read n); if 0 <? rv then drain_loop f n else mret tt
  end.

Definition drain (n : Z) : MU unit :=
  k ← gets (fun c => length (p_reads (b_port c)));
  drain_loop (S k) n.

Definition reset : MU Z :=
  rv ← reset_com 1;
  if negb (rv =? 0) then mret (-1) else
  _ ← drain 16;
  rv ← reset_com 0;
  if negb (rv =? 0) then mret (-1) else
  c ← gets id;
  let '(rv, b) := fifo_discard (input_buffer c) (fifo_fill_level (input_buffer c)) in
  _ ← modify (set_input b);
  _ ← m_assert (rv =? 0);
  let '(rv, b) := fifo_discard (output_buffer c) (fifo_fill_level (output_buffer c)) in
  _ ← modify (set_output b);
  _ ← m_assert (rv =? 0);
  _ ← modify (set_debt 0);
  _ ← update_credit;
  '(rv, debt) ← on_port (read_blocking 3 0);
  _ ← m_assert (rv =? 0);
  debt ← (if negb (debt !z 0 =? 0xfe) then
            '(rv, last) ← on_port (read_blocking 1 0);
            _ ← m_assert (rv =? 0);
            mret [debt !z 1; debt !z 2; last !z 0]
          else mret debt);
  _ ← m_assert (debt !z 0 =? 0xfe);
  _ ← update_debt (debt !z 1) (debt !z 2);
  mret 0.

(** One attempt at a speed: [None] is an ioctl that failed, else whether the
    target answered.  [stack] is what the local array held before. *)
Definition open_attempt (stack : list Z) (autodetect_try : option Z) : MU (option bool) :=
  ok ← match autodetect_try with
       | None => mret true
       | Some s =>
           rv ← on_port ioctl_get;
           if negb (rv =? 0) then mret false else
           _ ← modify (set_speed (u32 s));
           rv ← on_port (ioctl_set (u32 s));
           mret (rv =? 0)
       end;
  if negb ok then mret None else
  _ ← reset_com 1;
  _ ← drain 128;
  _ ← reset_com 0;
  '(rv, got) ← on_port (read_blocking 2 1000);
  debt ← lift (store stack 0 got);
  if rv =? - ETIMEDOUT then mret (Some false) else
  mret (Some (negb (negb (debt !z 0 =? 0xfe) && negb (debt !z 1 =? 0xfe)))).

Definition autodetect_candidates : list Z :=
  [4000000; 3000000; 2000000; 1000000; 500000; 230400; 115200; 57600; 38400; 19200; 9600; 0].

(** [*autodetect_try] is [s], the candidates after it are [rest]. *)
Fixpoint autodetect_loop (stack : list Z) (s : Z) (rest : list Z) : MU Z :=
  r ← open_attempt stack (Some s);
  match r with
  | None => mret (-1)
  | Some true => mret 0
  | Some false =>
      match rest with
      | [] => fault_with OutOfBounds
      | s' :: rest => if s' =? 0 then mret (-1) else autodetect_loop stack s' rest
      end
  end.

(** [speed_option] is the option "speed", [fd] what open() returns. *)
Definition gb_uart_open (stack : list Z) (speed_option : option Z) (fd num_channels : Z) : MU Z :=
  _ ← modify (set_requests 0 0);
  if negb (num_channels =? 1) then mret (-1) else
  _ ← modify (set_speed (default 115200 speed_option));
  if fd <? 0 then mret (-1) else
  rv ← on_port ioctl_get;
  if negb (rv =? 0) then mret (-1) else
  spd ← gets speed;
  rv ← on_port (ioctl_set spd);
  if negb (rv =? 0) then mret (-1) else
  r ← open_attempt stack None;
  rv ← match r with
       | None => mret (-1)
       | Some true => mret 0
       | Some false =>
           match autodetect_candidates with
           | [] => fault_with OutOfBounds
           | s :: rest => autodetect_loop stack s rest
           end
       end;
  if negb (rv =? 0) then mret rv else
  _ ← reset;
  mret 0.

(** The thread is cancelled and joined, then the device is closed. *)
Definition gb_uart_close : MU Z :=
  _ ← modify (fun c => set_requests (reset_request c) 1 c);
  mret 0.

(** The busy wait for the backend thread, which acts between two tests. *)
Fixpoint reset_wait (threads : list (ctx -> ctx)) : MU unit :=
  c ← gets id;
  if reset_request c =? 1 then
    match threads with
    | [] => fault_with Blocked
    | f :: threads => _ ← modify f; reset_wait threads
    end
  else mret tt.

Definition gb_uart_logic_reset (threads : list (ctx -> ctx)) : MU Z :=
  c ← gets id;
  _ ← m_assert (reset_request c =? 0);
  _ ← modify (fun c => set_requests 1 (term_request c) c);
  _ ← reset_wait threads;
  mret 0.

(** ** The functions of the GLIP interface *)

(** The return value, the bytes, [*size_read]. *)
Definition gb_uart_read (channel size size_read : Z) : MU (Z * list Z * Z) :=
  if 0 <? channel then mret (-1, [], size_read) else
  c ← gets id;
  '(rv, got, n, b) ← lift (gb_util_cbuf_read (input_buffer c) size size_read);
  _ ← modify (set_input b);
  mret (rv, got, n).

Definition gb_uart_read_b (now : timespec) (sched : list (turn B)) (channel size size_read timeout : Z) :
    MU (Z * list Z * Z) :=
  if 0 <? channel then mret (-1, [], size_read) else
  c ← gets id;
  '(rv, got, n, b) ← lift (gb_util_cbuf_read_b now sched (input_buffer c) size timeout);
  _ ← modify (set_input b);
  mret (rv, got, n).

(** The return value and [*size_written]. *)
Definition gb_uart_write (channel size : Z) (data : list Z) (size_written : Z) : MU (Z * Z) :=
  if 0 <? channel then mret (-1, size_written) else
  c ← gets id;
  '(rv, n, b) ← lift (gb_util_cbuf_write (output_buffer c) size data);
  _ ← modify (set_output b);
  mret (rv, n).

Definition gb_uart_write_b (now : timespec) (sched : list (turn B)) (channel size : Z)
    (data : list Z) (size_written timeout : Z) : MU (Z * Z) :=
  if 0 <? channel then mret (-1, size_written) else
  c ← gets id;
  '(rv, n, b) ← lift (gb_util_cbuf_write_b now sched (output_buffer c) size data timeout);
  _ ← modify (set_output b);
  mret (rv, n).

Definition gb_uart_get_channel_count : Z := 1.

Definition gb_uart_get_fifo_width : MU Z := gets fifo_width.

Definition gb_uart_set_fifo_width (fifo_width_bytes : Z) : MU Z :=
  if negb (fifo_width_bytes =? 1) && negb (fifo_width_bytes =? 2) then mret (-1) else
  _ ← modify (set_fifo_width fifo_width_bytes);
  mret 0.
End uart.

(** ** Construction and destruction

    [mem] says which of the five allocations succeed; [p] is the line. *)

Definition gb_uart_new (mem : Z -> bool) (p : port) : outcome (Z * option (glip_backend_ctx cbuf)) :=
  if negb (mem 0) then Ret (-1, None) else
  '(rv, input) ← cbuf_init (mem 1) (mem 2) UART_BUF_SIZE;
  match rv, input with
  | 0, Some input =>
      '(rv, output) ← cbuf_init (mem 3) (mem 4) UART_BUF_SIZE;
      match rv, output with
      | 0, Some output => Ret (0, Some (MkCtx p 0 0 input output 0 0 0 0 []))
      | _, _ => Ret (-1, None)
      end
  | _, _ => Ret (-1, None)
  end.

(** The blocks given back, in order; the last one is the context itself. *)
Definition gb_uart_free (c : glip_backend_ctx cbuf) : list block :=
  snd (cbuf_free (Some (output_buffer c))) ++ snd (cbuf_free (Some (input_buffer c))) ++ [BlkStruct].
