(* ===== verification/UartStream.v ===== *)
(** * The UART backend against the protocol of the serial line

    The reference is a grammar of the byte stream: data bytes, doubled 0xfe, and
    three-byte credit messages ([parsed]).  The backend reads the stream in
    chunks of any size; the theorems say that it decodes exactly the grammar,
    whatever the chunks, that it encodes with the same grammar, and that the
    credit it has granted never exceeds the free space of the input buffer, so
    that no assertion of the thread fails. *)

From S2P Require Import Prelude.
From S2P Require Import Fifo.
From S2P Require Import Cbuf.
From S2P Require Import GlipUtil.
From S2P Require Import State.
From S2P Require Import Uart.

(** ** The grammar of the stream *)

Inductive item : Type :=
  | IData (x : Z)
  | ICredit (first second : Z).

Inductive parsed : list Z -> list item -> Prop :=
  | P_nil : parsed [] []
  | P_data x l items : x <> 0xfe -> parsed l items -> parsed (x :: l) (IData x :: items)
  | P_escaped l items : parsed l items -> parsed (0xfe :: 0xfe :: l) (IData 0xfe :: items)
  | P_credit y z l items :
      y <> 0xfe -> parsed l items -> parsed (0xfe :: y :: z :: l) (ICredit y z :: items).

Definition item_data (i : item) : list Z := match i with IData x => [x] | ICredit _ _ => [] end.
Definition data_of (items : list item) : list Z := items ≫= item_data.

Definition item_debt (i : item) : Z :=
  match i with IData _ => 0 | ICredit y z => debt_tranche y z end.
Definition debt_of (items : list item) : Z := foldr (fun i n => item_debt i + n) 0 items.

(** The complete items at the start of a chunk, and what is left of it. *)
Fixpoint decode (l : list Z) : list item * list Z :=
  match l with
  | [] => ([], [])
  | x :: l1 =>
      if x =? 0xfe then
        match l1 with
        | [] => ([], l)
        | y :: l2 =>
            if y =? 0xfe then let '(items, rest) := decode l2 in (IData x :: items, rest)
            else match l2 with
                 | [] => ([], l)
                 | z :: l3 => let '(items, rest) := decode l3 in (ICredit y z :: items, rest)
                 end
        end
      else let '(items, rest) := decode l1 in (IData x :: items, rest)
  end.

(** How data is put on the line. *)
Definition escape_byte (x : Z) : list Z := if x =? 0xfe then [x; x] else [x].
Definition escape (d : list Z) : list Z := d ≫= escape_byte.

Lemma parsed_app l1 i1 l2 i2 : parsed l1 i1 -> parsed l2 i2 -> parsed (l1 ++ l2) (i1 ++ i2).
Proof. intros H1 H2. induction H1; simpl; by try constructor. Qed.

Lemma data_of_app i1 i2 : data_of (i1 ++ i2) = data_of i1 ++ data_of i2.
Proof. apply bind_app. Qed.

Lemma debt_of_app i1 i2 : debt_of (i1 ++ i2) = debt_of i1 + debt_of i2.
Proof. induction i1 as [|i i1 IH]; simpl; [done|]. unfold debt_of in *. simpl. lia. Qed.

Lemma parsed_escape d : parsed (escape d) (IData <$> d).
Proof.
  induction d as [|x d IH]; simpl; [constructor|]. unfold escape_byte.
  destruct (Z.eqb_spec x 0xfe) as [->|]; by constructor.
Qed.

Lemma data_of_IData d : data_of (IData <$> d) = d.
Proof. induction d as [|x d IH]; simpl; [done|]. by f_equal. Qed.

Lemma debt_of_IData d : debt_of (IData <$> d) = 0.
Proof. by induction d. Qed.

(** *** Credit messages *)

Lemma debt_tranche_range y z : 0 <= z < 256 -> 0 <= debt_tranche y z < 32768.
Proof.
  intros Hz. unfold debt_tranche. rewrite lor_disjoint_add by lia.
  change 0x7f with (2 ^ 7 - 1). rewrite land_pow2_mask by lia.
  pose proof (Z.mod_pos_bound (y >>> 1) (2 ^ 7)). lia.
Qed.

Lemma credit_message_spec n :
  0 <= n <= UART_MAX_TRANCHE ->
  exists y z, credit_message n = [0xfe; y; z] /\ debt_tranche y z = n /\
    0 <= y < 0x80 /\ Z.odd y = true /\ 0 <= z < 256.
Proof.
  unfold UART_MAX_TRANCHE. intros Hn. eexists _, _. split; [done|].
  rewrite shiftr_div by lia. change 0xff with (2 ^ 8 - 1). rewrite land_pow2_mask by lia.
  rewrite (lor_disjoint_add' (n / 2 ^ 8) 1 1) by lia.
  rewrite (u8_small (n mod 2 ^ 8)) by (apply Z.mod_pos_bound; lia).
  rewrite u8_small by zdm. unfold debt_tranche. rewrite lor_disjoint_add by zdm.
  change 0x7f with (2 ^ 7 - 1). rewrite land_pow2_mask, shiftr_div by lia.
  split; [zdm|]. split; [zdm|]. split; [|apply Z.mod_pos_bound; lia].
  rewrite Z.add_comm, Z.odd_add, Z.odd_mul. by rewrite andb_false_r.
Qed.

Lemma parsed_credit_message n :
  0 <= n <= UART_MAX_TRANCHE ->
  exists y z, parsed (credit_message n) [ICredit y z] /\ debt_tranche y z = n.
Proof.
  intros Hn. destruct (credit_message_spec n Hn) as (y & z & -> & Ht & Hy & _).
  exists y, z. split; [|done]. constructor; [lia|constructor].
Qed.

(** ** Transfers on the line *)

Definition soft (e : sys_event) : Prop :=
  match e with SysBytes _ => True | SysError errno => errno = EAGAIN end.

(** The line never fails for good: it only delays or shortens transfers. *)
Definition port_ok (p : port) : Prop := Forall soft (p_reads p) /\ Forall soft (p_writes p).

(** [n] bytes arrive, each at once when it is asked for. *)
Definition reads_ready (n : nat) (p : port) : Prop :=
  exists ev evs, p_reads p = ev ++ evs /\ length ev = n /\
    Forall (fun e => exists k, e = SysBytes k /\ 1 <= k) ev /\ Z.of_nat n <= lenz (p_line p).

(** The next [n] calls of write() take up to three bytes at once. *)
Definition writes_ready (n : nat) (p : port) : Prop :=
  exists ev evs, p_writes p = ev ++ evs /\ length ev = n /\
    Forall (fun e => exists k, e = SysBytes k /\ 3 <= k) ev.

Definition after_read (n : Z) (ev : list sys_event) (p : port) : port :=
  MkPort (drop (Z.to_nat n) (p_line p)) (p_sent p) ev (p_writes p) (p_clock p) (p_ioctls p) (p_speed p).

Definition after_write (d : list Z) (ev : list sys_event) (p : port) : port :=
  MkPort (p_line p) (p_sent p ++ d) (p_reads p) ev (p_clock p) (p_ioctls p) (p_speed p).

(** A program that stops short does so only for want of events, and only when
    [bo] allows it. *)
Definition blocked_if (bo : Prop) (f : fault) : Prop := f = Blocked /\ bo.

Definition owp {A} (m : outcome A) (E : fault -> Prop) (Q : A -> Prop) : Prop :=
  match m with Ret a => Q a | Fault e => E e end.

Lemma owp_bind {A B} (m : outcome A) (f : A -> outcome B) E Q :
  owp m E (fun a => owp (f a) E Q) -> owp (m ≫= f) E Q.
Proof. by destruct m. Qed.

Lemma owp_mono {A} (m : outcome A) E E' (Q Q' : A -> Prop) :
  owp m E Q -> (forall e, E e -> E' e) -> (forall a, Q a -> Q' a) -> owp m E' Q'.
Proof. unfold owp. destruct m; auto. Qed.

Lemma sys_read_spec n p :
  port_ok p -> 0 <= n ->
  owp (sys_read n p) (fun f => f = Blocked) (fun '(rv, errno, d, p') =>
    exists ev, port_ok p' /\ (rv = -1 -> errno = EAGAIN) /\ p_line p = d ++ p_line p' /\
      lenz d <= n /\ p' = after_read (lenz d) ev p /\ (rv = -1 /\ d = [] \/ rv = lenz d)).
Proof.
  intros [Hr Hw] Hn. unfold sys_read.
  destruct (p_reads p) as [|[k|e] ev] eqn:Hev; simpl; [done| |].
  all: apply Forall_cons in Hr as [He Hr]; exists ev.
  - pose proof (lenz_nonneg (p_line p)). set (m := Z.max 0 _).
    assert (Hm : lenz (take (Z.to_nat m) (p_line p)) = m) by (rewrite lenz_take; lia).
    rewrite Hm. split_and!; [done|lia|by rewrite take_drop|lia|done|by right].
  - simpl in He. split_and!; [done..| |by left]. unfold after_read. by rewrite drop_0.
Qed.

Lemma read_loop_spec fuel size got p :
  port_ok p -> 0 <= lenz got <= size ->
  owp (read_loop fuel None size 0 got p) (fun f => f = Blocked) (fun '(rv, got', p') =>
    exists d ev, rv = 0 /\ got' = got ++ d /\ lenz got' = size /\ p_line p = d ++ p_line p' /\
      port_ok p' /\ p' = after_read (lenz d) ev p).
Proof.
  revert got p. induction fuel as [|f IH]; intros got p Hp Hg; [done|].
  simpl. apply owp_bind.
  eapply owp_mono; [apply (sys_read_spec (size - lenz got) p Hp ltac:(lia))|done|].
  intros [[[rv errno] d] p'] (ev & Hp' & Herr & Hline & Hdn & Heq & Hrv).
  pose proof (lenz_nonneg d) as Hd0. pose proof (lenz_app got d) as Hla.
  assert (Hcut : (rv =? -1) && negb (errno =? EAGAIN) = false).
  { destruct (Z.eqb_spec rv (-1)) as [->|]; [|done]. by rewrite (Herr eq_refl). }
  rewrite Hcut. simpl.
  replace (if 0 <=? rv then got ++ d else got) with (got ++ d).
  2:{ destruct Hrv as [[-> ->]| ->]; [by rewrite app_nil_r|]. by destruct (Z.leb_spec 0 (lenz d)); [|lia]. }
  destruct (Z.eqb_spec (lenz (got ++ d)) size) as [Hs|Hs]; simpl; [by exists d, ev|].
  eapply owp_mono; [apply IH; [done|lia]|done|].
  intros [[rv' got'] p''] (d' & ev' & -> & -> & Hl & Hline' & Hp'' & ->).
  exists (d ++ d'), ev'. rewrite <- app_assoc in Hl |- *. split_and!; [done..| |done|].
  - by rewrite Hline, Hline', app_assoc.
  - rewrite Heq. unfold after_read. simpl. rewrite drop_drop, lenz_app. f_equal. f_equal.
    pose proof (lenz_nonneg d'). lia.
Qed.

Definition ready (bo : Prop) (n : nat) (p : port) : Prop := bo \/ reads_ready n p.

(** Reading one byte, the way [parse_buffer] completes an item. *)
Lemma read_byte_spec bo p :
  port_ok p -> ready bo 1 p ->
  owp (read_blocking 1 0 p) (blocked_if bo) (fun '(rv, got, p') =>
    exists x ev, rv = 0 /\ got = [x] /\ p_line p = x :: p_line p' /\ port_ok p' /\
      p' = after_read 1 ev p /\ (forall n, ready bo (S n) p -> ready bo n p')).
Proof.
  intros Hp [Hbo|(ev & evs & Hev & Hl & Hk & Hline)].
  - eapply owp_mono; [apply (read_loop_spec _ 1 [] p Hp); zcompute|by split|].
    intros [[rv got] p'] (d & ev & -> & -> & Hl & Hline & Hp' & ->). simpl in Hl.
    destruct d as [|x [|y d]]; [done| |rewrite !lenz_cons in Hl; pose proof (lenz_nonneg d); lia].
    exists x, ev. split_and!; [done..|]. intros. by left.
  - destruct ev as [|e [|]]; [done| |done]. clear Hl.
    apply Forall_cons in Hk as [(k & -> & Hk) _]. destruct Hp as [Hr Hw].
    destruct (p_line p) as [|x l] eqn:Hpl; [rewrite lenz_nil in Hline; lia|].
    simpl in Hev. assert (Hmin : Z.max 0 (Z.min (Z.min k 1) (lenz (x :: l))) = 1) by lia.
    unfold read_blocking. simpl read_loop. unfold sys_read. rewrite Hev. simpl.
    change (1 - lenz []) with 1. rewrite Hpl, Hmin. simpl.
    rewrite Hev in Hr. apply Forall_cons in Hr as [_ Hr].
    exists x, evs. split_and!; [done..| |].
    + unfold after_read. by rewrite Hpl.
    + intros n [Hbo|(ev' & evs' & Hev' & Hl' & Hk' & Hline')]; [by left|right].
      rewrite Hev in Hev'. destruct ev' as [|e' ev']; [done|]. injection Hev' as <- ->.
      apply Forall_cons in Hk' as [_ Hk']. exists ev', evs'. simpl. split_and!; [done|by injection Hl'|done|].
      rewrite Hpl, lenz_cons in Hline'. change (drop 0 l) with l. lia.
Qed.

(** Writing: everything is sent, in order. *)
Lemma sys_write_spec d p :
  port_ok p ->
  owp (sys_write d p) (fun f => f = Blocked) (fun '(rv, errno, p') =>
    exists k ev, 0 <= k <= lenz d /\ port_ok p' /\ (rv = -1 -> errno = EAGAIN) /\
      p' = after_write (take (Z.to_nat k) d) ev p /\ (rv = -1 /\ k = 0 \/ rv = k)).
Proof.
  intros [Hr Hw]. pose proof (lenz_nonneg d). unfold sys_write.
  destruct (p_writes p) as [|[k|e] ev] eqn:Hev; simpl; [done| |].
  all: apply Forall_cons in Hw as [He Hw].
  - exists (Z.max 0 (Z.min k (lenz d))), ev. split_and!; [lia..|done|lia|done|by right].
  - simpl in He. exists 0, ev. split_and!; [lia..|done|done|done| |by left].
    unfold after_write. by rewrite app_nil_r.
Qed.

Lemma write_loop_spec fuel d n p :
  port_ok p -> 0 <= n <= lenz d ->
  owp (write_loop fuel None 0 d n p) (fun f => f = Blocked) (fun '(rv, n', p') =>
    exists ev, rv = 0 /\ n' = lenz d /\ port_ok p' /\ p' = after_write (drop (Z.to_nat n) d) ev p).
Proof.
  revert n p. induction fuel as [|f IH]; intros n p Hp Hn; [done|].
  simpl. apply owp_bind.
  eapply owp_mono; [apply (sys_write_spec (drop (Z.to_nat n) d) p Hp)|done|].
  intros [[rv errno] p'] (k & ev & Hk & Hp' & Herr & Heq & Hrv).
  rewrite lenz_drop in Hk by lia.
  assert (Hcut : (rv =? -1) && negb (errno =? EAGAIN) = false).
  { destruct (Z.eqb_spec rv (-1)) as [->|]; [|done]. by rewrite (Herr eq_refl). }
  rewrite Hcut. simpl. replace (if 0 <=? rv then n + rv else n) with (n + k) by (case_match; lia).
  destruct (Z.eqb_spec (n + k) (lenz d)) as [Hs|Hs]; simpl.
  - exists ev. split_and!; [done..|]. rewrite Heq, take_ge; [done|]. rewrite length_drop. unfold lenz in Hs. lia.
  - eapply owp_mono; [apply IH; [done|lia]|done|].
    intros [[rv' n'] p''] (ev' & -> & -> & Hp'' & ->). exists ev'. split_and!; [done..|].
    rewrite Heq. unfold after_write. simpl. f_equal. rewrite <- app_assoc. f_equal.
    replace (Z.to_nat (n + k)) with (Z.to_nat n + Z.to_nat k)%nat by lia.
    by rewrite <- drop_drop, take_drop.
Qed.

Definition wready (bo : Prop) (n : nat) (p : port) : Prop := bo \/ writes_ready n p.

Lemma wready_weaken bo n p : wready bo (S n) p -> wready bo n p.
Proof.
  intros [Hbo|(ev & evs & Hev & Hl & Hk)]; [by left|right].
  exists (take n ev), (drop n ev ++ evs).
  rewrite app_assoc, take_drop. split_and!; [done|rewrite length_take; lia|by apply Forall_take].
Qed.

Lemma write_blocking_spec bo d p :
  port_ok p -> 1 <= lenz d <= 3 -> wready bo 1 p ->
  owp (write_blocking d 0 p) (blocked_if bo) (fun '(rv, n, p') =>
    exists ev, rv = 0 /\ n = lenz d /\ port_ok p' /\ p' = after_write d ev p /\
      (forall n, wready bo (S n) p -> wready bo n p')).
Proof.
  intros Hp Hd [Hbo|(ev & evs & Hev & Hl & Hk)].
  - eapply owp_mono; [apply (write_loop_spec _ d 0 p Hp); lia|by split|].
    intros [[rv n] p'] (ev & -> & -> & Hp' & ->). exists ev. rewrite drop_0.
    split_and!; [done..|]. intros. by left.
  - destruct ev as [|e [|]]; [done| |done]. clear Hl.
    apply Forall_cons in Hk as [(k & -> & Hk) _]. destruct Hp as [Hr Hw]. simpl in Hev.
    assert (Hmin : Z.max 0 (Z.min k (lenz d)) = lenz d) by lia.
    unfold write_blocking. simpl write_loop. unfold sys_write. rewrite Hev. simpl.
    rewrite drop_0, Hmin. simpl. destruct (Z.leb_spec 0 (lenz d)); [|lia].
    destruct (Z.eqb_spec (lenz d) (-1)); [lia|]. simpl. rewrite Z.eqb_refl. simpl.
    rewrite Hev in Hw. apply Forall_cons in Hw as [_ Hw]. exists evs. split_and!; [done..| |].
    + unfold after_write. rewrite take_ge; [done|]. unfold lenz. lia.
    + intros m [Hbo|(ev' & evs' & Hev' & Hl' & Hk')]; [by left|right].
      rewrite Hev in Hev'. destruct ev' as [|e' ev']; [done|]. injection Hev' as <- ->.
      apply Forall_cons in Hk' as [_ Hk']. exists ev', evs'. by injection Hl'.
Qed.

(** ** The state of the thread *)

Section stream.
Context `{FifoLaws B}.
Local Abbreviation ctx := (glip_backend_ctx B).
Implicit Type c : ctx.

(** Buffers are sound, the credit granted fits into the input buffer, and the
    line does not fail. *)
Record uart_ok c : Prop := {
  ok_port : port_ok (b_port c);
  ok_input : fifo_wf (input_buffer c);
  ok_output : fifo_wf (output_buffer c);
  ok_credit : 0 <= credit c <= fifo_free_level (input_buffer c);
  ok_debt : 0 <= debt c;
  ok_user : Forall consumer (b_user c);
  ok_line : Forall is_byte (p_line (b_port c))
}.

(** From [c] to [c']: [extra] has been read from the line, [items] have taken
    effect, the user may have read from the input buffer, credit messages may
    have been sent, and nothing else has changed. *)
Record effect c (extra : list Z) (items : list item) c' : Prop := {
  e_line : p_line (b_port c) = extra ++ p_line (b_port c');
  e_input : exists gone, fifo_contents (input_buffer c) ++ data_of items
                         = gone ++ fifo_contents (input_buffer c');
  e_debt : debt c' = debt c + debt_of items;
  e_grants : exists grants, Forall (fun g => 0 < g <= UART_MAX_TRANCHE) grants /\
      p_sent (b_port c') = p_sent (b_port c) ++ (grants ≫= credit_message) /\
      credit c' = credit c + foldr Z.add 0 grants - lenz (data_of items);
  e_output : output_buffer c' = output_buffer c;
  e_requests : reset_request c' = reset_request c /\ term_request c' = term_request c
}.

Lemma effect_refl c : effect c [] [] c.
Proof.
  constructor; simpl; try done; try lia.
  - exists []. by rewrite app_nil_r.
  - exists []. rewrite app_nil_r. simpl. split_and!; [constructor|done|]. change (lenz _) with 0. lia.
Qed.

Lemma sum_app l1 l2 : foldr Z.add 0 (l1 ++ l2) = foldr Z.add 0 l1 + foldr Z.add 0 l2.
Proof. induction l1; simpl; lia. Qed.

Lemma effect_trans c1 c2 c3 e1 e2 i1 i2 :
  effect c1 e1 i1 c2 -> effect c2 e2 i2 c3 -> effect c1 (e1 ++ e2) (i1 ++ i2) c3.
Proof.
  intros [L1 [g1 I1] D1 (q1 & F1 & S1 & C1) O1 [R1 T1]] [L2 [g2 I2] D2 (q2 & F2 & S2 & C2) O2 [R2 T2]].
  constructor.
  - by rewrite L1, L2, app_assoc.
  - exists (g1 ++ g2). by rewrite data_of_app, app_assoc, I1, <- !app_assoc, I2.
  - rewrite D2, D1, debt_of_app. lia.
  - exists (q1 ++ q2). rewrite sum_app, data_of_app, lenz_app, bind_app, app_assoc, <- S1.
    split_and!; [by apply Forall_app|done|lia].
  - congruence.
  - split; congruence.
Qed.

Lemma wp_on_port {A} (f : port -> outcome (A * port)) E (Q : A -> ctx -> Prop) c :
  owp (f (b_port c)) E (fun '(a, p) => Q a (set_port p c)) -> wp (on_port f) E Q c.
Proof. unfold wp, on_port. by destruct (f (b_port c)) as [[a p]|e]. Qed.

(** *** The elementary operations *)

Lemma data_word_spec E x c :
  uart_ok c -> 1 <= credit c ->
  wp (data_word x) E (fun _ c' => uart_ok c' /\ effect c [] [IData x] c' /\
    credit c' = credit c - 1 /\ b_port c' = b_port c) c.
Proof.
  intros [] Hc. pose proof (fifo_size_bounds _ ok_input0). pose proof (fifo_levels _ ok_input0).
  destruct (fifo_write_one (input_buffer c) x) as (b' & Hw & Hwf' & Hs & Hct & Hf); [done|lia|].
  unfold data_word. apply wp_bind, wp_gets, wp_bind, wp_assert; [simpl; lia|].
  apply wp_bind. eapply wp_lift; [exact Hw|]. simpl. apply wp_bind, wp_assert; [done|].
  apply wp_modify. rewrite u64_small by lia. split_and!; [|constructor; simpl; try done; try lia|done|done].
  - constructor; simpl; try done. lia.
  - exists []. by rewrite Hct.
  - exists []. simpl. rewrite app_nil_r. split_and!; [constructor|done|].
    change (lenz _) with 1. lia.
Qed.

Lemma update_debt_spec E y z c :
  uart_ok c -> 0 <= z < 256 -> debt c + 32768 < 2 ^ 31 ->
  wp (update_debt y z) E (fun _ c' => uart_ok c' /\ effect c [] [ICredit y z] c' /\
    debt c' <= debt c + 32768 /\ credit c' = credit c /\ b_port c' = b_port c) c.
Proof.
  intros [] Hz Hd. pose proof (debt_tranche_range y z Hz). apply wp_modify.
  rewrite u64_small by lia. split_and!; [| |simpl; lia|done|done].
  - constructor; simpl; try done. lia.
  - constructor; simpl; try done; try lia.
    + exists []. by rewrite app_nil_r.
    + exists []. simpl. rewrite app_nil_r. split_and!; [constructor|done|].
      change (lenz _) with 0. lia.
Qed.

Lemma lenz_credit_message n : lenz (credit_message n) = 3.
Proof. done. Qed.

(** What a round of [update_credit] may grant. *)
Lemma grant_amount c :
  uart_ok c ->
  u64 (min (u64 (fifo_free_level (input_buffer c) - credit c)) UART_MAX_TRANCHE)
  = Z.min (fifo_free_level (input_buffer c) - credit c) UART_MAX_TRANCHE.
Proof.
  intros []. pose proof (fifo_size_bounds _ ok_input0). pose proof (fifo_levels _ ok_input0).
  rewrite (u64_small (fifo_free_level (input_buffer c) - credit c)) by lia. apply c_min_small; unfold UART_MAX_TRANCHE; lia.
Qed.

Lemma update_credit_spec bo c :
  uart_ok c -> wready bo 1 (b_port c) ->
  wp update_credit (blocked_if bo) (fun rv c' => uart_ok c' /\ effect c [] [] c' /\
    (exists ev, b_port c' = after_write (drop (length (p_sent (b_port c))) (p_sent (b_port c'))) ev (b_port c) /\
       forall n, wready bo (S n) (b_port c) -> wready bo n (b_port c')) /\
    input_buffer c' = input_buffer c /\
    credit c' = credit c + Z.min (fifo_free_level (input_buffer c) - credit c) UART_MAX_TRANCHE) c.
Proof.
  intros Hok Hw. pose proof (grant_amount c Hok) as Hg. pose proof Hok as [].
  pose proof (fifo_size_bounds _ ok_input0). pose proof (fifo_levels _ ok_input0).
  unfold update_credit. apply wp_bind, wp_gets. cbv zeta. change (id c) with c. rewrite Hg.
  set (g := Z.min _ _) in *. assert (Hg0 : 0 <= g <= UART_MAX_TRANCHE) by (unfold UART_MAX_TRANCHE in *; lia).
  destruct (Z.eqb_spec g 0) as [->|Hne].
  { apply wp_ret. split_and!; [done|apply effect_refl| |done|lia].
    exists (p_writes (b_port c)). split.
    - rewrite drop_ge by lia. unfold after_write. rewrite app_nil_r. by destruct (b_port c).
    - intros n. apply wready_weaken. }
  apply wp_bind, wp_on_port.
  eapply owp_mono; [apply (write_blocking_spec bo (credit_message g)); [done|rewrite lenz_credit_message; lia|done]|done|].
  intros [[rv n] p'] (ev & -> & _ & Hp' & -> & Hready). cbv beta match. simpl negb.
  apply wp_bind, wp_modify, wp_ret. rewrite u64_small by lia. split_and!.
  - constructor; simpl; try done; lia.
  - constructor; simpl; try done; try lia.
    + exists []. by rewrite app_nil_r.
    + exists [g]. simpl. split_and!; [by constructor; [lia|constructor]|done|].
      change (lenz _) with 0. lia.
  - exists ev. split; [|done]. simpl. by rewrite drop_app_length.
  - done.
  - simpl. lia.
Qed.

Lemma credit_loop_spec fuel c :
  uart_ok c ->
  wp (credit_loop fuel) (fun f => f = Blocked) (fun _ c' => uart_ok c' /\ effect c [] [] c' /\
    2 <= credit c' /\ p_reads (b_port c') = p_reads (b_port c)) c.
Proof.
  revert c. induction fuel as [|f IH]; intros c Hok; simpl; apply wp_bind, wp_gets;
    change (id c) with c; destruct (Z.ltb_spec (credit c) 2); try done.
  1, 3: apply wp_ret; split_and!; [done|apply effect_refl|lia|done].
  apply wp_bind. unfold wp at 1, usleep. pose proof Hok as [].
  destruct (b_user c) as [|u us] eqn:Hus; [done|].
  apply Forall_cons in ok_user0 as [Hu Hus'].
  destruct (Hu (input_buffer c) ok_input0) as (Hwf' & Hs & gone & Hgone).
  set (c1 := set_user us (set_input (u (input_buffer c)) c)).
  assert (Hle : fifo_free_level (input_buffer c) <= fifo_free_level (u (input_buffer c))).
  { rewrite !fifo_free_level_eq, Hs, Hgone, lenz_app by done. pose proof (lenz_nonneg gone). lia. }
  assert (Hok1 : uart_ok c1) by (constructor; simpl; try done; lia).
  assert (Heff : effect c [] [] c1).
  { constructor; simpl; try done; try lia.
    - exists gone. by rewrite app_nil_r.
    - exists []. simpl. rewrite app_nil_r. split_and!; [constructor|done|]. change (lenz _) with 0. lia. }
  apply wp_bind.
  eapply wp_mono; [apply (update_credit_spec True c1 Hok1); by left|by intros ? []|].
  intros rv c2 (Hok2 & Heff2 & (ev & Hport & _) & _).
  eapply wp_mono; [apply IH, Hok2|done|].
  intros _ c3 (Hok3 & Heff3 & Hc & Hr). split_and!; [done| |done|by rewrite Hr, Hport].
  apply (effect_trans c c1 c3 [] [] [] []); [done|]. by apply (effect_trans c1 c2 c3 [] [] [] []).
Qed.

(** Completing an item with a byte from the line. *)
Lemma read_more_spec bo buffer off c :
  uart_ok c -> ready bo 1 (b_port c) -> 0 <= off < lenz buffer ->
  wp (read_more buffer off 1) (blocked_if bo) (fun buffer' c' => exists x,
    is_byte x /\ lenz buffer' = lenz buffer /\ buffer' !z off = x /\
    (forall i, 0 <= i -> i <> off -> buffer' !z i = buffer !z i) /\
    uart_ok c' /\ effect c [x] [] c' /\ credit c' = credit c /\ debt c' = debt c /\
    (forall n, ready bo (S n) (b_port c) -> ready bo n (b_port c'))) c.
Proof.
  intros Hok Hready Hoff. pose proof Hok as []. unfold read_more. apply wp_bind, wp_on_port.
  eapply owp_mono; [apply (read_byte_spec bo (b_port c) ok_port0 Hready)|done|].
  intros [[rv got] p'] (x & ev & -> & -> & Hline & Hp' & Heq & Hnext). cbv beta match.
  apply wp_bind, wp_assert; [done|].
  destruct (store_spec buffer off [x]) as (b' & Hs & Hl & Hv); [lia|change (lenz [x]) with 1; lia|].
  change (lenz [x]) with 1 in Hv. eapply wp_lift; [exact Hs|].
  rewrite Hline in ok_line0. apply Forall_cons in ok_line0 as [Hx Hline'].
  exists x. split_and!; [done|done| | | | |done|done|done].
  - rewrite Hv by lia. destruct (_ && _) eqn:Hb; [|lia]. by replace (off - off) with 0 by lia.
  - intros i Hi Hne. rewrite Hv by lia. destruct (_ && _) eqn:Hb; [lia|done].
  - constructor; simpl; try done.
  - constructor; simpl; try done; try lia.
    + exists []. by rewrite app_nil_r.
    + exists []. simpl. rewrite app_nil_r, Heq. split_and!; [constructor|done|].
      change (lenz _) with 0. lia.
Qed.

(** *** One item *)

(** The bytes of the chunk from index [i] on. *)
Definition rest_of (buffer : list Z) (size i : Z) : list Z :=
  drop (Z.to_nat i) (take (Z.to_nat size) buffer).

Lemma rest_of_cons buffer size i :
  0 <= i < size -> size <= lenz buffer ->
  rest_of buffer size i = buffer !z i :: rest_of buffer size (i + 1).
Proof.
  intros Hi Hs. unfold rest_of.
  assert (Hl : take (Z.to_nat size) buffer !! Z.to_nat i = Some (buffer !z i)).
  { rewrite lookup_take_lt by lia. apply nthz_lookup. lia. }
  rewrite (drop_S _ _ _ Hl). do 2 f_equal. lia.
Qed.

Lemma rest_of_end buffer size i : size <= i -> rest_of buffer size i = [].
Proof. intros Hi. apply drop_ge. rewrite length_take. lia. Qed.

Lemma get_Ret l i : 0 <= i < lenz l -> get l i = Ret (l !z i).
Proof. intros Hi. unfold get. destruct (_ && _) eqn:Hb; [done|lia]. Qed.

Lemma wp_get E l i (Q : Z -> ctx -> Prop) c :
  0 <= i < lenz l -> Q (l !z i) c -> wp (lift (get l i)) E Q c.
Proof. intros Hi HQ. by eapply wp_lift; [apply get_Ret|]. Qed.

(** What is left of the chunk, [s], can be processed: the data in it is covered
    by credit, and bytes for an incomplete item at its end will arrive. *)
Record chunk_ok (bo : Prop) c (s : list Z) : Prop := {
  ch_bytes : Forall is_byte s;
  ch_room : debt c + 32768 * (lenz s + lenz (p_line (b_port c))) < 2 ^ 31;
  ch_data : lenz (data_of (decode s).1) <= credit c;
  ch_finish : (decode s).2 = [] \/ bo \/
              (lenz (data_of (decode s).1) + 2 <= credit c /\ ready bo 2 (b_port c))
}.

(** A round has taken [item] off the chunk, with [extra] from the line if the
    chunk ended in the middle of it. *)
Definition item_done (bo : Prop) c (s s' : list Z) c' : Prop :=
  exists item chunk extra, uart_ok c' /\ s = chunk ++ s' /\ (extra = [] \/ s' = []) /\
    (length extra <= 2)%nat /\ ((decode s).2 = [] -> extra = [] /\ (decode s').2 = []) /\
    parsed (chunk ++ extra) [item] /\ effect c extra [item] c' /\ chunk_ok bo c' s'.

Lemma decode_fe2 s : decode (0xfe :: 0xfe :: s) = let '(i, r) := decode s in (IData 0xfe :: i, r).
Proof. done. Qed.
Lemma decode_credit y z s :
  y <> 0xfe -> decode (0xfe :: y :: z :: s) = let '(i, r) := decode s in (ICredit y z :: i, r).
Proof. intros Hy. simpl. by destruct (Z.eqb_spec y 254). Qed.
Lemma decode_plain x s : x <> 0xfe -> decode (x :: s) = let '(i, r) := decode s in (IData x :: i, r).
Proof. intros Hx. simpl. by destruct (Z.eqb_spec x 254). Qed.

Lemma credit_loop_ready bo fuel c :
  uart_ok c -> bo \/ 2 <= credit c ->
  wp (credit_loop fuel) (blocked_if bo) (fun _ c' => uart_ok c' /\ effect c [] [] c' /\
    2 <= credit c' /\ (forall n, ready bo n (b_port c) -> ready bo n (b_port c'))) c.
Proof.
  intros Hok [Hbo|Hc].
  - eapply wp_mono; [by apply credit_loop_spec|by split|].
    intros _ c' (Hok' & Heff & Hc & Hr). split_and!; [done..|]. intros n _. by left.
  - assert (Hrun : credit_loop fuel c = Ret (tt, c)).
    { destruct fuel; simpl; unfold mbind, M_bind, gets; change (id c) with c;
        destruct (Z.ltb_spec (credit c) 2); (lia || done). }
    unfold wp. rewrite Hrun. split_and!; [done|apply effect_refl|done|done].
Qed.

Lemma chunk_ok_data bo c c' x s s' :
  chunk_ok bo c s -> uart_ok c' -> (decode s) = (IData x :: (decode s').1, (decode s').2) ->
  Forall is_byte s' -> lenz s' <= lenz s ->
  b_port c' = b_port c -> debt c' = debt c -> credit c' = credit c - 1 -> chunk_ok bo c' s'.
Proof.
  intros [Hb Hr Hd Hf] Hok Hdec Hb' Hl Hp Hdebt Hc. rewrite Hdec in Hd, Hf. simpl in Hd, Hf.
  rewrite lenz_cons in Hd, Hf. constructor; [done|rewrite Hp; lia|lia|].
  rewrite Hp. destruct Hf as [|[|[]]]; [by left|right; by left|right; right; split; [lia|done]].
Qed.

Lemma chunk_ok_credit bo c c' y z s s' :
  chunk_ok bo c s -> uart_ok c' -> (decode s) = (ICredit y z :: (decode s').1, (decode s').2) ->
  Forall is_byte s' -> lenz s = 3 + lenz s' ->
  b_port c' = b_port c -> debt c' <= debt c + 32768 -> credit c' = credit c -> chunk_ok bo c' s'.
Proof.
  intros [Hb Hr Hd Hf] Hok Hdec Hb' Hl Hp Hdebt Hc. rewrite Hdec in Hd, Hf. simpl in Hd, Hf.
  constructor; [done|rewrite Hp; lia|lia|]. by rewrite Hp, Hc.
Qed.

Lemma chunk_ok_end bo c :
  uart_ok c -> debt c + 32768 * lenz (p_line (b_port c)) < 2 ^ 31 -> chunk_ok bo c [].
Proof.
  intros [] Hd. constructor; [constructor|change (lenz []) with 0; lia| |by left].
  change (lenz _) with 0. lia.
Qed.

(** A data byte that lies in the chunk. *)
Lemma item_data_done bo x c s s' chunk :
  uart_ok c -> chunk_ok bo c s -> s = chunk ++ s' -> parsed chunk [IData x] ->
  decode s = (IData x :: (decode s').1, (decode s').2) ->
  wp (data_word x) (blocked_if bo) (fun _ c' => item_done bo c s s' c') c.
Proof.
  intros Hok Hch Hs Hp Hdec. pose proof (ch_data _ _ _ Hch) as Hd. rewrite Hdec in Hd. simpl in Hd.
  rewrite lenz_cons in Hd. pose proof (lenz_nonneg (data_of (decode s').1)).
  eapply wp_mono; [apply data_word_spec; [done|lia]|done|].
  intros _ c' (Hok' & Heff & Hc & Hport). exists (IData x), chunk, []. rewrite app_nil_r.
  split_and!; [done|done|by left|simpl; lia| |done|done|].
  - rewrite Hdec. done.
  - pose proof (ch_bytes _ _ _ Hch) as Hb. rewrite Hs in Hb. apply Forall_app in Hb as [_ Hb].
    eapply chunk_ok_data; [done..| | | |done].
    + rewrite Hs, lenz_app. pose proof (lenz_nonneg chunk). lia.
    + done.
    + rewrite (e_debt _ _ _ _ Heff). simpl. lia.
Qed.

(** A credit message that lies in the chunk. *)
Lemma item_credit_done bo y z c s s' :
  uart_ok c -> chunk_ok bo c s -> y <> 0xfe -> s = 0xfe :: y :: z :: s' ->
  wp (update_debt y z) (blocked_if bo) (fun _ c' => item_done bo c s s' c') c.
Proof.
  intros Hok Hch Hy ->. pose proof (ch_room _ _ _ Hch) as Hroom. pose proof (ch_bytes _ _ _ Hch) as Hb.
  do 3 (apply Forall_cons in Hb as [? Hb]). rewrite !lenz_cons in Hroom.
  pose proof (lenz_nonneg s'). pose proof (lenz_nonneg (p_line (b_port c))).
  eapply wp_mono; [apply update_debt_spec; [done|unfold is_byte in *; lia|lia]|done|].
  intros _ c' (Hok' & Heff & Hd & Hc & Hport). exists (ICredit y z), [0xfe; y; z], [].
  assert (Hdec : decode (0xfe :: y :: z :: s') = (ICredit y z :: (decode s').1, (decode s').2)).
  { rewrite decode_credit by done. by destruct (decode s'). }
  split_and!; [done|done|by left|simpl; lia| | |done|].
  - by rewrite Hdec.
  - rewrite app_nil_r. constructor; [done|constructor].
  - eapply chunk_ok_credit; [done..| | | |done]; [by rewrite !lenz_cons; lia|done|done].
Qed.

(** A credit message whose last byte, or whose last two bytes, come from the
    line. *)
Lemma item_credit_end bo y z c1 c extra s chunk :
  chunk_ok bo c s -> effect c extra [] c1 -> uart_ok c1 -> y <> 0xfe -> is_byte z ->
  chunk ++ extra = [0xfe; y; z] -> s = chunk -> extra <> [] -> (length extra <= 2)%nat ->
  (decode s).2 <> [] ->
  wp (update_debt y z) (blocked_if bo) (fun _ c' => item_done bo c s [] c') c1.
Proof.
  intros Hch Heff1 Hok1 Hy Hz Hex -> Hne Hlen Hdec. pose proof (ch_room _ _ _ Hch) as Hroom.
  pose proof (e_line _ _ _ _ Heff1) as Hline. pose proof (e_debt _ _ _ _ Heff1) as Hd1. simpl in Hd1.
  rewrite Hline, lenz_app in Hroom. pose proof (lenz_nonneg (p_line (b_port c1))).
  assert (Hl : lenz chunk + lenz extra = 3) by by rewrite <- lenz_app, Hex.
  eapply wp_mono; [apply update_debt_spec; [done|done|lia]|done|].
  intros _ c' (Hok' & Heff & Hd & Hc & Hport). exists (ICredit y z), chunk, extra.
  split_and!; [done|by rewrite app_nil_r|by right|done|done| | |].
  - rewrite Hex. constructor; [done|constructor].
  - pose proof (effect_trans _ _ _ _ _ _ _ Heff1 Heff) as He. by rewrite app_nil_r in He.
  - apply chunk_ok_end; [done|]. rewrite Hport. lia.
Qed.

Definition round_done (bo : Prop) c (buffer : list Z) (size i : Z) (buffer' : list Z) (i' : Z) c' : Prop :=
  lenz buffer' = lenz buffer /\ i < i' /\
  item_done bo c (rest_of buffer size i) (rest_of buffer' size i') c'.

(** The chunk ends with a single 0xfe. *)
Lemma parse_item_last bo c buffer size i :
  uart_ok c -> chunk_ok bo c (rest_of buffer size i) ->
  0 <= i -> size = i + 1 -> size <= lenz buffer -> 2 <= lenz buffer -> buffer !z i = 0xfe ->
  wp (parse_item buffer size i) (blocked_if bo)
    (fun '(buffer', i') c' => round_done bo c buffer size i buffer' i' c') c.
Proof.
  intros Hok Hch Hi Hs Hl Hl2 Hx.
  assert (Hrest : rest_of buffer size i = [0xfe]).
  { rewrite rest_of_cons, Hx, rest_of_end by lia. done. }
  assert (Hfin : bo \/ (2 <= credit c /\ ready bo 2 (b_port c))).
  { destruct (ch_finish _ _ _ Hch) as [Hf|Hf]; rewrite Hrest in Hf; [done|exact Hf]. }
  unfold parse_item. apply wp_bind, wp_get; [lia|]. rewrite Hx. simpl Z.eqb. cbv match.
  destruct (Z.ltb_spec (i + 1) size); [lia|].
  apply wp_bind, wp_gets, wp_bind.
  eapply wp_mono; [apply (credit_loop_ready bo); [done|]|done|].
  { destruct Hfin as [|[]]; [by left|by right]. }
  intros _ c1 (Hok1 & Heff1 & Hc1 & Hr1).
  assert (Hready : ready bo 2 (b_port c1)).
  { apply Hr1. destruct Hfin as [|[_ ?]]; [by left|done]. }
  apply wp_bind. eapply wp_mono; [apply (read_more_spec bo buffer 0 c1 Hok1)|done|].
  { destruct Hready as [|(ev & evs & Hev & Hle & Hk & Hln)]; [by left|right].
    destruct ev as [|e ev]; [done|]. exists [e], (ev ++ evs). apply Forall_cons in Hk as [? _].
    split_and!; [done|done|by constructor|lia]. }
  { lia. }
  intros b1 c2 (y & Hy & Hlb1 & Hb1 & Hb1' & Hok2 & Heff2 & Hc2 & Hd2 & Hr2).
  assert (Heff12 : effect c [y] [] c2) by exact (effect_trans _ _ _ _ _ _ _ Heff1 Heff2).
  apply wp_bind, wp_get; [lia|]. rewrite Hb1. destruct (Z.eqb_spec y 0xfe) as [->|Hy'].
  - apply wp_bind. eapply wp_mono; [apply data_word_spec; [done|lia]|done|].
    intros _ c3 (Hok3 & Heff3 & _ & Hp3). apply wp_ret. split_and!; [done|lia|].
    rewrite Hrest, rest_of_end by lia. exists (IData 0xfe), [0xfe], [0xfe].
    pose proof (effect_trans _ _ _ _ _ _ _ Heff12 Heff3) as He.
    split_and!; [done|done|by right|simpl; lia|done|apply P_escaped, P_nil|done|].
    apply chunk_ok_end; [done|]. pose proof (ch_room _ _ _ Hch) as Hroom.
    rewrite (e_debt _ _ _ _ He). rewrite (e_line _ _ _ _ He), Hrest, lenz_app in Hroom.
    change (lenz [0xfe]) with 1 in Hroom. change (lenz ([0xfe] ++ [])) with 1 in Hroom.
    change (debt_of _) with 0. lia.
  - apply wp_bind. eapply wp_mono; [apply (read_more_spec bo b1 1 c2 Hok2)|done|].
    { apply Hr2, Hready. }
    { lia. }
    intros b2 c3 (z & Hz & Hlb2 & Hb2 & Hb2' & Hok3 & Heff3 & Hc3 & Hd3 & _).
    assert (Heff : effect c [y; z] [] c3) by exact (effect_trans _ _ _ _ _ _ _ Heff12 Heff3).
    apply wp_bind, wp_get; [lia|]. apply wp_bind, wp_get; [lia|].
    rewrite Hb2, Hb2', Hb1 by lia. apply wp_bind.
    rewrite Hrest in Hch. eapply wp_mono.
    { eapply (item_credit_end bo y z c3 c [y; z] [0xfe] [0xfe]); try done. }
    { done. }
    intros ? c4 Hdone. cbv beta in Hdone. apply wp_ret. split_and!; [lia|lia|].
    by rewrite Hrest, (rest_of_end b2) by lia.
Qed.

Lemma parse_item_spec bo c buffer size i :
  uart_ok c -> chunk_ok bo c (rest_of buffer size i) ->
  0 <= i < size -> size <= lenz buffer -> 2 <= lenz buffer ->
  wp (parse_item buffer size i) (blocked_if bo)
    (fun '(buffer', i') c' => round_done bo c buffer size i buffer' i' c') c.
Proof.
  intros Hok Hch Hi Hs Hl.
  pose proof (rest_of_cons buffer size i Hi Hs) as Hr0.
  destruct (decide (buffer !z i = 0xfe)) as [Hx|Hx]; [destruct (decide (size = i + 1))|].
  { apply parse_item_last; (done || lia). }
  2:{ unfold parse_item. apply wp_bind, wp_get; [lia|].
      destruct (Z.eqb_spec (buffer !z i) 0xfe); [done|]. apply wp_bind.
      rewrite Hr0 in Hch. eapply wp_mono.
      { eapply (item_data_done bo _ _ _ (rest_of buffer size (i + 1)) [buffer !z i]); try done.
        - apply P_data; [done|apply P_nil].
        - rewrite decode_plain by done. by destruct (decode _). }
      { done. }
      intros ? c' Hdone. cbv beta in Hdone. apply wp_ret. split_and!; [done|lia|]. by rewrite Hr0. }
  pose proof (rest_of_cons buffer size (i + 1) ltac:(lia) Hs) as Hr1.
  rewrite Hr1, Hx in Hr0. replace (i + 1 + 1) with (i + 2) in * by lia.
  unfold parse_item. apply wp_bind, wp_get; [lia|]. rewrite Hx. simpl Z.eqb at 1. cbv match.
  destruct (Z.ltb_spec (i + 1) size); [|lia]. apply wp_bind, wp_get; [lia|].
  rewrite Hr0 in Hch.
  destruct (Z.eqb_spec (buffer !z (i + 1)) 0xfe) as [Hy|Hy].
  { rewrite Hy in *. apply wp_bind. eapply wp_mono.
    { eapply (item_data_done bo _ _ _ (rest_of buffer size (i + 2)) [0xfe; 0xfe]); try done.
      - apply P_escaped, P_nil.
      - rewrite decode_fe2. by destruct (decode _). }
    { done. }
    intros ? c' Hdone. cbv beta in Hdone. apply wp_ret. split_and!; [done|lia|]. by rewrite Hr0. }
  destruct (Z.ltb_spec (i + 2) size).
  { pose proof (rest_of_cons buffer size (i + 2) ltac:(lia) Hs) as Hr2.
    rewrite Hr2 in *. replace (i + 2 + 1) with (i + 3) in * by lia.
    apply wp_bind, wp_get; [lia|]. apply wp_bind. eapply wp_mono.
    { by eapply (item_credit_done bo _ _ _ _ (rest_of buffer size (i + 3))). }
    { done. }
    intros ? c' Hdone. cbv beta in Hdone. apply wp_ret. split_and!; [done|lia|]. by rewrite Hr0. }
  rewrite (rest_of_end buffer size (i + 2)) in * by lia.
  assert (Hdec : decode [0xfe; buffer !z (i + 1)] = ([], [0xfe; buffer !z (i + 1)])).
  { simpl. by destruct (Z.eqb_spec (buffer !z (i + 1)) 254). }
  assert (Hfin : bo \/ (2 <= credit c /\ ready bo 2 (b_port c))).
  { destruct (ch_finish _ _ _ Hch) as [Hf|Hf]; rewrite Hdec in Hf; [done|exact Hf]. }
  apply wp_bind. eapply wp_mono; [apply (read_more_spec bo buffer 0 c Hok)|done|].
  { destruct Hfin as [|[_ [|(ev & evs & Hev & Hle & Hk & Hln)]]]; [by left|by left|right].
    destruct ev as [|e ev]; [done|]. exists [e], (ev ++ evs). apply Forall_cons in Hk as [? _].
    split_and!; [done|done|by constructor|lia]. }
  { lia. }
  intros b1 c1 (z & Hz & Hlb1 & Hb1 & Hb1' & Hok1 & Heff1 & _).
  apply wp_bind, wp_get; [lia|]. apply wp_bind, wp_get; [lia|].
  rewrite Hb1, Hb1' by lia. apply wp_bind. eapply wp_mono.
  { eapply (item_credit_end bo _ z c1 c [z] _ [0xfe; buffer !z (i + 1)]); try done; [simpl; lia|by rewrite Hdec]. }
  { done. }
  intros ? c' Hdone. cbv beta in Hdone. apply wp_ret. split_and!; [done|lia|].
  by rewrite Hr0, (rest_of_end b1) by lia.
Qed.

Lemma parse_loop_spec bo fuel c buffer size i :
  uart_ok c -> chunk_ok bo c (rest_of buffer size i) ->
  0 <= i -> size <= lenz buffer -> 2 <= lenz buffer -> size - i <= Z.of_nat fuel ->
  wp (parse_loop fuel buffer size i) (blocked_if bo) (fun buffer' c' =>
    exists items extra, lenz buffer' = lenz buffer /\ uart_ok c' /\
      parsed (rest_of buffer size i ++ extra) items /\ effect c extra items c' /\
      (length extra <= 2)%nat /\ ((decode (rest_of buffer size i)).2 = [] -> extra = []) /\
      debt c' + 32768 * lenz (p_line (b_port c')) < 2 ^ 31) c.
Proof.
  revert c buffer i. induction fuel as [|f IH]; intros c buffer i Hok Hch Hi Hs Hl Hf; simpl;
    destruct (Z.ltb_spec i size); try lia.
  1, 3: rewrite rest_of_end in * by lia; apply wp_ret; exists [], []; split_and!;
    [done|done|constructor|apply effect_refl|simpl; lia|done|].
  1, 2: pose proof (ch_room _ _ _ Hch) as Hroom; change (lenz []) with 0 in Hroom; lia.
  apply wp_bind. eapply wp_mono; [apply (parse_item_spec bo c buffer size i); (done || lia)|done|].
  intros [b1 i1] c1 (Hlb & Hlt & item & chunk & ex1 & Hok1 & Hsplit & Hend & Hlen & Hdec & Hp & Heff & Hch1).
  eapply wp_mono; [apply IH; (done || lia)|done|].
  intros b2 c2 (items & ex2 & Hlb2 & Hok2 & Hp2 & Heff2 & Hlen2 & Hdec2 & Hroom).
  exists (item :: items), (ex1 ++ ex2). split_and!; [lia|done| | | | |done].
  - rewrite Hsplit. destruct Hend as [->|Hend].
    + rewrite app_nil_r in Hp. rewrite app_nil_l, <- app_assoc.
      by apply (parsed_app chunk [item]).
    + rewrite Hend in *. rewrite app_nil_r. rewrite app_nil_l in Hp2. rewrite app_assoc.
      by apply (parsed_app (chunk ++ ex1) [item]).
  - by apply (effect_trans _ _ _ _ _ [item]) with (1 := Heff).
  - destruct Hend as [->|Hend]; [done|]. rewrite Hend in Hdec2. rewrite Hdec2, app_nil_r by done. done.
  - intros Hd. destruct (Hdec Hd) as [-> Hd1]. by rewrite (Hdec2 Hd1).
Qed.

(** *** Sending *)

Lemma write_word_spec bo x c :
  port_ok (b_port c) -> wready bo 1 (b_port c) ->
  wp (write_word x) (blocked_if bo) (fun _ c' => exists ev,
    c' = set_port (after_write [x] ev (b_port c)) c /\ port_ok (b_port c') /\
    forall n, wready bo (S n) (b_port c) -> wready bo n (b_port c')) c.
Proof.
  intros Hp Hw. unfold write_word. apply wp_bind, wp_on_port.
  eapply owp_mono; [apply (write_blocking_spec bo [x]); (done || change (lenz [x]) with 1; lia)|done|].
  intros [[rv n] p'] (ev & -> & -> & Hp' & -> & Hn). cbv beta match.
  apply wp_bind, wp_assert; [done|]. apply wp_assert; [done|]. by exists ev.
Qed.

Lemma set_port_twice p q c : set_port p (set_port q c) = set_port p c.
Proof. done. Qed.

Lemma write_words_spec bo d c :
  port_ok (b_port c) -> wready bo (length (escape d)) (b_port c) ->
  wp (write_words d) (blocked_if bo) (fun _ c' => exists ev,
    c' = set_port (after_write (escape d) ev (b_port c)) c /\ port_ok (b_port c')) c.
Proof.
  revert c. induction d as [|x d IH]; intros c Hp Hw.
  { apply wp_ret. exists (p_writes (b_port c)). unfold after_write. simpl. rewrite app_nil_r.
    split; [by destruct c as [[] ?]|done]. }
  assert (Hw1 : exists k, length (escape (x :: d)) = S k /\
      k = (length (if (x =? 0xfe)%Z then [x] else []) + length (escape d))%nat).
  { simpl. unfold escape, escape_byte. simpl. rewrite length_app. by case_match; simpl; eexists. }
  destruct Hw1 as (k & Hk & Hk2). rewrite Hk in Hw. cbn [write_words]. apply wp_bind.
  eapply wp_mono; [apply (write_word_spec bo x c Hp)|done|].
  { destruct Hw as [|(ev & evs & Hev & Hl & Hf)]; [by left|right].
    destruct ev as [|e ev]; [done|]. exists [e], (ev ++ evs). apply Forall_cons in Hf as [? _].
    split_and!; [done|done|by constructor]. }
  intros _ c1 (ev1 & Hc1 & Hp1 & Hn1). specialize (Hn1 k Hw).
  assert (Hesc : escape (x :: d) = escape_byte x ++ escape d) by done.
  rewrite Hesc. unfold escape_byte. destruct (x =? 0xfe).
  - apply wp_bind. simpl in Hk2. rewrite Hk2 in Hn1.
    eapply wp_mono; [apply (write_word_spec bo x c1 Hp1)|done|].
    { destruct Hn1 as [|(ev & evs & Hev & Hl & Hf)]; [by left|right].
      destruct ev as [|e ev]; [done|]. exists [e], (ev ++ evs). apply Forall_cons in Hf as [? _].
      split_and!; [done|done|by constructor]. }
    intros _ c2 (ev2 & Hc2 & Hp2 & Hn2).
    eapply wp_mono; [apply (IH c2 Hp2), Hn2, Hn1|done|].
    intros _ c3 (ev3 & Hc3 & Hp3). exists ev3. split; [|done].
    rewrite Hc3, Hc2, Hc1. unfold after_write. simpl. rewrite !set_port_twice, <- !app_assoc. done.
  - apply wp_bind, wp_ret. simpl in Hk2. rewrite Hk2 in Hn1.
    eapply wp_mono; [apply (IH c1 Hp1 Hn1)|done|].
    intros _ c3 (ev3 & Hc3 & Hp3). exists ev3. split; [|done].
    rewrite Hc3, Hc1. unfold after_write. simpl. rewrite !set_port_twice, <- !app_assoc. done.
Qed.

(** How many bytes a round sends. *)
Definition send_count c : Z :=
  Z.min (Z.min (debt c) TMP_BUFFER_SIZE) (fifo_fill_level (output_buffer c)).

Definition sent_words c (out : list Z) c' : Prop :=
  uart_ok c' /\ fifo_contents (output_buffer c) = out ++ fifo_contents (output_buffer c') /\
  p_sent (b_port c') = p_sent (b_port c) ++ escape out /\ lenz out = send_count c /\
  debt c' = debt c - lenz out /\ credit c' = credit c /\ input_buffer c' = input_buffer c /\
  p_line (b_port c') = p_line (b_port c) /\
  reset_request c' = reset_request c /\ term_request c' = term_request c.

Lemma thread_write_spec bo buffer c :
  uart_ok c -> debt c < 2 ^ 31 -> lenz buffer = TMP_BUFFER_SIZE -> wready bo 512 (b_port c) ->
  wp (thread_write buffer) (blocked_if bo) (fun buffer' c' => lenz buffer' = TMP_BUFFER_SIZE /\
    exists out, sent_words c out c') c.
Proof.
  intros Hok Hd Hbuf Hw. pose proof Hok as [].
  pose proof (fifo_size_bounds _ ok_output0). pose proof (fifo_levels _ ok_output0) as [Hfl _].
  unfold thread_write. apply wp_bind, wp_gets. change (id c) with c. cbv zeta.
  assert (Hnone : send_count c = 0 -> sent_words c [] c).
  { intros Hz. unfold sent_words, escape. simpl. rewrite app_nil_r. split_and!; try done.
    change (lenz _) with 0. lia. }
  unfold send_count in Hnone. unfold TMP_BUFFER_SIZE in *.
  destruct (Z.ltb_spec 0 (debt c)); [|apply wp_ret; split; [done|exists []; apply Hnone; lia]].
  destruct (Z.ltb_spec 0 (fifo_fill_level (output_buffer c)));
    [|apply wp_ret; split; [done|exists []; apply Hnone; lia]].
  rewrite (c_min_small (debt c)) by lia. rewrite c_min_small by lia. rewrite Z.min_comm.
  change 256 with TMP_BUFFER_SIZE. fold (send_count c).
  assert (Hk : 0 < send_count c <= 256 /\ send_count c <= fifo_fill_level (output_buffer c) /\
               send_count c <= debt c) by (unfold send_count, TMP_BUFFER_SIZE; lia).
  destruct (fifo_read_fits (output_buffer c) (send_count c)) as (b' & Hr & Hwf' & Hs & Hc); [done|lia|].
  set (out := take (Z.to_nat (send_count c)) (fifo_contents (output_buffer c))) in *.
  assert (Hout : lenz out = send_count c).
  { unfold out. rewrite lenz_take, <- fifo_fill_level_eq by (done || lia). lia. }
  destruct (store_spec buffer 0 out) as (buf1 & Hst & Hlb & _); [lia|lia|].
  apply wp_bind. eapply wp_lift; [exact Hr|]. cbv beta match.
  apply wp_bind, wp_assert; [done|]. apply wp_bind, wp_modify, wp_bind.
  eapply wp_lift; [exact Hst|]. apply wp_bind.
  eapply wp_mono; [apply (write_words_spec bo out)|done|]; [done| |].
  { assert (Hl : (length (escape out) <= 2 * length out)%nat).
    { clear. induction out as [|x out IH]; simpl; [done|]. unfold escape, escape_byte in *. simpl.
      rewrite length_app. case_match; simpl; lia. }
    assert (Hl2 : (length (escape out) <= 512)%nat) by (unfold lenz in Hout; lia).
    clear - Hw Hl2. induction Hl2 as [|m Hm IH]; [done|]. apply IH. by apply wready_weaken. }
  intros _ c1 (ev & -> & Hp1). apply wp_bind, wp_modify, wp_ret. split; [unfold TMP_BUFFER_SIZE; lia|]. exists out.
  simpl. rewrite u64_small by lia. split_and!; simpl; try done; try lia.
  - constructor; simpl; try done. lia.
  - unfold out. rewrite Hc. symmetry. apply take_drop.
Qed.

(** *** Receiving *)

(** The target sends data only for the credit it has been granted: what the
    next round can read holds no more data than that. *)
Definition honours c : Prop :=
  forall pre post, p_line (b_port c) = pre ++ post -> lenz pre <= TMP_BUFFER_SIZE ->
    lenz (data_of (decode pre).1) <= credit c.

Definition received c c' : Prop :=
  exists taken items, uart_ok c' /\ parsed taken items /\ effect c taken items c' /\
    debt c' + 32768 * lenz (p_line (b_port c')) < 2 ^ 31.

Lemma read_effect c d ev :
  uart_ok c -> port_ok (after_read (lenz d) ev (b_port c)) ->
  p_line (b_port c) = d ++ p_line (after_read (lenz d) ev (b_port c)) ->
  let c' := set_port (after_read (lenz d) ev (b_port c)) c in
  uart_ok c' /\ effect c d [] c'.
Proof.
  intros [] Hp Hline c'. split.
  - rewrite Hline in ok_line0. apply Forall_app in ok_line0 as [_ ?]. by constructor.
  - constructor; try done; [by exists []; rewrite app_nil_r|simpl; lia|].
    exists []. simpl. rewrite app_nil_r. split_and!; [constructor|done|]. change (lenz _) with 0. lia.
Qed.

(** With no space left the only thing that can arrive is a credit message. *)
Lemma thread_read_full c buffer :
  uart_ok c -> honours c -> lenz buffer = TMP_BUFFER_SIZE -> fifo_free_level (input_buffer c) = 0 ->
  debt c + 32768 * lenz (p_line (b_port c)) < 2 ^ 31 ->
  wp (thread_read buffer) (fun f => f = Blocked)
    (fun buffer' c' => lenz buffer' = TMP_BUFFER_SIZE /\ received c c') c.
Proof.
  intros Hok Hhon Hbuf Hfull Hroom. pose proof Hok as []. unfold TMP_BUFFER_SIZE in *.
  unfold thread_read. apply wp_bind, wp_gets. rewrite Hfull. simpl Z.eqb. cbv match.
  apply wp_bind, wp_on_port.
  eapply owp_mono; [apply (sys_read_spec 1 (b_port c) ok_port0 ltac:(lia))|done|].
  intros [[[rv errno] d] p'] (ev & Hp' & _ & Hline & Hd & -> & Hrv).
  destruct (read_effect c d ev Hok Hp' Hline) as [Hok1 Heff1].
  set (c1 := set_port _ c) in *. pose proof (lenz_nonneg d).
  destruct (store_spec buffer 0 d) as (b1 & Hst & Hl1 & Hv1); [lia|lia|].
  apply wp_bind. eapply wp_lift; [exact Hst|].
  destruct (Z.eqb_spec rv 1) as [->|Hne].
  2:{ apply wp_ret. split; [lia|]. assert (d = []) as ->.
      { destruct Hrv as [[_ ->]| ->]; [done|]. destruct d; [done|].
        rewrite lenz_cons in *. pose proof (lenz_nonneg d). lia. }
      exists [], []. split_and!; [done|constructor|done|done]. }
  destruct d as [|x [|x2 d]]; [destruct Hrv as [[]|]; done| |
    rewrite !lenz_cons in Hd; pose proof (lenz_nonneg d); lia].
  change (lenz [x]) with 1 in *.
  assert (Hx : x = 0xfe).
  { destruct (decide (x = 0xfe)); [done|]. specialize (Hhon [x] _ Hline ltac:(zcompute)).
    rewrite decode_plain in Hhon by done. simpl in Hhon. change (lenz [x]) with 1 in Hhon. lia. }
  apply wp_bind, wp_get; [lia|]. rewrite Hv1 by lia. simpl. apply wp_bind, wp_assert; [by rewrite Hx|].
  apply wp_bind, wp_on_port.
  eapply owp_mono; [apply (read_loop_spec _ 2 [] (b_port c1)); [apply Hok1|zcompute]|done|].
  intros [[rv2 got] p2] (d2 & ev2 & -> & -> & Hl2 & Hline2 & Hp2 & ->). simpl app in *.
  destruct (read_effect c1 d2 ev2 Hok1 Hp2 Hline2) as [Hok2 Heff2].
  destruct d2 as [|y [|z [|x2 d2]]]; try (unfold lenz in Hl2; simpl in Hl2; lia).
  change (lenz [y; z]) with 2 in *.
  assert (Hline3 : p_line (b_port c) = [x; y; z] ++ p_line (after_read 2 ev2 (b_port c1))).
  { rewrite Hline. simpl app. f_equal. exact Hline2. }
  assert (Hy : y <> 0xfe).
  { intros ->. subst x. specialize (Hhon [0xfe; 0xfe] (z :: p_line (after_read 2 ev2 (b_port c1))) Hline3 ltac:(zcompute)).
    simpl in Hhon. change (lenz [254]) with 1 in Hhon. lia. }
  destruct (store_spec b1 0 [y; z]) as (b2 & Hst2 & Hl3 & Hv2); [lia|change (lenz [y; z]) with 2; lia|].
  apply wp_bind. eapply wp_lift; [exact Hst2|].
  do 2 (apply wp_bind, wp_assert; [done|]). apply wp_bind, wp_get; [lia|]. apply wp_bind, wp_get; [lia|].
  rewrite !Hv2 by lia. simpl. rewrite Hline3 in Hroom, ok_line0.
  rewrite lenz_app in Hroom. change (lenz [x; y; z]) with 3 in Hroom.
  pose proof (lenz_nonneg (p_line (after_read 2 ev2 (b_port c1)))).
  apply Forall_app in ok_line0 as [Hb _]. do 3 (apply Forall_cons in Hb as [? Hb]).
  apply wp_bind. eapply wp_mono; [apply update_debt_spec; [done|done|]|done|].
  { change (debt c + 32768 < 2 ^ 31). lia. }
  intros _ c3 (Hok3 & Heff3 & Hd3 & _ & Hp3). apply wp_ret. split; [lia|].
  exists [x; y; z], [ICredit y z]. split_and!; [done| | |].
  - subst x. apply P_credit; [done|constructor].
  - exact (effect_trans _ _ _ _ _ _ _ Heff1 (effect_trans _ _ _ _ _ _ _ Heff2 Heff3)).
  - rewrite Hp3. change (debt (set_port _ c1)) with (debt c) in Hd3.
    change (b_port (set_port ?p c1)) with p. 
    change (after_read 1 ev (b_port c)) with (b_port c1). lia.
Qed.

Lemma rest_of_stored buffer d b1 :
  lenz d <= lenz buffer -> store buffer 0 d = Ret b1 -> rest_of b1 (lenz d) 0 = d.
Proof.
  intros Hd Hst. unfold store in Hst. destruct (_ && _) eqn:Hb; [|done]. injection Hst as <-.
  simpl. unfold rest_of. rewrite drop_0. unfold lenz. rewrite Nat2Z.id. apply take_app_length.
Qed.

Lemma thread_read_spec c buffer :
  uart_ok c -> honours c -> lenz buffer = TMP_BUFFER_SIZE ->
  debt c + 32768 * lenz (p_line (b_port c)) < 2 ^ 31 ->
  wp (thread_read buffer) (fun f => f = Blocked)
    (fun buffer' c' => lenz buffer' = TMP_BUFFER_SIZE /\ received c c') c.
Proof.
  intros Hok Hhon Hbuf Hroom. destruct (decide (fifo_free_level (input_buffer c) = 0)) as [|Hne].
  { by apply thread_read_full. }
  pose proof Hok as []. pose proof (fifo_size_bounds _ ok_input0). pose proof (fifo_levels _ ok_input0).
  unfold thread_read. apply wp_bind, wp_gets. destruct (Z.eqb_spec (fifo_free_level (input_buffer c)) 0); [done|].
  cbv zeta. rewrite c_min_small by (unfold TMP_BUFFER_SIZE; lia).
  set (k := Z.min _ _). assert (Hk : 1 <= k <= 256) by (unfold k, TMP_BUFFER_SIZE; lia).
  apply wp_bind, wp_on_port.
  eapply owp_mono; [apply (sys_read_spec k (b_port c) ok_port0 ltac:(lia))|done|].
  intros [[[rv errno] d] p'] (ev & Hp' & _ & Hline & Hd & -> & Hrv).
  destruct (read_effect c d ev Hok Hp' Hline) as [Hok1 Heff1].
  set (c1 := set_port _ c) in *. pose proof (lenz_nonneg d). unfold TMP_BUFFER_SIZE in *.
  destruct (store_spec buffer 0 d) as (b1 & Hst & Hl1 & Hv1); [lia|lia|].
  apply wp_bind. eapply wp_lift; [exact Hst|].
  destruct (Z.ltb_spec 0 rv).
  2:{ apply wp_ret. split; [lia|]. assert (d = []) as ->.
      { destruct Hrv as [[_ ->]| ->]; [done|]. destruct d; [done|].
        rewrite lenz_cons in *. pose proof (lenz_nonneg d). lia. }
      exists [], []. split_and!; [done|constructor|done|done]. }
  assert (rv = lenz d) as -> by (destruct Hrv as [[]|]; lia).
  pose proof (rest_of_stored buffer d b1 ltac:(lia) Hst) as Hrest.
  unfold parse_buffer.
  eapply wp_mono; [apply (parse_loop_spec True _ c1 b1 (lenz d) 0 Hok1); try lia; rewrite Hrest|by intros ? []|].
  { constructor.
    - rewrite Hline in ok_line0. by apply Forall_app in ok_line0 as [? _].
    - rewrite Hline, lenz_app in Hroom. exact Hroom.
    - apply (Hhon _ _ Hline). unfold TMP_BUFFER_SIZE. lia.
    - right. by left. }
  rewrite Hrest. intros b2 c2 (items & extra & Hl2 & Hok2 & Hp2 & Heff2 & _ & _ & Hroom2).
  split; [lia|]. exists (d ++ extra), items. split_and!; [done|done| |done].
  exact (effect_trans _ _ _ _ _ _ _ Heff1 Heff2).
Qed.

(** *** A round of the thread *)

Lemma reset_logic_spec state c :
  port_ok (b_port c) ->
  wp (reset_logic state) (fun f => f = Blocked) (fun rv c' => exists ev d, rv = 0 /\
    c' = set_port (after_write d ev (b_port c)) c /\ port_ok (b_port c')) c.
Proof.
  intros Hp. unfold reset_logic. set (d := [0xfe; _]). apply wp_bind, wp_on_port.
  eapply owp_mono; [apply (write_blocking_spec True d); [done|change (lenz d) with 2; lia|by left]|by intros ? []|].
  intros [[rv n] p'] (ev & -> & _ & Hp' & -> & _). cbv beta match. apply wp_ret. by exists ev, d.
Qed.

Lemma thread_reset_spec c :
  uart_ok c ->
  wp thread_reset (fun f => f = Blocked) (fun _ c' => uart_ok c' /\ exists ev d,
    c' = set_requests 0 (term_request c) (set_port (after_write d ev (b_port c)) c)) c.
Proof.
  intros Hok. unfold thread_reset. apply wp_bind.
  eapply wp_mono; [apply (reset_logic_spec 1 c), Hok|done|].
  intros rv c1 (ev1 & d1 & -> & -> & Hp1). apply wp_bind, wp_assert; [done|]. apply wp_bind.
  eapply wp_mono; [apply (reset_logic_spec 0), Hp1|done|].
  intros rv c2 (ev2 & d2 & -> & -> & Hp2). apply wp_bind, wp_assert; [done|]. apply wp_modify.
  split; [destruct Hok; by constructor|]. exists ev2, (d1 ++ d2).
  unfold after_write. simpl. by rewrite app_assoc.
Qed.

Record round_post c (next : option (list Z)) c' : Prop := {
  rp_ok : uart_ok c';
  rp_break : next = None <-> term_request c <> 0;
  rp_buffer : forall buffer, next = Some buffer -> lenz buffer = TMP_BUFFER_SIZE;
  rp_room : debt c' + 32768 * lenz (p_line (b_port c')) < 2 ^ 31;
  rp_stream : exists taken items out, parsed taken items /\
      p_line (b_port c) = taken ++ p_line (b_port c') /\
      (exists gone, fifo_contents (input_buffer c) ++ data_of items
                    = gone ++ fifo_contents (input_buffer c')) /\
      fifo_contents (output_buffer c) = out ++ fifo_contents (output_buffer c') /\
      debt c' = debt c + debt_of items - lenz out
}.

Lemma honours_ext c c' :
  p_line (b_port c') = p_line (b_port c) -> credit c' = credit c -> honours c -> honours c'.
Proof. unfold honours. by intros -> ->. Qed.

Lemma thread_body_spec c buffer :
  uart_ok c -> honours c -> lenz buffer = TMP_BUFFER_SIZE -> term_request c = 0 ->
  debt c + 32768 * lenz (p_line (b_port c)) < 2 ^ 31 ->
  wp (buffer ← thread_read buffer; buffer ← thread_write buffer; c ← gets id;
      _ ← (if credit c <? UART_MAX_TRANCHE then _ ← update_credit; mret tt else mret tt);
      mret (Some buffer))
    (fun f => f = Blocked) (fun next c' => round_post c next c') c.
Proof.
  intros Hok Hhon Hbuf Hterm Hroom. apply wp_bind.
  eapply wp_mono; [by apply thread_read_spec|done|].
  intros b1 c1 (Hb1 & taken & items & Hok1 & Hp1 & Heff1 & Hr1). apply wp_bind.
  eapply wp_mono; [apply (thread_write_spec True b1 c1 Hok1); [|done|by left]|by intros ? []|].
  { pose proof (lenz_nonneg (p_line (b_port c1))). lia. }
  intros b2 c2 (Hb2 & out & Hok2 & Hout & Hs2 & Hl2 & Hd2 & Hc2 & Hi2 & Hline2 & Hrq2).
  apply wp_bind, wp_gets, wp_bind. change (id c2) with c2.
  eapply wp_mono with (E := fun f => f = Blocked) (Q := fun _ c' => uart_ok c' /\ effect c2 [] [] c').
  { destruct (_ <? _).
    - apply wp_bind. eapply wp_mono; [apply (update_credit_spec True c2 Hok2); by left|by intros ? []|].
      intros rv c' (? & ? & _). by apply wp_ret.
    - apply wp_ret. split; [done|apply effect_refl]. }
  { done. }
  intros _ c3 (Hok3 & Heff3). apply wp_ret.
  pose proof (e_line _ _ _ _ Heff1) as Hline1. pose proof (e_line _ _ _ _ Heff3) as Hline3.
  simpl in Hline3. pose proof (e_debt _ _ _ _ Heff3) as Hd3. simpl in Hd3.
  pose proof (lenz_nonneg out). destruct (e_input _ _ _ _ Heff1) as [g1 Hg1].
  destruct (e_input _ _ _ _ Heff3) as [g3 Hg3]. simpl in Hg3. rewrite app_nil_r in Hg3.
  constructor; [done|done|by intros ? [= <-]|rewrite <- Hline3, Hline2; lia|].
  exists taken, items, out. split_and!; [done|by rewrite <- Hline3, Hline2| | |].
  - exists (g1 ++ g3). by rewrite Hg1, <- Hi2, Hg3, app_assoc.
  - by rewrite (e_output _ _ _ _ Heff3), <- Hout, (e_output _ _ _ _ Heff1).
  - rewrite Hd3, Hd2, (e_debt _ _ _ _ Heff1). lia.
Qed.

Lemma thread_round_spec c buffer :
  uart_ok c -> honours c -> lenz buffer = TMP_BUFFER_SIZE ->
  debt c + 32768 * lenz (p_line (b_port c)) < 2 ^ 31 ->
  wp (thread_round buffer) (fun f => f = Blocked) (fun next c' => round_post c next c') c.
Proof.
  intros Hok Hhon Hbuf Hroom. unfold thread_round. apply wp_bind, wp_gets, wp_bind.
  change (id c) with c.
  eapply wp_mono with (E := fun f => f = Blocked) (Q := fun _ c1 => uart_ok c1 /\ exists r ev d,
    c1 = set_requests r (term_request c) (set_port (after_write d ev (b_port c)) c)).
  { destruct (_ =? _).
    - eapply wp_mono; [by apply thread_reset_spec|done|]. intros _ c' (? & ev & d & ->). eauto.
    - apply wp_ret. split; [done|]. exists (reset_request c), (p_writes (b_port c)), [].
      unfold after_write. rewrite app_nil_r. by destruct c as [[] ?]. }
  { done. }
  intros _ c1 (Hok1 & r & ev & d & Heq). apply wp_bind, wp_gets. change (id c1) with c1.
  assert (Hterm : term_request c1 = term_request c) by by rewrite Heq.
  destruct (Z.eqb_spec (term_request c1) 0) as [Ht|Ht]; simpl negb; cbv match.
  - eapply wp_mono; [apply (thread_body_spec c1 buffer Hok1); [|done|done|by rewrite Heq]|done|].
    { apply (honours_ext c); [by rewrite Heq|by rewrite Heq|done]. }
    intros next c2 [Hok2 Hb Hbuf2 Hr2 Hst]. constructor; [done|by rewrite Hb, Hterm|done|done|].
    rewrite Heq in Hst. exact Hst.
  - apply wp_ret. constructor; [done|split; [congruence|done]|done|by rewrite Heq|].
    exists [], [], []. rewrite Heq. simpl. split_and!; [constructor|done| |done|].
    + exists []. by rewrite app_nil_r.
    + change (lenz []) with 0. lia.
Qed.

(** *** Reset *)

Definition reset_bytes : list Z := [0xfe; 0x87; 0xfe; 0x85].

Definition grant_bytes (g : Z) : list Z := if g =? 0 then [] else credit_message g.

Lemma drain_loop_spec fuel n c :
  uart_ok c -> 0 <= n ->
  wp (drain_loop fuel n) (fun f => f = Blocked) (fun _ c' => exists (d : list Z) ev,
    c' = set_port (after_read (lenz d) ev (b_port c)) c /\ uart_ok c') c.
Proof.
  intros Hok Hn. revert c Hok. induction fuel as [|f IH]; intros c Hok; [done|].
  simpl. apply wp_bind, wp_on_port.
  eapply owp_mono; [apply (sys_read_spec n (b_port c) (ok_port c Hok) Hn)|done|].
  intros [[[rv errno] d] p'] (ev & Hp' & _ & Hline & Hd & -> & Hrv). cbv beta match.
  destruct (read_effect c d ev Hok Hp' Hline) as [Hok1 _].
  destruct (0 <? rv); [|apply wp_ret; by exists d, ev].
  eapply wp_mono; [by apply IH|done|]. intros _ c2 (d2 & ev2 & -> & Hok2).
  exists (d ++ d2), ev2. split; [|done]. unfold after_read. simpl.
  rewrite drop_drop, lenz_app. unfold set_port. simpl. do 2 f_equal. f_equal.
  pose proof (lenz_nonneg d). pose proof (lenz_nonneg d2). lia.
Qed.

Lemma reset_com_spec state c :
  uart_ok c -> 0 <= state <= 1 ->
  wp (reset_com state) (fun f => f = Blocked) (fun rv c' => exists ev, rv = 0 /\ uart_ok c' /\
    c' = set_port (after_write [0xfe; 0x85 + 2 * state] ev (b_port c)) c) c.
Proof.
  intros Hok Hst. unfold reset_com.
  replace (u8 (((state &&& 1) <<< 1) ||| 0x85)) with (0x85 + 2 * state)
    by (assert (state = 0 \/ state = 1) as [-> | ->] by lia; reflexivity).
  apply wp_bind, wp_on_port. set (d := [0xfe; _]).
  eapply owp_mono; [apply (write_blocking_spec True d); [apply Hok|change (lenz d) with 2; lia|by left]|by intros ? []|].
  intros [[rv n] p'] (ev & -> & _ & Hp' & -> & _). cbv beta match. apply wp_ret. exists ev.
  split_and!; [done| |done]. by destruct Hok; constructor.
Qed.

(** What [reset] has done when it returns. *)
Record reset_post c (rv : Z) c' : Prop := {
  rs_rv : rv = 0;
  rs_input : fifo_contents (input_buffer c') = [];
  rs_output : fifo_contents (output_buffer c') = [];
  rs_grant : let g := Z.min (fifo_size (input_buffer c) - credit c) UART_MAX_TRANCHE in
             p_sent (b_port c') = p_sent (b_port c) ++ reset_bytes ++ grant_bytes g /\
             credit c' = credit c + g;
  rs_debt : exists y z, debt c' = u64 (debt_tranche y z)
}.

Lemma update_credit_reset c :
  uart_ok c -> fifo_contents (input_buffer c) = [] ->
  wp update_credit (fun f => f = Blocked) (fun _ c' => uart_ok c' /\
    input_buffer c' = input_buffer c /\ output_buffer c' = output_buffer c /\ debt c' = debt c /\
    let g := Z.min (fifo_size (input_buffer c) - credit c) UART_MAX_TRANCHE in
    p_sent (b_port c') = p_sent (b_port c) ++ grant_bytes g /\ credit c' = credit c + g) c.
Proof.
  intros Hok Hempty. pose proof (grant_amount c Hok) as Hg. pose proof Hok as [].
  pose proof (fifo_size_bounds _ ok_input0).
  assert (Hfree : fifo_free_level (input_buffer c) = fifo_size (input_buffer c)).
  { rewrite fifo_free_level_eq, Hempty by done. change (lenz []) with 0. lia. }
  unfold update_credit. apply wp_bind, wp_gets. cbv zeta. change (id c) with c. rewrite Hg, Hfree in *.
  set (g := Z.min _ _) in *. unfold grant_bytes.
  destruct (Z.eqb_spec g 0) as [->|Hne].
  { apply wp_ret. split_and!; [done..|by rewrite app_nil_r|lia]. }
  apply wp_bind, wp_on_port.
  eapply owp_mono; [apply (write_blocking_spec True (credit_message g)); [done|rewrite lenz_credit_message; lia|by left]|by intros ? []|].
  intros [[rv n] p'] (ev & -> & _ & Hp' & -> & _). cbv beta match. simpl negb.
  apply wp_bind, wp_modify, wp_ret. unfold UART_MAX_TRANCHE in *. rewrite u64_small by lia.
  split_and!; [|done..]. constructor; simpl; try done; lia.
Qed.

Lemma reset_spec c :
  uart_ok c -> wp reset (fun _ => True) (reset_post c) c.
Proof.
  intros Hok. unfold reset. apply wp_bind.
  eapply wp_mono; [by apply reset_com_spec|done|]. intros rv c1 (ev1 & -> & Hok1 & Hc1).
  simpl negb. cbv match. apply wp_bind. unfold drain. apply wp_bind, wp_gets.
  eapply wp_mono; [by apply drain_loop_spec|done|]. intros _ c2 (d2 & ev2 & Hc2 & Hok2).
  apply wp_bind. eapply wp_mono; [by apply reset_com_spec|done|].
  intros rv c3 (ev3 & -> & Hok3 & Hc3). simpl negb. cbv match. apply wp_bind, wp_gets. change (id c3) with c3.
  pose proof Hok3 as [].
  destruct (fifo_discard_all (input_buffer c3) ok_input0) as (bi & Hdi & Hwfi & Hsi & Hci).
  destruct (fifo_discard_all (output_buffer c3) ok_output0) as (bo & Hdo & Hwfo & Hso & Hco).
  rewrite Hdi. apply wp_bind, wp_modify, wp_bind, wp_assert; [done|].
  rewrite Hdo. apply wp_bind, wp_modify, wp_bind, wp_assert; [done|].
  apply wp_bind, wp_modify, wp_bind.
  set (c4 := set_debt 0 _). pose proof (fifo_size_bounds _ ok_input0). pose proof (fifo_levels _ ok_input0).
  assert (Hok4 : uart_ok c4).
  { constructor; simpl; try done. rewrite fifo_free_level_eq, Hci, Hsi by done.
    change (lenz []) with 0. lia. }
  eapply wp_mono; [by apply (update_credit_reset c4)|done|].
  intros _ c5 (Hok5 & Hi5 & Ho5 & Hd5 & Hs5 & Hcr5). apply wp_bind, wp_on_port.
  eapply owp_mono; [apply (read_loop_spec _ 3 [] (b_port c5)); [apply Hok5|zcompute]|done|].
  intros [[rv got] p6] (d6 & ev6 & -> & -> & _ & _ & Hp6 & ->). cbv beta match. apply wp_bind, wp_assert; [done|].
  apply wp_bind.
  assert (Hend : forall debt p, p_sent p = p_sent (b_port c5) ->
    wp (_ ← m_assert (debt !z 0 =? 0xfe); _ ← update_debt (debt !z 1) (debt !z 2); mret 0)
       (fun _ => True) (reset_post c) (set_port p c5)).
  { intros debt p Hp. apply wp_bind. unfold wp at 1, m_assert, lift, c_assert. destruct (_ =? _); [|done].
    apply wp_bind, wp_modify, wp_ret.
    constructor; simpl; [done|by rewrite Hi5|by rewrite Ho5| |by exists (debt !z 1), (debt !z 2); rewrite Hd5].
    rewrite Hp, Hs5, Hcr5. simpl. rewrite Hc3, Hc2, Hc1. simpl.
    rewrite Hsi, Hc3, Hc2, Hc1. simpl. unfold reset_bytes. by rewrite <- !app_assoc. }
  destruct (negb _).
  - apply wp_bind, wp_on_port.
    eapply owp_mono; [apply (read_loop_spec _ 1 []); [done|zcompute]|done|].
    intros [[rv last] p7] (d7 & ev7 & -> & -> & _ & _ & _ & ->). cbv beta match.
    apply wp_bind, wp_assert; [done|]. apply wp_ret. by apply Hend.
  - apply wp_ret. by apply Hend.
Qed.
End stream.

(** *** The stream can be read in one way only *)

Lemma parsed_det l i1 i2 : parsed l i1 -> parsed l i2 -> i1 = i2.
Proof.
  intros H1. revert i2. induction H1; intros i2 H2; inversion H2; subst; try done;
    f_equal; by apply IHparsed.
Qed.

(** ** Correctness of the UART backend *)

Definition demo_fifo : cbuf := MkCbuf 0 0 16 (zeros 16) 0 0 None 0 0 None false 0.

Lemma demo_fifo_wf : cbuf_wf demo_fifo.
Proof. constructor; simpl; try done; try lia. exists 4. done. Qed.

Definition demo_port (line : list Z) : port :=
  MkPort line [] (replicate 20 (SysBytes 256)) (replicate 20 (SysBytes 256)) [] [] 0.

Definition demo_ctx (line : list Z) (cred : Z) : glip_backend_ctx cbuf :=
  MkCtx (demo_port line) 115200 1 demo_fifo demo_fifo 0 cred 0 0 [].

Lemma demo_ctx_ok line cred :
  Forall is_byte line -> 0 <= cred <= 16 -> uart_ok (demo_ctx line cred).
Proof.
  intros Hl Hc. constructor; simpl; try done; try apply demo_fifo_wf.
  split; by apply Forall_replicate.
Qed.

Definition demo_chunk : list Z := [1; 0xfe; 0xfe; 0xfe] ++ zeros 252.

(** C8: [parse_buffer] decodes the stream whatever the chunk it is given: the
    items it takes effect of are those of the chunk completed by at most two
    bytes from the line, which it fetches only when the chunk ends within an
    item.  No assertion fails and no access leaves the buffer as long as the
    chunk holds no more data than credit has been granted; and it returns, at
    once when the chunk ends with an item, else when the missing bytes come. *)
Theorem parse_buffer_correct `{FifoLaws B} (c : glip_backend_ctx B) (buffer : list Z) (size : Z) :
  let chunk := take (Z.to_nat size) buffer in
  uart_ok c -> 0 <= size <= lenz buffer -> 2 <= lenz buffer -> Forall is_byte chunk ->
  debt c + 32768 * (size + lenz (p_line (b_port c))) < 2 ^ 31 ->
  lenz (data_of (decode chunk).1) <= credit c ->
  (forall f, parse_buffer buffer size c = Fault f -> f = Blocked) /\
  ((decode chunk).2 = [] \/
   (lenz (data_of (decode chunk).1) + 2 <= credit c /\ reads_ready 2 (b_port c)) ->
   exists buffer' c', parse_buffer buffer size c = Ret (buffer', c')) /\
  (forall buffer' c', parse_buffer buffer size c = Ret (buffer', c') ->
   exists items extra, parsed (chunk ++ extra) items /\ effect c extra items c' /\ uart_ok c' /\
     (length extra <= 2)%nat /\ ((decode chunk).2 = [] -> extra = [])).
Proof.
  intros chunk Hok Hs Hl Hb Hroom Hd.
  assert (Hrest : rest_of buffer size 0 = chunk) by (unfold rest_of; by rewrite drop_0).
  assert (Hlc : lenz chunk = size) by (unfold chunk; rewrite lenz_take; lia).
  assert (Hch : forall bo, (decode chunk).2 = [] \/ bo \/
      (lenz (data_of (decode chunk).1) + 2 <= credit c /\ reads_ready 2 (b_port c)) ->
      wp (parse_buffer buffer size) (blocked_if bo) (fun buffer' c' =>
        exists items extra, lenz buffer' = lenz buffer /\ uart_ok c' /\ parsed (chunk ++ extra) items /\
          effect c extra items c' /\ (length extra <= 2)%nat /\ ((decode chunk).2 = [] -> extra = []) /\
          debt c' + 32768 * lenz (p_line (b_port c')) < 2 ^ 31) c).
  { intros bo Hf. rewrite <- Hrest. unfold parse_buffer. apply parse_loop_spec; try lia; [done|].
    rewrite Hrest. constructor; [done|rewrite Hlc; lia|done|].
    destruct Hf as [|[|[]]]; [by left|by right; left|right; right; split; [done|by right]]. }
  split_and!.
  - intros f Hf. by destruct (wp_Fault _ _ _ _ _ (Hch True ltac:(auto)) Hf).
  - intros Hf. specialize (Hch False ltac:(tauto)). unfold wp in Hch.
    destruct (parse_buffer buffer size c) as [[b' c']|e]; [eauto|by destruct Hch].
  - intros b' c' Hr. destruct (wp_Ret _ _ _ _ _ _ (Hch True ltac:(auto)) Hr)
      as (items & extra & _ & ? & ? & ? & ? & ? & _). by exists items, extra.
Qed.

Lemma parse_buffer_correct_witness :
  exists buffer' c', parse_buffer demo_chunk 4 (demo_ctx [3; 0x10; 7] 4) = Ret (buffer', c') /\
    cbuf_contents (input_buffer c') = [1; 0xfe] /\ debt c' = 0x110.
Proof.
  destruct (parse_buffer_correct (demo_ctx [3; 0x10; 7] 4) demo_chunk 4) as (_ & Hr & _);
    [apply demo_ctx_ok; [repeat constructor; zcompute|lia]|zcompute|zcompute|repeat constructor; zcompute|zcompute|zcompute|].
  destruct Hr as (b' & c' & Hr).
  { right. split; [zcompute|]. exists (replicate 2 (SysBytes 256)), (replicate 18 (SysBytes 256)).
    split_and!; [done|done|repeat constructor; exists 256; (split; [reflexivity|lia])|zcompute]. }
  exists b', c'. split; [exact Hr|]. vm_compute in Hr. injection Hr as <- <-. split; reflexivity.
Defined.




Definition demo_sender : glip_backend_ctx cbuf :=
  MkCtx (MkPort [] [] [] (replicate 512 (SysBytes 3)) [] [] 0) 115200 1 demo_fifo
    (MkCbuf 3 0 16 ([1; 0xfe; 2] ++ zeros 13) 0 0 None 0 0 None false 0) 2 0 0 0 [].


(** C11: the encoding is unambiguous: whatever reads the bytes of escaped data
    followed by a credit message by the grammar of the line gets exactly that
    data and that credit, for every amount of credit that fits a message. *)
Theorem uart_stream_roundtrip (d : list Z) (n : Z) :
  0 <= n <= UART_MAX_TRANCHE ->
  exists items, parsed (escape d ++ credit_message n) items /\
    data_of items = d /\ debt_of items = n /\
    forall items', parsed (escape d ++ credit_message n) items' -> items' = items.
Proof.
  intros Hn. destruct (parsed_credit_message n Hn) as (y & z & Hp & Hd).
  exists ((IData <$> d) ++ [ICredit y z]).
  assert (Hall : parsed (escape d ++ credit_message n) ((IData <$> d) ++ [ICredit y z]))
    by (apply parsed_app; [apply parsed_escape|done]).
  split_and!; [done| | |by intros; eapply parsed_det].
  - rewrite data_of_app, data_of_IData. apply app_nil_r.
  - rewrite debt_of_app, debt_of_IData. unfold debt_of. simpl. lia.
Qed.

Lemma uart_stream_roundtrip_witness :
  exists items, parsed (escape [5; 0xfe] ++ credit_message 300) items /\
    data_of items = [5; 0xfe] /\ debt_of items = 300 /\
    forall items', parsed (escape [5; 0xfe] ++ credit_message 300) items' -> items' = items.
Proof. apply (uart_stream_roundtrip [5; 0xfe] 300). zcompute. Defined.

(** [check_timeout] compares the elapsed time with the timeout exactly as
    long as the microseconds do not wrap around; when they do, it takes the
    elapsed time for two seconds longer than it is. *)
Theorem check_timeout_correct (start now : timeval) (ts : list timeval) (ms : Z) (p : port) :
  p_clock p = now :: ts ->
  0 <= tvu_sec start <= tvu_sec now -> tvu_sec now < 2 ^ 40 ->
  0 <= tvu_usec start < 1000000 -> 0 <= tvu_usec now < 1000000 -> 0 <= ms <= 2147483 ->
  let true_us := (tvu_sec now - tvu_sec start) * 1000000 + (tvu_usec now - tvu_usec start) in
  exists rv p', check_timeout start ms p = Ret (rv, p') /\ p_clock p' = ts /\
    (rv = 0 \/ rv = - ETIMEDOUT) /\
    (tvu_usec start <= tvu_usec now -> (rv = - ETIMEDOUT <-> ms * 1000 < true_us)) /\
    (tvu_usec now < tvu_usec start -> (rv = - ETIMEDOUT <-> ms * 1000 < true_us + 2000000)).
Proof.
  intros Hclock Hs Hmax Hus Hun Hms true_us. unfold check_timeout, gettimeofday. rewrite Hclock.
  simpl. rewrite s32_small by lia.
  destruct (Z.ltb_spec (ms * 1000) (- 2 ^ 31)); [lia|].
  destruct (Z.leb_spec (2 ^ 31) (ms * 1000)); [lia|]. simpl.
  assert (Hel : elapsed start now = true_us + if tvu_usec now <? tvu_usec start then 2000000 else 0).
  { unfold elapsed. rewrite !s64_small by lia. destruct (Z.ltb_spec (tvu_usec now) (tvu_usec start));
      rewrite s64_small by lia; lia. }
  rewrite Hel. eexists _, _. split; [done|]. split; [done|]. unfold ETIMEDOUT.
  destruct (Z.ltb_spec (tvu_usec now) (tvu_usec start)); case_match; split_and!; lia.
Qed.

Lemma check_timeout_correct_witness :
  exists rv p', check_timeout (MkTimeval 10 999999) 1000
                  (MkPort [] [] [] [] [MkTimeval 11 1] [] 0) = Ret (rv, p') /\ rv = - ETIMEDOUT.
Proof.
  destruct (check_timeout_correct (MkTimeval 10 999999) (MkTimeval 11 1) [] 1000
              (MkPort [] [] [] [] [MkTimeval 11 1] [] 0)) as (rv & p' & Hr & _ & _ & _ & H);
    [reflexivity|zcompute..|].
  exists rv, p'. split; [exact Hr|]. apply H; zcompute.
Defined.

(** After a reset that succeeds both buffers are empty and the debt is the
    one of the target's first message; but the credit of the time before the
    reset is kept, and the target is granted only the space beyond it: nothing
    at all when the old credit filled the buffer. *)
Theorem uart_reset_correct `{FifoLaws B} (c : glip_backend_ctx B) (rv : Z) (c' : glip_backend_ctx B) :
  uart_ok c -> reset c = Ret (rv, c') -> reset_post c rv c'.
Proof. intros Hok Hr. exact (wp_Ret _ _ _ _ _ _ (reset_spec c Hok) Hr). Qed.

Definition demo_reopened : glip_backend_ctx cbuf :=
  MkCtx (MkPort (replicate 16 0 ++ [0xfe; 1; 9]) []
           [SysBytes 16; SysBytes 0; SysBytes 3] (replicate 20 (SysBytes 256)) [] [] 0)
    115200 1 demo_fifo demo_fifo 0 16 0 0 [].

Lemma demo_reopened_ok : uart_ok demo_reopened.
Proof.
  split; [split|apply demo_fifo_wf|apply demo_fifo_wf|zcompute|zcompute|constructor|].
  - repeat constructor.
  - exact (Forall_replicate soft 20 (SysBytes 256) I).
  - simpl. repeat (constructor; [zcompute|]). constructor.
Qed.

Lemma uart_reset_correct_witness :
  exists c', reset demo_reopened = Ret (0, c') /\ reset_post demo_reopened 0 c' /\
    p_sent (b_port c') = reset_bytes.
Proof.
  eexists. split; [vm_compute; reflexivity|]. split; [|reflexivity].
  apply uart_reset_correct; [apply demo_reopened_ok|vm_compute; reflexivity].
Defined.
