(* ===== verification/Osd.v ===== *)
(** * The Open SoC Debug host library: opensocdebug/software/src

    Packets, register access, enumeration of the system, and the dispatch of
    incoming packets to handlers (connection.c, regaccess.c, control.c,
    system-info.c, osd-private.h).

    A packet is a list of 16-bit words: the number of words that follow, the
    destination, the type with the source, and the payload.  The target is the
    function [respond] from a packet sent to the packets it sends back; they
    wait in [o_incoming] until the receiver thread handles them, which it does
    while a caller waits for a condition variable. *)

From S2P Require Import Prelude.
From S2P Require Import State.

(** ** Data *)

Definition OSD_SUCCESS : Z := 0.
Definition OSD_E_GENERIC : Z := 1.
Definition OSD_E_CANNOTENUMERATE : Z := 2.

Definition OSD_MOD_HOST : Z := 0.
Definition OSD_MOD_SCM : Z := 1.
Definition OSD_MOD_DEM_UART : Z := 2.
Definition OSD_MOD_MAM : Z := 3.
Definition OSD_MOD_STM : Z := 4.
Definition OSD_MOD_CTM : Z := 5.

Definition OSD_EVENT_PACKET : Z := 1.
Definition OSD_EVENT_TRACE : Z := 2.

Definition REG_READ16 : Z := 0x0.
Definition REG_WRITE16 : Z := 0x4.

Definition OSD_REG_CS : Z := 0x3.
Definition OSD_CS_STALL : Z := (1 <<< 11) ||| 1.
Definition OSD_CS_UNSTALL : Z := 1 <<< 11.

Record osd_memory_descriptor : Type := MkMem {
  data_width : Z;
  addr_width : Z;
  num_regions : Z;
  regions : list (Z * Z)   (* base address and size *)
}.

(** The union [descriptor]: the pointer that was stored, or null. *)
Inductive descriptor : Type :=
  | DNull
  | DMemory (m : osd_memory_descriptor)
  | DStm (xlen : Z)
  | DCtm (addr_width data_width : Z).

Record osd_module_info : Type := MkModule {
  m_addr : Z;
  m_type : Z;
  m_version : Z;
  m_descriptor : descriptor
}.

Record osd_system_info : Type := MkInfo {
  identifier : Z;
  max_pkt_len : Z;
  num_modules : Z;
  num_memories : Z;
  modules : list osd_module_info
}.

(** [osd_incoming_handler]: the functions of the library that are registered,
    with the argument where they have one. *)
Inductive handler : Type :=
  | HNone
  | HMemoryRead
  | HStmLog (desc : Z)
  | HCtmLog (log : Z).

(** The two ways to reach the target. *)
Inductive osd_mode : Type := OSD_MODE_STANDALONE | OSD_MODE_DAEMON.

Record osd_context : Type := MkOsd {
  o_mode : osd_mode;
  o_sent : list (list Z);         (* packets sent *)
  o_incoming : list (list Z);     (* packets received and not handled yet *)
  o_reg_size : Z;                 (* reg_access.size *)
  o_resp_packet : list Z;         (* reg_access.resp_packet *)
  o_reg_signal : bool;            (* reg_access.cond_complete has been signalled *)
  o_mem_size : Z;                 (* mem_access.size *)
  o_mem_count : Z;                (* mem_access.count *)
  o_mem_data : list Z;            (* what mem_access.data points to *)
  o_mem_signal : bool;            (* mem_access.cond_complete has been signalled *)
  o_system_info : option osd_system_info;
  o_handlers : list handler;      (* the packet_handler of each module *)
  o_trace : list (Z * Z * list Z) (* trace packets handed to a log handler *)
}.

Definition set_sent (s i : list (list Z)) (c : osd_context) : osd_context :=
  MkOsd (o_mode c) s i (o_reg_size c) (o_resp_packet c) (o_reg_signal c) (o_mem_size c)
    (o_mem_count c) (o_mem_data c) (o_mem_signal c) (o_system_info c) (o_handlers c) (o_trace c).
Definition set_reg (n : Z) (r : list Z) (sig : bool) (c : osd_context) : osd_context :=
  MkOsd (o_mode c) (o_sent c) (o_incoming c) n r sig (o_mem_size c)
    (o_mem_count c) (o_mem_data c) (o_mem_signal c) (o_system_info c) (o_handlers c) (o_trace c).
Definition set_mem (size count : Z) (d : list Z) (sig : bool) (c : osd_context) : osd_context :=
  MkOsd (o_mode c) (o_sent c) (o_incoming c) (o_reg_size c) (o_resp_packet c) (o_reg_signal c)
    size count d sig (o_system_info c) (o_handlers c) (o_trace c).
Definition set_info (i : option osd_system_info) (c : osd_context) : osd_context :=
  MkOsd (o_mode c) (o_sent c) (o_incoming c) (o_reg_size c) (o_resp_packet c) (o_reg_signal c)
    (o_mem_size c) (o_mem_count c) (o_mem_data c) (o_mem_signal c) i (o_handlers c) (o_trace c).
Definition set_handlers (h : list handler) (c : osd_context) : osd_context :=
  MkOsd (o_mode c) (o_sent c) (o_incoming c) (o_reg_size c) (o_resp_packet c) (o_reg_signal c)
    (o_mem_size c) (o_mem_count c) (o_mem_data c) (o_mem_signal c) (o_system_info c) h (o_trace c).
Definition add_trace (kind arg : Z) (p : list Z) (c : osd_context) : osd_context :=
  MkOsd (o_mode c) (o_sent c) (o_incoming c) (o_reg_size c) (o_resp_packet c) (o_reg_signal c)
    (o_mem_size c) (o_mem_count c) (o_mem_data c) (o_mem_signal c) (o_system_info c) (o_handlers c)
    (o_trace c ++ [(kind, arg, p)]).

(** A pointer into [system_info] that the program follows. *)
Definition from_list {A} (l : list A) (i : Z) : outcome A :=
  if i <? 0 then Fault OutOfBounds
  else match l !! Z.to_nat i with Some x => Ret x | None => Fault OutOfBounds end.

Section osd.
(** The target: what arrives in answer to a packet. *)
Variable respond : list Z -> list (list Z).

Local Abbreviation MO := (M osd_context).

Definition system_info : MO osd_system_info :=
  i ← gets o_system_info;
  match i with Some i => mret i | None => fault_with NullDeref end.

Definition module (id : Z) : MO osd_module_info :=
  i ← system_info; lift (from_list (modules i) id).

(** [modules[id].descriptor.memory], dereferenced. *)
Definition memory_descriptor (id : Z) : MO osd_memory_descriptor :=
  m ← module id;
  match m_descriptor m with
  | DMemory d => mret d
  | DNull => fault_with NullDeref
  | _ => fault_with OutOfBounds
  end.

(** ** Sending: connection.c *)

(** The words [packet[0..packet[0]]] go to the target. *)
Definition osd_send_packet (packet : list Z) : MO Z :=
  n ← lift (get packet 0);
  words ← lift (load packet 0 (n + 1));
  _ ← modify (fun c => set_sent (o_sent c ++ [words]) (o_incoming c ++ respond words) c);
  mret OSD_SUCCESS.

(** ** Modules and addresses: system-info.c *)

Definition osd_get_max_pkt_len : MO Z := i ← system_info; mret (max_pkt_len i).

Definition osd_get_system_identifier : MO (Z * Z) :=
  i ← system_info; mret (OSD_SUCCESS, identifier i).

Definition osd_get_num_modules : MO (Z * Z) :=
  i ← system_info; mret (OSD_SUCCESS, num_modules i).

Definition osd_modid2addr (id : Z) : MO Z := m ← module id; mret (m_addr m).

Fixpoint addr2modid_loop (ms : list osd_module_info) (fuel : nat) (i addr : Z) : outcome Z :=
  match fuel with
  | O => Ret 0
  | S f =>
      m ← from_list ms i;
      if m_addr m =? addr then Ret (u16 i) else addr2modid_loop ms f (i + 1) addr
  end.

Definition osd_addr2modid (addr : Z) : MO Z :=
  i ← system_info; lift (addr2modid_loop (modules i) (Z.to_nat (num_modules i)) 0 addr).

Definition osd_get_scm : MO (Z * option Z) :=
  m ← module 1;
  if negb (m_type m =? OSD_MOD_SCM) then mret (OSD_E_GENERIC, None) else mret (OSD_SUCCESS, Some 1).

(** The loop of [osd_get_memories]: [m] memories are in [acc]. *)
Fixpoint get_memories_loop (ms : list osd_module_info) (fuel : nat) (i num : Z) (acc : list Z) :
    outcome (list Z) :=
  match fuel with
  | O => Ret acc
  | S f =>
      if lenz acc <? num then
        m ← from_list ms i;
        get_memories_loop ms f (i + 1) num (if m_type m =? OSD_MOD_MAM then acc ++ [i] else acc)
      else Ret acc
  end.

(** The return code, the array and [*num]. *)
Definition osd_get_memories : MO (Z * list Z * Z) :=
  i ← system_info;
  l ← lift (get_memories_loop (modules i) (Z.to_nat (num_modules i)) 0 (num_memories i) []);
  mret (OSD_SUCCESS, l, num_memories i).

Definition osd_get_memory_descriptor (addr : Z) : MO (Z * option osd_memory_descriptor) :=
  m ← module addr;
  if negb (m_type m =? OSD_MOD_MAM) then mret (OSD_E_GENERIC, None) else
  d ← memory_descriptor addr; mret (OSD_SUCCESS, Some d).

Definition module_lookup : list Z := [0; 1; 2; 3; 4; 5].  (* HOST SCM DEM-UART MAM STM CTM *)

Definition modules_max_id : Z := 4.

(** The copies of names [strdup] makes, as indices of [module_lookup] (or -1 for
    "UNKNOWN"); the last one is [*name]. *)
Definition osd_get_module_name (id : Z) : MO (list Z) :=
  m ← module id;
  let unknown := if modules_max_id <? m_type m then [-1] else [] in
  name ← lift (get module_lookup (m_type m));
  mret (unknown ++ [name]).

Definition osd_module_is_terminal (id : Z) : MO bool :=
  m ← module id; mret (m_type m =? OSD_MOD_DEM_UART).

(** ** Incoming packets: connection.c and memory.c *)

(** [memory_read_cb]: the two bytes of a word, low byte first. *)
Fixpoint memory_read_words (words : list Z) (idx : Z) (d : list Z) : outcome (list Z) :=
  match words with
  | [] => Ret d
  | w :: words =>
      d ← put d idx (w &&& 0xff);
      d ← put d (idx + 1) (u8 (w >>> 8));
      memory_read_words words (idx + 2) d
  end.

Definition memory_read_cb (packet : list Z) : MO unit :=
  n ← lift (get packet 0);
  let numwords := u64 (n - 2) in
  c ← gets id;
  words ← lift (load packet 3 numwords);
  d ← lift (memory_read_words words (o_mem_count c * 2) (o_mem_data c));
  let count := o_mem_count c + numwords in
  modify (fun c => set_mem (o_mem_size c) count d
            (o_mem_signal c || (o_mem_size c / 2 <=? count)) c).

Definition call_handler (mod_id : Z) (packet : list Z) : MO unit :=
  hs ← gets o_handlers;
  h ← lift (from_list hs mod_id);
  match h with
  | HNone => mret tt
  | HMemoryRead => memory_read_cb packet
  | HStmLog d => modify (add_trace OSD_MOD_STM d packet)
  | HCtmLog l => modify (add_trace OSD_MOD_CTM l packet)
  end.

Definition osd_handle_packet (packet : list Z) : MO unit :=
  t ← lift (get packet 2);
  let type := u8 (t >>> 10) in
  size ← lift (get packet 0);
  if type >>> 4 =? 0 then
    words ← lift (load packet 0 (size + 1));
    c ← gets id;
    r ← lift (store (o_resp_packet c) 0 words);
    modify (set_reg size r true)
  else
    mod_id ← osd_addr2modid (t &&& 0x3ff);
    if (type >>> 4 =? OSD_EVENT_PACKET) || (type >>> 4 =? OSD_EVENT_TRACE)
    then call_handler mod_id packet
    else mret tt.

(** [pthread_cond_wait]: the receiver thread handles packets until one of them
    signals the condition. *)
Fixpoint wait_loop (fuel : nat) (signalled : osd_context -> bool) : MO unit :=
  c ← gets id;
  if signalled c then mret tt else
  match fuel, o_incoming c with
  | S f, p :: ps =>
      _ ← modify (set_sent (o_sent c) ps);
      _ ← osd_handle_packet p;
      wait_loop f signalled
  | _, _ => fault_with Blocked
  end.

Definition cond_wait (signalled : osd_context -> bool) : MO unit :=
  n ← gets (fun c => length (o_incoming c));
  wait_loop n signalled.

(** ** Register access: regaccess.c *)

(** The request packet is overwritten with the response. *)
Definition osd_reg_access (packet : list Z) : MO (list Z) :=
  _ ← modify (fun c => set_reg (o_reg_size c) (o_resp_packet c) false c);
  _ ← osd_send_packet packet;
  _ ← cond_wait o_reg_signal;
  c ← gets id;
  words ← lift (load (o_resp_packet c) 0 (o_reg_size c + 1));
  lift (store packet 0 words).

Definition osd_reg_read16 (mod_addr addr : Z) : MO (Z * Z) :=
  packet ← osd_reg_access [3; mod_addr &&& 0x3ff; u16 (REG_READ16 <<< 10); addr];
  n ← lift (get packet 0);
  _ ← m_assert (n =? 3);
  value ← lift (get packet 3);
  mret (OSD_SUCCESS, value).

Definition osd_reg_write16 (mod_addr addr value : Z) : MO Z :=
  _ ← osd_reg_access [4; mod_addr &&& 0x3ff; u16 (REG_WRITE16 <<< 10); addr; value];
  mret OSD_SUCCESS.

(** [osd_reg_read16(ctx, a, r, &x)], the return code ignored. *)
Definition read_reg (a r : Z) : MO Z := '(_, x) ← osd_reg_read16 a r; mret x.

(** ** Enumeration: system-info.c *)

Definition scmid : Z := 0x1.

(** A 64-bit value in four registers from [r] on. *)
Definition read_reg64 (a r : Z) : MO Z :=
  x0 ← read_reg a r;
  x1 ← read_reg a (u16 (r + 1));
  x2 ← read_reg a (u16 (r + 2));
  x3 ← read_reg a (u16 (r + 3));
  mret (((x0 ||| (x1 <<< 16)) ||| (x2 <<< 32)) ||| (x3 <<< 48)).

Fixpoint read_regions (a : Z) (n : nat) (j : Z) : MO (list (Z * Z)) :=
  match n with
  | O => mret []
  | S n =>
      let regbase := u16 (0x280 + 16 * j) in
      base ← read_reg64 a regbase;
      size ← read_reg64 a (u16 (regbase + 4));
      rest ← read_regions a n (j + 1);
      mret ((base, size) :: rest)
  end.

Definition enumerate_memory (a : Z) : MO descriptor :=
  n ← read_reg a 0x202;
  _ ← m_assert (n <=? 8);
  dw ← read_reg a 0x200;
  aw ← read_reg a 0x201;
  rs ← read_regions a (Z.to_nat (u8 n)) 0;
  mret (DMemory (MkMem dw aw (u8 n) rs)).

(** Writing through [ctx->system_info]. *)
Definition update_info (f : osd_system_info -> osd_system_info) : MO unit :=
  i ← system_info; modify (set_info (Some (f i))).

Definition set_module (i : Z) (m : osd_module_info) (s : osd_system_info) : osd_system_info :=
  MkInfo (identifier s) (max_pkt_len s) (num_modules s) (num_memories s)
    (<[Z.to_nat i := m]> (modules s)).

Definition count_memory (s : osd_system_info) : osd_system_info :=
  MkInfo (identifier s) (max_pkt_len s) (num_modules s) (u16 (num_memories s + 1)) (modules s).

(** One round of the loop over the modules. *)
Definition enumerate_module (i : Z) : MO unit :=
  let addr := u16 i in
  _ ← update_info (set_module i (MkModule addr 0 0 DNull));
  type ← read_reg addr 0;
  d ← (if type =? OSD_MOD_MAM then _ ← update_info count_memory; enumerate_memory addr
       else if type =? OSD_MOD_STM then xlen ← read_reg addr 0x200; mret (DStm xlen)
       else if type =? OSD_MOD_CTM then
         aw ← read_reg addr 0x200;
         dw ← read_reg addr 0x200;
         mret (DCtm aw dw)
       else mret DNull);
  version ← read_reg addr 1;
  update_info (set_module i (MkModule addr type version d)).

Fixpoint enumerate_modules (n : nat) (i : Z) : MO unit :=
  match n with
  | O => mret tt
  | S n => _ ← enumerate_module i; enumerate_modules n (i + 1)
  end.

Definition osd_system_enumerate : MO Z :=
  mod1_id ← read_reg scmid 0;
  if negb (mod1_id =? 0x1) then mret OSD_E_CANNOTENUMERATE else
  mod_num ← read_reg scmid 0x201;
  let mod_num := u16 (mod_num + 1) in
  _ ← modify (set_info (Some (MkInfo 0 0 mod_num 0
                                (replicate (Z.to_nat mod_num) (MkModule 0 0 0 DNull)))));
  ident ← read_reg scmid 0x200;
  _ ← update_info (fun s => MkInfo ident (max_pkt_len s) (num_modules s) (num_memories s) (modules s));
  len ← read_reg scmid 0x202;
  _ ← update_info (fun s => MkInfo (identifier s) len (num_modules s) (num_memories s) (modules s));
  _ ← module 0;
  _ ← update_info (set_module 0 (MkModule 0 0 0 DNull));
  _ ← enumerate_modules (Z.to_nat (mod_num - 1)) 1;
  mret OSD_SUCCESS.

(** ** Control: control.c *)

(** [calloc(num_modules, ...)] slots, of which the loop fills one more. *)
Fixpoint control_init_loop (fuel : nat) (i num : Z) (slots : list handler) : outcome (list handler) :=
  match fuel with
  | O => Ret slots
  | S f =>
      if i <? num + 1 then
        if i <? lenz slots
        then control_init_loop f (i + 1) num (<[Z.to_nat i := HNone]> slots)
        else Fault OutOfBounds
      else Ret slots
  end.

Definition control_init : MO unit :=
  i ← system_info;
  let n := num_modules i in
  slots ← lift (control_init_loop (Z.to_nat (n + 1)) 0 n (replicate (Z.to_nat n) HNone));
  modify (set_handlers slots).

Definition claim_standalone (id : Z) : MO Z := mret 0.

(** [OSD_DP_CLAIM] is 0; the packet goes to the daemon. *)
Definition claim_daemon (id : Z) : MO Z :=
  _ ← modify (fun c => set_sent (o_sent c ++ [[3; 0xffff; 0; id]])
                                (o_incoming c ++ respond [3; 0xffff; 0; id]) c);
  mret 0.

Definition osd_module_claim (id : Z) : MO Z :=
  c ← gets o_mode;
  match c with OSD_MODE_STANDALONE => claim_standalone id | OSD_MODE_DAEMON => claim_daemon id end.

(** Both kinds of event use the packet handler. *)
Definition osd_module_register_handler (id type : Z) (h : handler) : MO Z :=
  hs ← gets o_handlers;
  _ ← lift (from_list hs id);
  _ ← (if type =? OSD_EVENT_PACKET then modify (set_handlers (<[Z.to_nat id := h]> hs))
       else modify (set_handlers (<[Z.to_nat id := h]> hs)));
  mret 0.

Definition osd_reset_system (halt_cores : bool) : MO Z :=
  '(rv, scm) ← osd_get_scm;
  match rv, scm with
  | 0, Some scm =>
      addr ← osd_modid2addr scm;
      _ ← osd_reg_write16 addr 0x203 0x3;
      _ ← (if halt_cores then osd_reg_write16 addr 0x203 0x2 else osd_reg_write16 addr 0x203 0x0);
      mret OSD_SUCCESS
  | _, _ => mret OSD_E_GENERIC
  end.

Definition osd_start_cores : MO Z :=
  '(rv, scm) ← osd_get_scm;
  match rv, scm with
  | 0, Some scm =>
      addr ← osd_modid2addr scm;
      _ ← osd_reg_write16 addr 0x203 0x0;
      mret OSD_SUCCESS
  | _, _ => mret OSD_E_GENERIC
  end.

Definition osd_module_stall (id : Z) : MO Z :=
  addr ← osd_modid2addr id; _ ← osd_reg_write16 addr OSD_REG_CS OSD_CS_STALL; mret 0.

Definition osd_module_unstall (id : Z) : MO Z :=
  addr ← osd_modid2addr id; _ ← osd_reg_write16 addr OSD_REG_CS OSD_CS_UNSTALL; mret 0.

(** [osd_connect]; [connect_rv] is what the mode's connect function returns. *)
Definition osd_connect (connect_rv : Z) : MO Z :=
  if negb (connect_rv =? 0) then mret connect_rv else
  rv ← osd_system_enumerate;
  if negb (rv =? OSD_SUCCESS) then mret rv else
  _ ← control_init;
  mret OSD_SUCCESS.
End osd.

(** A new context: [calloc] and the mode's functions (context.c). *)
Definition osd_new (mode : Z) : Z * option osd_context :=
  let c := fun m => MkOsd m [] [] 0 (zeros 10) false 0 0 [] false None [] [] in
  if mode =? 0 then (0, Some (c OSD_MODE_STANDALONE))
  else if mode =? 1 then (0, Some (c OSD_MODE_DAEMON))
  else (OSD_E_GENERIC, None).
