(* ===== verification/OsdEnum.v ===== *)
(** * Register access and enumeration of the system

    Against a target whose modules answer every register read, register access
    returns the register and enumeration reconstructs the target's module table,
    with the exceptions the theorems name. *)

From S2P Require Import Prelude.
From S2P Require Import State.
From S2P Require Import Osd.

(** Nothing may go wrong. *)
Definition never (f : fault) : Prop := False.

(** The receiver is idle and the response buffer has its ten words. *)
Definition idle_rx (c : osd_context) : Prop :=
  o_incoming c = [] /\ lenz (o_resp_packet c) = 10.

(** [c'] differs from [c] at most in what register access uses. *)
Definition quiet (c c' : osd_context) : Prop :=
  idle_rx c' /\ o_system_info c' = o_system_info c /\ o_handlers c' = o_handlers c /\
  o_mode c' = o_mode c /\ o_mem_size c' = o_mem_size c /\ o_mem_count c' = o_mem_count c /\
  o_mem_data c' = o_mem_data c /\ o_trace c' = o_trace c.

(** The same, but for the system information. *)
Definition quiet_but_info (c c' : osd_context) : Prop :=
  idle_rx c' /\ o_handlers c' = o_handlers c /\ o_mode c' = o_mode c.

Lemma quiet_info c c' : quiet c c' -> quiet_but_info c c'.
Proof. unfold quiet, quiet_but_info. tauto. Qed.

#[export] Instance quiet_trans : Transitive quiet.
Proof. unfold quiet. intros a b c. intuition congruence. Qed.

#[export] Instance quiet_but_info_trans : Transitive quiet_but_info.
Proof. unfold quiet_but_info. intros a b c. intuition congruence. Qed.

Section target.
Variable respond : list Z -> list (list Z).

(** The 16-bit registers of the modules. *)
Variable regs : Z -> Z -> Z.

Definition reg_target : Prop :=
  (forall a r, is_uint 16 (regs a r)) /\
  (forall a r, 0 <= a < 1024 -> 0 <= r < 65536 -> respond [3; a; 0; r] = [[3; 0; a; regs a r]]).

Hypothesis Htarget : reg_target.

Lemma wp_gets_eq {A} (f : osd_context -> A) E (Q : A -> osd_context -> Prop) c x :
  f c = x -> Q x c -> wp (gets f) E Q c.
Proof. by intros <-. Qed.

Lemma send_packet_spec E n l c (Q : Z -> osd_context -> Prop) :
  lenz l = n ->
  Q OSD_SUCCESS (set_sent (o_sent c ++ [n :: l]) (o_incoming c ++ respond (n :: l)) c) ->
  wp (osd_send_packet respond (n :: l)) E Q c.
Proof.
  intros Hl HQ. pose proof (lenz_nonneg l). unfold osd_send_packet.
  apply wp_bind. eapply wp_lift.
  { unfold get. rewrite lenz_cons. destruct (_ && _) eqn:Hb; [done|lia]. }
  change ((n :: l) !z 0) with n. apply wp_bind. eapply wp_lift.
  { apply load_Ret. split_and!; [lia|lia|rewrite lenz_cons; lia|done]. }
  change (drop (Z.to_nat 0) (n :: l)) with (n :: l).
  rewrite take_ge by (unfold lenz in Hl; simpl; lia).
  apply wp_bind, wp_modify, wp_ret. exact HQ.
Qed.

(** A response to a register access is stored and signalled. *)
Lemma handle_response_spec E a x c (Q : unit -> osd_context -> Prop) :
  0 <= a < 1024 -> lenz (o_resp_packet c) = 10 ->
  (forall rest, lenz rest = 6 -> Q tt (set_reg 3 ([3; 0; a; x] ++ rest) true c)) ->
  wp (osd_handle_packet [3; 0; a; x]) E Q c.
Proof.
  intros Ha Hlen HQ. unfold osd_handle_packet.
  apply wp_bind. eapply wp_lift; [done|]. change ([3; 0; a; x] !z 2) with a.
  apply wp_bind. eapply wp_lift; [done|]. change ([3; 0; a; x] !z 0) with 3.
  assert (Htype : u8 (a >>> 10) >>> 4 = 0).
  { rewrite (shiftr_div a), (Z.div_small a) by lia. done. }
  rewrite Htype. change (0 =? 0) with true. cbv match.
  apply wp_bind. eapply wp_lift; [done|].
  apply wp_bind, wp_gets. change (id c) with c. apply wp_bind.
  eapply wp_lift.
  { unfold store. rewrite Hlen. done. }
  change (take (Z.to_nat 0) (o_resp_packet c)) with (@nil Z).
  apply wp_modify. apply HQ. rewrite lenz_drop, Hlen by done. done.
Qed.

Lemma wait_signalled_spec E fuel sig c (Q : unit -> osd_context -> Prop) :
  sig c = true -> Q tt c -> wp (wait_loop fuel sig) E Q c.
Proof.
  intros Hs HQ. destruct fuel; simpl; apply wp_bind, wp_gets; change (id c) with c;
    rewrite Hs; by apply wp_ret.
Qed.

Lemma wait_packet_spec E fuel sig p ps c (Q : unit -> osd_context -> Prop) :
  sig c = false -> o_incoming c = p :: ps ->
  wp (osd_handle_packet p) E (fun _ c' => wp (wait_loop fuel sig) E Q c') (set_sent (o_sent c) ps c) ->
  wp (wait_loop (S fuel) sig) E Q c.
Proof.
  intros Hs Hin Hp. simpl. apply wp_bind, wp_gets. change (id c) with c. rewrite Hs, Hin.
  by apply wp_bind, wp_modify, wp_bind.
Qed.

(** One exchange: the request is sent, the answer handled, its words returned. *)
Lemma reg_access_spec a r c (Q : list Z -> osd_context -> Prop) :
  idle_rx c -> 0 <= a < 1024 -> 0 <= r < 65536 ->
  (forall c', quiet c c' -> o_sent c' = o_sent c ++ [[3; a; 0; r]] -> Q [3; 0; a; regs a r] c') ->
  wp (osd_reg_access respond [3; a; 0; r]) never Q c.
Proof.
  intros [Hin Hlen] Ha Hr HQ. destruct Htarget as [_ Hresp].
  unfold osd_reg_access. apply wp_bind, wp_modify, wp_bind, send_packet_spec; [done|].
  rewrite Hresp by done. apply wp_bind. unfold cond_wait. apply wp_bind, wp_gets.
  cbn [o_incoming set_sent set_reg]. rewrite Hin.
  eapply wait_packet_spec; [done|done|].
  apply handle_response_spec; [done|done|]. intros rest Hrest.
  apply wait_signalled_spec; [done|]. apply wp_bind, wp_gets, wp_bind.
  eapply wp_lift.
  { apply load_Ret. cbn [o_resp_packet o_reg_size set_reg set_sent id].
    rewrite lenz_app, Hrest. split_and!; done. }
  eapply wp_lift; [done|]. apply HQ; [|done].
  unfold quiet, idle_rx. cbn. split_and!; try done. rewrite !lenz_cons, Hrest. done.
Qed.

Lemma reg_read_spec a r c (Q : Z -> osd_context -> Prop) :
  idle_rx c -> 0 <= a < 1024 -> 0 <= r < 65536 ->
  (forall c', quiet c c' -> Q (regs a r) c') -> wp (read_reg respond a r) never Q c.
Proof.
  intros Hi Ha Hr HQ.
  assert (Hmask : a &&& 0x3ff = a).
  { change 0x3ff with (2 ^ 10 - 1). rewrite land_pow2_mask by lia. apply Z.mod_small. lia. }
  unfold read_reg, osd_reg_read16. rewrite Hmask. change (u16 (REG_READ16 <<< 10)) with 0.
  apply wp_bind, wp_bind, reg_access_spec; [done..|]. intros c' Hq Hs.
  apply wp_bind. eapply wp_lift; [done|]. apply wp_bind, wp_assert; [done|].
  apply wp_bind. eapply wp_lift; [done|]. by apply wp_ret, wp_ret, HQ.
Qed.

Lemma quiet_refl c : idle_rx c -> quiet c c.
Proof. intros Hi. unfold quiet. by split_and!. Qed.

Lemma quiet_idle c c' : quiet c c' -> idle_rx c'.
Proof. by intros []. Qed.

(** *** The tables of the target *)

Definition reg64 (a r : Z) : Z :=
  regs a r + 2 ^ 16 * regs a (r + 1) + 2 ^ 32 * regs a (r + 2) + 2 ^ 48 * regs a (r + 3).

Definition regions_of (a n : Z) : list (Z * Z) :=
  (fun j => (reg64 a (0x280 + 16 * j), reg64 a (0x284 + 16 * j))) <$> seqZ 0 n.

(** What enumeration makes of module [i]: for a CTM both widths are register
    0x200. *)
Definition descriptor_of (i : Z) : descriptor :=
  if regs i 0 =? OSD_MOD_MAM then
    DMemory (MkMem (regs i 0x200) (regs i 0x201) (regs i 0x202) (regions_of i (regs i 0x202)))
  else if regs i 0 =? OSD_MOD_STM then DStm (regs i 0x200)
  else if regs i 0 =? OSD_MOD_CTM then DCtm (regs i 0x200) (regs i 0x200)
  else DNull.

Definition module_of (i : Z) : osd_module_info :=
  MkModule i (regs i 0) (regs i 1) (descriptor_of i).

Lemma lor_16 x y k : 0 <= k -> 0 <= x < 2 ^ k -> x ||| (y <<< k) = x + 2 ^ k * y.
Proof. intros Hk Hx. rewrite lor_disjoint_add' by done. lia. Qed.

Lemma read_reg64_spec a r c (Q : Z -> osd_context -> Prop) :
  idle_rx c -> 0 <= a < 1024 -> 0 <= r < 65532 ->
  (forall c', quiet c c' -> Q (reg64 a r) c') -> wp (read_reg64 respond a r) never Q c.
Proof.
  intros Hi Ha Hr HQ. unfold read_reg64. rewrite !u16_small by lia.
  do 4 (apply wp_bind, reg_read_spec; [try done; by eapply quiet_idle|done|lia|]; intros ? ?).
  apply wp_ret. destruct Htarget as [Hregs _].
  pose proof (Hregs a r) as R0. pose proof (Hregs a (r + 1)) as R1. pose proof (Hregs a (r + 2)) as R2.
  unfold is_uint in *.
  rewrite (lor_16 (regs a r)), (lor_16 (_ + _) (regs a (r + 2))), (lor_16 (_ + _) (regs a (r + 3))) by lia.
  replace (_ + _) with (reg64 a r) by (unfold reg64; lia). apply HQ.
  etrans; [done|]. etrans; [done|]. by etrans.
Qed.

Lemma read_regions_spec a n j c (Q : list (Z * Z) -> osd_context -> Prop) :
  idle_rx c -> 0 <= a < 1024 -> 0 <= j -> j + Z.of_nat n <= 8 ->
  (forall c', quiet c c' ->
     Q ((fun j => (reg64 a (0x280 + 16 * j), reg64 a (0x284 + 16 * j))) <$> seqZ j (Z.of_nat n)) c') ->
  wp (read_regions respond a n j) never Q c.
Proof.
  revert j c Q. induction n as [|n IH]; intros j c Q Hi Ha Hj Hn HQ;
    [by apply wp_ret, HQ, quiet_refl|].
  cbn [read_regions]. rewrite (u16_small (0x280 + 16 * j)) by lia. rewrite u16_small by lia.
  apply wp_bind, read_reg64_spec; [done|done|lia|]. intros c1 Hq1.
  apply wp_bind, read_reg64_spec; [by eapply quiet_idle|done|lia|]. intros c2 Hq2.
  assert (Hq12 : quiet c c2) by by etrans.
  assert (Hcons : forall l, l = ((fun j => (reg64 a (0x280 + 16 * j), reg64 a (0x284 + 16 * j))) <$> seqZ (j + 1) (Z.of_nat n)) ->
      (reg64 a (0x280 + 16 * j), reg64 a (0x280 + 16 * j + 4)) :: l =
      ((fun j => (reg64 a (0x280 + 16 * j), reg64 a (0x284 + 16 * j))) <$> seqZ j (Z.of_nat (S n)))).
  { intros l ->. rewrite (seqZ_cons j) by lia. simpl. do 2 f_equal; [f_equal; lia|].
    do 2 f_equal; lia. }
  apply wp_bind. apply IH; [by eapply quiet_idle|done|lia|lia|].
  intros c3 Hq3. apply wp_ret. rewrite Hcons by done. apply HQ. by etrans.
Qed.

(** *** Enumeration *)

Lemma enumerate_memory_spec a c (Q : descriptor -> osd_context -> Prop) :
  idle_rx c -> 0 <= a < 1024 -> regs a 0x202 <= 8 ->
  (forall c', quiet c c' ->
     Q (DMemory (MkMem (regs a 0x200) (regs a 0x201) (regs a 0x202) (regions_of a (regs a 0x202)))) c') ->
  wp (enumerate_memory respond a) never Q c.
Proof.
  intros Hi Ha Hn HQ. destruct Htarget as [Hregs _]. pose proof (Hregs a 0x202) as Hr. unfold is_uint in Hr.
  unfold enumerate_memory. apply wp_bind, reg_read_spec; [done|done|lia|]. intros c1 Hq1.
  apply wp_bind, wp_assert; [lia|].
  do 2 (apply wp_bind, reg_read_spec; [by eapply quiet_idle|done|lia|]; intros ? ?).
  rewrite u8_small by lia.
  apply wp_bind, read_regions_spec; [by eapply quiet_idle|done|lia|lia|]. intros c4 Hq4.
  rewrite Z2Nat.id by lia. apply wp_ret, HQ. etrans; [done|]. etrans; [done|]. by etrans.
Qed.

(** [c'] is [c] but for register access and for the system information [s]. *)
Definition informed (c : osd_context) (s : osd_system_info) (c' : osd_context) : Prop :=
  quiet_but_info c c' /\ o_system_info c' = Some s.

Lemma informed_quiet c s c' c'' : informed c s c' -> quiet c' c'' -> informed c s c''.
Proof.
  intros [H1 H2] H3. split; [etrans; [done|by apply quiet_info]|].
  destruct H3 as (_ & -> & _). done.
Qed.

Lemma informed_idle c s c' : informed c s c' -> idle_rx c'.
Proof. by intros [[] _]. Qed.

Lemma update_info_spec E c0 s f c (Q : unit -> osd_context -> Prop) :
  informed c0 s c -> (forall c', informed c0 (f s) c' -> Q tt c') -> wp (update_info f) E Q c.
Proof.
  intros [Hq Hs] HQ. unfold update_info, system_info. apply wp_bind, wp_bind, wp_gets. rewrite Hs.
  apply wp_ret, wp_modify, HQ. split; [|done]. exact Hq.
Qed.

Lemma informed_read c0 s a r c (Q : Z -> osd_context -> Prop) :
  informed c0 s c -> 0 <= a < 1024 -> 0 <= r < 65536 ->
  (forall c', informed c0 s c' -> Q (regs a r) c') -> wp (read_reg respond a r) never Q c.
Proof.
  intros Hi Ha Hr HQ. apply reg_read_spec; [by eapply informed_idle|done|done|].
  intros c' Hq. apply HQ. by eapply informed_quiet.
Qed.

Definition add_module (i : Z) (s : osd_system_info) : osd_system_info :=
  MkInfo (identifier s) (max_pkt_len s) (num_modules s)
    (if regs i 0 =? OSD_MOD_MAM then u16 (num_memories s + 1) else num_memories s)
    (<[Z.to_nat i := module_of i]> (modules s)).

Lemma enumerate_module_spec c0 s i c (Q : unit -> osd_context -> Prop) :
  informed c0 s c -> 0 <= i < 1024 -> (regs i 0 = OSD_MOD_MAM -> regs i 0x202 <= 8) ->
  (forall c', informed c0 (add_module i s) c' -> Q tt c') ->
  wp (enumerate_module respond i) never Q c.
Proof.
  intros Hinf Hi Hmam HQ. unfold enumerate_module. rewrite u16_small by lia.
  apply wp_bind. eapply update_info_spec; [done|]. intros c1 Hc1.
  apply wp_bind. eapply informed_read; [done|done|lia|]. intros c2 Hc2. apply wp_bind.
  assert (Hend : forall k c3, informed c0 (MkInfo (identifier s) (max_pkt_len s) (num_modules s) k
                    (<[Z.to_nat i := MkModule i 0 0 DNull]> (modules s))) c3 ->
            k = (if regs i 0 =? OSD_MOD_MAM then u16 (num_memories s + 1) else num_memories s) ->
            wp (version ← read_reg respond i 1;
                update_info (set_module i (MkModule i (regs i 0) version (descriptor_of i)))) never Q c3).
  { intros k c3 Hc3 ->. apply wp_bind. eapply informed_read; [done|done|lia|]. intros c4 Hc4.
    eapply update_info_spec; [done|]. intros c5 Hc5. apply HQ.
    unfold set_module, add_module, module_of in *. cbn in Hc5. by rewrite list_insert_insert_eq in Hc5. }
  unfold descriptor_of in Hend. destruct (Z.eqb_spec (regs i 0) OSD_MOD_MAM) as [He|_];
    [|destruct (regs i 0 =? OSD_MOD_STM); [|destruct (regs i 0 =? OSD_MOD_CTM)]].
  - apply wp_bind. eapply update_info_spec; [done|]. intros c3 Hc3.
    apply enumerate_memory_spec; [by eapply informed_idle|done|by apply Hmam|]. intros c4 Hq4.
    eapply Hend; [by eapply informed_quiet|done].
  - apply wp_bind. eapply informed_read; [done|done|lia|]. intros c3 Hc3. apply wp_ret. by eapply Hend.
  - do 2 (apply wp_bind; eapply informed_read; [done|done|lia|]; intros ? ?). apply wp_ret. by eapply Hend.
  - apply wp_ret. by eapply Hend.
Qed.

Definition add_modules (n : nat) (i : Z) (s : osd_system_info) : osd_system_info :=
  foldl (fun s i => add_module i s) s (seqZ i (Z.of_nat n)).

Lemma enumerate_modules_spec c0 s n i c (Q : unit -> osd_context -> Prop) :
  informed c0 s c -> 0 <= i -> i + Z.of_nat n <= 1024 ->
  (forall j, i <= j < i + Z.of_nat n -> regs j 0 = OSD_MOD_MAM -> regs j 0x202 <= 8) ->
  (forall c', informed c0 (add_modules n i s) c' -> Q tt c') ->
  wp (enumerate_modules respond n i) never Q c.
Proof.
  revert s i c. induction n as [|n IH]; intros s i c Hinf Hi Hn Hmam HQ.
  { apply wp_ret. by apply HQ. }
  cbn [enumerate_modules]. apply wp_bind.
  eapply enumerate_module_spec; [done|lia|apply Hmam; lia|]. intros c1 Hc1.
  eapply IH; [done|lia|lia|intros; apply Hmam; [lia|done]|].
  intros c2 Hc2. apply HQ. unfold add_modules in *. rewrite (seqZ_cons i) by lia. simpl.
  by replace (Z.pred (Z.of_nat (S n))) with (Z.of_nat n) by lia.
Qed.

(** The module table enumeration builds, entry by entry. *)
Lemma add_modules_lookup n i s j :
  0 <= i -> Z.of_nat (length (modules s)) = i + Z.of_nat n -> 0 <= j < i + Z.of_nat n ->
  modules (add_modules n i s) !! Z.to_nat j =
    if j <? i then modules s !! Z.to_nat j else Some (module_of j).
Proof.
  revert i s. induction n as [|n IH]; intros i s Hi Hl Hj.
  { unfold add_modules. simpl. by destruct (Z.ltb_spec j i); [|lia]. }
  unfold add_modules in *. rewrite (seqZ_cons i) by lia. simpl.
  replace (Z.pred (Z.of_nat (S n))) with (Z.of_nat n) by lia.
  rewrite IH; [|lia|simpl; rewrite length_insert; lia|lia]. simpl.
  destruct (Z.ltb_spec j (Z.succ i)), (Z.ltb_spec j i); try lia; [|..|done].
  - by rewrite list_lookup_insert_ne by lia.
  - replace j with i by lia. by rewrite list_lookup_insert_eq by lia.
Qed.

Lemma add_modules_rest n i s :
  length (modules (add_modules n i s)) = length (modules s) /\
  identifier (add_modules n i s) = identifier s /\ max_pkt_len (add_modules n i s) = max_pkt_len s /\
  num_modules (add_modules n i s) = num_modules s.
Proof.
  unfold add_modules. revert s. induction (seqZ i (Z.of_nat n)) as [|j l IH]; intros s; [done|].
  simpl. destruct (IH (add_module j s)) as (H1 & -> & -> & ->). rewrite H1. simpl.
  by rewrite length_insert.
Qed.

Definition is_memory (j : Z) : Prop := regs j 0 = OSD_MOD_MAM.

#[export] Instance is_memory_dec j : Decision (is_memory j).
Proof. unfold is_memory. apply _. Defined.

Lemma add_modules_memories n i s :
  0 <= num_memories s -> num_memories s + Z.of_nat n < 2 ^ 16 ->
  num_memories (add_modules n i s) =
    num_memories s + lenz (filter is_memory (seqZ i (Z.of_nat n))).
Proof.
  intros Hs Hn. unfold add_modules.
  assert (Hl : num_memories s + lenz (seqZ i (Z.of_nat n)) < 2 ^ 16).
  { unfold lenz. rewrite length_seqZ. lia. }
  clear Hn. revert s Hs Hl. induction (seqZ i (Z.of_nat n)) as [|j l IH]; intros s Hs Hl.
  { simpl. change (lenz _) with 0. lia. }
  rewrite lenz_cons in Hl. pose proof (lenz_nonneg l). simpl.
  assert (Hnum : num_memories (add_module j s) = num_memories s + if decide (is_memory j) then 1 else 0).
  { simpl. destruct (decide (is_memory j)) as [Hm|Hm]; unfold is_memory in Hm;
      destruct (Z.eqb_spec (regs j 0) OSD_MOD_MAM); try done; [apply u16_small; lia|lia]. }
  rewrite IH by (rewrite Hnum; case_decide; lia). rewrite Hnum.
  rewrite filter_cons. case_decide; rewrite ?lenz_cons; lia.
Qed.

(** The system information of the target with [n] modules. *)
Record describes (n : Z) (s : osd_system_info) : Prop := {
  d_identifier : identifier s = regs 1 0x200;
  d_max_pkt_len : max_pkt_len s = regs 1 0x202;
  d_num_modules : num_modules s = n;
  d_length : lenz (modules s) = n;
  d_modules : forall j, 1 <= j < n -> modules s !! Z.to_nat j = Some (module_of j);
  d_host : modules s !! 0%nat = Some (MkModule 0 0 0 DNull);
  d_memories : num_memories s = lenz (filter is_memory (seqZ 1 (n - 1)))
}.

Lemma enumerate_spec c :
  idle_rx c -> regs 1 0 = 1 -> 1 <= regs 1 0x201 + 1 <= 1024 ->
  (forall j, 1 <= j <= regs 1 0x201 -> regs j 0 = OSD_MOD_MAM -> regs j 0x202 <= 8) ->
  wp (osd_system_enumerate respond) never (fun rv c' => rv = OSD_SUCCESS /\
    exists s, informed c s c' /\ describes (regs 1 0x201 + 1) s) c.
Proof.
  intros Hi Hid Hn Hmam. set (n := regs 1 0x201 + 1) in *. unfold osd_system_enumerate, scmid.
  apply wp_bind, reg_read_spec; [done|lia|lia|]. intros c1 Hq1. rewrite Hid. simpl negb. cbv match.
  apply wp_bind, reg_read_spec; [by eapply quiet_idle|lia|lia|]. intros c2 Hq2. fold n.
  rewrite (u16_small n) by lia. cbv zeta. apply wp_bind, wp_modify.
  set (s0 := MkInfo 0 0 n 0 (replicate (Z.to_nat n) (MkModule 0 0 0 DNull))).
  assert (Hinf : informed c s0 (set_info (Some s0) c2)).
  { split; [|done]. destruct Hq1 as (_ & _ & Hh1 & Hm1 & _), Hq2 as (Hi2 & _ & Hh2 & Hm2 & _).
    unfold quiet_but_info. simpl. split_and!; [done|congruence|congruence]. }
  apply wp_bind. eapply informed_read; [done|lia|lia|]. intros c3 Hc3.
  apply wp_bind. eapply update_info_spec; [done|]. intros c4 Hc4.
  apply wp_bind. eapply informed_read; [done|lia|lia|]. intros c5 Hc5.
  apply wp_bind. eapply update_info_spec; [done|]. intros c6 Hc6.
  apply wp_bind. unfold module, system_info. apply wp_bind, wp_bind, wp_gets.
  rewrite (proj2 Hc6). apply wp_ret.
  eapply wp_lift.
  { unfold from_list. cbn. rewrite lookup_replicate_2 by lia. done. }
  apply wp_bind. eapply update_info_spec; [done|]. intros c7 Hc7.
  apply wp_bind. eapply enumerate_modules_spec; [done|lia|lia|intros; apply Hmam; lia|].
  intros c8 Hc8. apply wp_ret. split; [done|]. eexists. split; [exact Hc8|].
  set (s1 := set_module 0 _ _) in *.
  assert (Hl1 : length (modules s1) = Z.to_nat n).
  { unfold s1. cbn. by rewrite length_insert, length_replicate. }
  destruct (add_modules_rest (Z.to_nat (n - 1)) 1 s1) as (Hl & Hid' & Hlen & Hnum).
  constructor; rewrite ?Hid', ?Hlen, ?Hnum; try done.
  - unfold lenz. lia.
  - intros j Hj. rewrite add_modules_lookup by lia. by destruct (Z.ltb_spec j 1); [lia|].
  - rewrite (add_modules_lookup _ _ _ 0) by lia. unfold s1. cbn.
    rewrite list_lookup_insert_eq; [done|]. rewrite length_replicate. lia.
  - rewrite add_modules_memories by (cbn; lia). cbn. rewrite Z2Nat.id by lia. done.
Qed.

Lemma enumerate_no_scm_spec c :
  idle_rx c -> regs 1 0 <> 1 ->
  wp (osd_system_enumerate respond) never
     (fun rv c' => rv = OSD_E_CANNOTENUMERATE /\ quiet c c') c.
Proof.
  intros Hi He. unfold osd_system_enumerate, scmid. apply wp_bind, reg_read_spec; [done|lia|lia|].
  intros c1 Hq. destruct (Z.eqb_spec (regs 1 0) 1); [done|]. by apply wp_ret.
Qed.
End target.

(** ** What enumeration and the lookups return *)


(** *** Lookups in the table *)

Lemma filter_memory_snoc regs i j :
  i <= j ->
  filter (is_memory regs) (seqZ i (j + 1 - i)) =
  filter (is_memory regs) (seqZ i (j - i)) ++ (if regs j 0 =? OSD_MOD_MAM then [j] else []).
Proof.
  intros Hij. replace (j + 1 - i) with ((j - i) + 1) by lia.
  rewrite seqZ_app, filter_app by lia. f_equal.
  replace (i + (j - i)) with j by lia. rewrite (seqZ_cons j 1) by lia. change (seqZ (Z.succ j) (Z.pred 1)) with (@nil Z).
  rewrite filter_cons, filter_nil. unfold is_memory.
  by case_decide; destruct (Z.eqb_spec (regs j 0) OSD_MOD_MAM).
Qed.

Lemma from_list_lookup {A} (l : list A) i x :
  0 <= i -> l !! Z.to_nat i = Some x -> from_list l i = Ret x.
Proof. intros Hi Hx. unfold from_list. destruct (Z.ltb_spec i 0); [lia|]. by rewrite Hx. Qed.

Section lookups.
Context (regs : Z -> Z -> Z) (n : Z) (s : osd_system_info).
Context (Hs : describes regs n s) (Hn : 1 <= n < 2 ^ 16).

Lemma described_module j :
  0 <= j < n ->
  exists m, from_list (modules s) j = Ret m /\ m_addr m = j /\
            m_type m = if j =? 0 then 0 else regs j 0.
Proof.
  intros Hj. destruct (Z.eqb_spec j 0) as [->|].
  - exists (MkModule 0 0 0 DNull). split; [|done]. apply from_list_lookup; [done|]. apply (d_host _ _ _ Hs).
  - exists (module_of regs j). split; [|done]. apply from_list_lookup; [lia|].
    apply (d_modules _ _ _ Hs). lia.
Qed.

Lemma addr2modid_loop_spec f i a :
  0 <= i <= n -> Z.of_nat f = n - i ->
  addr2modid_loop (modules s) f i a = Ret (if (i <=? a) && (a <? n) then a else 0).
Proof.
  revert i. induction f as [|f IH]; intros i Hi Hf.
  { simpl. destruct (Z.leb_spec i a), (Z.ltb_spec a n); try done. lia. }
  simpl. destruct (described_module i ltac:(lia)) as (m & -> & Ha & _). rewrite bind_ret, Ha.
  destruct (Z.eqb_spec i a) as [->|].
  - rewrite u16_small by lia. destruct (Z.leb_spec a a), (Z.ltb_spec a n); try done; lia.
  - rewrite IH by lia. destruct (Z.leb_spec (i + 1) a), (Z.leb_spec i a); try done; lia.
Qed.

Lemma get_memories_loop_spec f i :
  1 <= i <= n -> Z.of_nat f = n - i ->
  get_memories_loop (modules s) f i (num_memories s) (filter (is_memory regs) (seqZ 1 (i - 1))) =
    Ret (filter (is_memory regs) (seqZ 1 (n - 1))).
Proof.
  revert i. induction f as [|f IH]; intros i Hi Hf; [simpl; do 3 f_equal; lia|].
  simpl. rewrite (d_memories _ _ _ Hs).
  assert (Happ : filter (is_memory regs) (seqZ 1 (n - 1)) =
    filter (is_memory regs) (seqZ 1 (i - 1)) ++ filter (is_memory regs) (seqZ i (n - i))).
  { replace (n - 1) with ((i - 1) + (n - i)) by lia. rewrite seqZ_app, filter_app by lia.
    do 3 f_equal. lia. }
  destruct (Z.ltb_spec (lenz (filter (is_memory regs) (seqZ 1 (i - 1))))
                       (lenz (filter (is_memory regs) (seqZ 1 (n - 1))))) as [Hlt|Hge].
  - destruct (described_module i ltac:(lia)) as (m & -> & _ & Ht). rewrite bind_ret, Ht.
    destruct (Z.eqb_spec i 0); [lia|].
    rewrite <- (d_memories _ _ _ Hs), <- (IH (i + 1)) by lia. f_equal.
    replace (i + 1 - 1) with (i + 1 - 1) by lia. rewrite filter_memory_snoc by lia.
    destruct (regs i 0 =? OSD_MOD_MAM); by rewrite ?app_nil_r.
  - rewrite Happ in Hge |- *. rewrite lenz_app in Hge.
    destruct (filter (is_memory regs) (seqZ i (n - i))) as [|x l]; [by rewrite app_nil_r|].
    rewrite lenz_cons in Hge. pose proof (lenz_nonneg l). lia.
Qed.
End lookups.

(** On a table that enumeration built, [osd_get_memories] gives exactly the
    identifiers of the memory access modules, in order and as many as it says;
    [osd_modid2addr] and [osd_addr2modid] are inverse to one another on modules,
    and an address no module has gives module 0. *)
Theorem osd_lookups_correct regs n s c :
  describes regs n s -> 1 <= n < 2 ^ 16 -> o_system_info c = Some s ->
  (osd_get_memories c =
     let l := filter (is_memory regs) (seqZ 1 (n - 1)) in Ret ((OSD_SUCCESS, l, lenz l), c)) /\
  (forall a, osd_addr2modid a c = Ret (if (0 <=? a) && (a <? n) then a else 0, c)) /\
  (forall id, 0 <= id < n -> osd_modid2addr id c = Ret (id, c)).
Proof.
  intros Hs Hn Hc.
  assert (Hsys : forall (A : Type) (f : osd_system_info -> M osd_context A),
            (system_info ≫= f) c = f s c).
  { intros A f. unfold system_info, mbind, M_bind, gets. simpl. by rewrite Hc. }
  split_and!.
  - unfold osd_get_memories. rewrite Hsys. unfold mbind, M_bind, lift.
    rewrite (d_num_modules _ _ _ Hs).
    replace (Z.to_nat n) with (S (Z.to_nat (n - 1))) by lia. cbn [get_memories_loop].
    pose proof (get_memories_loop_spec regs n s Hs (Z.to_nat (n - 1)) 1 ltac:(lia) ltac:(lia)) as Hl.
    change (filter (is_memory regs) (seqZ 1 (1 - 1))) with (@nil Z) in Hl.
    destruct (described_module regs n s Hs 0 ltac:(lia)) as (m & -> & _ & Ht).
    rewrite bind_ret, Ht. change (0 =? 0) with true. cbv match. change (0 =? OSD_MOD_MAM) with false.
    cbv match. change (0 + 1) with 1. rewrite Hl, (d_memories _ _ _ Hs). change (lenz []) with 0.
    destruct (filter (is_memory regs) (seqZ 1 (n - 1))) as [|x l]; [done|].
    destruct (Z.ltb_spec 0 (lenz (x :: l))) as [?|Hge]; [done|].
    rewrite lenz_cons in Hge. pose proof (lenz_nonneg l). lia.
  - intros a. unfold osd_addr2modid. rewrite Hsys. unfold lift. rewrite (d_num_modules _ _ _ Hs).
    by rewrite (addr2modid_loop_spec regs n s Hs Hn) by lia.
  - intros id Hid. unfold osd_modid2addr, module.
    destruct (described_module regs n s Hs id Hid) as (m & Hm & Ha & _).
    pose proof (Hsys _ (fun i => lift (from_list (modules i) id))) as H1.
    unfold mbind at 1, M_bind at 1. rewrite H1. unfold lift. rewrite Hm. simpl. by rewrite Ha.
Qed.

(** *** Connecting *)

Lemma control_init_loop_overflows f i num slots :
  0 <= i -> lenz slots = num -> num + 1 <= i + Z.of_nat f -> i <= num ->
  control_init_loop f i num slots = Fault OutOfBounds.
Proof.
  revert i slots. induction f as [|f IH]; intros i slots Hi Hl Hf Hin; [lia|]. simpl.
  destruct (Z.ltb_spec i (num + 1)); [|lia].
  destruct (Z.ltb_spec i (lenz slots)); [|done].
  apply IH; [lia| |lia|lia]. unfold lenz in *. by rewrite length_insert.
Qed.

Lemma control_init_overflows s c :
  o_system_info c = Some s -> 0 <= num_modules s -> control_init c = Fault OutOfBounds.
Proof.
  intros Hc Hn. unfold control_init, system_info, mbind, M_bind, gets, lift. rewrite Hc. simpl.
  rewrite control_init_loop_overflows; [done|lia| |lia|done].
  unfold lenz. rewrite length_replicate. lia.
Qed.

(** [osd_connect] passes on the error of the transport or of enumeration.
    When both succeed it goes on to [control_init], which allocates one pointer
    per module and writes one more, outside the allocation: no successful
    connection is free of an out-of-bounds write. *)
Theorem osd_connect_correct respond regs rv c :
  reg_target respond regs -> idle_rx c -> regs 1 0x201 < 1023 ->
  (forall j, 1 <= j <= regs 1 0x201 -> regs j 0 = OSD_MOD_MAM -> regs j 0x202 <= 8) ->
  if rv =? 0 then
    if regs 1 0 =? 1 then osd_connect respond rv c = Fault OutOfBounds
    else exists c', osd_connect respond rv c = Ret (OSD_E_CANNOTENUMERATE, c')
  else osd_connect respond rv c = Ret (rv, c).
Proof.
  intros Ht Hi Hn Hmam. unfold osd_connect. destruct (rv =? 0); [|done]. change (negb true) with false. cbv match.
  destruct (Z.eqb_spec (regs 1 0) 1) as [He|He].
  - pose proof (proj1 Ht 1 0x201) as Hu. unfold is_uint in Hu.
    destruct (wp_total _ _ _ (enumerate_spec respond regs Ht c Hi He ltac:(lia) Hmam))
      as (? & c' & Hr & -> & s & [_ Hs] & Hd).
    rewrite (run_bind _ _ _ _ _ Hr). apply run_bind_Fault.
    apply (control_init_overflows s); [done|]. rewrite (d_num_modules _ _ _ Hd). lia.
  - destruct (wp_total _ _ _ (enumerate_no_scm_spec respond regs Ht c Hi He)) as (? & c' & Hr & -> & _).
    exists c'. by rewrite (run_bind _ _ _ _ _ Hr).
Qed.

(** *** A target to run against *)

(** A subnet control module, a memory with one region, and a core trace module
    with different widths. *)
Definition demo_regs (a r : Z) : Z :=
  if a =? 1 then
    if r =? 0 then 1 else if r =? 1 then 2 else if r =? 0x200 then 0xabcd
    else if r =? 0x201 then 3 else if r =? 0x202 then 12 else 0
  else if a =? 2 then
    if r =? 0 then OSD_MOD_MAM else if r =? 0x200 then 128 else if r =? 0x201 then 32
    else if r =? 0x202 then 1 else if r =? 0x281 then 0x4000 else if r =? 0x284 then 0x1000 else 0
  else if a =? 3 then
    if r =? 0 then OSD_MOD_CTM else if r =? 0x200 then 64 else if r =? 0x201 then 32 else 0
  else 0.

Definition demo_respond (p : list Z) : list (list Z) :=
  match p with
  | [3; a; t; r] => if t =? 0 then [[3; 0; a; demo_regs a r]] else []
  | _ => []
  end.

Definition demo_osd : osd_context :=
  MkOsd OSD_MODE_STANDALONE [] [] 0 (zeros 10) false 0 0 [] false None [] [].

Lemma demo_target : reg_target demo_respond demo_regs.
Proof.
  split; [|done]. intros a r. unfold demo_regs, OSD_MOD_MAM, OSD_MOD_CTM, is_uint.
  repeat case_match; lia.
Qed.

Lemma demo_regions j : 1 <= j <= 3 -> demo_regs j 0 = OSD_MOD_MAM -> demo_regs j 0x202 <= 8.
Proof. intros Hj. assert (j = 1 \/ j = 2 \/ j = 3) as [->|[->| ->]] by lia; done. Qed.

Lemma demo_idle : idle_rx demo_osd.
Proof. done. Qed.


Definition demo_info : osd_system_info :=
  MkInfo 0xabcd 12 4 1
    [MkModule 0 0 0 DNull; MkModule 1 1 2 DNull;
     MkModule 2 3 0 (DMemory (MkMem 128 32 1 [(0x40000000, 0x1000)]));
     MkModule 3 5 0 (DCtm 64 64)].

Lemma demo_described : describes demo_regs 4 demo_info.
Proof.
  split; try done. intros j Hj. assert (j = 1 \/ j = 2 \/ j = 3) as [->|[->| ->]] by lia; done.
Qed.

Definition demo_enumerated : osd_context := set_info (Some demo_info) demo_osd.

Lemma osd_lookups_correct_witness :
  osd_get_memories demo_enumerated = Ret ((OSD_SUCCESS, [2], 1), demo_enumerated) /\
  osd_addr2modid 3 demo_enumerated = Ret (3, demo_enumerated) /\
  osd_addr2modid 9 demo_enumerated = Ret (0, demo_enumerated).
Proof.
  destruct (osd_lookups_correct demo_regs 4 demo_info demo_enumerated demo_described
              ltac:(lia) eq_refl) as (H1 & H2 & _).
  split_and!; [exact H1|exact (H2 3)|exact (H2 9)].
Defined.

Lemma osd_connect_correct_witness :
  osd_connect demo_respond 0 demo_osd = Fault OutOfBounds /\
  osd_connect demo_respond 5 demo_osd = Ret (5, demo_osd).
Proof.
  split; [apply (osd_connect_correct demo_respond demo_regs 0 demo_osd)
         |apply (osd_connect_correct demo_respond demo_regs 5 demo_osd)];
    first [apply demo_target|apply demo_idle|done|apply demo_regions].
Defined.
