(* ===== verification/OsdMem.v ===== *)
(** * Memory access over Open SoC Debug: opensocdebug/software/src/memory.c

    Writing, reading and loading of programs through a memory access module
    (MAM).  A pointer into a buffer is the buffer with an offset; what [malloc]
    returns has the contents [fresh n].  The elf library is outside the
    repository: a program to load is the list of its headers and data. *)

From S2P Require Import Prelude.
From S2P Require Import State.
From S2P Require Import Osd.

Definition BULK_MAX : Z := 0x3f00.

(** Unsigned division and remainder; by zero they are undefined. *)
Definition udiv (a b : Z) : outcome Z := if b =? 0 then Fault UndefArith else Ret (a / b).
Definition umod (a b : Z) : outcome Z := if b =? 0 then Fault UndefArith else Ret (a mod b).

(** [header[0..]] of a request, from word 3 of the packet on. *)
Definition put_header (packet : list Z) (ctrl addr aw : Z) : outcome (list Z) :=
  p ← put packet 3 ctrl;
  p ← put p 4 (addr &&& 0xffff);
  p ← (if 16 <? aw then put p 5 ((addr >>> 16) &&& 0xffff) else Ret p);
  p ← (if 32 <? aw then put p 6 ((addr >>> 32) &&& 0xffff) else Ret p);
  (if 48 <? aw then put p 7 ((addr >>> 48) &&& 0xffff) else Ret p).

(** Words 0 to 2 of a packet. *)
Definition put_static (packet : list Z) (len modaddr : Z) : outcome (list Z) :=
  p ← put packet 0 (u16 len);
  p ← put p 1 modaddr;
  put p 2 (u16 (1 <<< 14)).

(** Control word and address. *)
Definition hlen (aw : Z) : Z := 1 + ((aw + 15) >>> 4).

(** Two bytes, the first one on top. *)
Definition flit (hi lo : Z) : Z := u16 ((hi <<< 8) ||| lo).

(** The strobe of a single write: [i] runs over the bytes of a block. *)
Fixpoint strobe_loop (n : nat) (i baddr size strobe : Z) : outcome Z :=
  match n with
  | O => Ret strobe
  | S n =>
      if (baddr <=? i) && (i <? u64 (baddr + size)) then
        if 31 <=? i then Fault UndefArith
        else strobe_loop n (i + 1) baddr size (u8 (strobe ||| (1 <<< i)))
      else strobe_loop n (i + 1) baddr size strobe
  end.

(** The flits of a block go into the packet from word [off] on. *)
Fixpoint block_loop (n : nat) (i off : Z) (block packet : list Z) : outcome (list Z) :=
  match n with
  | O => Ret packet
  | S n =>
      hi ← get block (i * 2);
      lo ← get block (i * 2 + 1);
      packet ← put packet (i + off) (flit hi lo);
      block_loop n (i + 1) off block packet
  end.

(** Both bytes of each pair change places. *)
Fixpoint swap_loop (n : nat) (i : Z) (data : list Z) : outcome (list Z) :=
  match n with
  | O => Ret data
  | S n =>
      buf ← get data (2 * i);
      x ← get data (2 * i + 1);
      data ← put data (2 * i) x;
      data ← put data (2 * i + 1) buf;
      swap_loop n (i + 1) data
  end.

(** [prolog], [bulk] and [epilog]. *)
Definition calculate_parts (addr size blocksize : Z) : outcome (Z * Z * Z) :=
  if size <? blocksize then Ret (size, 0, 0)
  else
    prolog ← umod (u64 (blocksize - addr)) blocksize;
    epilog ← umod (u64 (addr + size)) blocksize;
    Ret (prolog, u64 (size - prolog - epilog), epilog).

(** What the elf library gives for a file: a program header, with the data of its
    chunk of the file. *)
Record phdr : Type := MkPhdr {
  p_paddr : Z;
  p_filesz : Z;
  p_memsz : Z;
  p_data : option (list Z)     (* elf_getdata_rawchunk, or null *)
}.

(** The file: whether it opens, and how far the elf library gets with it. *)
Inductive elf_file : Type :=
  | ElfNoFile
  | ElfBadVersion
  | ElfNoObject
  | ElfNoHeaders
  | ElfHeaders (hs : list (option phdr)).   (* what gelf_getphdr gives for each *)

(** [memory_data[b] != elf_data[b]] for some [b]. *)
Fixpoint differ (l1 l2 : list Z) : bool :=
  match l1, l2 with
  | x :: l1, y :: l2 => if x =? y then differ l1 l2 else true
  | _, _ => false
  end.

Section osd_mem.
Variable respond : list Z -> list (list Z).

(** What [malloc] finds in the memory it returns. *)
Variable fresh : Z -> list Z.

Local Abbreviation MO := (M osd_context).

(** ** Writing *)

(** The loop over the flits of a burst: a packet is sent when it is full. *)
Fixpoint bulk_loop (n : nat) (i curword wordsperpacket psize : Z) (data packet : list Z) :
    MO (list Z * Z) :=
  match n with
  | O => mret (packet, curword)
  | S n =>
      hi ← lift (get data (i * 2));
      lo ← lift (get data (i * 2 + 1));
      packet ← lift (put packet (3 + curword) (flit hi lo));
      let curword := curword + 1 in
      if curword =? wordsperpacket then
        packet ← lift (put packet 0 psize);
        _ ← osd_send_packet respond packet;
        bulk_loop n (i + 1) 0 wordsperpacket psize data packet
      else bulk_loop n (i + 1) curword wordsperpacket psize data packet
  end.

Definition memory_write_bulk (modid addr : Z) (data : list Z) (size : Z) : MO Z :=
  if BULK_MAX <? size then mret (-1) else
  modaddr ← osd_modid2addr modid;
  psize ← osd_get_max_pkt_len;
  let wordsperpacket := u16 (psize - 2) in
  mem ← memory_descriptor modid;
  numwords ← lift (udiv size (data_width mem >>> 3));
  let numflits := size / 2 in
  packet ← lift (put_header (fresh (psize + 1)) (u16 (0xc000 ||| numwords)) addr (addr_width mem));
  packet ← lift (put_static packet (hlen (addr_width mem) + 2) modaddr);
  _ ← osd_send_packet respond packet;
  '(packet, curword) ← bulk_loop (Z.to_nat numflits) 0 0 wordsperpacket psize data packet;
  if negb (curword =? 0) then
    packet ← lift (put packet 0 (u16 (curword + 2)));
    _ ← osd_send_packet respond packet;
    mret 0
  else mret 0.

Definition memory_write_single (modid addr : Z) (data : list Z) (size : Z) : MO Z :=
  modaddr ← osd_modid2addr modid;
  psize ← osd_get_max_pkt_len;
  mem ← memory_descriptor modid;
  let blocksize := data_width mem >>> 3 in
  r ← lift (umod addr blocksize);
  let baddr := u8 r in
  strobe ← lift (strobe_loop (Z.to_nat blocksize) 0 baddr size 0);
  let addr := addr - r in
  packet ← lift (put_header (fresh (psize + 1)) (u16 (0x8000 ||| strobe)) addr (addr_width mem));
  packet ← lift (put_static packet (hlen (addr_width mem) + 2 + blocksize / 2) modaddr);
  words ← lift (load data 0 size);
  block ← lift (store (zeros blocksize) baddr words);
  packet ← lift (block_loop (Z.to_nat (blocksize / 2)) 0 (3 + hlen (addr_width mem)) block packet);
  _ ← osd_send_packet respond packet;
  mret 0.

(** [&data[off]] *)
Definition at_offset (data : list Z) (off : Z) : outcome (list Z) :=
  load data off (lenz data - off).

(** The loop over the bursts; the chunks are cut off a buffer of [size] bytes. *)
Fixpoint write_bursts (fuel : nat) (i size bulk prolog modid addr : Z) (data : list Z) : MO unit :=
  match fuel with
  | O => mret tt
  | S f =>
      if i <? size then
        let s := if size <? u64 (i + BULK_MAX) then u64 (bulk - i) else BULK_MAX in
        p ← lift (at_offset data (prolog + i));
        _ ← memory_write_bulk modid (u64 (addr + prolog + i)) p s;
        write_bursts f (i + BULK_MAX) size bulk prolog modid addr data
      else mret tt
  end.

Definition osd_memory_write (modid addr : Z) (data : list Z) (size : Z) : MO Z :=
  mem ← memory_descriptor modid;
  let blocksize := data_width mem >>> 3 in
  '(prolog, bulk, epilog) ← lift (calculate_parts addr size blocksize);
  _ ← (if negb (prolog =? 0) then _ ← memory_write_single modid addr data prolog; mret tt
       else mret tt);
  _ ← (if negb (bulk =? 0)
       then write_bursts (S (Z.to_nat (size / BULK_MAX))) 0 size bulk prolog modid addr data
       else mret tt);
  _ ← (if negb (epilog =? 0) then
         p ← lift (at_offset data (prolog + bulk));
         _ ← memory_write_single modid (u64 (addr + prolog + bulk)) p epilog; mret tt
       else mret tt);
  mret 0.

(** ** Reading *)

(** The bytes of [data] after the call. *)
Definition memory_read_bulk (modid addr : Z) (data : list Z) (size : Z) : MO (list Z) :=
  modaddr ← osd_modid2addr modid;
  psize ← osd_get_max_pkt_len;
  mem ← memory_descriptor modid;
  numwords ← lift (udiv size (data_width mem >>> 3));
  packet ← lift (put_header (fresh (psize + 1)) (u16 (0x4000 ||| numwords)) addr (addr_width mem));
  _ ← osd_module_claim respond modid;
  _ ← osd_module_register_handler modid OSD_EVENT_PACKET HMemoryRead;
  packet ← lift (put_static packet (hlen (addr_width mem) + 2) modaddr);
  _ ← modify (set_mem size 0 data false);
  _ ← osd_send_packet respond packet;
  _ ← cond_wait o_mem_signal;
  data ← gets o_mem_data;
  lift (swap_loop (Z.to_nat (size / 2)) 0 data).

Fixpoint read_bursts (fuel : nat) (i size bulk prolog modid addr : Z) (data : list Z) :
    MO (list Z) :=
  match fuel with
  | O => mret data
  | S f =>
      if i <? size then
        let s := if size <? u64 (i + BULK_MAX) then u64 (bulk - i) else BULK_MAX in
        p ← lift (at_offset data (prolog + i));
        p ← memory_read_bulk modid (u64 (addr + prolog + i)) p s;
        data ← lift (store data (prolog + i) p);
        read_bursts f (i + BULK_MAX) size bulk prolog modid addr data
      else mret data
  end.

(** The return code and [data] after the call. *)
Definition osd_memory_read (modid addr : Z) (data : list Z) (size : Z) : MO (Z * list Z) :=
  mem ← memory_descriptor modid;
  let blocksize := data_width mem >>> 3 in
  '(prolog, bulk, epilog) ← lift (calculate_parts addr size blocksize);
  data ← (if negb (prolog =? 0) then
            tmp ← memory_read_bulk modid (u64 (addr - blocksize + prolog)) (fresh blocksize) blocksize;
            w ← lift (load tmp (u64 (blocksize - prolog)) prolog);
            lift (store data 0 w)
          else mret data);
  data ← (if negb (bulk =? 0)
          then read_bursts (S (Z.to_nat (size / BULK_MAX))) 0 size bulk prolog modid addr data
          else mret data);
  data ← (if negb (epilog =? 0) then
            tmp ← memory_read_bulk modid (u64 (addr + prolog + bulk)) (fresh blocksize) blocksize;
            w ← lift (load tmp 0 epilog);
            lift (store data (prolog + bulk) w)
          else mret data);
  mret (0, data).

(** ** Loading a program *)

(** The first loop: each segment is written, its rest filled with zeros.  [Some]
    is a return code that ends the function. *)
Fixpoint load_headers (modid : Z) (hs : list (option phdr)) : MO (option Z) :=
  match hs with
  | [] => mret None
  | None :: _ => mret (Some (-1))
  | Some h :: hs =>
      _ ← (match p_data h with
           | Some d => osd_memory_write modid (p_paddr h) d (lenz d)
           | None => mret 0
           end);
      let init_with_zero := u32 (p_memsz h - p_filesz h) in
      _ ← (if 0 <? init_with_zero
           then osd_memory_write modid (u64 (p_paddr h + p_filesz h))
                  (zeros (u64 (p_memsz h - p_filesz h))) init_with_zero
           else mret 0);
      load_headers modid hs
  end.

(** The second loop: each segment is read back and compared. *)
Fixpoint verify_headers (modid : Z) (hs : list (option phdr)) : MO Z :=
  match hs with
  | [] => mret 0
  | None :: _ => mret (-1)
  | Some h :: hs =>
      match p_data h with
      | None => fault_with NullDeref
      | Some d =>
          '(_, m) ← osd_memory_read modid (p_paddr h) (fresh (lenz d)) (lenz d);
          if differ m d then mret (-1) else verify_headers modid hs
      end
  end.

Definition osd_memory_loadelf (modid : Z) (file : elf_file) (verify : bool) : MO Z :=
  match file with
  | ElfHeaders hs =>
      r ← load_headers modid hs;
      match r with
      | Some rv => mret rv
      | None => if negb verify then mret 0 else verify_headers modid hs
      end
  | _ => mret (-1)
  end.
End osd_mem.
