(* ===== verification/OsdMemWrite.v ===== *)
(** * Writing through a memory access module

    The requests [osd_memory_write] sends, executed by a memory access module,
    change exactly the bytes the caller asked for: the module is given as the
    interpreter [mam_step] of the words it receives. *)

From S2P Require Import Prelude.
From S2P Require Import State.
From S2P Require Import Osd.
From S2P Require Import OsdMem.

(** ** The memory access module *)

(** What a packet carries, and what a sequence of packets carries. *)
Definition payload (p : list Z) : list Z := drop 3 p.
Definition flits (ps : list (list Z)) : list Z := concat (payload <$> ps).

(** The bytes of a sequence of words, the upper half first. *)
Definition bytes_of (l : list Z) : list Z := l ≫= fun f => [f / 256; f mod 256].

Definition mam_addr (ws : list Z) : Z := foldr (fun w a => w + 2 ^ 16 * a) 0 ws.

Definition write_bytes (m : Z -> Z) (a : Z) (d : list Z) : Z -> Z :=
  fun x => if (a <=? x) && (x <? a + lenz d) then d !z (x - a) else m x.

Definition write_strobed (m : Z -> Z) (a strobe : Z) (d : list Z) : Z -> Z :=
  fun x => if (a <=? x) && (x <? a + lenz d) && Z.testbit strobe (x - a) then d !z (x - a) else m x.

(** One write request: control word (bit 15 write, bit 14 burst, below it the
    number of beats or the strobe), address, data.  [bs] is the number of bytes
    of a beat; requests have at least one beat and start at a beat.  The memory and the words left over. *)
Definition mam_step (aw bs : Z) (fl : list Z) (m : Z -> Z) : option (list Z * (Z -> Z)) :=
  match fl with
  | [] => None
  | ctrl :: fl =>
      let n := (aw + 15) / 16 in
      let a := mam_addr (take (Z.to_nat n) fl) in
      let d := drop (Z.to_nat n) fl in
      let burst := Z.testbit ctrl 14 in
      let cnt := if burst then ctrl mod 2 ^ 14 * (bs / 2) else bs / 2 in
      if Z.testbit ctrl 15 && (n + cnt <=? lenz fl) && (0 <? cnt) && (a mod bs =? 0) then
        let w := bytes_of (take (Z.to_nat cnt) d) in
        Some (drop (Z.to_nat cnt) d,
              if burst then write_bytes m a w else write_strobed m a ctrl w)
      else None
  end.

(** The requests in a sequence of words, one after the other. *)
Inductive mam_exec (aw bs : Z) : list Z -> (Z -> Z) -> (Z -> Z) -> Prop :=
  | mam_done m : mam_exec aw bs [] m m
  | mam_next fl fl' m m' m'' :
      mam_step aw bs fl m = Some (fl', m') -> mam_exec aw bs fl' m' m'' -> mam_exec aw bs fl m m''.

Lemma mam_step_app aw bs fl m fl' m' rest :
  1 <= aw -> mam_step aw bs fl m = Some (fl', m') ->
  mam_step aw bs (fl ++ rest) m = Some (fl' ++ rest, m').
Proof.
  intros Haw. destruct fl as [|ctrl fl]; [done|]. cbn [mam_step app]. cbv zeta. set (n := (aw + 15) / 16).
  set (cnt := if Z.testbit ctrl 14 then ctrl mod 2 ^ 14 * (bs / 2) else bs / 2).
  destruct (Z.testbit ctrl 15); [|done]. simpl.
  destruct (Z.leb_spec (n + cnt) (lenz fl)) as [Hle|]; [|done].
  destruct (Z.ltb_spec 0 cnt) as [Hcnt|]; [|done]. simpl.
  destruct (mam_addr (take (Z.to_nat n) fl) mod bs =? 0) eqn:Hal; [|done]. intros [= <- <-].
  assert (0 <= n) by (unfold n; zdm).
  rewrite lenz_app. pose proof (lenz_nonneg rest). unfold lenz in *.
  destruct (Z.leb_spec (n + cnt) (Z.of_nat (length fl) + Z.of_nat (length rest))); [simpl|lia].
  rewrite !take_app_le, !drop_app_le by (rewrite ?length_drop; lia).
  rewrite take_app_le by (rewrite length_drop; lia). by rewrite Hal.
Qed.

Lemma mam_exec_app aw bs fl1 fl2 m1 m2 m3 :
  1 <= aw -> mam_exec aw bs fl1 m1 m2 -> mam_exec aw bs fl2 m2 m3 ->
  mam_exec aw bs (fl1 ++ fl2) m1 m3.
Proof.
  intros Haw H1 H2. induction H1 as [|fl fl' ? ? ? Hs _ IH]; [done|].
  eapply mam_next; [by apply mam_step_app|]. by apply IH.
Qed.

Lemma mam_exec_one aw bs fl m m' : mam_step aw bs fl m = Some ([], m') -> mam_exec aw bs fl m m'.
Proof. intros H. eapply mam_next; [done|apply mam_done]. Qed.

(** ** Words and bytes *)

(** The words made of the first [2 * n] bytes of [d]. *)
Definition data_flits (d : list Z) (n : nat) : list Z :=
  (fun k => flit (d !z (2 * Z.of_nat k)) (d !z (2 * Z.of_nat k + 1))) <$> seq 0 n.

(** The address words of a request. *)
Definition addr_words (aw a : Z) : list Z :=
  (a &&& 0xffff) ::
  (if 16 <? aw then [(a >>> 16) &&& 0xffff] else []) ++
  (if 32 <? aw then [(a >>> 32) &&& 0xffff] else []) ++
  (if 48 <? aw then [(a >>> 48) &&& 0xffff] else []).

Lemma flit_bytes hi lo : is_byte hi -> is_byte lo -> flit hi lo = 256 * hi + lo.
Proof.
  unfold is_byte. intros Hh Hl. unfold flit. rewrite (lor_disjoint_add hi lo 8) by lia.
  rewrite u16_small by lia. lia.
Qed.

Lemma bytes_of_app l1 l2 : bytes_of (l1 ++ l2) = bytes_of l1 ++ bytes_of l2.
Proof. apply bind_app. Qed.

Lemma lenz_bytes_of l : lenz (bytes_of l) = 2 * lenz l.
Proof.
  induction l as [|x l IH]; [done|]. change (bytes_of (x :: l)) with ([x / 256; x mod 256] ++ bytes_of l).
  rewrite lenz_app, IH, (lenz_cons x l). change (lenz [x / 256; x mod 256]) with 2. lia.
Qed.

Lemma lenz_data_flits d n : lenz (data_flits d n) = Z.of_nat n.
Proof. unfold lenz, data_flits. by rewrite length_fmap, length_seq. Qed.

Lemma take_snoc (l : list Z) i :
  0 <= i < lenz l -> take (Z.to_nat (i + 1)) l = take (Z.to_nat i) l ++ [l !z i].
Proof.
  intros Hi. rewrite Z2Nat.inj_add by lia. change (Z.to_nat 1) with 1%nat.
  rewrite Nat.add_1_r. apply take_S_r, nthz_lookup. lia.
Qed.

Lemma Forall_nthz (P : Z -> Prop) l i : Forall P l -> 0 <= i < lenz l -> P (l !z i).
Proof. intros H. by apply Forall_nthz_iff. Qed.

Lemma bytes_of_data_flits d n :
  Forall is_byte d -> 2 * Z.of_nat n <= lenz d ->
  bytes_of (data_flits d n) = take (2 * n) d.
Proof.
  intros Hd. induction n as [|n IH]; intros Hn; [done|].
  unfold data_flits in *. rewrite seq_S, fmap_app, bytes_of_app, IH by lia. simpl.
  assert (Ht : forall k, (k <= 2)%nat -> take (2 * n + k) d = take (Z.to_nat (2 * Z.of_nat n + Z.of_nat k)) d).
  { intros k Hk. f_equal. lia. }
  replace (S (n + S (n + 0)))%nat with (2 * n + 2)%nat by lia. rewrite (Ht 2%nat) by lia.
  change (Z.of_nat 2) with 2. replace (2 * Z.of_nat n + 2) with (2 * Z.of_nat n + 1 + 1) by lia.
  rewrite !take_snoc by lia. rewrite <- app_assoc. f_equal; [f_equal; lia|]. simpl.
  set (x := d !z _). set (y := d !z _).
  assert (is_byte x) by (apply Forall_nthz; [done|lia]).
  assert (is_byte y) by (apply Forall_nthz; [done|lia]).
  rewrite flit_bytes by done. unfold is_byte in *.
  replace ((256 * x + y) / 256) with x by zdm. by replace ((256 * x + y) mod 256) with y by zdm.
Qed.

Lemma mam_addr_words aw a : 1 <= aw <= 64 -> 0 <= a < 2 ^ aw -> mam_addr (addr_words aw a) = a.
Proof.
  intros Haw Ha. unfold addr_words.
  assert (Hm : forall k, 0 <= k -> (a >>> k) &&& 0xffff = (a / 2 ^ k) mod 2 ^ 16).
  { intros k Hk. change 0xffff with (2 ^ 16 - 1). by rewrite land_pow2_mask, shiftr_div by lia. }
  rewrite !Hm by lia. rewrite <- (Z.shiftr_0_r a) at 1. rewrite Hm, Z.pow_0_r, Z.div_1_r by lia.
  assert (Hmono : forall w, aw <= w -> 2 ^ aw <= 2 ^ w) by (intros; apply Z.pow_le_mono_r; lia).
  destruct (Z.ltb_spec 16 aw), (Z.ltb_spec 32 aw), (Z.ltb_spec 48 aw); try lia; cbn [mam_addr foldr app].
  - specialize (Hmono 64 ltac:(lia)). zdm.
  - specialize (Hmono 48 ltac:(lia)). zdm.
  - specialize (Hmono 32 ltac:(lia)). zdm.
  - specialize (Hmono 16 ltac:(lia)). zdm.
Qed.

Lemma lenz_addr_words aw a : 1 <= aw <= 64 -> lenz (addr_words aw a) = (aw + 15) / 16.
Proof.
  intros Haw. unfold addr_words.
  destruct (Z.ltb_spec 16 aw), (Z.ltb_spec 32 aw), (Z.ltb_spec 48 aw); try lia; cbn [app];
    rewrite ?lenz_cons; change (lenz []) with 0; zdm.
Qed.

(** ** Building packets *)

Lemma put_app l y r x : put (l ++ y :: r) (lenz l) x = Ret (l ++ x :: r).
Proof.
  pose proof (lenz_nonneg l).
  rewrite put_insert by (rewrite lenz_app, lenz_cons; pose proof (lenz_nonneg r); lia).
  do 2 f_equal. unfold lenz. rewrite Nat2Z.id.
  by rewrite insert_app_r_alt, Nat.sub_diag by done.
Qed.

(** The header of a request, in a packet that has room for it. *)
Lemma put_header_spec p ctrl a aw :
  1 <= aw <= 64 -> 3 + hlen aw <= lenz p ->
  exists x y z rest, put_header p ctrl a aw = Ret (x :: y :: z :: ctrl :: addr_words aw a ++ rest) /\
    3 + hlen aw + lenz rest = lenz p.
Proof.
  intros Haw Hp. unfold hlen in *. rewrite shiftr_div in * by lia. unfold put_header.
  assert (5 <= lenz p) as Hlen by zdm.
  destruct p as [|x [|y [|z [|h0 [|h1 p]]]]]; try (unfold lenz in Hlen; simpl in Hlen; lia).
  exists x, y, z. rewrite !lenz_cons in Hp. pose proof (lenz_nonneg p).
  rewrite put_insert by (rewrite !lenz_cons; lia). rewrite bind_ret.
  rewrite put_insert by (simpl; rewrite !lenz_cons; lia). rewrite bind_ret. simpl.
  unfold addr_words.
  destruct (Z.ltb_spec 16 aw); [|exists p; split; [by destruct (Z.ltb_spec 32 aw), (Z.ltb_spec 48 aw); try lia|rewrite !lenz_cons; zdm]].
  destruct p as [|h2 p]; [change (lenz []) with 0 in Hp; zdm|]. rewrite lenz_cons in Hp.
  rewrite put_insert by (rewrite !lenz_cons; pose proof (lenz_nonneg p); lia). rewrite bind_ret. simpl.
  destruct (Z.ltb_spec 32 aw); [|exists p; split; [by destruct (Z.ltb_spec 48 aw); try lia|rewrite !lenz_cons; zdm]].
  destruct p as [|h3 p]; [change (lenz []) with 0 in Hp; zdm|]. rewrite lenz_cons in Hp.
  rewrite put_insert by (rewrite !lenz_cons; pose proof (lenz_nonneg p); lia). rewrite bind_ret. simpl.
  destruct (Z.ltb_spec 48 aw); [|exists p; split; [done|rewrite !lenz_cons; zdm]].
  destruct p as [|h4 p]; [change (lenz []) with 0 in Hp; zdm|]. rewrite lenz_cons in Hp.
  rewrite put_insert by (rewrite !lenz_cons; pose proof (lenz_nonneg p); lia). simpl.
  exists p. split; [done|rewrite !lenz_cons; zdm].
Qed.

Lemma put_static_spec x y z rest len a :
  put_static (x :: y :: z :: rest) len a = Ret (u16 len :: a :: 2 ^ 14 :: rest).
Proof.
  pose proof (lenz_nonneg rest). unfold put_static.
  rewrite put_insert by (rewrite !lenz_cons; lia). rewrite bind_ret. simpl.
  rewrite put_insert by (rewrite !lenz_cons; lia). rewrite bind_ret. simpl.
  rewrite put_insert by (rewrite !lenz_cons; lia). done.
Qed.

(** Blocks of 16, 32 or 64 bits. *)
Definition block_size (bs : Z) : Prop := bs = 2 \/ bs = 4 \/ bs = 8.

Lemma block_half bs : block_size bs -> bs = 2 * (bs / 2) /\ 1 <= bs / 2 <= 4.
Proof. unfold block_size. intros [->|[->| ->]]; split; done || lia. Qed.

Lemma beats_half n bs : block_size bs -> n * bs / 2 = n * (bs / 2).
Proof.
  intros H. destruct (block_half bs H) as [He _]. rewrite He at 1.
  replace (n * (2 * (bs / 2))) with (n * (bs / 2) * 2) by lia. by rewrite Z.div_mul by lia.
Qed.

(** ** Prolog, bulk and epilog *)

(** The conditions under which the loop over the bursts covers the bulk: its
    bounds are computed from [size] where [bulk] is meant. *)
Definition bursts_fit (size bulk : Z) : Prop :=
  bulk = 0 \/ bulk = size \/ (bulk - 1) / BULK_MAX = size / BULK_MAX.

Lemma bursts_fit_bound size bulk j :
  0 < bulk -> bulk <= size -> bursts_fit size bulk -> j * BULK_MAX <= size ->
  j * BULK_MAX <= bulk /\ (j * BULK_MAX < size -> j * BULK_MAX < bulk).
Proof.
  intros Hb Hle [|[|Hq]] Hj; [lia|lia|].
  assert (HM : 0 < BULK_MAX) by done.
  assert (j <= (bulk - 1) / BULK_MAX) by (rewrite Hq; apply Z.div_le_lower_bound; lia).
  assert (j * BULK_MAX <= (bulk - 1) / BULK_MAX * BULK_MAX) by (apply Z.mul_le_mono_nonneg_r; lia).
  assert (BULK_MAX * ((bulk - 1) / BULK_MAX) <= bulk - 1) by (apply Z.mul_div_le; lia). lia.
Qed.

Lemma u64_mod_block bs x : block_size bs -> u64 x mod bs = x mod bs.
Proof. intros [->|[->| ->]]; unfold u64; zdm. Qed.

Record parts (addr size bs prolog bulk epilog : Z) : Prop := {
  p_prolog : 0 <= prolog < bs;
  p_epilog : 0 <= epilog < bs;
  p_bulk : 0 <= bulk;
  p_sum : prolog + bulk + epilog = size;
  p_bulk_beats : bulk = bulk / bs * bs;
  p_start : (bulk = 0 /\ epilog = 0) \/ (addr + prolog) mod bs = 0;
  p_prolog_fits : prolog = 0 \/ addr mod bs + prolog <= bs
}.

Lemma calculate_parts_spec addr size bs :
  block_size bs -> bs <= size < 2 ^ 64 ->
  exists prolog bulk epilog, calculate_parts addr size bs = Ret (prolog, bulk, epilog) /\
    prolog = (- addr) mod bs /\ epilog = (addr + size) mod bs /\
    parts addr size bs prolog bulk epilog.
Proof.
  intros Hbs Hs. unfold calculate_parts. destruct (Z.ltb_spec size bs) as [|Hge]; [lia|].
  unfold umod. destruct (Z.eqb_spec bs 0); [unfold block_size in Hbs; lia|]. rewrite !bind_ret.
  rewrite !u64_mod_block by done.
  assert (Hp : (bs - addr) mod bs = (- addr) mod bs).
  { replace (bs - addr) with (- addr + 1 * bs) by lia. by apply Z.mod_add. }
  rewrite Hp. set (P := (- addr) mod bs). set (E := (addr + size) mod bs).
  assert (HB : 0 <= size - P - E /\ (size - P - E) mod bs = 0 /\ 0 <= P < bs /\ 0 <= E < bs /\
               (addr + P) mod bs = 0 /\ (P = 0 \/ addr mod bs + P <= bs)).
  { unfold P, E. destruct Hbs as [->|[->| ->]]; clear -Hge; zdm. }
  destruct HB as (H1 & H2 & H3 & H4 & H5 & H6).
  exists P, (size - P - E), E. rewrite u64_small by lia. split_and!; try done.
  constructor; try done; try lia; try by right. pose proof (Z.div_mod (size - P - E) bs ltac:(lia)). lia.
Qed.

(** ** A single block *)

Lemma block_loop_spec n i off block l r :
  lenz l = Z.of_nat i + off -> Z.of_nat n <= lenz r -> 2 * (Z.of_nat i + Z.of_nat n) <= lenz block ->
  exists r', block_loop n (Z.of_nat i) off block (l ++ r) =
    Ret (l ++ ((fun k => flit (block !z (2 * Z.of_nat k)) (block !z (2 * Z.of_nat k + 1))) <$> seq i n) ++ r')
    /\ lenz r' = lenz r - Z.of_nat n.
Proof.
  revert i l r. induction n as [|n IH]; intros i l r Hl Hr Hb.
  { exists r. split; [done|lia]. }
  cbn [block_loop]. rewrite !get_ok, !bind_ret by lia.
  destruct r as [|x r]; [change (lenz []) with 0 in Hr; lia|]. rewrite lenz_cons in Hr.
  rewrite <- Hl, put_app, bind_ret. set (f := flit _ _).
  change (l ++ f :: r) with (l ++ [f] ++ r). rewrite app_assoc.
  replace (Z.of_nat i + 1) with (Z.of_nat (S i)) by lia.
  destruct (IH (S i) (l ++ [f]) r) as (r' & Hr' & Hl');
    [rewrite lenz_app; change (lenz [f]) with 1; lia|lia|lia|].
  exists r'. rewrite Hr', lenz_cons. split; [|lia]. rewrite <- app_assoc.
  unfold f. by rewrite !(Z.mul_comm (Z.of_nat i)).
Qed.

(** The strobe has the bits of the bytes that are written; checked for every
    block size, first byte and number of bytes. *)
Definition strobe_cases : bool :=
  forallb (fun bs => forallb (fun b => forallb (fun n =>
    if b + n <=? bs
    then match strobe_loop (Z.to_nat bs) 0 b n 0 with Ret s => s =? Z.ones n <<< b | _ => false end
    else true) (seqZ 0 9)) (seqZ 0 9)) [2; 4; 8].

Lemma In_seqZ i n x : i <= x < i + n -> In x (seqZ i n).
Proof. intros H. by apply list_elem_of_In, elem_of_seqZ. Qed.

Lemma strobe_loop_spec bs b n :
  block_size bs -> 0 <= b -> 0 <= n -> b + n <= bs ->
  strobe_loop (Z.to_nat bs) 0 b n 0 = Ret (Z.ones n <<< b).
Proof.
  intros Hbs Hb Hn Hbn.
  assert (H : strobe_cases = true) by by vm_compute.
  unfold strobe_cases in H. rewrite forallb_forall in H.
  assert (Hbs' : In bs [2; 4; 8]) by (simpl; unfold block_size in Hbs; intuition lia).
  specialize (H bs Hbs'). cbv beta in H. rewrite forallb_forall in H.
  assert (bs <= 8) by (unfold block_size in Hbs; lia).
  specialize (H b (In_seqZ 0 9 b ltac:(lia))). cbv beta in H.
  rewrite forallb_forall in H.
  specialize (H n (In_seqZ 0 9 n ltac:(lia))). cbv beta in H.
  destruct (Z.leb_spec (b + n) bs); [|lia]. destruct (strobe_loop _ _ _ _ _) as [s|]; [|done].
  f_equal. lia.
Qed.

Lemma testbit_strobe n b j :
  0 <= n -> 0 <= b -> 0 <= j < 14 ->
  Z.testbit (u16 (0x8000 ||| (Z.ones n <<< b))) j = (b <=? j) && (j <? b + n).
Proof.
  intros Hn Hb Hj. unfold u16. rewrite Z.mod_pow2_bits_low, Z.lor_spec by lia.
  change 0x8000 with (2 ^ 15). rewrite Z.pow2_bits_false by lia. cbn [orb].
  destruct (Z.leb_spec b j).
  - rewrite Z.shiftl_spec by lia. cbn [andb].
    destruct (Z.ltb_spec j (b + n)).
    + rewrite Z.testbit_ones by lia. lia.
    + rewrite Z.testbit_ones by lia. lia.
  - by rewrite Z.shiftl_spec_low by lia.
Qed.

Lemma BULK_MAX_beats bs : block_size bs -> BULK_MAX = BULK_MAX / bs * bs /\ 0 < BULK_MAX / bs.
Proof. intros [->|[->| ->]]; done. Qed.

(** ** Sending *)

Definition no_fault (e : fault) : Prop := False.

Section sending.
Variable respond : list Z -> list (list Z).
Variable fresh : Z -> list Z.
Hypothesis Hfresh : forall n, 0 <= n -> lenz (fresh n) = n.

(** [c] after the packets [ps] have been sent. *)
Definition send_all (ps : list (list Z)) (c : osd_context) : osd_context :=
  set_sent (o_sent c ++ ps) (o_incoming c ++ concat (respond <$> ps)) c.

Lemma send_all_nil c : send_all [] c = c.
Proof. unfold send_all, set_sent. simpl. rewrite !app_nil_r. by destruct c. Qed.

Lemma send_all_app ps qs c : send_all qs (send_all ps c) = send_all (ps ++ qs) c.
Proof.
  unfold send_all, set_sent. simpl. by rewrite fmap_app, concat_app, !app_assoc.
Qed.

(** Module [modid] of the table is a memory access module at address [a]. *)
Definition mam_at (c : osd_context) (modid a psize : Z) (mem : osd_memory_descriptor) : Prop :=
  exists s m, o_system_info c = Some s /\ from_list (modules s) modid = Ret m /\
    m_addr m = a /\ m_descriptor m = DMemory mem /\ max_pkt_len s = psize.

(** A packet for the module, as long as it says and no longer than allowed. *)
Definition event_packet (a psize : Z) (p : list Z) : Prop :=
  exists l, p = (lenz l + 2) :: a :: 2 ^ 14 :: l /\ 0 < lenz l <= psize - 2.

Lemma wp_send E n l c (Q : Z -> osd_context -> Prop) :
  0 <= n <= lenz l -> Q OSD_SUCCESS (send_all [n :: take (Z.to_nat n) l] c) ->
  wp (osd_send_packet respond (n :: l)) E Q c.
Proof.
  intros Hn HQ. unfold osd_send_packet.
  apply wp_bind. eapply wp_lift; [apply get_ok; rewrite lenz_cons; lia|].
  change ((n :: l) !z 0) with n. apply wp_bind. eapply wp_lift.
  { apply load_Ret. split_and!; [lia|lia|rewrite lenz_cons; lia|done]. }
  change (drop (Z.to_nat 0) (n :: l)) with (n :: l).
  replace (Z.to_nat (n + 1)) with (S (Z.to_nat n)) by lia. cbn [take].
  apply wp_bind, wp_modify, wp_ret. unfold send_all in HQ. simpl in HQ. by rewrite app_nil_r in HQ.
Qed.

(** A packet of the payload [l], with unused words after it. *)
Lemma wp_send_event E a psize l rest c (Q : Z -> osd_context -> Prop) :
  0 < lenz l <= psize - 2 ->
  (forall p, event_packet a psize p -> payload p = l -> Q OSD_SUCCESS (send_all [p] c)) ->
  wp (osd_send_packet respond (lenz l + 2 :: a :: 2 ^ 14 :: l ++ rest)) E Q c.
Proof.
  intros Hl HQ. pose proof (lenz_nonneg rest).
  apply wp_send; [rewrite !lenz_cons, lenz_app; lia|].
  replace (Z.to_nat (lenz l + 2)) with (S (S (length l))) by (unfold lenz; lia). cbn [take].
  rewrite take_app_length. apply HQ; [|done]. exists l. done.
Qed.

Lemma wp_descriptor E c modid a psize mem (Q : osd_memory_descriptor -> osd_context -> Prop) :
  mam_at c modid a psize mem -> Q mem c -> wp (memory_descriptor modid) E Q c.
Proof.
  intros (s & m & Hs & Hm & _ & Hd & _) HQ.
  unfold memory_descriptor, module, system_info. apply wp_bind, wp_bind, wp_bind, wp_gets. rewrite Hs.
  apply wp_ret. eapply wp_lift; [done|]. rewrite Hd. by apply wp_ret.
Qed.

Lemma wp_modid2addr E c modid a psize mem (Q : Z -> osd_context -> Prop) :
  mam_at c modid a psize mem -> Q a c -> wp (osd_modid2addr modid) E Q c.
Proof.
  intros (s & m & Hs & Hm & Ha & _) HQ.
  unfold osd_modid2addr, module, system_info. apply wp_bind, wp_bind, wp_bind, wp_gets. rewrite Hs.
  apply wp_ret. eapply wp_lift; [done|]. apply wp_ret. by rewrite Ha.
Qed.

Lemma wp_max_pkt_len E c modid a psize mem (Q : Z -> osd_context -> Prop) :
  mam_at c modid a psize mem -> Q psize c -> wp osd_get_max_pkt_len E Q c.
Proof.
  intros (s & m & Hs & _ & _ & _ & Hp) HQ.
  unfold osd_get_max_pkt_len, system_info. apply wp_bind, wp_bind, wp_gets. rewrite Hs.
  apply wp_ret, wp_ret. by rewrite Hp.
Qed.

Lemma mam_at_sent c modid a psize mem ps :
  mam_at c modid a psize mem -> mam_at (send_all ps c) modid a psize mem.
Proof. done. Qed.

(** *** The flits of a burst *)

Lemma flits_app ps qs : flits (ps ++ qs) = flits ps ++ flits qs.
Proof. unfold flits. by rewrite fmap_app, concat_app. Qed.

Lemma flits_one p : flits [p] = payload p.
Proof. unfold flits. simpl. apply app_nil_r. Qed.

Lemma data_flits_cons d i n :
  (fun k => flit (d !z (2 * Z.of_nat k)) (d !z (2 * Z.of_nat k + 1))) <$> seq i (S n) =
  flit (d !z (2 * Z.of_nat i)) (d !z (2 * Z.of_nat i + 1)) ::
  ((fun k => flit (d !z (2 * Z.of_nat k)) (d !z (2 * Z.of_nat k + 1))) <$> seq (S i) n).
Proof. done. Qed.

(** [acc] are the words in the packet that have not been sent. *)
Lemma bulk_loop_spec E n i a psize d x acc rest c (Q : list Z * Z -> osd_context -> Prop) :
  3 <= psize < 2 ^ 16 -> lenz acc + lenz rest = psize - 2 -> lenz acc < psize - 2 ->
  2 * (Z.of_nat i + Z.of_nat n) <= lenz d ->
  (forall ps y acc' rest',
     Forall (event_packet a psize) ps -> lenz acc' < psize - 2 ->
     lenz acc' + lenz rest' = psize - 2 ->
     acc ++ ((fun k => flit (d !z (2 * Z.of_nat k)) (d !z (2 * Z.of_nat k + 1))) <$> seq i n) =
       flits ps ++ acc' ->
     Q (y :: a :: 2 ^ 14 :: acc' ++ rest', lenz acc') (send_all ps c)) ->
  wp (bulk_loop respond n (Z.of_nat i) (lenz acc) (psize - 2) psize d (x :: a :: 2 ^ 14 :: acc ++ rest))
     E Q c.
Proof.
  intros Hps. revert i x acc rest c. induction n as [|n IH]; intros i x acc rest c Hr Hacc Hd HQ.
  { apply wp_ret. rewrite <- (send_all_nil c). apply HQ; [done|done|done|]. by rewrite app_nil_r. }
  cbn [bulk_loop]. do 2 (apply wp_bind; eapply wp_lift; [apply get_ok; lia|]).
  rewrite (Z.mul_comm (Z.of_nat i)). set (f := flit _ _).
  destruct rest as [|r rest]; [change (lenz []) with 0 in Hr; lia|]. rewrite lenz_cons in Hr.
  apply wp_bind. eapply wp_lift.
  { change (x :: a :: 2 ^ 14 :: acc ++ r :: rest) with ((x :: a :: 2 ^ 14 :: acc) ++ r :: rest).
    replace (3 + lenz acc) with (lenz (x :: a :: 2 ^ 14 :: acc)) by (rewrite !lenz_cons; lia).
    apply put_app. }
  cbv zeta. rewrite data_flits_cons in HQ. fold f in HQ.
  change ((x :: a :: 2 ^ 14 :: acc) ++ f :: rest) with (x :: a :: 2 ^ 14 :: acc ++ [f] ++ rest).
  rewrite app_assoc. pose proof (lenz_app acc [f]) as Hl. change (lenz [f]) with 1 in Hl.
  rewrite <- Hl. replace (Z.of_nat i + 1) with (Z.of_nat (S i)) by lia.
  destruct (Z.eqb_spec (lenz (acc ++ [f])) (psize - 2)) as [He|Hne].
  - apply wp_bind. eapply wp_lift.
    { apply put_insert. rewrite !lenz_cons. pose proof (lenz_nonneg ((acc ++ [f]) ++ rest)). lia. }
    cbn [Z.to_nat insert list_insert]. apply wp_bind.
    replace psize with (lenz (acc ++ [f]) + 2) at 1 by lia.
    eapply wp_send_event with (psize := psize); [pose proof (lenz_nonneg acc); lia|]. intros p Hp Hpl.
    destruct rest as [|r' rest]; [|pose proof (lenz_nonneg rest); rewrite lenz_cons in Hr; lia].
    rewrite app_nil_r.
    apply (IH (S i) _ [] (acc ++ [f])); [change (lenz []) with 0; lia|change (lenz []) with 0; lia|lia|].
    intros ps y acc' rest' Hps' Ha' Hr' Hf. rewrite send_all_app. apply HQ; [by constructor|done|done|].
    simpl in Hf. change ([p] ++ ps) with ([p] ++ ps). rewrite flits_app, flits_one, Hpl, <- !app_assoc. simpl.
    by rewrite Hf.
  - apply IH; [lia|lia|lia|]. intros ps y acc' rest' Hps' Ha' Hr' Hf. apply HQ; [done..|].
    rewrite <- Hf, <- app_assoc. done.
Qed.

(** *** A burst *)

Section requests.
Context (modid a psize aw bs : Z) (mem : osd_memory_descriptor).
Context (Haw : 1 <= aw <= 64) (Hbs : block_size bs).
Context (Hmemw : data_width mem = 8 * bs) (Hmema : addr_width mem = aw).
Context (Hpsize : 3 + (aw + 15) / 16 + bs / 2 <= psize < 2 ^ 16).

Lemma data_width_bytes : data_width mem >>> 3 = bs.
Proof. rewrite Hmemw, shiftr_div by lia. change (2 ^ 3) with 8. rewrite Z.mul_comm. by apply Z.div_mul. Qed.

Lemma mam_step_burst m addr n d :
  0 <= addr < 2 ^ aw -> addr mod bs = 0 -> 0 < n < 2 ^ 14 -> Forall is_byte d -> n * bs <= lenz d ->
  mam_step aw bs (u16 (0xc000 ||| n) :: addr_words aw addr ++ data_flits d (Z.to_nat (n * bs / 2))) m =
    Some ([], write_bytes m addr (take (Z.to_nat (n * bs)) d)).
Proof.
  intros Haddr Hal Hn Hd Hl.
  assert (Hc : u16 (0xc000 ||| n) = 3 * 2 ^ 14 + n).
  { change 0xc000 with (3 <<< 14). rewrite (lor_disjoint_add 3 n 14) by lia. apply u16_small. lia. }
  rewrite beats_half in * by done. destruct (block_half bs Hbs) as [He Hh].
  assert (0 <= n * (bs / 2)) by lia.
  unfold mam_step. rewrite Hc. cbv zeta.
  assert (H14 : Z.testbit (3 * 2 ^ 14 + n) 14 = true).
  { apply Z.testbit_true; [lia|]. zdm. }
  assert (H15 : Z.testbit (3 * 2 ^ 14 + n) 15 = true).
  { apply Z.testbit_true; [lia|]. zdm. }
  rewrite H14, H15. cbv match.
  replace ((3 * 2 ^ 14 + n) mod 2 ^ 14) with n by zdm.
  rewrite lenz_app, lenz_addr_words, lenz_data_flits, Z2Nat.id by done.
  assert (Hlt : Z.to_nat ((aw + 15) / 16) = length (addr_words aw addr)).
  { pose proof (lenz_addr_words aw addr Haw) as Hw. unfold lenz in Hw. lia. }
  rewrite Hlt, drop_app_length, take_app_length, mam_addr_words by done.
  assert (Hdl : length (data_flits d (Z.to_nat (n * (bs / 2)))) = Z.to_nat (n * (bs / 2))).
  { pose proof (lenz_data_flits d (Z.to_nat (n * (bs / 2)))) as Hw. unfold lenz in Hw. lia. }
  rewrite take_ge, drop_ge by lia.
  destruct (Z.leb_spec ((aw + 15) / 16 + n * (bs / 2)) ((aw + 15) / 16 + n * (bs / 2))); [|lia].
  destruct (Z.ltb_spec 0 (n * (bs / 2))); [|nia]. rewrite Hal. cbn [andb Z.eqb].
  rewrite bytes_of_data_flits; [|done|nia].
  do 4 f_equal. rewrite He at 2. lia.
Qed.

Lemma memory_write_bulk_spec c addr d n (Q : Z -> osd_context -> Prop) :
  mam_at c modid a psize mem -> 0 <= addr < 2 ^ aw -> addr mod bs = 0 -> 0 < n -> n * bs <= BULK_MAX ->
  Forall is_byte d -> n * bs <= lenz d ->
  (forall ps, Forall (event_packet a psize) ps ->
     (forall m, mam_exec aw bs (flits ps) m (write_bytes m addr (take (Z.to_nat (n * bs)) d))) ->
     Q 0 (send_all ps c)) ->
  wp (memory_write_bulk respond fresh modid addr d (n * bs)) no_fault Q c.
Proof.
  intros Hmam Haddr Hal Hn Hmax Hd Hl HQ. destruct (block_half bs Hbs) as [He Hh].
  assert (Hn14 : n < 2 ^ 14) by (unfold BULK_MAX in Hmax; nia).
  assert (Hw : 1 <= (aw + 15) / 16) by zdm.
  unfold memory_write_bulk. destruct (Z.ltb_spec BULK_MAX (n * bs)); [lia|].
  apply wp_bind. eapply wp_modid2addr; [done|].
  apply wp_bind. eapply wp_max_pkt_len; [done|]. cbv zeta.
  apply wp_bind. eapply wp_descriptor; [done|].
  rewrite data_width_bytes, Hmema. apply wp_bind. eapply wp_lift.
  { unfold udiv. destruct (Z.eqb_spec bs 0); [lia|]. by rewrite Z.div_mul by lia. }
  destruct (put_header_spec (fresh (psize + 1)) (u16 (0xc000 ||| n)) addr aw) as (x & y & z & rest & Hp & Hrest);
    [done|rewrite Hfresh by lia; unfold hlen; rewrite shiftr_div by lia; change (2 ^ 4) with 16; lia|].
  rewrite Hfresh in Hrest by lia. unfold hlen in Hrest. rewrite shiftr_div in Hrest by lia.
  change (2 ^ 4) with 16 in Hrest.
  apply wp_bind. eapply wp_lift; [done|]. apply wp_bind. eapply wp_lift; [apply put_static_spec|].
  set (hdr := u16 (0xc000 ||| n) :: addr_words aw addr).
  assert (Hhdr : lenz hdr = 1 + (aw + 15) / 16).
  { unfold hdr. by rewrite lenz_cons, lenz_addr_words. }
  replace (u16 (hlen aw + 2)) with (lenz hdr + 2).
  2:{ unfold hlen. rewrite shiftr_div by lia. change (2 ^ 4) with 16. rewrite Hhdr. by rewrite u16_small by lia. }
  apply wp_bind. change (u16 (0xc000 ||| n) :: addr_words aw addr ++ rest) with (hdr ++ rest).
  eapply wp_send_event with (psize := psize); [lia|]. intros p Hp1 Hp2.
  rewrite (u16_small (psize - 2)) by lia. apply wp_bind.
  apply (bulk_loop_spec _ (Z.to_nat (n * bs / 2)) 0 a psize d (lenz hdr + 2) [] (hdr ++ rest));
    [lia|rewrite lenz_app; change (lenz []) with 0; lia|change (lenz []) with 0; lia
    |rewrite beats_half by done; nia|].
  intros ps y' acc' rest' Hps Ha' Hr' Hf.
  assert (Hend : forall qs, Forall (event_packet a psize) qs -> flits qs = flits ps ++ acc' ->
            Q 0 (send_all ([p] ++ qs) c)).
  { intros qs Hqs Hfl. apply HQ; [by constructor|]. intros m. apply mam_exec_one.
    rewrite flits_app, flits_one, Hp2, Hfl, <- Hf. by apply mam_step_burst. }
  destruct (Z.eqb_spec (lenz acc') 0) as [Hz|Hz]; cbn [negb].
  - apply wp_ret. rewrite send_all_app. apply Hend; [done|].
    destruct acc'; [by rewrite app_nil_r|rewrite lenz_cons in Hz; pose proof (lenz_nonneg acc'); lia].
  - pose proof (lenz_nonneg acc'). pose proof (lenz_nonneg rest').
    apply wp_bind. eapply wp_lift.
    { apply put_insert. rewrite !lenz_cons, lenz_app. lia. }
    cbn [Z.to_nat insert list_insert]. rewrite u16_small by lia. apply wp_bind.
    eapply wp_send_event with (psize := psize); [lia|]. intros q Hq1 Hq2. apply wp_ret.
    rewrite !send_all_app. apply Hend; [apply Forall_app; by split; [|constructor]|].
    by rewrite flits_app, flits_one, Hq2.
Qed.

(** *** A single write *)

Lemma mam_step_single m addr b n d :
  0 <= addr < 2 ^ aw -> addr mod bs = 0 -> 0 <= b -> 0 <= n -> b + n <= bs -> Forall is_byte d ->
  lenz d = bs ->
  mam_step aw bs (u16 (0x8000 ||| (Z.ones n <<< b)) :: addr_words aw addr ++
                  data_flits d (Z.to_nat (bs / 2))) m =
    Some ([], write_strobed m addr (u16 (0x8000 ||| (Z.ones n <<< b))) d).
Proof.
  intros Haddr Hal Hb Hn Hbn Hd Hl. destruct (block_half bs Hbs) as [He Hh].
  set (ctrl := u16 (0x8000 ||| (Z.ones n <<< b))).
  assert (Hbit : forall j, 14 <= j -> Z.testbit (Z.ones n <<< b) j = false).
  { intros j Hj. rewrite Z.shiftl_spec, Z.testbit_ones by lia. lia. }
  assert (H14 : Z.testbit ctrl 14 = false).
  { unfold ctrl, u16. rewrite Z.mod_pow2_bits_low, Z.lor_spec, Hbit by lia. done. }
  assert (H15 : Z.testbit ctrl 15 = true).
  { unfold ctrl, u16. rewrite Z.mod_pow2_bits_low, Z.lor_spec, Hbit by lia. done. }
  unfold mam_step. cbv zeta. rewrite H14, H15. cbv match.
  rewrite lenz_app, lenz_addr_words, lenz_data_flits, Z2Nat.id by (done || lia).
  assert (Hlt : Z.to_nat ((aw + 15) / 16) = length (addr_words aw addr)).
  { pose proof (lenz_addr_words aw addr Haw) as Hw. unfold lenz in Hw. lia. }
  rewrite Hlt, drop_app_length, take_app_length, mam_addr_words by done.
  assert (Hdl : length (data_flits d (Z.to_nat (bs / 2))) = Z.to_nat (bs / 2)).
  { pose proof (lenz_data_flits d (Z.to_nat (bs / 2))) as Hw. unfold lenz in Hw. lia. }
  rewrite take_ge, drop_ge by lia.
  destruct (Z.leb_spec ((aw + 15) / 16 + bs / 2) ((aw + 15) / 16 + bs / 2)); [|lia].
  destruct (Z.ltb_spec 0 (bs / 2)); [|lia]. rewrite Hal. cbn [andb Z.eqb].
  rewrite bytes_of_data_flits; [|done|lia].
  rewrite take_ge; [done|]. unfold lenz in Hl. lia.
Qed.

Lemma memory_write_single_spec c addr d n (Q : Z -> osd_context -> Prop) :
  mam_at c modid a psize mem -> 0 <= addr < 2 ^ aw -> 0 <= n -> addr mod bs + n <= bs ->
  Forall is_byte d -> n <= lenz d ->
  (forall ps, Forall (event_packet a psize) ps ->
     (forall m, exists m', mam_exec aw bs (flits ps) m m' /\
        forall x, m' x = if (addr <=? x) && (x <? addr + n) then d !z (x - addr) else m x) ->
     Q 0 (send_all ps c)) ->
  wp (memory_write_single respond fresh modid addr d n) no_fault Q c.
Proof.
  intros Hmam Haddr Hn Hfit Hd Hl HQ. destruct (block_half bs Hbs) as [He Hh].
  assert (Hw : 1 <= (aw + 15) / 16) by zdm.
  pose proof (Z.mod_pos_bound addr bs ltac:(lia)) as Hr.
  pose proof (Z.mod_le addr bs ltac:(lia) ltac:(lia)) as Hrle.
  set (b := addr mod bs) in *.
  unfold memory_write_single.
  apply wp_bind. eapply wp_modid2addr; [done|].
  apply wp_bind. eapply wp_max_pkt_len; [done|]. cbv zeta.
  apply wp_bind. eapply wp_descriptor; [done|]. rewrite data_width_bytes, Hmema.
  apply wp_bind. eapply wp_lift.
  { unfold umod. destruct (Z.eqb_spec bs 0); [lia|]. fold b. done. }
  rewrite (u8_small b) by lia. apply wp_bind. eapply wp_lift; [apply strobe_loop_spec; [done|lia..]|].
  destruct (put_header_spec (fresh (psize + 1)) (u16 (0x8000 ||| (Z.ones n <<< b))) (addr - b) aw)
    as (x & y & z & rest & Hp & Hrest);
    [done|rewrite Hfresh by lia; unfold hlen; rewrite shiftr_div by lia; change (2 ^ 4) with 16; lia|].
  rewrite Hfresh in Hrest by lia. unfold hlen in *. rewrite shiftr_div in * by lia.
  change (2 ^ 4) with 16 in *.
  apply wp_bind. eapply wp_lift; [done|]. apply wp_bind. eapply wp_lift; [apply put_static_spec|].
  rewrite u16_small by lia.
  destruct (load_spec d 0 n) as (w & Hw1 & Hw2 & Hw3); [lia|lia|lia|].
  apply wp_bind. eapply wp_lift; [done|].
  destruct (store_spec (zeros bs) b w) as (blk & Hb1 & Hb2 & Hb3); [lia|rewrite lenz_zeros; lia|].
  rewrite lenz_zeros in Hb2 by lia. apply wp_bind. eapply wp_lift; [done|].
  set (hdr := u16 (0x8000 ||| (Z.ones n <<< b)) :: addr_words aw (addr - b)).
  assert (Hhdr : lenz hdr = 1 + (aw + 15) / 16).
  { unfold hdr. by rewrite lenz_cons, lenz_addr_words. }
  set (len := 1 + (aw + 15) / 16 + 2 + bs / 2).
  assert (Hblk : Forall is_byte blk).
  { apply Forall_nthz_iff. intros i Hi. rewrite Hb3 by lia. destruct (_ && _) eqn:Hin.
    - rewrite Hw3 by lia. apply Forall_nthz; [done|lia].
    - rewrite nthz_zeros. done. }
  destruct (block_loop_spec (Z.to_nat (bs / 2)) 0 (3 + (1 + (aw + 15) / 16)) blk
              (len :: a :: 2 ^ 14 :: hdr) rest) as (r' & Hbl & Hr');
    [rewrite !lenz_cons; lia|lia|lia|].
  apply wp_bind. eapply wp_lift; [exact Hbl|]. fold (data_flits blk (Z.to_nat (bs / 2))).
  apply wp_bind. set (body := hdr ++ data_flits blk (Z.to_nat (bs / 2))).
  assert (Hbody : lenz body = 1 + (aw + 15) / 16 + bs / 2).
  { unfold body. rewrite lenz_app, Hhdr, lenz_data_flits. lia. }
  replace ((len :: a :: 2 ^ 14 :: hdr) ++ data_flits blk (Z.to_nat (bs / 2)) ++ r')
    with (lenz body + 2 :: a :: 2 ^ 14 :: body ++ r').
  2:{ unfold body, len. fold body. rewrite Hbody. unfold body. rewrite <- !app_assoc. simpl. f_equal. lia. }
  eapply wp_send_event with (psize := psize); [lia|]. intros p Hp1 Hp2. apply wp_ret.
  apply HQ; [by constructor|]. intros m. eexists. split.
  { apply mam_exec_one. rewrite flits_one, Hp2. apply mam_step_single; try done; try lia.
    unfold b. pose proof (Z.div_mod addr bs ltac:(lia)).
    replace (addr - addr mod bs) with (addr / bs * bs) by lia. apply Z.mod_mul. lia. }
  intros v. unfold write_strobed. rewrite Hb2.
  destruct (Z.leb_spec (addr - b) v), (Z.ltb_spec v (addr - b + bs)); simpl.
  - rewrite testbit_strobe by lia.
    destruct (Z.leb_spec b (v - (addr - b))), (Z.ltb_spec (v - (addr - b)) (b + n)),
      (Z.leb_spec addr v), (Z.ltb_spec v (addr + n)); try lia; try done. simpl.
    rewrite Hb3 by lia. destruct (_ && _) eqn:Hin; [|lia]. rewrite Hw3 by lia. f_equal. lia.
  - destruct (Z.leb_spec addr v), (Z.ltb_spec v (addr + n)); done || lia.
  - destruct (Z.leb_spec addr v), (Z.ltb_spec v (addr + n)); done || lia.
  - destruct (Z.leb_spec addr v), (Z.ltb_spec v (addr + n)); done || lia.
Qed.

(** *** The whole write *)

Lemma at_offset_spec d off :
  0 <= off <= lenz d -> at_offset d off = Ret (drop (Z.to_nat off) d).
Proof.
  intros Hoff. unfold at_offset. apply load_Ret. split_and!; [lia|lia|lia|].
  rewrite take_ge; [done|]. pose proof (lenz_drop off d ltac:(lia)) as Hd. unfold lenz in *. lia.
Qed.

(** The packets [ps] set the bytes from [lo] to [hi] to those of [data], which
    belongs at [addr], and no others. *)
Definition writes (addr : Z) (data : list Z) (ps : list (list Z)) (lo hi : Z) : Prop :=
  Forall (event_packet a psize) ps /\
  forall m, exists m', mam_exec aw bs (flits ps) m m' /\
    forall x, m' x = if (lo <=? x) && (x <? hi) then data !z (x - addr) else m x.

Lemma writes_nil addr data lo hi : hi <= lo -> writes addr data [] lo hi.
Proof.
  intros Hlo. split; [constructor|]. intros m. exists m. split; [apply mam_done|].
  intros x. by destruct (Z.leb_spec lo x), (Z.ltb_spec x hi); try lia.
Qed.

Lemma writes_empty addr data ps lo hi lo' hi' :
  writes addr data ps lo hi -> hi <= lo -> hi' <= lo' -> writes addr data ps lo' hi'.
Proof.
  intros [Hp H] Hlo Hlo'. split; [done|]. intros m. destruct (H m) as (m' & He & Hm).
  exists m'. split; [done|]. intros x. rewrite Hm.
  destruct (Z.leb_spec lo x), (Z.ltb_spec x hi), (Z.leb_spec lo' x), (Z.ltb_spec x hi'); done || lia.
Qed.

Lemma writes_app addr data ps qs lo mid hi :
  lo <= mid <= hi -> writes addr data ps lo mid -> writes addr data qs mid hi ->
  writes addr data (ps ++ qs) lo hi.
Proof.
  intros Hle [Hp H1] [Hq H2]. split; [by apply Forall_app|]. intros m.
  destruct (H1 m) as (m1 & He1 & Hm1). destruct (H2 m1) as (m2 & He2 & Hm2).
  exists m2. split; [rewrite flits_app; eapply mam_exec_app; [lia|done..]|].
  intros x. rewrite Hm2, Hm1.
  destruct (Z.leb_spec lo x), (Z.ltb_spec x mid), (Z.leb_spec mid x), (Z.ltb_spec x hi); done || lia.
Qed.

Lemma Forall_drop_byte d k : Forall is_byte d -> Forall is_byte (drop k d).
Proof. apply Forall_drop. Qed.

Lemma write_single_at c addr data off n (Q : Z -> osd_context -> Prop) :
  mam_at c modid a psize mem -> 0 <= addr -> addr + lenz data <= 2 ^ aw -> Forall is_byte data ->
  0 < n -> 0 <= off -> off + n <= lenz data -> (addr + off) mod bs + n <= bs ->
  (forall ps, writes addr data ps (addr + off) (addr + off + n) -> Q 0 (send_all ps c)) ->
  wp (memory_write_single respond fresh modid (addr + off) (drop (Z.to_nat off) data) n) no_fault Q c.
Proof.
  intros Hmam Ha Hsz Hd Hn Hoff Hlen Hfit HQ.
  apply memory_write_single_spec; [done|lia|lia|done|by apply Forall_drop|rewrite lenz_drop by lia; lia|].
  intros ps Hps Hex. apply HQ. split; [done|]. intros m. destruct (Hex m) as (m' & He & Hm').
  exists m'. split; [done|]. intros x. rewrite Hm'. destruct (_ && _) eqn:Hin; [|done].
  rewrite nthz_drop by lia. f_equal. lia.
Qed.

Lemma write_bulk_at c addr data off n (Q : Z -> osd_context -> Prop) :
  mam_at c modid a psize mem -> 0 <= addr -> addr + lenz data <= 2 ^ aw -> Forall is_byte data ->
  0 < n -> n * bs <= BULK_MAX -> 0 <= off -> off + n * bs <= lenz data -> (addr + off) mod bs = 0 ->
  (forall ps, writes addr data ps (addr + off) (addr + off + n * bs) -> Q 0 (send_all ps c)) ->
  wp (memory_write_bulk respond fresh modid (addr + off) (drop (Z.to_nat off) data) (n * bs))
     no_fault Q c.
Proof.
  intros Hmam Ha Hsz Hd Hn Hmax Hoff Hlen Hal HQ. destruct (block_half bs Hbs).
  apply memory_write_bulk_spec; [done|nia|done|lia|lia|by apply Forall_drop|rewrite lenz_drop by lia; lia|].
  intros ps Hps Hex. apply HQ. split; [done|]. intros m. eexists. split; [apply Hex|].
  intros x. unfold write_bytes. rewrite lenz_take, lenz_drop by nia.
  rewrite Z.min_l by lia. destruct (_ && _) eqn:Hin; [|done].
  rewrite nthz_take, nthz_drop by lia. f_equal. lia.
Qed.

Section buffer.
Context (addr size prolog bulk epilog : Z) (data : list Z).
Context (Haddr : 0 <= addr) (Hend : addr + size <= 2 ^ aw) (Hdata : Forall is_byte data).
Context (Hsize : lenz data = size) (Hlt : size < 2 ^ 63).
Context (Hparts : parts addr size bs prolog bulk epilog).

Lemma pow_aw : 2 ^ aw <= 2 ^ 64.
Proof. apply Z.pow_le_mono_r; lia. Qed.

(** One round, and the bytes it writes. *)
Lemma write_burst_round f i c (Q : unit -> osd_context -> Prop) s n :
  mam_at c modid a psize mem -> 0 <= i < size ->
  s = (if size <? u64 (i + BULK_MAX) then u64 (bulk - i) else BULK_MAX) ->
  s = n * bs -> 0 < n -> n * bs <= BULK_MAX -> prolog + i + n * bs <= size -> i mod bs = 0 -> 0 < bulk ->
  (forall ps, writes addr data ps (addr + (prolog + i)) (addr + (prolog + i) + n * bs) ->
     wp (write_bursts respond fresh f (i + BULK_MAX) size bulk prolog modid addr data) no_fault Q
        (send_all ps c)) ->
  wp (write_bursts respond fresh (S f) i size bulk prolog modid addr data) no_fault Q c.
Proof.
  intros Hmam Hi Hs Hsn Hn Hmax Hfit Hal Hb HQ. cbn [write_bursts].
  destruct (Z.ltb_spec i size); [|lia]. cbv zeta. rewrite <- Hs, Hsn.
  pose proof pow_aw. destruct Hparts. destruct (block_half bs Hbs).
  pose proof (Z.mul_pos_pos n bs ltac:(lia) ltac:(lia)).
  apply wp_bind. eapply wp_lift; [apply at_offset_spec; lia|].
  rewrite u64_small by lia. replace (addr + prolog + i) with (addr + (prolog + i)) by lia.
  apply wp_bind. apply write_bulk_at; [done|lia|lia|done|lia|lia|lia|lia| |].
  { destruct p_start0 as [|Hst]; [lia|]. rewrite Z.add_assoc, Z.add_mod, Hst, Hal by lia. by apply Z.mod_0_l; lia. }
  intros ps Hps. by apply HQ.
Qed.

Lemma write_bursts_spec f k c (Q : unit -> osd_context -> Prop) :
  mam_at c modid a psize mem -> 0 <= k -> size <= (k + Z.of_nat f) * BULK_MAX ->
  0 < bulk -> bursts_fit size bulk ->
  (forall ps, writes addr data ps (addr + (prolog + k * BULK_MAX)) (addr + (prolog + bulk)) ->
     Q tt (send_all ps c)) ->
  wp (write_bursts respond fresh f (k * BULK_MAX) size bulk prolog modid addr data) no_fault Q c.
Proof.
  intros Hmam Hk Hf Hb Hfit. revert k c Hmam Hk Hf.
  assert (HM : 0 < BULK_MAX) by done. destruct (BULK_MAX_beats bs Hbs) as [HMb HMp].
  destruct (block_half bs Hbs). destruct Hparts.
  induction f as [|f IH]; intros k c Hmam Hk Hf HQ.
  { apply wp_ret. rewrite <- (send_all_nil c). apply HQ, writes_nil. nia. }
  destruct (Z.ltb_spec (k * BULK_MAX) size) as [Hi|Hi].
  2:{ cbn [write_bursts]. destruct (Z.ltb_spec (k * BULK_MAX) size); [lia|]. apply wp_ret.
      rewrite <- (send_all_nil c). apply HQ, writes_nil. nia. }
  assert (Hnext : (k + 1) * BULK_MAX <= size -> (k + 1) * BULK_MAX <= bulk).
  { intros Hle. by apply (bursts_fit_bound size bulk (k + 1)); [lia|lia|done|]. }
  assert (Hthis : k * BULK_MAX < bulk).
  { apply (bursts_fit_bound size bulk k); [lia|lia|done|lia|done]. }
  assert (HM64 : BULK_MAX < 2 ^ 62) by done.
  assert (Hn : exists n, (if size <? u64 (k * BULK_MAX + BULK_MAX) then u64 (bulk - k * BULK_MAX) else BULK_MAX)
                = n * bs /\ 0 < n /\ n * bs <= BULK_MAX /\ k * BULK_MAX + n * bs <= bulk /\
                (k * BULK_MAX + n * bs = bulk \/ n * bs = BULK_MAX)).
  { rewrite u64_small by lia. destruct (Z.ltb_spec size (k * BULK_MAX + BULK_MAX)).
    - rewrite u64_small by lia. exists (bulk / bs - k * (BULK_MAX / bs)).
      assert (HN : (bulk / bs - k * (BULK_MAX / bs)) * bs = bulk - k * BULK_MAX).
      { rewrite Z.mul_sub_distr_r, <- Z.mul_assoc, <- HMb, <- p_bulk_beats0. done. }
      rewrite HN. split_and!; [done| |lia|lia|lia].
      apply (Z.mul_pos_cancel_r _ bs); lia.
    - exists (BULK_MAX / bs). rewrite <- HMb. split_and!; lia. }
  destruct Hn as (n & Hs & Hn0 & Hn1 & Hn2 & Hn3).
  eapply write_burst_round; [done|lia|reflexivity|exact Hs|lia|lia|lia| |lia|].
  { rewrite HMb, Z.mul_assoc. apply Z.mod_mul. lia. }
  intros ps Hps. replace (k * BULK_MAX + BULK_MAX) with ((k + 1) * BULK_MAX) by lia.
  apply IH; [done|lia|lia|]. intros qs Hqs. rewrite send_all_app. apply HQ.
  eapply writes_app; [|exact Hps|]; [lia|].
  destruct Hn3 as [Hl|Hl].
  - eapply writes_empty; [exact Hqs|lia|lia].
  - by replace (addr + (prolog + k * BULK_MAX) + n * bs)
      with (addr + (prolog + (k + 1) * BULK_MAX)) by lia.
Qed.

(** The three parts of the write. *)
Lemma write_prolog_spec c (Q : unit -> osd_context -> Prop) :
  mam_at c modid a psize mem ->
  (forall ps, writes addr data ps addr (addr + prolog) -> Q tt (send_all ps c)) ->
  wp (if negb (prolog =? 0)
      then _ ← memory_write_single respond fresh modid addr data prolog; mret tt
      else mret tt) no_fault Q c.
Proof.
  intros Hmam HQ. destruct (block_half bs Hbs) as [He Hh]. destruct Hparts.
  destruct (Z.eqb_spec prolog 0) as [Hp0|Hp0]; cbn [negb].
  - apply wp_ret. rewrite <- (send_all_nil c). apply HQ, writes_nil. lia.
  - apply wp_bind. replace addr with (addr + 0) at 1 by lia.
    change data with (drop (Z.to_nat 0) data) at 1.
    apply write_single_at; [done|lia|lia|done|lia|lia|lia|rewrite Z.add_0_r; lia|].
    intros ps Hps. apply wp_ret. apply HQ. by rewrite Z.add_0_r in Hps.
Qed.

Lemma write_bulk_spec c (Q : unit -> osd_context -> Prop) :
  mam_at c modid a psize mem -> bursts_fit size bulk ->
  (forall ps, writes addr data ps (addr + prolog) (addr + (prolog + bulk)) -> Q tt (send_all ps c)) ->
  wp (if negb (bulk =? 0)
      then write_bursts respond fresh (S (Z.to_nat (size / BULK_MAX))) 0 size bulk prolog modid addr data
      else mret tt) no_fault Q c.
Proof.
  intros Hmam Hfit HQ. destruct (block_half bs Hbs) as [He Hh]. destruct Hparts.
  destruct (Z.eqb_spec bulk 0) as [Hb0|Hb0]; cbn [negb].
  - apply wp_ret. rewrite <- (send_all_nil c). apply HQ, writes_nil. lia.
  - apply (write_bursts_spec _ 0); [done|lia| |lia|done|].
    { pose proof (Z.div_pos size BULK_MAX ltac:(lia) ltac:(done)).
      pose proof (Z.mul_succ_div_gt size BULK_MAX ltac:(done)).
      rewrite Nat2Z.inj_succ, Z2Nat.id by done. lia. }
    intros ps Hps. apply HQ.
    by replace (addr + (prolog + 0 * BULK_MAX)) with (addr + prolog) in Hps by lia.
Qed.

Lemma write_epilog_spec c (Q : unit -> osd_context -> Prop) :
  mam_at c modid a psize mem ->
  (forall ps, writes addr data ps (addr + (prolog + bulk)) (addr + size) -> Q tt (send_all ps c)) ->
  wp (if negb (epilog =? 0) then
        p ← lift (at_offset data (prolog + bulk));
        _ ← memory_write_single respond fresh modid (u64 (addr + prolog + bulk)) p epilog; mret tt
      else mret tt) no_fault Q c.
Proof.
  intros Hmam HQ. pose proof pow_aw. destruct (block_half bs Hbs) as [He Hh]. destruct Hparts.
  destruct (Z.eqb_spec epilog 0) as [He0|He0]; cbn [negb].
  - apply wp_ret. rewrite <- (send_all_nil c). apply HQ, writes_nil. lia.
  - apply wp_bind. eapply wp_lift; [apply at_offset_spec; lia|]. apply wp_bind.
    rewrite u64_small by lia. replace (addr + prolog + bulk) with (addr + (prolog + bulk)) by lia.
    apply write_single_at; [done|lia|lia|done|lia|lia|lia| |].
    { assert (Hz : (addr + (prolog + bulk)) mod bs = 0).
      { destruct p_start0 as [|Hst]; [lia|].
        rewrite p_bulk_beats0. replace (addr + (prolog + bulk / bs * bs))
          with (addr + prolog + bulk / bs * bs) by lia. by rewrite Z.mod_add by lia. }
      rewrite Hz. lia. }
    intros ps Hps. apply wp_ret, HQ.
    by replace (addr + size) with (addr + (prolog + bulk) + epilog) by lia.
Qed.

Lemma osd_memory_write_spec c :
  mam_at c modid a psize mem -> bursts_fit size bulk ->
  calculate_parts addr size bs = Ret (prolog, bulk, epilog) ->
  exists ps, writes addr data ps addr (addr + size) /\
    osd_memory_write respond fresh modid addr data size c = Ret (0, send_all ps c).
Proof.
  intros Hmam Hfit Hcp. pose proof Hparts as []. destruct (block_half bs Hbs) as [He Hh].
  assert (Hw : wp (osd_memory_write respond fresh modid addr data size) no_fault
    (fun rv c' => exists ps, writes addr data ps addr (addr + size) /\ rv = 0 /\ c' = send_all ps c) c).
  2:{ destruct (wp_total _ _ _ Hw) as (rv & c' & Hr & ps & Hps & -> & ->). eauto. }
  unfold osd_memory_write. apply wp_bind. eapply wp_descriptor; [done|]. rewrite data_width_bytes.
  cbv zeta. apply wp_bind. eapply wp_lift; [done|].
  apply wp_bind, write_prolog_spec; [done|]. intros ps1 H1.
  apply wp_bind, write_bulk_spec; [done|done|]. intros ps2 H2.
  apply wp_bind, write_epilog_spec; [done|]. intros ps3 H3. apply wp_ret.
  rewrite !send_all_app. eexists. split_and!; [|done|done].
  eapply writes_app; [|exact H1|eapply writes_app; [|exact H2|exact H3]]; lia.
Qed.
End buffer.
End requests.
End sending.

(** ** What a write does *)

(** The setting: module [modid] is a memory access module at address [a] with
    blocks of [bs] bytes and [aw] address bits, a packet has room for the longest
    request, and [malloc] succeeds. *)
Record mam_setting (fresh : Z -> list Z) (c : osd_context) (modid a psize aw bs : Z) : Prop := {
  ms_fresh : forall n, 0 <= n -> lenz (fresh n) = n;
  ms_module : exists mem, mam_at c modid a psize mem /\ data_width mem = 8 * bs /\ addr_width mem = aw;
  ms_aw : 1 <= aw <= 64;
  ms_bs : block_size bs;
  ms_psize : 3 + (aw + 15) / 16 + bs / 2 <= psize < 2 ^ 16
}.

(** The bytes of the whole blocks between the first and the last block border. *)
Definition bulk_of (addr size bs : Z) : Z := size - (- addr) mod bs - (addr + size) mod bs.

Lemma small_parts addr size bs :
  block_size bs -> 0 <= size < bs -> size = 0 \/ addr mod bs + size <= bs ->
  parts addr size bs size 0 0.
Proof. intros Hbs Hs Hfit. constructor; try lia. by rewrite Z.div_0_l by lia. Qed.


(** *** Writes that leave their buffers *)

Definition oob (e : fault) : Prop := e = OutOfBounds.

Lemma wp_get_oob E l i Q (c : osd_context) :
  E OutOfBounds -> (forall x, Q x c) -> wp (lift (get l i)) E Q c.
Proof. intros HE HQ. unfold wp, lift, get. destruct (_ && _); [apply HQ|done]. Qed.

Lemma wp_load_oob E l i n Q (c : osd_context) :
  E OutOfBounds -> (forall x, Q x c) -> wp (lift (load l i n)) E Q c.
Proof. intros HE HQ. unfold wp, lift, load. destruct (_ && _); [apply HQ|done]. Qed.

Lemma wp_store_oob E l i d Q (c : osd_context) :
  E OutOfBounds -> (forall x, Q x c) -> wp (lift (store l i d)) E Q c.
Proof. intros HE HQ. unfold wp, lift, store. destruct (_ && _); [apply HQ|done]. Qed.

Lemma wp_send_any respond p Q (c : osd_context) :
  (forall x c', o_system_info c' = o_system_info c -> Q x c') -> wp (osd_send_packet respond p) oob Q c.
Proof.
  intros HQ. unfold osd_send_packet. apply wp_bind, wp_get_oob; [done|]. intros n.
  apply wp_bind, wp_load_oob; [done|]. intros w. by apply wp_bind, wp_modify, wp_ret, HQ.
Qed.

(** A burst longer than its data reads outside it. *)
Lemma bulk_loop_overruns respond n i cw wpp psize d p c Q :
  0 <= i -> (0 < n)%nat -> lenz d < 2 * (i + Z.of_nat n) ->
  wp (bulk_loop respond n i cw wpp psize d p) oob Q c.
Proof.
  revert i cw p c. induction n as [|n IH]; intros i cw p c Hi Hn Hd; [lia|]. cbn [bulk_loop].
  destruct (decide (2 * i + 1 < lenz d)) as [Hlt|Hge].
  - do 2 (apply wp_bind, wp_get_oob; [done|]; intros ?). apply wp_bind, wp_store_oob; [done|]. intros p'.
    cbv zeta. destruct (_ =? _).
    + apply wp_bind, wp_store_oob; [done|]. intros p''. apply wp_bind, wp_send_any. intros _ c' _.
      apply IH; lia.
    + apply IH; lia.
  - apply wp_bind, wp_get_oob; [done|]. intros ?. apply wp_bind. unfold wp, lift, get.
    destruct (Z.leb_spec 0 (i * 2 + 1)), (Z.ltb_spec (i * 2 + 1) (lenz d)); try done; lia.
Qed.

Lemma put_header_oob p ctrl a aw : forall e, put_header p ctrl a aw = Fault e -> e = OutOfBounds.
Proof.
  assert (Hput : forall l i x e, put l i x = Fault e -> e = OutOfBounds).
  { intros l i x e. unfold put, store. destruct (_ && _); congruence. }
  assert (Hb : forall m (f : list Z -> outcome (list Z)) e, m ≫= f = Fault e ->
             m = Fault e \/ exists l, f l = Fault e).
  { intros [l|e'] f e; simpl; [eauto|by left]. }
  assert (Hif : forall (b : bool) l i x e, (if b then put l i x else Ret l) = Fault e -> e = OutOfBounds).
  { intros [] l i x e; [apply Hput|congruence]. }
  intros e He. unfold put_header in He.
  repeat (apply Hb in He; destruct He as [He|[? He]]; [first [by eapply Hput|by eapply Hif]|]).
  by eapply Hif.
Qed.

Lemma wp_weaken {A} (m : M osd_context A) E Q c : wp m no_fault Q c -> wp m E Q c.
Proof. intros H. eapply wp_mono; [exact H|done|done]. Qed.

Lemma mul_step x y b : 0 < b -> x * b < y * b -> x * b + b <= y * b.
Proof. intros Hb H. apply Z.mul_lt_mono_pos_r in H; [|done]. assert (Hs : x + 1 <= y) by lia.
  apply (Z.mul_le_mono_pos_r _ _ b Hb) in Hs. lia. Qed.

Lemma wp_lift_oob {A} (m : outcome A) E (Q : A -> osd_context -> Prop) c :
  (forall e, m = Fault e -> E e) -> (forall x, Q x c) -> wp (lift m) E Q c.
Proof. intros HE HQ. unfold wp, lift. destruct m; [apply HQ|by apply HE]. Qed.

Lemma put_static_oob p n a : forall e, put_static p n a = Fault e -> e = OutOfBounds.
Proof.
  assert (Hput : forall l i x e, put l i x = Fault e -> e = OutOfBounds).
  { intros l i x e. unfold put, store. destruct (_ && _); congruence. }
  intros e He. unfold put_static in He.
  destruct (put p 0 _) as [p1|] eqn:H1; [|apply Hput in H1; simpl in He; congruence]. rewrite bind_ret in He.
  destruct (put p1 1 _) as [p2|] eqn:H2; [|apply Hput in H2; simpl in He; congruence]. rewrite bind_ret in He.
  by apply Hput in He.
Qed.

Lemma strobe_loop_total n i b k s :
  0 <= i -> i + Z.of_nat n <= 31 -> exists s', strobe_loop n i b k s = Ret s'.
Proof.
  revert i s. induction n as [|n IH]; intros i s Hi Hn; [by eexists|]. cbn [strobe_loop].
  destruct (_ && _); [destruct (Z.leb_spec 31 i); [lia|]|]; apply IH; lia.
Qed.

Lemma write_single_crosses respond fresh modid a psize aw bs c addr d n Q :
  mam_setting fresh c modid a psize aw bs -> 0 <= addr -> 0 <= n <= lenz d -> bs < addr mod bs + n ->
  wp (memory_write_single respond fresh modid addr d n) oob Q c.
Proof.
  intros [Hfresh (mem & Hmam & Hw & Haw) ? Hbs Hps] Haddr Hn Hx. destruct (block_half bs Hbs) as [He Hh].
  pose proof (Z.mod_pos_bound addr bs ltac:(lia)) as Hr. unfold memory_write_single.
  apply wp_bind. eapply wp_modid2addr; [done|].
  apply wp_bind. eapply wp_max_pkt_len; [done|].
  apply wp_bind. eapply wp_descriptor; [done|].
  rewrite (data_width_bytes bs mem Hw). cbv zeta. apply wp_bind. eapply wp_lift.
  { unfold umod. destruct (Z.eqb_spec bs 0); [lia|]. done. }
  rewrite (u8_small (addr mod bs)) by lia.
  destruct (strobe_loop_total (Z.to_nat bs) 0 (addr mod bs) n 0) as [s Hs]; [lia|lia|].
  apply wp_bind. eapply wp_lift; [done|].
  apply wp_bind, wp_lift_oob; [apply put_header_oob|]. intros p.
  apply wp_bind, wp_lift_oob; [apply put_static_oob|]. intros p'.
  destruct (load_spec d 0 n) as (w & Hw1 & Hw2 & _); [lia|lia|lia|].
  apply wp_bind. eapply wp_lift; [done|]. apply wp_bind. unfold wp, lift, store.
  rewrite lenz_zeros by lia. destruct (Z.leb_spec 0 (addr mod bs)), (Z.leb_spec (addr mod bs + lenz w) bs);
    try done; lia.
Qed.

Lemma write_bulk_overruns respond fresh modid a psize aw bs c addr d n Q :
  mam_setting fresh c modid a psize aw bs -> 0 < n -> n * bs <= BULK_MAX -> lenz d < n * bs ->
  wp (memory_write_bulk respond fresh modid addr d (n * bs)) oob Q c.
Proof.
  intros [Hfresh (mem & Hmam & Hw & Haw) ? Hbs Hps] Hn Hmax Hd. destruct (block_half bs Hbs) as [He Hh].
  unfold memory_write_bulk. destruct (Z.ltb_spec BULK_MAX (n * bs)); [lia|].
  apply wp_bind. eapply wp_modid2addr; [done|].
  apply wp_bind. eapply wp_max_pkt_len; [done|]. cbv zeta.
  apply wp_bind. eapply wp_descriptor; [done|].
  rewrite (data_width_bytes bs mem Hw). apply wp_bind. eapply wp_lift.
  { unfold udiv. destruct (Z.eqb_spec bs 0); [lia|]. done. }
  apply wp_bind, wp_lift_oob; [apply put_header_oob|]. intros p.
  apply wp_bind, wp_lift_oob; [apply put_static_oob|]. intros p'.
  apply wp_bind, wp_send_any. intros _ c' _. apply wp_bind.
  rewrite beats_half by done. apply bulk_loop_overruns; nia.
Qed.

Lemma mam_setting_sent respond fresh c modid a psize aw bs ps :
  mam_setting fresh c modid a psize aw bs -> mam_setting fresh (send_all respond ps c) modid a psize aw bs.
Proof. by intros []. Qed.

Lemma write_bursts_overrun respond fresh modid a psize aw bs addr size prolog bulk epilog data k j f c :
  mam_setting fresh c modid a psize aw bs -> parts addr size bs prolog bulk epilog ->
  Forall is_byte data -> lenz data = size -> size < 2 ^ 63 -> 0 <= addr -> addr + size <= 2 ^ aw ->
  0 <= j < k -> 0 < bulk -> bulk < k * BULK_MAX <= size -> k <= j + Z.of_nat f ->
  wp (write_bursts respond fresh f (j * BULK_MAX) size bulk prolog modid addr data) oob
     (fun _ _ => False) c.
Proof.
  intros Hset Hparts Hd Hl Hlt Haddr Hend. revert j c Hset.
  induction f as [|f IH]; intros j c Hset Hj Hb Hk Hf; [lia|].
  destruct (ms_module _ _ _ _ _ _ _ Hset) as (mem & Hmam & Hw & Ha).
  pose proof Hset as [Hfresh _ Haw Hbs Hps]. destruct (block_half bs Hbs) as [He Hh].
  destruct (BULK_MAX_beats bs Hbs) as [HMb HMp]. assert (HM : bs < BULK_MAX < 2 ^ 62) by (unfold BULK_MAX; lia).
  pose proof (pow_aw aw Haw) as Hpow. pose proof Hparts as [].
  assert (Hjk : (j + 1) * BULK_MAX <= k * BULK_MAX) by (apply Z.mul_le_mono_nonneg_r; lia).
  assert (Hj0 : 0 <= j * BULK_MAX) by (apply Z.mul_nonneg_nonneg; lia).
  cbn [write_bursts]. destruct (Z.ltb_spec (j * BULK_MAX) size); [|lia]. cbv zeta.
  rewrite (u64_small (j * BULK_MAX + BULK_MAX)) by lia.
  destruct (Z.ltb_spec size (j * BULK_MAX + BULK_MAX)); [lia|].
  apply wp_bind. eapply wp_lift; [apply at_offset_spec; lia|]. apply wp_bind.
  rewrite u64_small by lia. replace (addr + prolog + j * BULK_MAX) with (addr + (prolog + j * BULK_MAX)) by lia.
  replace (memory_write_bulk respond fresh modid (addr + (prolog + j * BULK_MAX))
             (drop (Z.to_nat (prolog + j * BULK_MAX)) data) BULK_MAX)
    with (memory_write_bulk respond fresh modid (addr + (prolog + j * BULK_MAX))
             (drop (Z.to_nat (prolog + j * BULK_MAX)) data) (BULK_MAX / bs * bs)) by (f_equal; done).
  destruct (Z.leb_spec ((j + 1) * BULK_MAX) bulk) as [Hin|Hout].
  - apply wp_weaken. apply (write_bulk_at respond fresh Hfresh modid a psize aw bs mem); try done; try lia.
    { destruct p_start0 as [|Hst]; [lia|]. rewrite Z.add_assoc, Z.add_mod, Hst by lia.
      rewrite HMb, Z.mul_assoc, Z.mod_mul by lia. done. }
    intros ps Hps'. replace (j * BULK_MAX + BULK_MAX) with ((j + 1) * BULK_MAX) by lia.
    assert (j + 1 < k) by (apply (Z.mul_lt_mono_pos_r BULK_MAX); lia).
    apply IH; [by apply mam_setting_sent|lia|lia|lia|lia].
  - eapply write_bulk_overruns; [done|done|lia|].
    assert (Hstep : bulk + bs <= (j + 1) * BULK_MAX).
    { rewrite HMb in Hout |- *. rewrite p_bulk_beats0 in Hout |- *. rewrite Z.mul_assoc in Hout |- *.
      apply mul_step; lia. }
    rewrite lenz_drop by lia. lia.
Qed.

(** C14: Where those bounds do not fit, [osd_memory_write] reads outside the
    caller's buffer: for a write shorter than a block that crosses a block border
    (it writes outside the block it allocated), and for a write of at least a block
    whose size reaches a multiple of [BULK_MAX] that its bulk does not reach, such
    as any unaligned write of [BULK_MAX] bytes. *)
Theorem osd_memory_write_overruns respond fresh c modid a psize aw bs addr data :
  mam_setting fresh c modid a psize aw bs ->
  Forall is_byte data -> 0 <= addr -> addr + lenz data <= 2 ^ aw -> lenz data < 2 ^ 63 ->
  (if lenz data <? bs then bs < addr mod bs + lenz data
   else 0 < bulk_of addr (lenz data) bs /\
        exists k, bulk_of addr (lenz data) bs < k * BULK_MAX <= lenz data) ->
  osd_memory_write respond fresh modid addr data (lenz data) c = Fault OutOfBounds.
Proof.
  intros Hset Hd Haddr Hend Hlt Hbad.
  assert (Hw : wp (osd_memory_write respond fresh modid addr data (lenz data)) oob (fun _ _ => False) c).
  2:{ unfold wp in Hw. destruct (osd_memory_write _ _ _ _ _ _ _) as [[]|e]; [done|by rewrite Hw]. }
  destruct (ms_module _ _ _ _ _ _ _ Hset) as (mem & Hmam & Hw & Ha).
  pose proof Hset as [Hfresh _ Haw Hbs Hps]. destruct (block_half bs Hbs) as [He Hh].
  pose proof (lenz_nonneg data). unfold osd_memory_write.
  apply wp_bind. eapply wp_descriptor; [done|]. rewrite (data_width_bytes bs mem Hw). cbv zeta.
  apply wp_bind. destruct (Z.ltb_spec (lenz data) bs) as [Hs|Hs].
  - eapply wp_lift.
    { unfold calculate_parts. by destruct (Z.ltb_spec (lenz data) bs); [|lia]. }
    pose proof (Z.mod_pos_bound addr bs ltac:(lia)).
    apply wp_bind. destruct (Z.eqb_spec (lenz data) 0); [lia|]. cbn [negb]. apply wp_bind. eapply write_single_crosses; [done|lia|lia|lia].
  - destruct (calculate_parts_spec addr (lenz data) bs Hbs ltac:(lia)) as (P & B & E & Hcp & HP & HE & Hparts).
    replace (bulk_of addr (lenz data) bs) with B in Hbad by (unfold bulk_of; destruct Hparts; lia).
    destruct Hbad as (HB & k & Hk). eapply wp_lift; [done|].
    apply wp_bind, wp_weaken. eapply write_prolog_spec; try done. intros ps _. apply wp_bind.
    destruct (Z.eqb_spec B 0); [lia|]. cbn [negb].
    assert (HM : 0 < BULK_MAX) by done.
    assert (0 < k) by (apply (Z.mul_pos_cancel_r k BULK_MAX); lia).
    assert (k <= lenz data / BULK_MAX) by (apply Z.div_le_lower_bound; lia).
    eapply wp_mono; [eapply (write_bursts_overrun _ _ _ _ _ _ _ _ _ _ _ _ _ k 0)|done|done];
      try done; try lia. by apply mam_setting_sent.
Qed.

(** *** A memory access module to write to *)

Definition demo_mam_context : osd_context :=
  MkOsd OSD_MODE_STANDALONE [] [] 0 (zeros 10) false 0 0 [] false
    (Some (MkInfo 0 12 3 1
       [MkModule 0 0 0 DNull; MkModule 1 1 0 DNull;
        MkModule 2 3 0 (DMemory (MkMem 64 32 1 [(0, 0x100000)]))]))
    [HNone; HNone; HNone] [].

Definition silent (p : list Z) : list (list Z) := [].

Lemma demo_mam_setting : mam_setting zeros demo_mam_context 2 2 12 32 8.
Proof.
  constructor; [apply lenz_zeros| |lia|by right; right|by vm_compute].
  exists (MkMem 64 32 1 [(0, 0x100000)]). split_and!; [|done|done].
  eexists _, _. split_and!; done.
Qed.

Lemma bytes_zeros n : Forall is_byte (zeros n).
Proof. apply Forall_replicate. unfold is_byte. lia. Qed.


Lemma osd_memory_write_overruns_witness :
  osd_memory_write silent zeros 2 4 (zeros BULK_MAX) (lenz (zeros BULK_MAX)) demo_mam_context = Fault OutOfBounds /\
  osd_memory_write silent zeros 2 6 [1; 2; 3] (lenz [1; 2; 3]) demo_mam_context = Fault OutOfBounds.
Proof.
  assert (Hl : lenz (zeros BULK_MAX) = BULK_MAX) by by apply lenz_zeros.
  split.
  - apply (osd_memory_write_overruns silent zeros demo_mam_context 2 2 12 32 8 4 (zeros BULK_MAX) demo_mam_setting
      (bytes_zeros _)); rewrite ?Hl; [lia|done|done|].
    change (BULK_MAX <? 8) with false. cbv match. split; [done|]. exists 1. done.
  - apply (osd_memory_write_overruns silent zeros demo_mam_context 2 2 12 32 8 6 [1; 2; 3] demo_mam_setting);
      [repeat constructor; unfold is_byte; lia|lia|done|done|by vm_compute].
Defined.
