(* ===== verification/OsdMemRead.v ===== *)
(** * Reading through a memory access module

    Against a module that answers a read request with the words of its memory,
    in packets of its choice, [osd_memory_read] returns the bytes of the memory:
    the callback stores what arrives, the reader waits for all of it and swaps
    the bytes of each word. *)

From S2P Require Import Prelude.
From S2P Require Import State.
From S2P Require Import Osd.
From S2P Require Import OsdMem.
From S2P Require Import OsdMemWrite.

(** The bytes of a sequence of words, the lower half first. *)
Definition le_bytes_of (l : list Z) : list Z := l ≫= fun f => [f mod 256; f / 256].

Lemma lenz_le_bytes_of l : lenz (le_bytes_of l) = 2 * lenz l.
Proof.
  induction l as [|x l IH]; [done|].
  change (le_bytes_of (x :: l)) with ([x mod 256; x / 256] ++ le_bytes_of l).
  rewrite lenz_app, IH, (lenz_cons x l). change (lenz [x mod 256; x / 256]) with 2. lia.
Qed.

Lemma put_at_length l y r x i : i = lenz l -> put (l ++ y :: r) i x = Ret (l ++ x :: r).
Proof. intros ->. apply put_app. Qed.

Lemma get_at_length l y r i : i = lenz l -> get (l ++ y :: r) i = Ret y.
Proof.
  intros ->. pose proof (lenz_nonneg l). pose proof (lenz_nonneg r).
  rewrite get_ok by (rewrite lenz_app, lenz_cons; lia).
  rewrite nthz_app by done. destruct (Z.ltb_spec (lenz l) (lenz l)); [lia|]. by rewrite Z.sub_diag.
Qed.

(** ** The callback *)

Lemma memory_read_words_spec words pre rest :
  Forall (is_uint 16) words -> 2 * lenz words <= lenz rest ->
  memory_read_words words (lenz pre) (pre ++ rest) =
    Ret (pre ++ le_bytes_of words ++ drop (Z.to_nat (2 * lenz words)) rest).
Proof.
  intros Hw. revert pre rest. induction Hw as [|w words Hw _ IH]; intros pre rest Hl; [done|].
  rewrite lenz_cons in Hl. pose proof (lenz_nonneg words).
  destruct rest as [|x [|y rest]]; [change (lenz []) with 0 in Hl; lia|change (lenz [x]) with 1 in Hl; lia|].
  rewrite !lenz_cons in Hl. cbn [memory_read_words].
  rewrite (put_at_length pre) by done. rewrite bind_ret.
  change (pre ++ w &&& 255 :: y :: rest) with (pre ++ [w &&& 255] ++ y :: rest). rewrite app_assoc.
  rewrite (put_at_length (pre ++ [w &&& 255])) by (rewrite lenz_app; done). rewrite bind_ret.
  change (u8 (w >>> 8) :: rest) with ([u8 (w >>> 8)] ++ rest). rewrite app_assoc.
  replace (lenz pre + 2) with (lenz ((pre ++ [w &&& 255]) ++ [u8 (w >>> 8)]))
    by (rewrite !lenz_app; change (lenz [_]) with 1; lia).
  rewrite IH by lia. f_equal. rewrite <- !app_assoc. f_equal.
  replace (Z.to_nat (2 * lenz (w :: words))) with (S (S (Z.to_nat (2 * lenz words))))
    by (rewrite lenz_cons; lia).
  cbn [drop].
  change (le_bytes_of (w :: words)) with ([w mod 256; w / 256] ++ le_bytes_of words). simpl.
  unfold is_uint in Hw. change 255 with (2 ^ 8 - 1). rewrite land_pow2_mask, shiftr_div by lia.
  rewrite u8_small by (change (2 ^ 8) with 256; zdm). done.
Qed.

(** The bytes of each word change places. *)
Lemma swap_loop_spec F i pre rest :
  lenz pre = 2 * i ->
  swap_loop (length F) i (pre ++ le_bytes_of F ++ rest) = Ret (pre ++ bytes_of F ++ rest).
Proof.
  revert i pre. induction F as [|f F IH]; intros i pre Hl; [done|]. cbn [length swap_loop].
  change (le_bytes_of (f :: F)) with (f mod 256 :: f / 256 :: le_bytes_of F). simpl app.
  set (r := le_bytes_of F ++ rest).
  rewrite (get_at_length pre _ _ (2 * i)) by lia. rewrite bind_ret.
  change (pre ++ f mod 256 :: f / 256 :: r) with (pre ++ [f mod 256] ++ f / 256 :: r).
  rewrite app_assoc. rewrite (get_at_length (pre ++ [f mod 256])) by (rewrite lenz_app; change (lenz [f mod 256]) with 1; lia).
  rewrite bind_ret, <- app_assoc. simpl app. rewrite (put_at_length pre _ _ _ (2 * i)) by lia. rewrite bind_ret.
  change (pre ++ f / 256 :: f / 256 :: r) with (pre ++ [f / 256] ++ f / 256 :: r). rewrite app_assoc.
  rewrite (put_at_length (pre ++ [f / 256])) by (rewrite lenz_app; change (lenz [f / 256]) with 1; lia).
  rewrite bind_ret. change (f mod 256 :: r) with ([f mod 256] ++ r). rewrite app_assoc. unfold r.
  rewrite IH by (rewrite !lenz_app; change (lenz [_]) with 1; lia).
  by rewrite <- !app_assoc.
Qed.

(** ** A module that answers *)

(** A packet of the module at [a] with data. *)
Definition data_packet (a : Z) (p : list Z) : Prop :=
  exists dst t l, p = (lenz l + 2) :: dst :: t :: l /\ u8 (t >>> 10) >>> 4 = OSD_EVENT_PACKET /\
    t &&& 0x3ff = a /\ 0 < lenz l < 2 ^ 15 /\ Forall (is_uint 16) l.

(** The request to read [n] beats from [addr] on. *)
Definition read_request (a aw addr n : Z) : list Z :=
  let hdr := u16 (0x4000 ||| n) :: addr_words aw addr in (lenz hdr + 2) :: a :: 2 ^ 14 :: hdr.

Definition read_target (respond : list Z -> list (list Z)) (m : Z -> Z) (a aw bs : Z) : Prop :=
  forall addr n, 0 <= addr -> 0 < n < 2 ^ 14 -> addr + n * bs <= 2 ^ aw -> addr mod bs = 0 ->
    Forall (data_packet a) (respond (read_request a aw addr n)) /\
    bytes_of (flits (respond (read_request a aw addr n))) = m <$> seqZ addr (n * bs).

Section reading.
Variable respond : list Z -> list (list Z).
Variable fresh : Z -> list Z.
Variable m : Z -> Z.
Context (modid a psize aw bs : Z).
Hypothesis Htarget : read_target respond m a aw bs.

(** Nothing waits to be handled, and packets from [a] reach the handler of
    [modid]. *)
Definition reader (c : osd_context) : Prop :=
  mam_setting fresh c modid a psize aw bs /\ o_mode c = OSD_MODE_STANDALONE /\ o_incoming c = [] /\
  0 <= modid < lenz (o_handlers c) /\
  exists s, o_system_info c = Some s /\
    addr2modid_loop (modules s) (Z.to_nat (num_modules s)) 0 a = Ret modid.

(** While a read is going on: the bytes stored, the bytes to come. *)
Definition receiving (c : osd_context) (size : Z) (pre rest : list Z) (ps : list (list Z)) : Prop :=
  o_incoming c = ps /\ o_mem_size c = size /\ 2 * o_mem_count c = lenz pre /\
  o_mem_data c = pre ++ rest /\ o_mem_signal c = (size / 2 <=? o_mem_count c) /\
  o_mode c = OSD_MODE_STANDALONE /\ mam_setting fresh c modid a psize aw bs /\
  o_handlers c !! Z.to_nat modid = Some HMemoryRead /\ 0 <= modid < lenz (o_handlers c) /\
  exists s, o_system_info c = Some s /\
    addr2modid_loop (modules s) (Z.to_nat (num_modules s)) 0 a = Ret modid.

Lemma handle_data_spec c size pre rest l dst t ps (Q : unit -> osd_context -> Prop) :
  receiving c size pre rest ps -> u8 (t >>> 10) >>> 4 = OSD_EVENT_PACKET -> t &&& 0x3ff = a ->
  0 < lenz l < 2 ^ 15 -> Forall (is_uint 16) l -> 2 * lenz l <= lenz rest ->
  o_mem_signal c = false ->
  (forall c', receiving c' size (pre ++ le_bytes_of l) (drop (Z.to_nat (2 * lenz l)) rest) ps -> Q tt c') ->
  wp (osd_handle_packet (lenz l + 2 :: dst :: t :: l)) no_fault Q c.
Proof.
  intros (Hin & Hsize & Hcount & Hdata & Hsig & Hmode & Hset & Hh & Hmod & s & Hs & Ha2m) Ht Ha Hl Hu Hrest Hns HQ.
  unfold osd_handle_packet. pose proof (lenz_nonneg l).
  apply wp_bind. eapply wp_lift; [apply get_ok; rewrite !lenz_cons; lia|].
  change ((lenz l + 2 :: dst :: t :: l) !z 2) with t. cbv zeta.
  apply wp_bind. eapply wp_lift; [apply get_ok; rewrite !lenz_cons; lia|].
  rewrite Ht. change (OSD_EVENT_PACKET =? 0) with false.
  change ((OSD_EVENT_PACKET =? OSD_EVENT_PACKET) || (OSD_EVENT_PACKET =? OSD_EVENT_TRACE)) with true.
  cbv match. rewrite Ha. apply wp_bind. unfold osd_addr2modid, system_info.
  apply wp_bind, wp_bind, wp_gets. rewrite Hs. apply wp_ret. eapply wp_lift; [done|].
  unfold call_handler. apply wp_bind, wp_gets, wp_bind. eapply wp_lift.
  { unfold from_list. destruct (Z.ltb_spec modid 0); [lia|]. by rewrite Hh. }
  unfold memory_read_cb. apply wp_bind. eapply wp_lift; [apply get_ok; rewrite !lenz_cons; lia|].
  change ((lenz l + 2 :: dst :: t :: l) !z 0) with (lenz l + 2). cbv zeta.
  replace (lenz l + 2 - 2) with (lenz l) by lia. rewrite (u64_small (lenz l)) by lia.
  apply wp_bind, wp_gets. change (id c) with c. apply wp_bind. eapply wp_lift.
  { apply load_Ret. split_and!; [lia|lia|rewrite !lenz_cons; lia|done]. }
  change (drop (Z.to_nat 3) (lenz l + 2 :: dst :: t :: l)) with l.
  rewrite take_ge by (unfold lenz; lia).
  apply wp_bind. rewrite Hdata. replace (o_mem_count c * 2) with (lenz pre) by lia.
  eapply wp_lift; [by apply memory_read_words_spec|]. apply wp_modify, HQ.
  unfold receiving. cbn. rewrite lenz_app, lenz_le_bytes_of, Hns, Hsize, <- app_assoc.
  split_and!; try done; try lia; [by destruct Hset|by eexists].
Qed.

(** The reader waits until all data has arrived. *)
Lemma wait_data_spec c size pre rest ps (Q : unit -> osd_context -> Prop) fuel :
  receiving c size pre rest ps -> Forall (data_packet a) ps -> (length ps <= fuel)%nat ->
  lenz pre + 2 * lenz (flits ps) = size -> size <= lenz (pre ++ rest) -> size = 2 * (size / 2) ->
  (forall c', receiving c' size (pre ++ le_bytes_of (flits ps))
                 (drop (Z.to_nat (2 * lenz (flits ps))) rest) [] -> Q tt c') ->
  wp (wait_loop fuel o_mem_signal) no_fault Q c.
Proof.
  intros Hr Hps. revert c pre rest fuel Hr. induction Hps as [|p ps Hp _ IH]; intros c pre rest fuel Hr Hf Hsz Hle Hev HQ.
  - change (lenz (flits [])) with 0 in Hsz. pose proof Hr as (_ & _ & Hcount & _ & Hsig & _).
    assert (Hs : o_mem_signal c = true) by (rewrite Hsig; lia).
    destruct fuel; simpl; apply wp_bind, wp_gets; change (id c) with c; rewrite Hs; apply wp_ret, HQ;
      change (le_bytes_of (flits [])) with (@nil Z); change (drop (Z.to_nat (2 * lenz (flits []))) rest) with rest;
      by rewrite app_nil_r.
  - destruct Hp as (dst & t & l & -> & Ht & Ha & Hl & Hu).
    assert (Hfl : flits ((lenz l + 2 :: dst :: t :: l) :: ps) = l ++ flits ps) by done.
    rewrite Hfl, lenz_app in *. pose proof (lenz_nonneg (flits ps)).
    pose proof Hr as (Hin & _ & Hcount & _ & Hsig & _).
    destruct fuel as [|fuel]; [simpl in Hf; lia|]. simpl. apply wp_bind, wp_gets. change (id c) with c.
    assert (Hs : o_mem_signal c = false) by (rewrite Hsig; lia). rewrite Hs, Hin.
    apply wp_bind, wp_modify, wp_bind.
    eapply (handle_data_spec _ size pre rest); try done; [|lia|].
    { unfold receiving in *. cbn. destruct Hr as (? & ? & ? & ? & ? & ? & [] & ?). split_and!; try done; by destruct_and!. }
    intros c' Hr'. eapply IH; [done|simpl in Hf; lia| | |done|].
    + rewrite lenz_app, lenz_le_bytes_of. lia.
    + rewrite !lenz_app, lenz_le_bytes_of, lenz_drop by lia. lia.
    + intros c'' Hr''. apply HQ. unfold le_bytes_of in *. rewrite bind_app, app_assoc.
      rewrite drop_drop in Hr''.
      by replace (Z.to_nat (2 * (lenz l + lenz (flits ps)))) with
        (Z.to_nat (2 * lenz l) + Z.to_nat (2 * lenz (flits ps)))%nat by lia.
Qed.

(** ** A read request and its answer *)

Lemma memory_read_bulk_spec c addr data n (Q : list Z -> osd_context -> Prop) :
  reader c -> 0 <= addr -> 0 < n < 2 ^ 14 -> addr + n * bs <= 2 ^ aw -> addr mod bs = 0 ->
  n * bs <= lenz data ->
  (forall c', reader c' -> Q ((m <$> seqZ addr (n * bs)) ++ drop (Z.to_nat (n * bs)) data) c') ->
  wp (memory_read_bulk respond fresh modid addr data (n * bs)) no_fault Q c.
Proof.
  intros (Hset & Hmode & Hin & Hmod & s & Hs & Ha2m) Haddr Hn Hend Hal Hl HQ.
  destruct (Htarget addr n Haddr Hn Hend Hal) as [Hrs Hbytes].
  set (rs := respond (read_request a aw addr n)) in *.
  pose proof Hset as [Hfresh (mem & Hmam & Hw & Haw') Haw Hbs Hps]. destruct (block_half bs Hbs) as [He Hh].
  assert (Hwords : 1 <= (aw + 15) / 16) by zdm.
  assert (Hlen : 2 * lenz (flits rs) = n * bs).
  { rewrite <- lenz_bytes_of, Hbytes. unfold lenz. rewrite length_fmap, length_seqZ. nia. }
  assert (Hhalf : n * bs / 2 = lenz (flits rs)) by (rewrite <- Hlen, Z.mul_comm; by apply Z.div_mul).
  unfold memory_read_bulk.
  apply wp_bind. eapply wp_modid2addr; [done|].
  apply wp_bind. eapply wp_max_pkt_len; [done|].
  apply wp_bind. eapply wp_descriptor; [done|]. rewrite (data_width_bytes bs mem Hw), Haw'.
  apply wp_bind. eapply wp_lift.
  { unfold udiv. destruct (Z.eqb_spec bs 0); [lia|]. by rewrite Z.div_mul by lia. }
  destruct (put_header_spec (fresh (psize + 1)) (u16 (0x4000 ||| n)) addr aw) as (x & y & z & rest & Hp & Hrest);
    [done|rewrite Hfresh by lia; unfold hlen; rewrite shiftr_div by lia; change (2 ^ 4) with 16; lia|].
  apply wp_bind. eapply wp_lift; [done|]. apply wp_bind. unfold osd_module_claim.
  apply wp_bind, wp_gets. rewrite Hmode. apply wp_ret. apply wp_bind. unfold osd_module_register_handler.
  apply wp_bind, wp_gets, wp_bind.
  destruct (lookup_lt_is_Some_2 (o_handlers c) (Z.to_nat modid)) as [h Hh0]; [unfold lenz in Hmod; lia|].
  eapply wp_lift.
  { unfold from_list. destruct (Z.ltb_spec modid 0); [lia|]. by rewrite Hh0. }
  change (OSD_EVENT_PACKET =? OSD_EVENT_PACKET) with true. cbv match.
  apply wp_bind, wp_modify, wp_ret, wp_bind. eapply wp_lift; [apply put_static_spec|].
  set (hdr := u16 (0x4000 ||| n) :: addr_words aw addr).
  assert (Hhdr : lenz hdr = 1 + (aw + 15) / 16).
  { unfold hdr. by rewrite lenz_cons, lenz_addr_words. }
  replace (u16 (hlen aw + 2)) with (lenz hdr + 2).
  2:{ unfold hlen. rewrite shiftr_div by lia. change (2 ^ 4) with 16. rewrite Hhdr. by rewrite u16_small by lia. }
  apply wp_bind, wp_modify, wp_bind. pose proof (lenz_nonneg rest).
  apply wp_send; [rewrite !lenz_cons, lenz_app, lenz_addr_words by done; lia|].
  replace (take (Z.to_nat (lenz hdr + 2)) (a :: 2 ^ 14 :: u16 (0x4000 ||| n) :: addr_words aw addr ++ rest))
    with (a :: 2 ^ 14 :: hdr).
  2:{ replace (Z.to_nat (lenz hdr + 2)) with (S (S (length hdr))) by (unfold lenz; lia). cbn [take].
      change (u16 (0x4000 ||| n) :: addr_words aw addr ++ rest) with (hdr ++ rest). by rewrite take_app_length. }
  unfold cond_wait. apply wp_bind, wp_bind, wp_gets.
  eapply (wait_data_spec _ (n * bs) [] data rs); try done.
  - unfold receiving, send_all, set_sent. cbn. change (read_request a aw addr n) with (lenz hdr + 2 :: a :: 2 ^ 14 :: hdr) in rs.
    rewrite Hin, app_nil_r. split_and!; try done; try lia.
    + destruct Hset. by constructor.
    + apply list_lookup_insert_eq. unfold lenz in Hmod. lia.
    + unfold lenz in *. rewrite length_insert. lia.
    + by eexists.
  - unfold send_all, set_sent. cbn. rewrite Hin. simpl. by rewrite app_nil_r.
  - rewrite Hhalf. lia.
  - intros c' (Hin' & _ & _ & Hdata & _ & Hmode' & Hset' & _ & Hmod' & s' & Hs' & Ha').
    apply wp_bind, wp_gets. rewrite Hdata. eapply wp_lift.
    { rewrite Hhalf. unfold lenz at 1. rewrite Nat2Z.id. simpl app.
      apply (swap_loop_spec (flits rs) 0 []). done. }
    simpl app. rewrite Hbytes, Hlen. apply HQ. split_and!; try done; try lia. by eexists.
Qed.

(** ** The whole read *)

Section buffer.
Context (addr size prolog bulk epilog : Z).
Context (Haddr : 0 <= addr) (Hend : addr + size <= 2 ^ aw) (Hlt : size < 2 ^ 63).
Context (Hparts : parts addr size bs prolog bulk epilog).
Context (Hbs : block_size bs) (Haw : 1 <= aw <= 64).

(** The first [k] bytes of the buffer have been read. *)
Definition filled (d : list Z) (k : Z) : Prop :=
  lenz d = size /\ forall i, 0 <= i < k -> d !z i = m (addr + i).

Lemma store_filled d k n w :
  filled d k -> 0 <= k -> 0 <= n <= lenz w -> k + lenz w <= size ->
  (forall i, 0 <= i < n -> w !z i = m (addr + k + i)) ->
  exists d', store d k w = Ret d' /\ filled d' (k + n).
Proof.
  intros [Hl Hd] Hk Hn Hfit Hw.
  destruct (store_spec d k w) as (d' & Hst & Hl' & Hd'); [lia|lia|].
  exists d'. split; [done|]. split; [lia|]. intros i Hi. rewrite Hd' by lia.
  destruct (Z.leb_spec k i), (Z.ltb_spec i (k + lenz w)); cbn [andb]; try lia.
  - rewrite Hw by lia. f_equal. lia.
  - apply Hd. lia.
Qed.

(** One block, of which [n] bytes from [off] on go to place [k]. *)
Lemma read_block_spec c base off k n d (Q : list Z -> osd_context -> Prop) :
  reader c -> filled d k -> 0 <= k -> 0 <= base -> base mod bs = 0 -> base + bs <= 2 ^ aw ->
  0 <= off -> 0 <= n -> off + n <= bs -> base + off = addr + k -> k + n <= size ->
  (forall d' c', reader c' -> filled d' (k + n) -> Q d' c') ->
  wp (tmp ← memory_read_bulk respond fresh modid base (fresh bs) bs;
      w ← lift (load tmp off n);
      lift (store d k w)) no_fault Q c.
Proof.
  intros Hr Hd Hk Hbase Hal Hfits Hoff Hn Hle Heq Hsz HQ. destruct (block_half bs Hbs).
  pose proof Hr as ([Hfresh _ _ _ _] & _).
  apply wp_bind. replace (memory_read_bulk respond fresh modid base (fresh bs) bs)
    with (memory_read_bulk respond fresh modid base (fresh bs) (1 * bs)) by (f_equal; lia).
  apply memory_read_bulk_spec; try done; try lia; [rewrite Hfresh by lia; lia|].
  intros c' Hr'. rewrite Z.mul_1_l. rewrite drop_ge by (pose proof (Hfresh bs); unfold lenz in *; lia).
  rewrite app_nil_r. destruct (load_spec (m <$> seqZ base bs) off n) as (w & Hw & Hlw & Hw'); [lia|lia|rewrite lenz_seqZ; lia|].
  apply wp_bind. eapply wp_lift; [done|].
  destruct (store_filled d k n w) as (d' & Hst & Hd'); [done|lia|lia|lia| |].
  { intros i Hi. rewrite Hw', nthz_seqZ by lia. f_equal. lia. }
  eapply wp_lift; [done|]. by apply HQ.
Qed.

Lemma read_bursts_spec f k c d (Q : list Z -> osd_context -> Prop) :
  reader c -> filled d (prolog + Z.min (k * BULK_MAX) bulk) ->
  0 <= k -> size <= (k + Z.of_nat f) * BULK_MAX -> 0 < bulk -> bursts_fit size bulk ->
  (forall d' c', reader c' -> filled d' (prolog + bulk) -> Q d' c') ->
  wp (read_bursts respond fresh f (k * BULK_MAX) size bulk prolog modid addr d) no_fault Q c.
Proof.
  intros Hr Hd Hk Hf Hb Hfit HQ. revert k c d Hr Hd Hk Hf.
  destruct (BULK_MAX_beats bs Hbs) as [HMb HMp]. assert (HM : 0 < BULK_MAX < 2 ^ 62) by done.
  pose proof (pow_aw aw Haw) as Hpow. destruct (block_half bs Hbs). pose proof Hparts as [HP1 HP2 HP3 HP4 HP5 HP6 HP7].
  assert (Hstart : (addr + prolog) mod bs = 0) by (destruct HP6 as [[]|]; [lia|done]).
  induction f as [|f IH]; intros k c d Hr Hd Hk Hf.
  { apply wp_ret, HQ; [done|]. by rewrite Z.min_r in Hd by lia. }
  assert (Hk0 : 0 <= k * BULK_MAX) by (apply Z.mul_nonneg_nonneg; lia).
  cbn [read_bursts]. destruct (Z.ltb_spec (k * BULK_MAX) size) as [Hi|Hi].
  2:{ apply wp_ret, HQ; [done|]. by rewrite Z.min_r in Hd by lia. }
  assert (Hthis : k * BULK_MAX < bulk).
  { apply (bursts_fit_bound size bulk k); [lia|lia|done|lia|done]. }
  assert (Hnext : (k + 1) * BULK_MAX <= size -> (k + 1) * BULK_MAX <= bulk).
  { intros Hle. by apply (bursts_fit_bound size bulk (k + 1)); [lia|lia|done|]. }
  rewrite Z.min_l in Hd by lia. cbv zeta. rewrite (u64_small (k * BULK_MAX + BULK_MAX)) by lia.
  assert (Hn : exists n, (if size <? k * BULK_MAX + BULK_MAX then u64 (bulk - k * BULK_MAX) else BULK_MAX)
                = n * bs /\ 0 < n /\ n * bs <= BULK_MAX /\ k * BULK_MAX + n * bs = Z.min ((k + 1) * BULK_MAX) bulk).
  { destruct (Z.ltb_spec size (k * BULK_MAX + BULK_MAX)).
    - exists (bulk / bs - k * (BULK_MAX / bs)). rewrite u64_small by lia.
      assert (HN : (bulk / bs - k * (BULK_MAX / bs)) * bs = bulk - k * BULK_MAX).
      { rewrite Z.mul_sub_distr_r, <- Z.mul_assoc, <- HMb, <- HP5. done. }
      rewrite HN. split_and!; [done| |lia|lia]. apply (Z.mul_pos_cancel_r _ bs); lia.
    - exists (BULK_MAX / bs). rewrite <- HMb. split_and!; lia. }
  destruct Hn as (n & -> & Hn0 & Hn1 & Hn2). pose proof (Z.mul_pos_pos n bs ltac:(lia) ltac:(lia)).
  pose proof Hd as [Hl _]. apply wp_bind. eapply wp_lift; [apply at_offset_spec; lia|].
  rewrite u64_small by lia. apply wp_bind.
  assert (Hn14 : n < 2 ^ 14).
  { assert (n * 2 <= n * bs) by (apply Z.mul_le_mono_nonneg_l; lia). unfold BULK_MAX in Hn1. lia. }
  apply memory_read_bulk_spec; [done|lia|lia|lia| | |].
  { replace (addr + prolog + k * BULK_MAX) with (addr + prolog + k * (BULK_MAX / bs) * bs) by (rewrite <- Z.mul_assoc, <- HMb; lia).
    rewrite Z.mod_add by lia. done. }
  { rewrite lenz_drop by lia. lia. }
  intros c' Hr'. apply wp_bind.
  destruct (store_filled d (prolog + k * BULK_MAX) (n * bs)
    ((m <$> seqZ (addr + prolog + k * BULK_MAX) (n * bs)) ++
      drop (Z.to_nat (n * bs)) (drop (Z.to_nat (prolog + k * BULK_MAX)) d))) as (d' & Hst & Hd');
    [done|lia| | | |].
  { rewrite lenz_app, lenz_seqZ by lia. pose proof (lenz_nonneg (drop (Z.to_nat (n * bs)) (drop (Z.to_nat (prolog + k * BULK_MAX)) d))). lia. }
  { rewrite lenz_app, lenz_seqZ, !lenz_drop by lia. lia. }
  { intros i Hi'. rewrite nthz_app, lenz_seqZ by lia. destruct (Z.ltb_spec i (n * bs)); [|lia].
    rewrite nthz_seqZ by lia. f_equal. lia. }
  eapply wp_lift; [done|]. replace (k * BULK_MAX + BULK_MAX) with ((k + 1) * BULK_MAX) by lia.
  apply IH; [done| |lia|lia]. rewrite <- Hn2. by rewrite Z.add_assoc.
Qed.

Lemma filled_all d : 0 <= size -> filled d size -> d = m <$> seqZ addr size.
Proof.
  intros Hs [Hl Hd]. apply listz_eq; [rewrite lenz_seqZ; lia|].
  intros i Hi. rewrite Hd, nthz_seqZ by lia. done.
Qed.

Lemma block_end x : 3 <= aw -> x mod bs = 0 -> x < 2 ^ aw -> x + bs <= 2 ^ aw.
Proof.
  intros Haw3 Hx Hlt'. assert (H8 : 2 ^ aw = 2 ^ (aw - 3) * 8).
  { change 8 with (2 ^ 3). rewrite <- Z.pow_add_r by lia. f_equal. lia. }
  set (q := 2 ^ (aw - 3)) in *. rewrite H8 in *. destruct Hbs as [->|[->| ->]]; zdm.
Qed.

(** The three parts of the read. *)
Lemma read_prolog_spec c d (Q : list Z -> osd_context -> Prop) :
  reader c -> lenz d = size -> prolog = 0 \/ (addr + prolog) mod bs = 0 ->
  (forall d' c', reader c' -> filled d' prolog -> Q d' c') ->
  wp (if negb (prolog =? 0) then
        tmp ← memory_read_bulk respond fresh modid (u64 (addr - bs + prolog)) (fresh bs) bs;
        w ← lift (load tmp (u64 (bs - prolog)) prolog);
        lift (store d 0 w)
      else mret d) no_fault Q c.
Proof.
  intros Hr Hl Hpro HQ. destruct (block_half bs Hbs) as [He Hh].
  pose proof Hparts as [HP1 HP2 HP3 HP4 HP5 HP6 HP7]. pose proof (pow_aw aw Haw) as Hpow.
  destruct (Z.eqb_spec prolog 0) as [Hp0|Hp0]; cbn [negb].
  - apply wp_ret, HQ; [done|]. rewrite Hp0. split; [done|lia].
  - destruct Hpro as [|Hst]; [lia|].
    assert (Hge : bs <= addr + prolog).
    { apply Z.mod_divide in Hst as [q Hq]; [|lia].
      assert (0 < q) by (apply (Z.mul_pos_cancel_r q bs); lia).
      assert (1 * bs <= q * bs) by (apply Z.mul_le_mono_nonneg_r; lia). lia. }
    assert (Hal : (addr - bs + prolog) mod bs = 0).
    { replace (addr - bs + prolog) with (addr + prolog + -1 * bs) by lia. by rewrite Z.mod_add by lia. }
    rewrite (u64_small (addr - bs + prolog)), (u64_small (bs - prolog)) by lia.
    apply read_block_spec with (k := 0); [done|split; [done|lia]|lia|lia|done|lia|lia|lia|lia|lia|lia|].
    intros d' c' Hr' Hd'. by apply HQ.
Qed.

Lemma read_bulk_part_spec c d (Q : list Z -> osd_context -> Prop) :
  reader c -> filled d prolog -> bursts_fit size bulk ->
  (forall d' c', reader c' -> filled d' (prolog + bulk) -> Q d' c') ->
  wp (if negb (bulk =? 0)
      then read_bursts respond fresh (S (Z.to_nat (size / BULK_MAX))) 0 size bulk prolog modid addr d
      else mret d) no_fault Q c.
Proof.
  intros Hr Hd Hfit HQ. destruct (block_half bs Hbs) as [He Hh].
  pose proof Hparts as [HP1 HP2 HP3 HP4 HP5 HP6 HP7].
  destruct (Z.eqb_spec bulk 0) as [Hb0|Hb0]; cbn [negb].
  - apply wp_ret, HQ; [done|]. by replace (prolog + bulk) with prolog by lia.
  - apply (read_bursts_spec _ 0); [done| |lia| |lia|done|exact HQ].
    + rewrite Z.mul_0_l, Z.min_l, Z.add_0_r by lia. done.
    + pose proof (Z.div_pos size BULK_MAX ltac:(lia) ltac:(done)).
      pose proof (Z.mul_succ_div_gt size BULK_MAX ltac:(done)).
      rewrite Nat2Z.inj_succ, Z2Nat.id by done. lia.
Qed.

Lemma read_epilog_spec c d (Q : list Z -> osd_context -> Prop) :
  reader c -> 3 <= aw -> filled d (prolog + bulk) ->
  (forall d' c', reader c' -> filled d' size -> Q d' c') ->
  wp (if negb (epilog =? 0) then
        tmp ← memory_read_bulk respond fresh modid (u64 (addr + prolog + bulk)) (fresh bs) bs;
        w ← lift (load tmp 0 epilog);
        lift (store d (prolog + bulk) w)
      else mret d) no_fault Q c.
Proof.
  intros Hr Haw3 Hd HQ. destruct (block_half bs Hbs) as [He Hh].
  pose proof Hparts as [HP1 HP2 HP3 HP4 HP5 HP6 HP7]. pose proof (pow_aw aw Haw) as Hpow.
  destruct (Z.eqb_spec epilog 0) as [He0|He0]; cbn [negb].
  - apply wp_ret, HQ; [done|]. by replace size with (prolog + bulk) by lia.
  - rewrite u64_small by lia.
    assert (Hst : (addr + prolog + bulk) mod bs = 0).
    { destruct HP6 as [|Hst]; [lia|]. rewrite HP5, Z.mod_add by lia. done. }
    apply read_block_spec; [done|done|lia|lia|done|apply block_end; [done|done|lia]|lia|lia|lia|lia|lia|].
    intros d' c' Hr' Hd'. apply HQ; [done|]. by replace size with (prolog + bulk + epilog) by lia.
Qed.

Lemma osd_memory_read_spec c data (Q : Z * list Z -> osd_context -> Prop) :
  reader c -> 3 <= aw -> lenz data = size -> bursts_fit size bulk ->
  prolog = 0 \/ (addr + prolog) mod bs = 0 ->
  calculate_parts addr size bs = Ret (prolog, bulk, epilog) ->
  (forall c', reader c' -> Q (0, m <$> seqZ addr size) c') ->
  wp (osd_memory_read respond fresh modid addr data size) no_fault Q c.
Proof.
  intros Hr Haw3 Hl Hfit Hpro Hcp HQ. pose proof Hr as ([_ (mem & Hmam & Hw & _) _ _ _] & _).
  pose proof (lenz_nonneg data). unfold osd_memory_read.
  apply wp_bind. eapply wp_descriptor; [done|]. rewrite (data_width_bytes bs mem Hw). cbv zeta.
  apply wp_bind. eapply wp_lift; [done|].
  apply wp_bind, read_prolog_spec; [done|done|done|]. intros d1 c1 Hr1 Hd1.
  apply wp_bind, read_bulk_part_spec; [done|done|done|]. intros d2 c2 Hr2 Hd2.
  apply wp_bind, read_epilog_spec; [done|done|done|]. intros d3 c3 Hr3 Hd3.
  apply wp_ret. rewrite (filled_all d3); [by apply HQ|lia|done].
Qed.
End buffer.
End reading.


(** *** A module to read from *)

Definition demo_byte (x : Z) : Z := (7 * x + 3) mod 256.

Definition demo_beat (x : Z) : list Z :=
  [6; 0; 2 ^ 14 + 2; flit (demo_byte x) (demo_byte (x + 1)); flit (demo_byte (x + 2)) (demo_byte (x + 3));
   flit (demo_byte (x + 4)) (demo_byte (x + 5)); flit (demo_byte (x + 6)) (demo_byte (x + 7))].

(** Every beat of a read goes out as a packet. *)
Definition demo_reads (p : list Z) : list (list Z) :=
  (fun j => demo_beat (mam_addr (drop 4 p) + 8 * Z.of_nat j)) <$> seq 0 (Z.to_nat (p !z 3 mod 2 ^ 14)).

Lemma demo_byte_range x : is_byte (demo_byte x).
Proof. apply Z.mod_pos_bound. lia. Qed.

Lemma flit_halves x y :
  flit (demo_byte x) (demo_byte y) / 256 = demo_byte x /\ flit (demo_byte x) (demo_byte y) mod 256 = demo_byte y /\
  is_uint 16 (flit (demo_byte x) (demo_byte y)).
Proof.
  pose proof (demo_byte_range x) as Hx. pose proof (demo_byte_range y) as Hy.
  rewrite flit_bytes by done. unfold is_byte, is_uint in *. split_and!; zdm.
Qed.

Lemma demo_beat_bytes x :
  bytes_of (payload (demo_beat x)) = demo_byte <$> seqZ x 8.
Proof.
  assert (Hs : seqZ x 8 = [x; x + 1; x + 2; x + 3; x + 4; x + 5; x + 6; x + 7]).
  { unfold seqZ. change (Z.to_nat 8) with 8%nat. cbn. repeat (apply (f_equal2 cons); [lia|]). done. }
  rewrite Hs. unfold bytes_of, payload, demo_beat. cbn [mbind list_bind app drop fmap list_fmap].
  by rewrite !(proj1 (flit_halves _ _)), !(proj1 (proj2 (flit_halves _ _))).
Qed.

Lemma demo_beats_bytes x n :
  bytes_of (flits ((fun j => demo_beat (x + 8 * Z.of_nat j)) <$> seq 0 n)) = demo_byte <$> seqZ x (8 * Z.of_nat n).
Proof.
  induction n as [|n IH]; [done|].
  rewrite seq_S, fmap_app, flits_app, bytes_of_app, IH. simpl fmap. rewrite flits_one, demo_beat_bytes.
  replace (8 * Z.of_nat (S n)) with (8 * Z.of_nat n + 8) by lia. by rewrite seqZ_app, fmap_app by lia.
Qed.

Lemma demo_read_target : read_target demo_reads demo_byte 2 32 8.
Proof.
  intros addr n Haddr Hn Hend Hal.
  assert (Hd : demo_reads (read_request 2 32 addr n) =
    (fun j => demo_beat (addr + 8 * Z.of_nat j)) <$> seq 0 (Z.to_nat n)).
  { unfold demo_reads, read_request. cbv zeta.
    match goal with |- context [drop 4 (_ :: _ :: _ :: _ :: ?l)] =>
      change (drop 4 _) with l end.
    rewrite mam_addr_words by lia.
    change ((_ :: _ :: _ :: u16 (0x4000 ||| n) :: addr_words 32 addr) !z 3) with (u16 (0x4000 ||| n)).
    assert (Hc : u16 (0x4000 ||| n) = 2 ^ 14 + n).
    { change 0x4000 with (1 <<< 14). rewrite (lor_disjoint_add 1 n 14) by lia. apply u16_small. lia. }
    rewrite Hc. by replace ((2 ^ 14 + n) mod 2 ^ 14) with n by zdm. }
  rewrite Hd, demo_beats_bytes, Z2Nat.id by lia. split; [|do 2 f_equal; lia].
  apply Forall_fmap, Forall_true. intros j. exists 0, (2 ^ 14 + 2), (drop 3 (demo_beat (addr + 8 * Z.of_nat j))).
  split; [done|]. split_and!; [done..|].
  repeat constructor; apply flit_halves.
Qed.

Lemma demo_reader : reader zeros 2 2 12 32 8 demo_mam_context.
Proof.
  split; [apply demo_mam_setting|]. split_and!; [done..|]. eexists. done.
Qed.

