(* ===== verification/Str.v ===== *)
(** * Strings of the boot loader: fpga/bootloader/util

    memcpy, memset, strlen, strcmp, strcpy and atol (string.c) and vsnprintf
    (snprintf.c).  The memory is a list of bytes and a pointer an index into it;
    a C string there ends with the first 0.  A format and its arguments are
    given as the characters before that 0 and a list of values; [long] has 64
    bits. *)

From S2P Require Import Prelude.

(** ** Memory: string.c *)

(** The eight bytes of a word, lowest first. *)
Fixpoint word_bytes (n : nat) (w : Z) : list Z :=
  match n with O => [] | S n => w mod 256 :: word_bytes n (w / 256) end.

Fixpoint bytes_word (l : list Z) : Z :=
  match l with [] => 0 | b :: l => b + 256 * bytes_word l end.

Fixpoint memcpy_words (n : nat) (mem : list Z) (d s : Z) : outcome (list Z) :=
  match n with
  | O => Ret mem
  | S n =>
      w ← load mem s 8;
      mem ← store mem d (word_bytes 8 (bytes_word w));
      memcpy_words n mem (d + 8) (s + 8)
  end.

Fixpoint memcpy_bytes (n : nat) (mem : list Z) (d s : Z) : outcome (list Z) :=
  match n with
  | O => Ret mem
  | S n =>
      b ← get mem s;
      mem ← put mem d b;
      memcpy_bytes n mem (d + 1) (s + 1)
  end.

Definition memcpy (mem : list Z) (dest src len : Z) : outcome (list Z) :=
  if ((dest ||| src) ||| len) &&& (8 - 1) =? 0
  then memcpy_words (Z.to_nat (len / 8)) mem dest src
  else memcpy_bytes (Z.to_nat len) mem dest src.

Fixpoint memset_words (n : nat) (mem : list Z) (d word : Z) : outcome (list Z) :=
  match n with
  | O => Ret mem
  | S n => mem ← store mem d (word_bytes 8 word); memset_words n mem (d + 8) word
  end.

Fixpoint memset_bytes (n : nat) (mem : list Z) (d byte : Z) : outcome (list Z) :=
  match n with
  | O => Ret mem
  | S n => mem ← put mem d (u8 byte); memset_bytes n mem (d + 1) byte
  end.

Definition memset (mem : list Z) (dest byte len : Z) : outcome (list Z) :=
  if (dest ||| len) &&& (8 - 1) =? 0 then
    let word := byte &&& 0xff in
    let word := word ||| (word <<< 8) in
    let word := word ||| (word <<< 16) in
    let word := u64 (word ||| (word <<< 16 <<< 16)) in
    memset_words (Z.to_nat (len / 8)) mem dest word
  else memset_bytes (Z.to_nat len) mem dest byte.

(** The loops over strings run at most to the end of the memory. *)
Fixpoint strlen_loop (fuel : nat) (mem : list Z) (p n : Z) : outcome Z :=
  match fuel with
  | O => Fault OutOfBounds
  | S f => c ← get mem p; if c =? 0 then Ret n else strlen_loop f mem (p + 1) (n + 1)
  end.

Definition strlen (mem : list Z) (s : Z) : outcome Z := strlen_loop (S (length mem)) mem s 0.

Fixpoint strcmp_loop (fuel : nat) (mem : list Z) (s1 s2 : Z) : outcome Z :=
  match fuel with
  | O => Fault OutOfBounds
  | S f =>
      c1 ← get mem s1;
      c2 ← get mem s2;
      if negb (c1 =? 0) && (c1 =? c2) then strcmp_loop f mem (s1 + 1) (s2 + 1) else Ret (c1 - c2)
  end.

Definition strcmp (mem : list Z) (s1 s2 : Z) : outcome Z := strcmp_loop (S (length mem)) mem s1 s2.

Fixpoint strcpy_loop (fuel : nat) (mem : list Z) (d s : Z) : outcome (list Z) :=
  match fuel with
  | O => Fault OutOfBounds
  | S f =>
      c ← get mem s;
      mem ← put mem d c;
      if c =? 0 then Ret mem else strcpy_loop f mem (d + 1) (s + 1)
  end.

Definition strcpy (mem : list Z) (dest src : Z) : outcome (list Z) :=
  strcpy_loop (S (length mem)) mem dest src.

(** Signed arithmetic on [long] that overflows is undefined. *)
Definition long (x : Z) : outcome Z :=
  if (- 2 ^ 63 <=? x) && (x <? 2 ^ 63) then Ret x else Fault UndefArith.

(** [atol] reads the characters of its string. *)
Fixpoint atol_digits (str : list Z) (res : Z) : outcome Z :=
  match str with
  | [] => Ret res
  | c :: str => r ← long (res * 10); r ← long (r + (c - 48)); atol_digits str r
  end.

Fixpoint skip_spaces (str : list Z) : list Z :=
  match str with c :: str' => if c =? 32 then skip_spaces str' else str | [] => [] end.

Definition atol (str : list Z) : outcome Z :=
  let str := skip_spaces str in
  let '(sign, str) :=
    match str with
    | c :: str' => if (c =? 45) || (c =? 43) then (c =? 45, str') else (false, str)
    | [] => (false, str)
    end in
  res ← atol_digits str 0;
  if sign : bool then long (- res) else Ret res.

(** ** Formatting: snprintf.c *)

(** A variable argument: an [int] or [long], or a string. *)
Inductive arg : Type :=
  | AInt (x : Z)
  | AStr (s : list Z).

Definition va_int (args : list arg) : outcome (Z * list arg) :=
  match args with AInt x :: args => Ret (x, args) | _ => Fault OutOfBounds end.
Definition va_str (args : list arg) : outcome (list Z * list arg) :=
  match args with AStr s :: args => Ret (s, args) | _ => Fault OutOfBounds end.

(** [longarg ? va_arg(vl, long) : va_arg(vl, int)] *)
Definition va_num (longarg : bool) (args : list arg) : outcome (Z * list arg) :=
  '(x, args) ← va_int args; Ret (if longarg then x else s32 x, args).

(** The output: [pos], and the buffer. *)
Definition output : Type := Z * list Z.

(** [if (++pos < n) out[pos-1] = c;] *)
Definition emit (n c : Z) (o : output) : outcome output :=
  let '(pos, out) := o in
  let pos := pos + 1 in
  if pos <? n then out ← put out (pos - 1) c; Ret (pos, out) else Ret (pos, out).

(** The loop over the hexadecimal digits; [i] goes down to 0. *)
Fixpoint hex_loop (k : nat) (n num : Z) (o : output) : outcome output :=
  match k with
  | O => Ret o
  | S i =>
      let d := (num >>> (4 * Z.of_nat i)) &&& 0xf in
      o ← emit n (if d <? 10 then 48 + d else 97 + d - 10) o;
      hex_loop i n num o
  end.

(** [for (long nn = num; nn /= 10; digits++)]; a [long] has at most 19 digits. *)
Fixpoint count_digits (fuel : nat) (nn digits : Z) : Z :=
  match fuel with
  | O => digits
  | S f => let nn := nn / 10 in if nn =? 0 then digits else count_digits f nn (digits + 1)
  end.

(** The loop that writes the decimal digits from the last one on. *)
Fixpoint digit_loop (k : nat) (pos n num : Z) (out : list Z) : outcome (list Z) :=
  match k with
  | O => Ret out
  | S i =>
      out ← (if pos + Z.of_nat i + 1 <? n then put out (pos + Z.of_nat i) (48 + num mod 10) else Ret out);
      digit_loop i pos n (num / 10) out
  end.

Definition emit_dec (n num : Z) (o : output) : outcome output :=
  '(num, o) ← (if num <? 0 then num ← long (- num); o ← emit n 45 o; Ret (num, o) else Ret (num, o));
  let digits := count_digits 20 num 1 in
  let '(pos, out) := o in
  out ← digit_loop (Z.to_nat digits) pos n num out;
  Ret (pos + digits, out).

Fixpoint emit_str (n : Z) (s : list Z) (o : output) : outcome output :=
  match s with [] => Ret o | c :: s => o ← emit n c o; emit_str n s o end.

(** One character of the format; [format] and [longarg] are the flags of the
    loop. *)
Definition format_char (n c : Z) (format longarg : bool) (args : list arg) (o : output) :
    outcome (bool * bool * list arg * output) :=
  if format then
    if c =? 108 then Ret (true, true, args, o)                     (* l *)
    else if c =? 112 then                                          (* p *)
      o ← emit n 48 o;
      o ← emit n 120 o;
      '(num, args) ← va_num true args;
      o ← hex_loop 16 n num o;
      Ret (false, false, args, o)
    else if c =? 120 then                                          (* x *)
      '(num, args) ← va_num longarg args;
      o ← hex_loop (if longarg then 16 else 8) n num o;
      Ret (false, false, args, o)
    else if c =? 100 then                                          (* d *)
      '(num, args) ← va_num longarg args;
      o ← emit_dec n num o;
      Ret (false, false, args, o)
    else if c =? 115 then                                          (* s *)
      '(s, args) ← va_str args;
      o ← emit_str n s o;
      Ret (false, false, args, o)
    else if c =? 99 then                                           (* c *)
      let '(pos, out) := o in
      if pos + 1 <? n then
        '(x, args) ← va_int args;
        out ← put out pos (u8 x);
        Ret (false, false, args, (pos + 1, out))
      else Ret (false, false, args, (pos + 1, out))
    else Ret (true, longarg, args, o)
  else if c =? 37 then Ret (true, longarg, args, o)                (* % *)
  else o ← emit n c o; Ret (false, longarg, args, o).

Fixpoint format_loop (n : Z) (fmt : list Z) (format longarg : bool) (args : list arg) (o : output) :
    outcome output :=
  match fmt with
  | [] => Ret o
  | c :: fmt =>
      '(format, longarg, args, o) ← format_char n c format longarg args o;
      format_loop n fmt format longarg args o
  end.

(** The return value and the buffer; [n] is the size of the buffer. *)
Definition vsnprintf (out : list Z) (n : Z) (fmt : list Z) (args : list arg) : outcome (Z * list Z) :=
  '(pos, out) ← format_loop n fmt false false args (0, out);
  out ← (if pos <? n then put out pos 0
         else if negb (n =? 0) then put out (n - 1) 0 else Ret out);
  Ret (s32 pos, out).

Definition snprintf (out : list Z) (n : Z) (fmt : list Z) (args : list arg) : outcome (Z * list Z) :=
  vsnprintf out n fmt args.
