(* ===== verification/StrSpec.v ===== *)
(** * What the string functions of the boot loader do

    memcpy and memset are exact on every alignment; vsnprintf writes the prefix
    of its text that fits, terminates it and returns the length of the whole
    text; decimal output read back by atol gives the number. *)

From S2P Require Import Prelude.
From S2P Require Import Str.

(** ** Words *)

Lemma word_bytes_word l :
  Forall is_byte l -> word_bytes (length l) (bytes_word l) = l.
Proof.
  induction 1 as [|b l Hb _ IH]; [done|]. cbn [length bytes_word word_bytes].
  unfold is_byte in Hb. replace ((b + 256 * bytes_word l) mod 256) with b by zdm.
  replace ((b + 256 * bytes_word l) / 256) with (bytes_word l) by zdm. by rewrite IH.
Qed.

Lemma lenz_word_bytes n w : lenz (word_bytes n w) = Z.of_nat n.
Proof. revert w. induction n as [|n IH]; intros w; [done|]. cbn [word_bytes]. rewrite lenz_cons, IH. lia. Qed.

Lemma aligned_len a b len :
  0 <= len -> ((a ||| b) ||| len) &&& (8 - 1) = 0 -> len = 8 * (len / 8).
Proof.
  intros Hl H. rewrite Z.land_lor_distr_l, Z.lor_eq_0_iff in H. destruct H as [_ H].
  change (8 - 1) with (2 ^ 3 - 1) in H. rewrite land_pow2_mask in H by lia. change (2 ^ 3) with 8 in H. zdm.
Qed.

(** ** memcpy and memset *)

(** [mem'] is [mem] with the bytes from [d] on given by [f]. *)
Definition patched (mem mem' : list Z) (d n : Z) (f : Z -> Z) : Prop :=
  lenz mem' = lenz mem /\
  forall i, 0 <= i -> mem' !z i = if (d <=? i) && (i <? d + n) then f (i - d) else mem !z i.

Lemma patched_nil mem d f : patched mem mem d 0 f.
Proof. split; [done|]. intros i Hi. by destruct (Z.leb_spec d i), (Z.ltb_spec i (d + 0)); try lia. Qed.

Lemma patched_step mem mem1 mem2 d k n f :
  0 <= k -> 0 <= n -> patched mem mem1 d k f -> patched mem1 mem2 (d + k) n (fun j => f (k + j)) ->
  patched mem mem2 d (k + n) f.
Proof.
  intros Hk Hn [Hl1 H1] [Hl2 H2]. split; [congruence|]. intros i Hi. rewrite H2, H1 by done.
  destruct (Z.leb_spec (d + k) i), (Z.ltb_spec i (d + k + n)), (Z.leb_spec d i), (Z.ltb_spec i (d + k)),
    (Z.ltb_spec i (d + (k + n))); try lia; cbn [andb]; try done. f_equal. lia.
Qed.

Lemma patched_bytes mem mem' d n f :
  patched mem mem' d n f -> Forall is_byte mem -> (forall j, 0 <= j < n -> is_byte (f j)) -> Forall is_byte mem'.
Proof.
  intros [Hl H] Hb Hf. apply Forall_nthz_iff. intros i Hi. rewrite H by lia.
  destruct (_ && _) eqn:Hin; [apply Hf; lia|]. by apply Forall_nthz_iff; [|lia].
Qed.

Lemma store_patched mem d w :
  0 <= d -> d + lenz w <= lenz mem ->
  exists mem', store mem d w = Ret mem' /\ patched mem mem' d (lenz w) (nthz w).
Proof.
  intros Hd Hw. destruct (store_spec mem d w Hd Hw) as (mem' & Hs & Hl & H). by exists mem'.
Qed.

Section copying.
Context (mem : list Z) (d s : Z).
Context (Hmem : Forall is_byte mem) (Hd : 0 <= d) (Hs : 0 <= s).

(** What has been copied so far leaves the rest of the source alone. *)
Lemma source_intact mem' k n len i :
  patched mem mem' d k (fun j => mem !z (s + j)) -> d + len <= s \/ s + len <= d ->
  0 <= k -> k + n <= len -> s + k <= i < s + k + n -> mem' !z i = mem !z i.
Proof.
  intros [_ H] Hov Hk Hn Hi. rewrite H by lia.
  destruct (Z.leb_spec d i), (Z.ltb_spec i (d + k)); try done. lia.
Qed.

Lemma memcpy_bytes_spec n mem' k len :
  patched mem mem' d k (fun j => mem !z (s + j)) -> d + len <= s \/ s + len <= d ->
  0 <= k -> k + Z.of_nat n = len -> d + len <= lenz mem -> s + len <= lenz mem ->
  exists mem'', memcpy_bytes n mem' (d + k) (s + k) = Ret mem'' /\
    patched mem mem'' d len (fun j => mem !z (s + j)).
Proof.
  revert mem' k. induction n as [|n IH]; intros mem' k Hp Hov Hk Hn Hdl Hsl.
  { exists mem'. split; [done|]. by replace len with k by lia. }
  cbn [memcpy_bytes]. pose proof Hp as [Hl _].
  unfold get. destruct (Z.leb_spec 0 (s + k)), (Z.ltb_spec (s + k) (lenz mem')); try lia. cbn [andb]. rewrite bind_ret.
  rewrite (source_intact mem' k 1 len (s + k)) by (done || lia).
  destruct (store_patched mem' (d + k) [mem !z (s + k)]) as (m1 & Hst & Hm1);
    [lia|change (lenz [mem !z (s + k)]) with 1; lia|].
  unfold put. rewrite Hst, bind_ret. replace (d + k + 1) with (d + (k + 1)) by lia.
  replace (s + k + 1) with (s + (k + 1)) by lia. apply IH; try done; try lia.
  eapply patched_step; [lia|lia|exact Hp|]. destruct Hm1 as [Hl1 H1]. split; [done|].
  intros i Hi. rewrite H1 by done. change (lenz [mem !z (s + k)]) with 1.
  destruct (_ && _) eqn:Hin; [|done]. replace (i - (d + k)) with 0 by lia. change ([mem !z (s + k)] !z 0) with (mem !z (s + k)).
  f_equal. lia.
Qed.

Lemma memcpy_words_spec n mem' k len :
  patched mem mem' d k (fun j => mem !z (s + j)) -> d + len <= s \/ s + len <= d ->
  0 <= k -> k + 8 * Z.of_nat n = len -> d + len <= lenz mem -> s + len <= lenz mem ->
  exists mem'', memcpy_words n mem' (d + k) (s + k) = Ret mem'' /\
    patched mem mem'' d len (fun j => mem !z (s + j)).
Proof.
  revert mem' k. induction n as [|n IH]; intros mem' k Hp Hov Hk Hn Hdl Hsl.
  { exists mem'. split; [done|]. by replace len with k by lia. }
  cbn [memcpy_words]. pose proof Hp as [Hl _].
  destruct (load_spec mem' (s + k) 8) as (w & Hw & Hlw & Hwi); [lia|lia|lia|]. rewrite Hw, bind_ret.
  assert (Hwi' : forall i, 0 <= i < 8 -> w !z i = mem !z (s + (k + i))).
  { intros i Hi. rewrite Hwi by lia. rewrite (source_intact mem' k 8 len (s + k + i)) by (done || lia). f_equal. lia. }
  assert (Hwb : Forall is_byte w).
  { apply Forall_nthz_iff. intros i Hi. rewrite Hwi' by lia. apply Forall_nthz_iff; [done|lia]. }
  replace 8%nat with (length w) by (unfold lenz in Hlw; lia). rewrite word_bytes_word by done.
  destruct (store_patched mem' (d + k) w) as (m1 & Hst & Hm1); [lia|lia|].
  rewrite Hst, bind_ret. replace (d + k + 8) with (d + (k + 8)) by lia.
  replace (s + k + 8) with (s + (k + 8)) by lia. apply IH; try done; try lia.
  eapply patched_step; [lia|lia|exact Hp|]. destruct Hm1 as [Hl1 H1]. split; [done|].
  intros i Hi. rewrite H1, Hlw by done. destruct (_ && _) eqn:Hin; [|done].
  by rewrite Hwi' by lia.
Qed.
End copying.

Lemma memset_bytes_spec mem n d byte :
  0 <= d -> d + Z.of_nat n <= lenz mem ->
  exists mem', memset_bytes n mem d byte = Ret mem' /\ patched mem mem' d (Z.of_nat n) (fun _ => u8 byte).
Proof.
  revert mem d. induction n as [|n IH]; intros mem d Hd Hl.
  { exists mem. split; [done|]. apply patched_nil. }
  cbn [memset_bytes]. destruct (store_patched mem d [u8 byte]) as (m1 & Hst & Hm1);
    [lia|change (lenz [u8 byte]) with 1; lia|].
  unfold put. rewrite Hst, bind_ret. pose proof Hm1 as [Hl1 _].
  destruct (IH m1 (d + 1)) as (m2 & Hm2 & Hp2); [lia|lia|]. exists m2. split; [done|].
  replace (Z.of_nat (S n)) with (1 + Z.of_nat n) by lia. eapply patched_step; [lia|lia| |exact Hp2].
  destruct Hm1 as [_ H1]. split; [done|]. intros i Hi. rewrite H1 by done. change (lenz [u8 byte]) with 1.
  destruct (_ && _) eqn:Hin; [|done]. by replace (i - d) with 0 by lia.
Qed.

Lemma memset_words_spec mem n d w x :
  0 <= d -> d + 8 * Z.of_nat n <= lenz mem -> word_bytes 8 w = replicate 8 x ->
  exists mem', memset_words n mem d w = Ret mem' /\ patched mem mem' d (8 * Z.of_nat n) (fun _ => x).
Proof.
  intros Hd Hl Hw. revert mem d Hd Hl. induction n as [|n IH]; intros mem d Hd Hl.
  { exists mem. split; [done|]. apply patched_nil. }
  cbn [memset_words]. rewrite Hw.
  destruct (store_patched mem d (replicate 8 x)) as (m1 & Hst & Hm1); [lia|change (lenz (replicate 8 x)) with 8; lia|].
  rewrite Hst, bind_ret. pose proof Hm1 as [Hl1 _].
  destruct (IH m1 (d + 8)) as (m2 & Hm2 & Hp2); [lia|lia|]. exists m2. split; [done|].
  replace (8 * Z.of_nat (S n)) with (8 + 8 * Z.of_nat n) by lia. eapply patched_step; [lia|lia| |exact Hp2].
  destruct Hm1 as [_ H1]. split; [done|]. intros i Hi. rewrite H1 by done. change (lenz (replicate 8 x)) with 8.
  destruct (_ && _) eqn:Hin; [|done].
  assert (Hc : i - d = 0 \/ i - d = 1 \/ i - d = 2 \/ i - d = 3 \/ i - d = 4 \/ i - d = 5 \/ i - d = 6 \/ i - d = 7) by lia.
  by destruct Hc as [-> |[-> |[-> |[-> |[-> |[-> |[-> | ->]]]]]]].
Qed.

(** The word memset builds from a byte; checked for every byte. *)
Definition memset_word (byte : Z) : Z :=
  let word := byte &&& 0xff in
  let word := word ||| (word <<< 8) in
  let word := word ||| (word <<< 16) in
  u64 (word ||| (word <<< 16 <<< 16)).

Lemma memset_word_bytes byte : word_bytes 8 (memset_word byte) = replicate 8 (u8 byte).
Proof.
  assert (H : forallb (fun b => bool_decide (word_bytes 8 (memset_word b) = replicate 8 b)) (seqZ 0 256) = true)
    by by vm_compute.
  assert (Hb : memset_word byte = memset_word (u8 byte)).
  { unfold memset_word, u8. change 0xff with (2 ^ 8 - 1). by rewrite !land_pow2_mask, Z.mod_mod by lia. }
  rewrite Hb. rewrite forallb_forall in H. specialize (H (u8 byte)).
  assert (Hin : In (u8 byte) (seqZ 0 256)) by (apply list_elem_of_In, elem_of_seqZ; pose proof (u8_range byte); lia).
  by specialize (H Hin); apply bool_decide_eq_true in H.
Qed.

Lemma memcpy_spec mem dest src len :
  Forall is_byte mem -> 0 <= dest -> 0 <= src -> 0 <= len -> dest + len <= lenz mem ->
  src + len <= lenz mem -> dest + len <= src \/ src + len <= dest ->
  exists mem', memcpy mem dest src len = Ret mem' /\ patched mem mem' dest len (fun j => mem !z (src + j)).
Proof.
  intros Hmem Hd Hs Hn Hdl Hsl Hov. unfold memcpy.
  pose proof (patched_nil mem dest (fun j => mem !z (src + j))) as Hp.
  destruct (Z.eqb_spec (((dest ||| src) ||| len) &&& (8 - 1)) 0) as [Hal|_].
  - apply aligned_len in Hal; [|done].
    destruct (memcpy_words_spec mem dest src Hmem Hd Hs (Z.to_nat (len / 8)) mem 0 len Hp Hov)
      as (m' & Hm & Hp'); [lia|zdm|done|done|]. rewrite !Z.add_0_r in Hm. eauto.
  - destruct (memcpy_bytes_spec mem dest src Hd Hs (Z.to_nat len) mem 0 len Hp Hov)
      as (m' & Hm & Hp'); [lia|lia|done|done|]. rewrite !Z.add_0_r in Hm. eauto.
Qed.

Lemma memset_spec mem dest byte len :
  0 <= dest -> 0 <= len -> dest + len <= lenz mem ->
  exists mem', memset mem dest byte len = Ret mem' /\ patched mem mem' dest len (fun _ => u8 byte).
Proof.
  intros Hd Hn Hdl. unfold memset. destruct (Z.eqb_spec ((dest ||| len) &&& (8 - 1)) 0) as [Hal|_].
  - rewrite <- (Z.lor_0_r dest) in Hal at 1. apply aligned_len in Hal; [|done].
    destruct (memset_words_spec mem (Z.to_nat (len / 8)) dest (memset_word byte) (u8 byte))
      as (m' & Hm & Hp'); [done|zdm|apply memset_word_bytes|].
    exists m'. split; [done|]. by replace len with (8 * Z.of_nat (Z.to_nat (len / 8))) by zdm.
  - destruct (memset_bytes_spec mem (Z.to_nat len) dest byte) as (m' & Hm & Hp'); [done|lia|].
    exists m'. split; [done|]. by rewrite Z2Nat.id in Hp'.
Qed.

(** C16: [memcpy] copies and [memset] fills exactly [len] bytes, on the path over
    words (everything aligned) as on the path over bytes, and touch nothing else;
    no access is outside the memory when the blocks are inside it.  Source and
    destination may touch but not overlap. *)
Theorem memcpy_memset_correct mem dest src len byte :
  Forall is_byte mem -> 0 <= dest -> 0 <= src -> 0 <= len -> dest + len <= lenz mem ->
  (src + len <= lenz mem -> dest + len <= src \/ src + len <= dest ->
   exists mem', memcpy mem dest src len = Ret mem' /\ patched mem mem' dest len (fun j => mem !z (src + j))) /\
  (exists mem', memset mem dest byte len = Ret mem' /\ patched mem mem' dest len (fun _ => u8 byte)).
Proof. intros. split; [intros; by apply memcpy_spec|by apply memset_spec]. Qed.

Lemma memcpy_memset_correct_witness :
  (exists mem', memcpy (word_bytes 24 0x0102030405060708) 16 0 8 = Ret mem' /\
     patched (word_bytes 24 0x0102030405060708) mem' 16 8 (fun j => word_bytes 24 0x0102030405060708 !z (0 + j))) /\
  (exists mem', memset (word_bytes 24 0x0102030405060708) 3 0x1ff 9 = Ret mem' /\
     patched (word_bytes 24 0x0102030405060708) mem' 3 9 (fun _ => u8 0x1ff)).
Proof.
  assert (Hb : Forall is_byte (word_bytes 24 0x0102030405060708)).
  { apply Forall_nthz_iff. intros i Hi. change (lenz _) with 24 in Hi. unfold is_byte.
    assert (Hc : forallb (fun i => (0 <=? word_bytes 24 0x0102030405060708 !z i) &&
                   (word_bytes 24 0x0102030405060708 !z i <? 256)) (seqZ 0 24) = true) by by vm_compute.
    rewrite forallb_forall in Hc. specialize (Hc i ltac:(apply list_elem_of_In, elem_of_seqZ; lia)). lia. }
  split.
  - apply (proj1 (memcpy_memset_correct _ 16 0 8 0 Hb ltac:(lia) ltac:(lia) ltac:(lia) ltac:(by vm_compute)));
      [by vm_compute|right; lia].
  - apply (proj2 (memcpy_memset_correct _ 3 0 9 0x1ff Hb ltac:(lia) ltac:(lia) ltac:(lia) ltac:(by vm_compute))).
Defined.

(** ** The text of a format *)

Definition hex_digit (d : Z) : Z := if d <? 10 then 48 + d else 97 + d - 10.

(** The last [k] hexadecimal and decimal digits. *)
Fixpoint hexadecimal (k : nat) (num : Z) : list Z :=
  match k with O => [] | S i => hex_digit ((num >>> (4 * Z.of_nat i)) &&& 0xf) :: hexadecimal i num end.

Fixpoint last_digits (k : nat) (num : Z) : list Z :=
  match k with O => [] | S i => last_digits i (num / 10) ++ [48 + num mod 10] end.

Definition decimal (num : Z) : list Z :=
  if num <? 0 then 45 :: last_digits (Z.to_nat (count_digits 20 (- num) 1)) (- num)
  else last_digits (Z.to_nat (count_digits 20 num 1)) num.

Definition arg_int (longarg : bool) (args : list arg) : option (Z * list arg) :=
  match args with AInt x :: args => Some (if longarg then x else s32 x, args) | _ => None end.

(** What one character of a format adds, and the flags and arguments after it;
    numbers are those whose opposite a [long] holds. *)
Definition render_char (c : Z) (format longarg : bool) (args : list arg) :
    option (list Z * bool * bool * list arg) :=
  if format then
    if c =? 108 then Some ([], true, true, args)
    else if c =? 112 then
      '(x, args) ← arg_int true args; Some ([48; 120] ++ hexadecimal 16 x, false, false, args)
    else if c =? 120 then
      '(x, args) ← arg_int longarg args;
      Some (hexadecimal (if longarg then 16 else 8) x, false, false, args)
    else if c =? 100 then
      '(x, args) ← arg_int longarg args;
      if - x <? 2 ^ 63 then Some (decimal x, false, false, args) else None
    else if c =? 115 then
      match args with AStr s :: args => Some (s, false, false, args) | _ => None end
    else if c =? 99 then
      '(x, args) ← arg_int true args; Some ([u8 x], false, false, args)
    else Some ([], true, longarg, args)
  else if c =? 37 then Some ([], true, longarg, args)
  else Some ([c], false, longarg, args).

Fixpoint render (fmt : list Z) (format longarg : bool) (args : list arg) : option (list Z) :=
  match fmt with
  | [] => Some []
  | c :: fmt =>
      '(t, format, longarg, args) ← render_char c format longarg args;
      r ← render fmt format longarg args; Some (t ++ r)
  end.

(** [out] is [out0] with the part of [text] that leaves room for the final 0. *)
Definition written (n : Z) (out0 text out : list Z) : Prop :=
  lenz out = lenz out0 /\
  forall i, 0 <= i -> out !z i = if (i <? lenz text) && (i + 1 <? n) then text !z i else out0 !z i.

Section output.
Context (n : Z) (out0 : list Z) (Hn : 0 <= n <= lenz out0).

Lemma written_nil : written n out0 [] out0.
Proof. split; [done|]. intros i Hi. change (lenz []) with 0. by destruct (Z.ltb_spec i 0); [lia|]. Qed.

(** Bytes that go behind the text. *)
Lemma written_app t w out out' :
  written n out0 t out -> lenz out' = lenz out ->
  (forall i, 0 <= i -> out' !z i =
     if (lenz t <=? i) && (i <? lenz t + lenz w) && (i + 1 <? n) then w !z (i - lenz t) else out !z i) ->
  written n out0 (t ++ w) out'.
Proof.
  intros [Hl H] Hl' H'. split; [congruence|]. intros i Hi. rewrite H', H, lenz_app, nthz_app by done.
  pose proof (lenz_nonneg w).
  destruct (Z.leb_spec (lenz t) i), (Z.ltb_spec i (lenz t + lenz w)), (Z.ltb_spec i (lenz t)),
    (Z.ltb_spec (i + 1) n); try lia; done.
Qed.

Lemma emit_spec t c out :
  written n out0 t out ->
  exists out', emit n c (lenz t, out) = Ret (lenz (t ++ [c]), out') /\ written n out0 (t ++ [c]) out'.
Proof.
  intros Hw. pose proof (lenz_nonneg t). pose proof Hw as [Hl _]. unfold emit.
  assert (Hlen : lenz (t ++ [c]) = lenz t + 1) by (rewrite lenz_app; done). rewrite Hlen.
  destruct (Z.ltb_spec (lenz t + 1) n).
  - replace (lenz t + 1 - 1) with (lenz t) by lia. unfold put.
    destruct (store_spec out (lenz t) [c]) as (out' & Hs & Hl' & H'); [lia|change (lenz [c]) with 1; lia|].
    rewrite Hs, bind_ret. exists out'. split; [done|]. eapply written_app; [done|done|].
    intros i Hi. rewrite H' by done. change (lenz [c]) with 1.
    destruct (Z.leb_spec (lenz t) i), (Z.ltb_spec i (lenz t + 1)), (Z.ltb_spec (i + 1) n); try lia; done.
  - exists out. split; [done|]. eapply written_app; [done|done|]. intros i Hi.
    change (lenz [c]) with 1.
    destruct (Z.leb_spec (lenz t) i), (Z.ltb_spec i (lenz t + 1)), (Z.ltb_spec (i + 1) n); try lia; done.
Qed.

Lemma emit_str_spec s t out :
  written n out0 t out ->
  exists out', emit_str n s (lenz t, out) = Ret (lenz (t ++ s), out') /\ written n out0 (t ++ s) out'.
Proof.
  revert t out. induction s as [|c s IH]; intros t out Hw.
  { rewrite app_nil_r. eauto. }
  cbn [emit_str]. destruct (emit_spec t c out Hw) as (o1 & -> & H1). rewrite bind_ret.
  destruct (IH _ _ H1) as (o2 & -> & H2). rewrite <- app_assoc in *. eauto.
Qed.

Lemma hex_loop_spec k num t out :
  written n out0 t out ->
  exists out', hex_loop k n num (lenz t, out) = Ret (lenz (t ++ hexadecimal k num), out') /\
    written n out0 (t ++ hexadecimal k num) out'.
Proof.
  revert t out. induction k as [|k IH]; intros t out Hw.
  { rewrite app_nil_r. eauto. }
  cbn [hex_loop hexadecimal]. cbv zeta. fold (hex_digit ((num >>> (4 * Z.of_nat k)) &&& 0xf)).
  destruct (emit_spec t (hex_digit ((num >>> (4 * Z.of_nat k)) &&& 0xf)) out Hw) as (o1 & -> & H1).
  rewrite bind_ret. destruct (IH _ _ H1) as (o2 & -> & H2). rewrite <- app_assoc in *. eauto.
Qed.

Lemma lenz_last_digits k num : lenz (last_digits k num) = Z.of_nat k.
Proof.
  revert num. induction k as [|k IH]; intros num; [done|]. cbn [last_digits].
  rewrite lenz_app, IH. change (lenz [48 + num mod 10]) with 1. lia.
Qed.

Lemma digit_loop_spec k pos num out :
  0 <= pos -> lenz out = lenz out0 ->
  exists out', digit_loop k pos n num out = Ret out' /\ lenz out' = lenz out /\
    forall i, 0 <= i -> out' !z i =
      if (pos <=? i) && (i <? pos + Z.of_nat k) && (i + 1 <? n)
      then last_digits k num !z (i - pos) else out !z i.
Proof.
  intros Hp. revert num out. induction k as [|k IH]; intros num out Hl.
  { exists out. split_and!; [done..|]. intros i Hi.
    by destruct (Z.leb_spec pos i), (Z.ltb_spec i (pos + Z.of_nat 0)); try lia. }
  cbn [digit_loop].
  assert (Hput : exists o1, (if pos + Z.of_nat k + 1 <? n then put out (pos + Z.of_nat k) (48 + num mod 10) else Ret out) = Ret o1 /\
    lenz o1 = lenz out /\ forall i, 0 <= i -> o1 !z i =
      if (i =? pos + Z.of_nat k) && (i + 1 <? n) then 48 + num mod 10 else out !z i).
  { destruct (Z.ltb_spec (pos + Z.of_nat k + 1) n).
    - unfold put. destruct (store_spec out (pos + Z.of_nat k) [48 + num mod 10]) as (o1 & -> & Hl1 & H1);
        [lia|change (lenz [48 + num mod 10]) with 1; lia|].
      exists o1. split_and!; [done..|]. intros i Hi. rewrite H1 by done. change (lenz [48 + num mod 10]) with 1.
      destruct (Z.leb_spec (pos + Z.of_nat k) i), (Z.ltb_spec i (pos + Z.of_nat k + 1)),
        (Z.eqb_spec i (pos + Z.of_nat k)), (Z.ltb_spec (i + 1) n); try lia; try done. subst. by rewrite Z.sub_diag.
    - exists out. split_and!; [done..|]. intros i Hi.
      by destruct (Z.eqb_spec i (pos + Z.of_nat k)), (Z.ltb_spec (i + 1) n); try lia. }
  destruct Hput as (o1 & -> & Hl1 & H1). rewrite bind_ret.
  destruct (IH (num / 10) o1) as (o2 & -> & Hl2 & H2); [congruence|].
  exists o2. split_and!; [done|congruence|]. intros i Hi. rewrite H2, H1 by done. cbn [last_digits].
  destruct (Z.leb_spec pos i), (Z.ltb_spec i (pos + Z.of_nat k)), (Z.ltb_spec (i + 1) n),
    (Z.ltb_spec i (pos + Z.of_nat (S k))), (Z.eqb_spec i (pos + Z.of_nat k)); try lia; cbn [andb]; try done;
    rewrite nthz_app, lenz_last_digits by lia.
  - destruct (Z.ltb_spec (i - pos) (Z.of_nat k)); [done|lia].
  - destruct (Z.ltb_spec (i - pos) (Z.of_nat k)); [lia|]. by replace (i - pos - Z.of_nat k) with 0 by lia.
Qed.

Lemma count_digits_pos fuel nn d : d <= count_digits fuel nn d.
Proof.
  revert nn d. induction fuel as [|f IH]; intros nn d; [done|]. cbn [count_digits]. cbv zeta.
  case_match; [done|]. specialize (IH (nn / 10) (d + 1)). lia.
Qed.

Lemma emit_dec_spec num t out :
  - num < 2 ^ 63 -> written n out0 t out ->
  exists out', emit_dec n num (lenz t, out) = Ret (lenz (t ++ decimal num), out') /\
    written n out0 (t ++ decimal num) out'.
Proof.
  intros Hnum Hw. unfold emit_dec, decimal.
  assert (Hrest : forall num t out, written n out0 t out ->
    exists out', (out ← digit_loop (Z.to_nat (count_digits 20 num 1)) (lenz t) n num out;
                  Ret (lenz t + count_digits 20 num 1, out)) =
      Ret (lenz (t ++ last_digits (Z.to_nat (count_digits 20 num 1)) num), out') /\
      written n out0 (t ++ last_digits (Z.to_nat (count_digits 20 num 1)) num) out').
  { clear num t out Hnum Hw. intros num t out Hw. pose proof Hw as [Hl _]. pose proof (lenz_nonneg t).
    pose proof (count_digits_pos 20 num 1).
    destruct (digit_loop_spec (Z.to_nat (count_digits 20 num 1)) (lenz t) num out) as (o & -> & Hlo & Ho); [done..|].
    exists o. rewrite bind_ret, lenz_app, lenz_last_digits, Z2Nat.id by lia. split; [done|].
    eapply written_app; [done|done|]. intros i Hi. rewrite Ho, lenz_last_digits by done. done. }
  destruct (Z.ltb_spec num 0).
  - unfold long. destruct (Z.leb_spec (- 2 ^ 63) (- num)), (Z.ltb_spec (- num) (2 ^ 63)); try lia.
    cbn [andb]. rewrite bind_ret. destruct (emit_spec t 45 out Hw) as (o1 & -> & He1). rewrite !bind_ret.
    destruct (Hrest (- num) _ _ He1) as (o2 & He2 & Hw2). rewrite <- app_assoc in *. eauto.
  - rewrite bind_ret. by apply Hrest.
Qed.
End output.

Lemma va_num_spec longarg args x args' :
  arg_int longarg args = Some (x, args') -> va_num longarg args = Ret (x, args').
Proof. unfold arg_int, va_num, va_int. destruct args as [|[]]; [done| |done]. by intros [= <- <-]. Qed.

Lemma format_char_spec n out0 c format longarg args t out w format' longarg' args' :
  0 <= n <= lenz out0 -> written n out0 t out ->
  render_char c format longarg args = Some (w, format', longarg', args') ->
  c <> 99 \/ lenz (t ++ w) < n ->
  exists out', format_char n c format longarg args (lenz t, out) =
      Ret (format', longarg', args', (lenz (t ++ w), out')) /\ written n out0 (t ++ w) out'.
Proof.
  intros Hn Hw Hr Hc. unfold format_char, render_char in *.
  destruct format.
  2:{ destruct (Z.eqb_spec c 37); injection Hr as <- <- <- <-; [rewrite app_nil_r; eauto|].
      destruct (emit_spec n out0 Hn t c out Hw) as (o & -> & Ho). eauto. }
  destruct (c =? 108); [injection Hr as <- <- <- <-; rewrite app_nil_r; eauto|].
  destruct (c =? 112).
  { destruct (arg_int true args) as [[x a]|] eqn:Ha; [|done]. injection Hr as <- <- <- <-.
    destruct (emit_spec n out0 Hn t 48 out Hw) as (o1 & -> & H1). rewrite bind_ret.
    destruct (emit_spec n out0 Hn _ 120 _ H1) as (o2 & -> & H2). rewrite bind_ret.
    rewrite (va_num_spec _ _ _ _ Ha), bind_ret.
    destruct (hex_loop_spec n out0 Hn 16 x _ _ H2) as (o3 & -> & H3). rewrite <- !app_assoc in *. eauto. }
  destruct (c =? 120).
  { destruct (arg_int longarg args) as [[x a]|] eqn:Ha; [|done]. injection Hr as <- <- <- <-.
    rewrite (va_num_spec _ _ _ _ Ha), bind_ret.
    destruct (hex_loop_spec n out0 Hn (if longarg then 16 else 8) x _ _ Hw) as (o & -> & Ho). eauto. }
  destruct (c =? 100).
  { destruct (arg_int longarg args) as [[x a]|] eqn:Ha; [|done]. simpl in Hr.
    destruct (Z.ltb_spec (- x) (2 ^ 63)); [|done]. injection Hr as <- <- <- <-.
    rewrite (va_num_spec _ _ _ _ Ha), bind_ret.
    destruct (emit_dec_spec n out0 Hn x _ _ ltac:(done) Hw) as (o & -> & Ho). eauto. }
  destruct (c =? 115).
  { destruct args as [|[x|s] args]; [done|done|]. injection Hr as <- <- <- <-. simpl va_str. rewrite bind_ret.
    destruct (emit_str_spec n out0 Hn s _ _ Hw) as (o & -> & Ho). eauto. }
  destruct (Z.eqb_spec c 99) as [->|]; [|injection Hr as <- <- <- <-; rewrite app_nil_r; eauto].
  destruct args as [|[x|s] args]; [done| |done]. injection Hr as <- <- <- <-.
  destruct Hc as [|Hc]; [done|]. assert (Hlen : lenz (t ++ [u8 x]) = lenz t + 1) by by rewrite lenz_app.
  rewrite Hlen in *. destruct (emit_spec n out0 Hn t (u8 x) out Hw) as (o & Ho & Hwo).
  unfold emit in Ho. replace (lenz t + 1 - 1) with (lenz t) in Ho by lia.
  destruct (Z.ltb_spec (lenz t + 1) n); [|lia].
  simpl va_int. rewrite bind_ret. destruct (put out (lenz t) (u8 x)) as [o'|]; [|done].
  simpl in Ho. injection Ho as _ ->. simpl. eauto.
Qed.

Lemma format_loop_spec n out0 fmt format longarg args t out r :
  0 <= n <= lenz out0 -> written n out0 t out -> render fmt format longarg args = Some r ->
  Forall (fun c => c <> 99) fmt \/ lenz (t ++ r) < n ->
  exists out', format_loop n fmt format longarg args (lenz t, out) = Ret (lenz (t ++ r), out') /\
    written n out0 (t ++ r) out'.
Proof.
  intros Hn. revert format longarg args t out r. induction fmt as [|c fmt IH];
    intros format longarg args t out r Hw Hr Hc.
  { injection Hr as <-. rewrite app_nil_r. simpl. eauto. }
  cbn [render] in Hr. destruct (render_char c format longarg args) as [[[[w f'] l'] a']|] eqn:Hrc; [|done].
  simpl in Hr. destruct (render fmt f' l' a') as [r'|] eqn:Hr'; [|done]. injection Hr as <-.
  rewrite app_assoc in Hc |- *. pose proof (lenz_nonneg r').
  destruct (format_char_spec n out0 c format longarg args t out w f' l' a' Hn Hw Hrc) as (o & Ho & Hwo).
  { destruct Hc as [Hc|Hc]; [left; by apply Forall_inv in Hc|right]. rewrite lenz_app in Hc. lia. }
  cbn [format_loop]. rewrite Ho, bind_ret. apply IH; [done|done|].
  destruct Hc as [Hc|Hc]; [left; by apply Forall_inv_tail in Hc|by right].
Qed.

Lemma vsnprintf_spec out n fmt args r :
  0 <= n <= lenz out -> render fmt false false args = Some r -> lenz r < 2 ^ 31 ->
  Forall (fun c => c <> 99) fmt \/ lenz r < n ->
  exists out', vsnprintf out n fmt args = Ret (lenz r, out') /\ lenz out' = lenz out /\
    forall i, 0 <= i -> out' !z i =
      if (i <? lenz r) && (i + 1 <? n) then r !z i
      else if (i =? Z.min (lenz r) (n - 1)) && (0 <? n) then 0 else out !z i.
Proof.
  intros Hn Hr Hmax Hc. unfold vsnprintf. pose proof (lenz_nonneg r).
  destruct (format_loop_spec n out fmt false false args [] out r Hn (written_nil n out) Hr Hc)
    as (o & Ho & Hl & Hw). change (lenz []) with 0 in Ho. simpl app in *.
  rewrite Ho, bind_ret. rewrite s32_small by lia.
  assert (Hz : forall p, 0 <= p < lenz o -> exists o', put o p 0 = Ret o' /\ lenz o' = lenz o /\
             forall i, 0 <= i -> o' !z i = if i =? p then 0 else o !z i).
  { intros p Hp. unfold put. destruct (store_spec o p [0]) as (o' & Hs & Hl' & H'); [lia|change (lenz [0]) with 1; lia|].
    exists o'. split_and!; [done..|]. intros i Hi. rewrite H' by done. change (lenz [0]) with 1.
    destruct (Z.leb_spec p i), (Z.ltb_spec i (p + 1)), (Z.eqb_spec i p); try lia; try done.
    subst. by rewrite Z.sub_diag. }
  destruct (Z.ltb_spec (lenz r) n).
  - destruct (Hz (lenz r)) as (o' & -> & Hl' & H'); [lia|]. exists o'. split_and!; [done|congruence|].
    intros i Hi. rewrite H', Hw by done.
    destruct (Z.eqb_spec i (lenz r)), (Z.ltb_spec i (lenz r)), (Z.ltb_spec (i + 1) n),
      (Z.eqb_spec i (Z.min (lenz r) (n - 1))), (Z.ltb_spec 0 n); try lia; done.
  - destruct (Z.eqb_spec n 0) as [->|]; cbn [negb].
    + exists o. split_and!; [done..|]. intros i Hi. rewrite Hw by done.
      destruct (Z.ltb_spec (i + 1) 0); [lia|]. by rewrite !andb_false_r.
    + destruct (Hz (n - 1)) as (o' & -> & Hl' & H'); [lia|]. exists o'. split_and!; [done|congruence|].
      intros i Hi. rewrite H', Hw by done.
      destruct (Z.eqb_spec i (n - 1)), (Z.ltb_spec i (lenz r)), (Z.ltb_spec (i + 1) n),
        (Z.eqb_spec i (Z.min (lenz r) (n - 1))), (Z.ltb_spec 0 n); try lia; done.
Qed.

(** C17: [vsnprintf] formats: with arguments that match the format and the text
    [r] of the two, it returns the length of [r], writes into a buffer of [n]
    bytes the first [n - 1] bytes of [r] and a final 0, and leaves the rest of the
    buffer (all of it when [n] is 0) as it was.  The text may be truncated unless
    the format has a [%c]: a [%c] that does not fit does not take its argument. *)
Theorem vsnprintf_correct out n fmt args r :
  0 <= n <= lenz out -> render fmt false false args = Some r -> lenz r < 2 ^ 31 ->
  Forall (fun c => c <> 99) fmt \/ lenz r < n ->
  exists out', vsnprintf out n fmt args = Ret (lenz r, out') /\ lenz out' = lenz out /\
    forall i, 0 <= i -> out' !z i =
      if (i <? lenz r) && (i + 1 <? n) then r !z i
      else if (i =? Z.min (lenz r) (n - 1)) && (0 <? n) then 0 else out !z i.
Proof. apply vsnprintf_spec. Qed.

Lemma vsnprintf_correct_witness :
  exists out', vsnprintf (zeros 8) 6 [97; 37; 100; 37; 120] [AInt (-42); AInt 255] = Ret (12, out') /\
    lenz out' = 8 /\
    forall i, 0 <= i -> out' !z i =
      if (i <? 12) && (i + 1 <? 6) then [97; 45; 52; 50; 48; 48; 48; 48; 48; 48; 102; 102] !z i
      else if (i =? 5) && (0 <? 6) then 0 else zeros 8 !z i.
Proof.
  apply (vsnprintf_correct (zeros 8) 6 [97; 37; 100; 37; 120] [AInt (-42); AInt 255]
    [97; 45; 52; 50; 48; 48; 48; 48; 48; 48; 102; 102]).
  - by vm_compute.
  - reflexivity.
  - by vm_compute.
  - left. repeat constructor; done.
Defined.

(** A [%c] that does not fit leaves its argument to the next directive. *)
Lemma vsnprintf_char_truncated :
  vsnprintf (zeros 8) 1 [37; 99; 37; 100] [AInt 97; AInt 5] = Ret (3, zeros 8) /\
  render [37; 99; 37; 100] false false [AInt 97; AInt 5] = Some [97; 53].
Proof. done. Qed.

(** ** Decimal numbers *)

Lemma atol_digits_app l1 l2 r : atol_digits (l1 ++ l2) r = (atol_digits l1 r ≫= atol_digits l2).
Proof.
  revert r. induction l1 as [|c l1 IH]; intros r; [done|]. simpl app. cbn [atol_digits].
  destruct (long (r * 10)) as [r1|]; [|done]. rewrite !bind_ret.
  destruct (long (r1 + (c - 48))) as [r2|]; [|done]. by rewrite !bind_ret.
Qed.

Lemma atol_last_digits k num r :
  0 <= num < 10 ^ Z.of_nat k -> 0 <= r -> r * 10 ^ Z.of_nat k + num < 2 ^ 63 ->
  atol_digits (last_digits k num) r = Ret (r * 10 ^ Z.of_nat k + num).
Proof.
  revert num. induction k as [|k IH]; intros num Hnum Hr Hmax.
  { simpl. change (10 ^ Z.of_nat 0) with 1 in *. f_equal. lia. }
  rewrite Nat2Z.inj_succ, Z.pow_succ_r in * by lia. set (p := 10 ^ Z.of_nat k) in *.
  assert (0 < p) by (apply Z.pow_pos_nonneg; lia). set (rp := r * p) in *.
  assert (Hrp : 0 <= rp) by (unfold rp; lia).
  replace (r * (10 * p)) with (10 * rp) in * by (unfold rp; lia).
  cbn [last_digits]. rewrite atol_digits_app, IH; [|zdm|done|zdm]. rewrite bind_ret. fold rp.
  cbn [atol_digits]. unfold long.
  destruct (Z.leb_spec (- 2 ^ 63) ((rp + num / 10) * 10)), (Z.ltb_spec ((rp + num / 10) * 10) (2 ^ 63)); try zdm.
  cbn [andb]. rewrite bind_ret.
  replace ((rp + num / 10) * 10 + (48 + num mod 10 - 48)) with (10 * rp + num) by zdm.
  destruct (Z.leb_spec (- 2 ^ 63) (10 * rp + num)), (Z.ltb_spec (10 * rp + num) (2 ^ 63)); try lia. done.
Qed.

(** [count_digits] counts enough digits, and not too many. *)
Lemma count_digits_enough f nn d :
  0 <= nn < 10 ^ (Z.of_nat f + 1) -> nn < 10 ^ (count_digits f nn d - d + 1).
Proof.
  revert nn d. induction f as [|f IH]; intros nn d Hn.
  { cbn [count_digits]. rewrite Z.sub_diag. change (10 ^ (Z.of_nat 0 + 1)) with (10 ^ (0 + 1)) in Hn. lia. }
  cbn [count_digits]. cbv zeta. destruct (Z.eqb_spec (nn / 10) 0).
  { rewrite Z.sub_diag. change (10 ^ (0 + 1)) with 10. zdm. }
  pose proof (count_digits_pos f (nn / 10) (d + 1)).
  replace (count_digits f (nn / 10) (d + 1) - d + 1)
    with (Z.succ (count_digits f (nn / 10) (d + 1) - (d + 1) + 1)) by lia.
  rewrite Z.pow_succ_r by lia.
  replace (Z.of_nat (S f) + 1) with (Z.succ (Z.of_nat f + 1)) in Hn by lia. rewrite Z.pow_succ_r in Hn by lia.
  assert (Hlt : nn / 10 < 10 ^ (count_digits f (nn / 10) (d + 1) - (d + 1) + 1)) by (apply IH; zdm). zdm.
Qed.

Lemma count_digits_bound f nn d k :
  0 <= nn < 10 ^ Z.of_nat (S k) -> count_digits f nn d <= d + Z.of_nat k.
Proof.
  revert nn d k. induction f as [|f IH]; intros nn d k Hn; cbn [count_digits]; [lia|]. cbv zeta.
  destruct (Z.eqb_spec (nn / 10) 0); [lia|].
  destruct k as [|k]; [change (10 ^ Z.of_nat 1) with 10 in Hn; zdm|].
  assert (count_digits f (nn / 10) (d + 1) <= d + 1 + Z.of_nat k); [|lia].
  apply IH. replace (Z.of_nat (S (S k))) with (Z.succ (Z.of_nat (S k))) in Hn by lia.
  rewrite Z.pow_succ_r in Hn by lia. zdm.
Qed.

Lemma last_digits_head k num r :
  (0 < k)%nat -> 0 <= num -> exists c l, last_digits k num ++ r = c :: l /\ 48 <= c.
Proof.
  revert num r. induction k as [|k IH]; intros num r Hk Hn; [lia|]. cbn [last_digits].
  destruct k as [|k]; [simpl; eexists _, _; split; [done|zdm]|].
  rewrite <- app_assoc. apply IH; [lia|zdm].
Qed.

Lemma atol_decimal x : - 2 ^ 63 < x < 2 ^ 63 -> atol (decimal x) = Ret x.
Proof.
  intros Hx. unfold decimal.
  assert (Hall : forall num, 0 <= num < 2 ^ 63 ->
    let k := Z.to_nat (count_digits 20 num 1) in
    (0 < k)%nat /\ atol_digits (last_digits k num) 0 = Ret num).
  { intros num Hnum. cbv zeta. pose proof (count_digits_pos 20 num 1).
    assert (H10 : num < 10 ^ (count_digits 20 num 1 - 1 + 1)) by (apply count_digits_enough; lia).
    replace (count_digits 20 num 1 - 1 + 1) with (count_digits 20 num 1) in H10 by lia.
    split; [lia|]. rewrite atol_last_digits; rewrite ?Z2Nat.id by lia; done || lia. }
  destruct (Z.ltb_spec x 0).
  - destruct (Hall (- x)) as [Hk Hat]; [lia|]. set (l := last_digits (Z.to_nat (count_digits 20 (- x) 1)) (- x)) in *.
    change (atol (45 :: l)) with (res ← atol_digits l 0; long (- res)). rewrite Hat, bind_ret. unfold long.
    destruct (Z.leb_spec (- 2 ^ 63) (- - x)), (Z.ltb_spec (- - x) (2 ^ 63)); try lia. cbn [andb]. f_equal. lia.
  - destruct (Hall x) as [Hk Hat]; [lia|].
    destruct (last_digits_head (Z.to_nat (count_digits 20 x 1)) x [] Hk ltac:(lia)) as (c & l & Hcl & Hc).
    rewrite app_nil_r in Hcl. rewrite Hcl in Hat |- *. unfold atol. cbn [skip_spaces].
    destruct (Z.eqb_spec c 32); [lia|]. destruct (Z.eqb_spec c 45), (Z.eqb_spec c 43); try lia. cbn [orb].
    by rewrite Hat.
Qed.

(** C18: decimal output is read back: what [snprintf] writes for a [long] with
    [%ld] into a buffer of 21 bytes or more, up to the final 0, [atol] turns into
    the same number, for every [long] but the least. *)
Theorem decimal_roundtrip out n x :
  21 <= n <= lenz out -> - 2 ^ 63 < x < 2 ^ 63 ->
  exists k out', snprintf out n [37; 108; 100] [AInt x] = Ret (k, out') /\
    out' !z k = 0 /\ atol (take (Z.to_nat k) out') = Ret x.
Proof.
  intros Hn Hx.
  assert (Hlen : lenz (decimal x) <= 20).
  { assert (Hd : forall num, 0 <= num < 2 ^ 63 -> lenz (last_digits (Z.to_nat (count_digits 20 num 1)) num) <= 19).
    { intros num Hnum. rewrite lenz_last_digits. pose proof (count_digits_pos 20 num 1).
      pose proof (count_digits_bound 20 num 1 18 ltac:(lia)). lia. }
    unfold decimal. destruct (Z.ltb_spec x 0); [rewrite lenz_cons; specialize (Hd (- x))|specialize (Hd x)]; lia. }
  assert (Hr : render [37; 108; 100] false false [AInt x] = Some (decimal x)).
  { cbn. destruct (Z.ltb_spec (- x) (2 ^ 63)); [|lia]. simpl. by rewrite app_nil_r. }
  pose proof (lenz_nonneg (decimal x)).
  destruct (vsnprintf_spec out n [37; 108; 100] [AInt x] (decimal x)) as (out' & Ho & Hl & Hi);
    [lia|done|lia|right; lia|].
  exists (lenz (decimal x)), out'. split; [done|]. split.
  - rewrite Hi by lia. destruct (Z.ltb_spec (lenz (decimal x)) (lenz (decimal x))); [lia|]. cbn [andb].
    destruct (Z.eqb_spec (lenz (decimal x)) (Z.min (lenz (decimal x)) (n - 1))), (Z.ltb_spec 0 n); try lia; done.
  - rewrite <- (atol_decimal x Hx). f_equal. apply listz_eq; [rewrite lenz_take by lia; lia|].
    rewrite lenz_take by lia. intros i Hi'. rewrite nthz_take, Hi by lia.
    by destruct (Z.ltb_spec i (lenz (decimal x))), (Z.ltb_spec (i + 1) n); try lia.
Qed.

Lemma decimal_roundtrip_witness :
  exists k out', snprintf (zeros 32) 32 [37; 108; 100] [AInt (-9007199254740993)] = Ret (k, out') /\
    out' !z k = 0 /\ atol (take (Z.to_nat k) out') = Ret (-9007199254740993).
Proof. apply (decimal_roundtrip (zeros 32) 32 (-9007199254740993)); [by vm_compute|lia]. Defined.
