(* ===== verification/Machine.v ===== *)
(** * The machine-mode monitor of the boot loader: one hart

    The state that trap handlers of fpga/bootloader/machine work on (RV64
    without the M, F, D and C extensions): the frame in which mentry.S saves the
    registers, the control and status registers, the hart-local storage and the
    memory of the interrupted program; and what all handlers use: fields of
    registers and instructions (bits.h, emulation.h), access to the memory with
    the interrupted program's rights (unprivileged_memory.h), and the hand-over
    of a trap to the supervisor (redirect_trap and machine_page_fault of
    mtrap.c).

    A handler ends by returning ([Done]) or by handing the trap over
    ([Redirect]), which does not return to its caller. *)

From stdpp Require Export functions gmap.
From S2P Require Export Prelude.

(** ** State *)

(** [RTC2_CMP] is not one of them but the compare register of a clock. *)
Inductive csr : Type :=
  | MCAUSE | MEPC | MSTATUS | MBADADDR | MIE | MIP | MCYCLE | MINSTRET
  | SEPC | SCAUSE | STVEC | SBADADDR | SIE
  | MSCRATCH | SPTBR | MIDELEG | MEDELEG | MUCOUNTEREN | MSCOUNTEREN | MISA | RTC2_CMP.

#[export] Instance csr_eq_dec : EqDecision csr.
Proof. solve_decision. Defined.

(** The hart-local storage; [timecmp] is the value of the register that the
    field of the code points to. *)
Record hls_t : Type := MkHls {
  timecmp : Z;
  mipi_pending : Z;
  sipi_pending : Z;
  console_ibuf : Z;
  utime_delta : Z;
  ucycle_delta : Z;
  uinstret_delta : Z;
  stime_delta : Z;
  scycle_delta : Z;
  sinstret_delta : Z
}.

(** [regs] is the frame: 32 integer registers, then 32 floating-point ones;
    [tp] is the machine's own register, which holds the emulated fcsr while a
    handler runs.  [mem] maps the addresses the interrupted program may read,
    [may_write] tells which of them it may write. *)
Record hart : Type := MkHart {
  regs : list Z;
  tp : Z;
  csrs : csr -> Z;
  mtime : Z;
  hls : hls_t;
  mem : gmap Z Z;
  may_write : Z -> bool
}.

Definition with_regs (r : list Z) (s : hart) : hart :=
  MkHart r (tp s) (csrs s) (mtime s) (hls s) (mem s) (may_write s).
Definition with_tp (t : Z) (s : hart) : hart :=
  MkHart (regs s) t (csrs s) (mtime s) (hls s) (mem s) (may_write s).
Definition with_csrs (c : csr -> Z) (s : hart) : hart :=
  MkHart (regs s) (tp s) c (mtime s) (hls s) (mem s) (may_write s).
Definition with_hls (h : hls_t) (s : hart) : hart :=
  MkHart (regs s) (tp s) (csrs s) (mtime s) h (mem s) (may_write s).
Definition with_mem (m : gmap Z Z) (s : hart) : hart :=
  MkHart (regs s) (tp s) (csrs s) (mtime s) (hls s) m (may_write s).

(** ** Handlers *)

Inductive exec (A : Type) : Type :=
  | Done (a : A) (s : hart)
  | Redirect (s : hart)
  | Stop (e : fault).
Arguments Done {A} _ _.
Arguments Redirect {A} _.
Arguments Stop {A} _.

Definition T (A : Type) : Type := hart -> exec A.

#[export] Instance T_ret : MRet T := fun A a s => Done a s.
#[export] Instance T_bind : MBind T := fun A B f m s =>
  match m s with Done a s' => f a s' | Redirect s' => Redirect s' | Stop e => Stop e end.

Definition asks {A} (f : hart -> A) : T A := fun s => Done (f s) s.
Definition update (f : hart -> hart) : T unit := fun s => Done tt (f s).
Definition stop {A} (e : fault) : T A := fun _ => Stop e.
Definition redirect {A} : T A := fun s => Redirect s.
Definition of_outcome {A} (m : outcome A) : T A := fun s =>
  match m with Ret a => Done a s | Fault e => Stop e end.

(** ** Control and status registers *)

Definition read_csr (c : csr) : T Z := asks (fun s => csrs s c).
Definition write_csr (c : csr) (v : Z) : T unit := update (fun s => with_csrs (<[c := u64 v]> (csrs s)) s).
Definition set_csr (c : csr) (bits : Z) : T unit := v ← read_csr c; write_csr c (v ||| bits).
Definition clear_csr (c : csr) (bits : Z) : T unit := v ← read_csr c; write_csr c (v &&& Z.lnot bits).

(** Fields of a register. *)
Definition field_lsb (which : Z) : Z := which &&& Z.lnot (which - 1).
Definition EXTRACT_FIELD (val which : Z) : Z := (val &&& which) / field_lsb which.
Definition INSERT_FIELD (val which fieldval : Z) : Z :=
  (val &&& Z.lnot which) ||| u64 (fieldval * field_lsb which).

Definition MSTATUS_SPIE : Z := 0x20.
Definition MSTATUS_MPIE : Z := 0x80.
Definition MSTATUS_SPP : Z := 0x100.
Definition MSTATUS_MPP : Z := 0x1800.
Definition MSTATUS_FS : Z := 0x6000.
Definition MSTATUS_MPRV : Z := 0x20000.
Definition MSTATUS_VM : Z := 0x1F000000.
Definition PRV_S : Z := 1.

Definition CAUSE_ILLEGAL_INSTRUCTION : Z := 2.
Definition CAUSE_MISALIGNED_LOAD : Z := 4.
Definition CAUSE_FAULT_LOAD : Z := 5.
Definition CAUSE_MISALIGNED_STORE : Z := 6.
Definition CAUSE_FAULT_STORE : Z := 7.

(** ** Registers named by an instruction *)

(** The word of the frame that GET_REG points to: [mask] clears all but the
    five bits of the register number, times the size of a register. *)
Definition GET_REG (insn pos : Z) : Z := ((insn >>> (pos - 3)) &&& 0xf8) / 8.

Definition get_reg (i : Z) : T Z := s ← asks regs; of_outcome (get s i).
Definition put_reg (i v : Z) : T unit := r ← asks regs; r ← of_outcome (put r i (u64 v)); update (with_regs r).

Definition GET_RS1 (insn : Z) : T Z := get_reg (GET_REG insn 15).
Definition GET_RS2 (insn : Z) : T Z := get_reg (GET_REG insn 20).
Definition SET_RD (insn v : Z) : T unit := put_reg (GET_REG insn 7) v.

(** Sign-extended immediates. *)
Definition IMM_I (insn : Z) : Z := s32 insn >>> 20.
Definition IMM_S (insn : Z) : Z := s32 (s32 insn >>> 25 <<< 5) ||| ((insn >>> 7) &&& 0x1f).

(** ** Handing a trap over *)

(** __redirect_trap of mentry.S goes back to the interrupted program's mode
    with the registers of the frame, at the address in mepc. *)
Definition redirect_trap {A} (epc mstatus : Z) : T A :=
  write_csr SEPC epc;;
  cause ← read_csr MCAUSE;
  write_csr SCAUSE cause;;
  tvec ← read_csr STVEC;
  write_csr MEPC tvec;;
  let prev_priv := EXTRACT_FIELD mstatus MSTATUS_MPP in
  let prev_ie := EXTRACT_FIELD mstatus MSTATUS_MPIE in
  let mstatus := INSERT_FIELD mstatus MSTATUS_SPP prev_priv in
  let mstatus := INSERT_FIELD mstatus MSTATUS_SPIE prev_ie in
  let mstatus := INSERT_FIELD mstatus MSTATUS_MPP PRV_S in
  let mstatus := INSERT_FIELD mstatus MSTATUS_MPIE 0 in
  write_csr MSTATUS mstatus;;
  redirect.

Definition truly_illegal_insn {A} (mcause mepc mstatus insn : Z) : T A := redirect_trap mepc mstatus.

Definition bad_trap {A} : T A := stop Die.

(** A fault of the monitor's own access, while mstatus has MPRV set: the
    interrupted program is made to see a page fault.  [epc] and [mstatus0] are
    the values that the access functions keep in a2 and a3 of the frame. *)
Definition machine_page_fault {A} (epc mstatus0 : Z) : T A :=
  ms ← read_csr MSTATUS;
  if negb (ms &&& MSTATUS_MPRV =? 0) then
    va ← read_csr MBADADDR;
    write_csr SBADADDR va;;
    redirect_trap epc mstatus0
  else bad_trap.

(** The cases of trap_from_machine_mode. *)
Definition trap_from_machine_mode {A} (epc mstatus0 : Z) : T A :=
  mcause ← read_csr MCAUSE;
  if (mcause =? CAUSE_FAULT_LOAD) || (mcause =? CAUSE_FAULT_STORE)
  then machine_page_fault epc mstatus0
  else bad_trap.

(** ** Memory of the interrupted program *)

(** The little-endian bytes of a value. *)
Fixpoint to_bytes (n : nat) (v : Z) : list Z :=
  match n with O => [] | S n => v mod 256 :: to_bytes n (v / 256) end.

Fixpoint of_bytes (l : list Z) : Z :=
  match l with [] => 0 | b :: l => b + 256 * of_bytes l end.

(** The bytes at [addr], or none if one of them may not be read. *)
Fixpoint mem_read (m : gmap Z Z) (addr : Z) (n : nat) : option (list Z) :=
  match n with
  | O => Some []
  | S n => b ← m !! addr; bs ← mem_read m (u64 (addr + 1)) n; Some (b :: bs)
  end.

Fixpoint mem_write (m : gmap Z Z) (addr : Z) (bs : list Z) : gmap Z Z :=
  match bs with [] => m | b :: bs => mem_write (<[addr := b]> m) (u64 (addr + 1)) bs end.

Fixpoint can_write (s : hart) (addr : Z) (n : nat) : bool :=
  match n with
  | O => true
  | S n => bool_decide (is_Some (mem s !! addr)) && may_write s addr && can_write s (u64 (addr + 1)) n
  end.

(** A load or store of the monitor with MPRV set.  An access that the hardware
    refuses traps to the monitor itself, with the cause and the address in the
    registers and mstatus still having MPRV set; the access functions have put
    mepc in a2 and the old mstatus in a3. *)
Definition access_fault {A} (cause addr mepc mstatus0 : Z) : T A :=
  write_csr MCAUSE cause;;
  write_csr MBADADDR addr;;
  write_csr MSTATUS (mstatus0 ||| MSTATUS_MPRV);;
  trap_from_machine_mode mepc mstatus0.

Definition load_bytes (n : nat) (addr mepc : Z) : T Z :=
  ms ← read_csr MSTATUS;
  m ← asks mem;
  if negb (addr mod Z.of_nat n =? 0) then access_fault CAUSE_MISALIGNED_LOAD addr mepc ms
  else match mem_read m addr n with
       | Some bs => mret (of_bytes bs)
       | None => access_fault CAUSE_FAULT_LOAD addr mepc ms
       end.

Definition store_bytes (n : nat) (addr v mepc : Z) : T unit :=
  ms ← read_csr MSTATUS;
  s ← asks id;
  if negb (addr mod Z.of_nat n =? 0) then access_fault CAUSE_MISALIGNED_STORE addr mepc ms
  else if can_write s addr n then update (with_mem (mem_write (mem s) addr (to_bytes n v)))
  else access_fault CAUSE_FAULT_STORE addr mepc ms.

Definition load_uint8_t (addr mepc : Z) : T Z := load_bytes 1 addr mepc.
Definition load_int32_t (addr mepc : Z) : T Z := v ← load_bytes 4 addr mepc; mret (s32 v).
Definition load_uint64_t (addr mepc : Z) : T Z := load_bytes 8 addr mepc.
Definition store_uint8_t (addr v mepc : Z) : T unit := store_bytes 1 addr v mepc.
Definition store_uint32_t (addr v mepc : Z) : T unit := store_bytes 4 addr v mepc.
Definition store_uint64_t (addr v mepc : Z) : T unit := store_bytes 8 addr v mepc.

(** The trapping instruction, and mstatus at the trap. *)
Definition get_insn (mepc : Z) : T (Z * Z) :=
  ms ← read_csr MSTATUS;
  insn ← load_bytes 4 mepc mepc;
  mret (insn, ms).

(** ** Emulated floating-point state: fp_emulation.h

    The floating-point registers follow the integer ones in the frame; a
    single-precision number is the low half of its register. *)

Definition GET_F64_REG (insn pos : Z) : T Z := get_reg (32 + ((insn >>> (pos - 3)) &&& 0xf8) / 8).
Definition SET_F64_REG (insn pos v : Z) : T unit := put_reg (32 + ((insn >>> (pos - 3)) &&& 0xf8) / 8) v.
Definition GET_F32_REG (insn pos : Z) : T Z := v ← GET_F64_REG insn pos; mret (s32 v).
Definition SET_F32_REG (insn pos v : Z) : T unit :=
  old ← GET_F64_REG insn pos;
  SET_F64_REG insn pos ((old >>> 32 <<< 32) ||| u32 v).

Definition GET_FCSR : T Z := t ← asks tp; mret (t &&& 0xFF).
Definition SET_FCSR (v : Z) : T unit := update (with_tp (v &&& 0xFF)).
Definition GET_FRM : T Z := v ← GET_FCSR; mret (v >>> 5).
Definition GET_FFLAGS : T Z := v ← GET_FCSR; mret (v &&& 0x1F).
Definition SET_FRM (v : Z) : T unit := fl ← GET_FFLAGS; SET_FCSR (fl ||| (v <<< 5)).
Definition SET_FFLAGS (v : Z) : T unit := frm ← GET_FRM; SET_FCSR ((frm <<< 5) ||| (v &&& 0x1F)).
Definition SET_FS_DIRTY : T unit := set_csr MSTATUS MSTATUS_FS.

Definition GET_F32_RS1 (insn : Z) : T Z := GET_F32_REG insn 15.
Definition GET_F32_RS2 (insn : Z) : T Z := GET_F32_REG insn 20.
Definition GET_F32_RS3 (insn : Z) : T Z := GET_F32_REG insn 27.
Definition GET_F64_RS1 (insn : Z) : T Z := GET_F64_REG insn 15.
Definition GET_F64_RS2 (insn : Z) : T Z := GET_F64_REG insn 20.
Definition GET_F64_RS3 (insn : Z) : T Z := GET_F64_REG insn 27.
Definition SET_F32_RD (insn v : Z) : T unit := SET_F32_REG insn 7 v;; SET_FS_DIRTY.
Definition SET_F64_RD (insn v : Z) : T unit := SET_F64_REG insn 7 v;; SET_FS_DIRTY.

Definition GET_PRECISION (insn : Z) : Z := (insn >>> 25) &&& 3.
Definition GET_RM (insn : Z) : Z := (insn >>> 12) &&& 7.
Definition PRECISION_S : Z := 0.
Definition PRECISION_D : Z := 1.
Definition MASK_FUNCT3 : Z := 0x7000.

(** The instruction's rounding mode, or the one of fcsr, goes to the bits of tp
    above 13; a static mode above 4 is illegal. *)
Definition SETUP_STATIC_ROUNDING (mcause mepc mstatus insn : Z) : T unit :=
  t ← asks tp;
  let t := t &&& 0xFF in
  if (insn &&& MASK_FUNCT3) =? MASK_FUNCT3 then update (with_tp (t ||| (t <<< 8)))
  else if 4 <? GET_RM insn then truly_illegal_insn mcause mepc mstatus insn
  else update (with_tp (t ||| (GET_RM insn <<< 13))).
Definition softfloat_roundingMode : T Z := t ← asks tp; mret (t >>> 13).
Definition softfloat_raiseFlags (flags : Z) : T unit := t ← asks tp; update (with_tp (t ||| flags)).
