(* ===== verification/SoftFloat.v ===== *)
(** * Floating-point comparisons and conversions: fpga/bootloader/softfloat

    The operations of the SoftFloat library that the emulation of the F and D
    extensions needs for comparisons, conversions and rounding.  Floating-point
    numbers are their bit patterns.  An operation takes the rounding mode
    (softfloat_roundingMode of fp_emulation.h) where it rounds, and returns its
    result with the exception flags it raises (softfloat_raiseFlags). *)

From S2P Require Import Prelude.

Definition flagged (A : Type) : Type := A * Z.

#[export] Instance flagged_ret : MRet flagged := fun A a => (a, 0).
#[export] Instance flagged_bind : MBind flagged := fun A B f m =>
  let '(b, fl) := f m.1 in (b, m.2 ||| fl).

Definition softfloat_raiseFlags (flags : Z) : flagged unit := (tt, flags).
Definition raise_if (b : bool) (flags : Z) : flagged unit := if b then softfloat_raiseFlags flags else mret tt.

Definition softfloat_flag_inexact : Z := 1.
Definition softfloat_flag_underflow : Z := 2.
Definition softfloat_flag_overflow : Z := 4.
Definition softfloat_flag_infinity : Z := 8.
Definition softfloat_flag_invalid : Z := 16.

Definition softfloat_round_nearest_even : Z := 0.
Definition softfloat_round_minMag : Z := 1.
Definition softfloat_round_min : Z := 2.
Definition softfloat_round_max : Z := 3.
Definition softfloat_round_nearest_maxMag : Z := 4.

(** ** Parts of a number *)

Definition signF32UI (a : Z) : bool := negb (u32 a >>> 31 =? 0).
Definition expF32UI (a : Z) : Z := (a >>> 23) &&& 0xFF.
Definition fracF32UI (a : Z) : Z := a &&& 0x007FFFFF.
Definition packToF32UI (sign : bool) (exp sig : Z) : Z :=
  u32 ((Z.b2z sign <<< 31) + (u32 exp <<< 23) + sig).

Definition signF64UI (a : Z) : bool := negb (u64 a >>> 63 =? 0).
Definition expF64UI (a : Z) : Z := (a >>> 52) &&& 0x7FF.
Definition fracF64UI (a : Z) : Z := a &&& 0x000FFFFFFFFFFFFF.
Definition packToF64UI (sign : bool) (exp sig : Z) : Z :=
  u64 ((Z.b2z sign <<< 63) + (u64 exp <<< 52) + sig).

Definition isNaNF32UI (ui : Z) : bool := 0xFF000000 <? u32 (ui <<< 1).
Definition isNaNF64UI (ui : Z) : bool := 0xFFE0000000000000 <? u64 (ui <<< 1).
(** The test as the comparisons write it. *)
Definition is_nan32 (a : Z) : bool := (expF32UI a =? 0xFF) && negb (fracF32UI a =? 0).
Definition is_nan64 (a : Z) : bool := (expF64UI a =? 0x7FF) && negb (fracF64UI a =? 0).
Definition softfloat_isSigNaNF32UI (ui : Z) : bool :=
  ((ui >>> 22) &&& 0x1FF =? 0x1FE) && negb (ui &&& 0x003FFFFF =? 0).
Definition softfloat_isSigNaNF64UI (ui : Z) : bool :=
  ((ui >>> 51) &&& 0xFFF =? 0xFFE) && negb (ui &&& 0x0007FFFFFFFFFFFF =? 0).

(** ** Comparisons *)

Definition f32_eq (uiA uiB : Z) : flagged bool :=
  if is_nan32 uiA || is_nan32 uiB then
    raise_if (softfloat_isSigNaNF32UI uiA || softfloat_isSigNaNF32UI uiB) softfloat_flag_invalid;;
    mret false
  else mret ((uiA =? uiB) || (u32 ((uiA ||| uiB) <<< 1) =? 0)).

Definition f64_eq (uiA uiB : Z) : flagged bool :=
  if is_nan64 uiA || is_nan64 uiB then
    raise_if (softfloat_isSigNaNF64UI uiA || softfloat_isSigNaNF64UI uiB) softfloat_flag_invalid;;
    mret false
  else mret ((uiA =? uiB) || ((uiA ||| uiB) &&& 0x7FFFFFFFFFFFFFFF =? 0)).

(** The order of two numbers that are not NaN. *)
Definition f32_less (uiA uiB : Z) : bool :=
  let signA := signF32UI uiA in
  let signB := signF32UI uiB in
  if xorb signA signB then signA && negb (u32 ((uiA ||| uiB) <<< 1) =? 0)
  else negb (uiA =? uiB) && xorb signA (uiA <? uiB).

Definition f64_less (uiA uiB : Z) : bool :=
  let signA := signF64UI uiA in
  let signB := signF64UI uiB in
  if xorb signA signB then signA && negb ((uiA ||| uiB) &&& 0x7FFFFFFFFFFFFFFF =? 0)
  else negb (uiA =? uiB) && xorb signA (uiA <? uiB).

Definition f32_lt (uiA uiB : Z) : flagged bool :=
  if is_nan32 uiA || is_nan32 uiB
  then softfloat_raiseFlags softfloat_flag_invalid;; mret false
  else mret (f32_less uiA uiB).

Definition f64_lt (uiA uiB : Z) : flagged bool :=
  if is_nan64 uiA || is_nan64 uiB
  then softfloat_raiseFlags softfloat_flag_invalid;; mret false
  else mret (f64_less uiA uiB).

Definition f32_lt_quiet (uiA uiB : Z) : flagged bool :=
  if is_nan32 uiA || is_nan32 uiB then
    raise_if (softfloat_isSigNaNF32UI uiA || softfloat_isSigNaNF32UI uiB) softfloat_flag_invalid;;
    mret false
  else mret (f32_less uiA uiB).

Definition f64_lt_quiet (uiA uiB : Z) : flagged bool :=
  if is_nan64 uiA || is_nan64 uiB then
    raise_if (softfloat_isSigNaNF64UI uiA || softfloat_isSigNaNF64UI uiB) softfloat_flag_invalid;;
    mret false
  else mret (f64_less uiA uiB).

(** ** Shifts *)

Definition softfloat_shift32RightJam (a count : Z) : Z :=
  if count <? 32 then (a >>> count) ||| Z.b2z (negb (u32 (a <<< ((- count) &&& 31)) =? 0))
  else Z.b2z (negb (a =? 0)).

Definition softfloat_shift64RightJam (a count : Z) : Z :=
  if count <? 64 then (a >>> count) ||| Z.b2z (negb (u64 (a <<< ((- count) &&& 63)) =? 0))
  else Z.b2z (negb (a =? 0)).

Definition softfloat_shortShift64RightJam (a count : Z) : Z :=
  (a >>> count) ||| Z.b2z (negb (a &&& ((1 <<< count) - 1) =? 0)).

(** The value and the bits shifted out of it. *)
Definition softfloat_shift64ExtraRightJam (a extra count : Z) : Z * Z :=
  let '(v, x) :=
    if count <? 64 then (a >>> count, u64 (a <<< ((- count) &&& 63)))
    else (0, if count =? 64 then a else Z.b2z (negb (a =? 0))) in
  (v, x ||| Z.b2z (negb (extra =? 0))).

Definition softfloat_countLeadingZeros8 : list Z :=
  [8; 7; 6; 6] ++ replicate 4 5 ++ replicate 8 4 ++ replicate 16 3 ++ replicate 32 2
    ++ replicate 64 1 ++ replicate 128 0.

Definition softfloat_countLeadingZeros32 (a : Z) : Z :=
  let '(count, a) := if a <? 0x10000 then (16, u32 (a <<< 16)) else (0, a) in
  let '(count, a) := if a <? 0x1000000 then (count + 8, u32 (a <<< 8)) else (count, a) in
  count + softfloat_countLeadingZeros8 !z (a >>> 24).

Definition softfloat_countLeadingZeros64 (a : Z) : Z :=
  let '(count, a32) := if 0x100000000 <=? a then (0, u32 (a >>> 32)) else (32, u32 a) in
  let '(count, a32) := if a32 <? 0x10000 then (count + 16, u32 (a32 <<< 16)) else (count, a32) in
  let '(count, a32) := if a32 <? 0x1000000 then (count + 8, u32 (a32 <<< 8)) else (count, a32) in
  count + softfloat_countLeadingZeros8 !z (a32 >>> 24).

(** ** Rounding and packing *)

(** What is added before the low bits are cut: half a unit, or a whole one less
    the last bit, or nothing. *)
Definition round_increment (roundingMode : Z) (sign : bool) (half full : Z) : Z :=
  if negb (roundingMode =? softfloat_round_nearest_even) && negb (roundingMode =? softfloat_round_nearest_maxMag)
  then if (roundingMode =? softfloat_round_minMag)
          || (roundingMode =? (if sign then softfloat_round_max else softfloat_round_min))
       then 0 else full
  else half.

Definition softfloat_roundPackToF32 (rm : Z) (sign : bool) (exp sig : Z) : flagged Z :=
  let roundNearestEven := rm =? softfloat_round_nearest_even in
  let roundIncrement := round_increment rm sign 0x40 0x7F in
  let pack exp sig roundBits :=
    raise_if (negb (roundBits =? 0)) softfloat_flag_inexact;;
    let sig := (sig + roundIncrement) >>> 7 in
    let sig := sig &&& Z.lnot (Z.b2z ((roundBits ^^^ 0x40 =? 0) && roundNearestEven)) in
    mret (packToF32UI sign (if sig =? 0 then 0 else exp) sig) in
  let roundBits := sig &&& 0x7F in
  if 0xFD <=? u16 exp then
    if exp <? 0 then
      (* tininess is detected before rounding *)
      let sig := softfloat_shift32RightJam sig (- exp) in
      let roundBits := sig &&& 0x7F in
      raise_if (negb (roundBits =? 0)) softfloat_flag_underflow;;
      pack 0 sig roundBits
    else if (0xFD <? exp) || (0x80000000 <=? sig + roundIncrement) then
      softfloat_raiseFlags (softfloat_flag_overflow ||| softfloat_flag_inexact);;
      mret (packToF32UI sign 0xFF 0 - Z.b2z (roundIncrement =? 0))
    else pack exp sig roundBits
  else pack exp sig roundBits.

Definition softfloat_roundPackToF64 (rm : Z) (sign : bool) (exp sig : Z) : flagged Z :=
  let roundNearestEven := rm =? softfloat_round_nearest_even in
  let roundIncrement := round_increment rm sign 0x200 0x3FF in
  let pack exp sig roundBits :=
    raise_if (negb (roundBits =? 0)) softfloat_flag_inexact;;
    let sig := u64 (sig + roundIncrement) >>> 10 in
    let sig := sig &&& Z.lnot (Z.b2z ((roundBits ^^^ 0x200 =? 0) && roundNearestEven)) in
    mret (packToF64UI sign (if sig =? 0 then 0 else exp) sig) in
  let roundBits := sig &&& 0x3FF in
  if 0x7FD <=? u16 exp then
    if exp <? 0 then
      (* tininess is detected before rounding *)
      let sig := softfloat_shift64RightJam sig (- exp) in
      let roundBits := sig &&& 0x3FF in
      raise_if (negb (roundBits =? 0)) softfloat_flag_underflow;;
      pack 0 sig roundBits
    else if (0x7FD <? exp) || (0x8000000000000000 <=? u64 (sig + roundIncrement)) then
      softfloat_raiseFlags (softfloat_flag_overflow ||| softfloat_flag_inexact);;
      mret (packToF64UI sign 0x7FF 0 - Z.b2z (roundIncrement =? 0))
    else pack exp sig roundBits
  else pack exp sig roundBits.

Definition softfloat_normRoundPackToF64 (rm : Z) (sign : bool) (exp sig : Z) : flagged Z :=
  let shiftCount := softfloat_countLeadingZeros64 sig - 1 in
  let exp := exp - shiftCount in
  if (10 <=? shiftCount) && (u16 exp <? 0x7FD)
  then mret (packToF64UI sign (if sig =? 0 then 0 else exp) (u64 (sig <<< (shiftCount - 10))))
  else softfloat_roundPackToF64 rm sign exp (u64 (sig <<< shiftCount)).

Definition softfloat_normSubnormalF32Sig (sig : Z) : Z * Z :=
  let shiftCount := softfloat_countLeadingZeros32 sig - 8 in
  (1 - shiftCount, u32 (sig <<< shiftCount)).

(** Rounds a number with 64 fraction bits, [sig0], to an integer. *)
Definition softfloat_roundPackToUI64 (sign : bool) (sig64 sig0 rm : Z) (exact : bool) : flagged Z :=
  let invalid := softfloat_raiseFlags softfloat_flag_invalid;; mret 0xFFFFFFFFFFFFFFFF in
  let finish sig64 :=
    if sign && negb (sig64 =? 0) then invalid
    else raise_if (exact && negb (sig0 =? 0)) softfloat_flag_inexact;; mret sig64 in
  let roundNearestEven := rm =? softfloat_round_nearest_even in
  let increment :=
    if negb roundNearestEven && negb (rm =? softfloat_round_nearest_maxMag)
    then negb (rm =? softfloat_round_minMag)
         && (rm =? (if sign then softfloat_round_min else softfloat_round_max)) && negb (sig0 =? 0)
    else 0x8000000000000000 <=? sig0 in
  if increment then
    let sig64 := u64 (sig64 + 1) in
    if sig64 =? 0 then invalid
    else finish (sig64 &&& Z.lnot (Z.b2z ((sig0 &&& 0x7FFFFFFFFFFFFFFF =? 0) && roundNearestEven)))
  else finish sig64.

(** ** Conversions *)

(** The sign of a NaN, which becomes the NaN with all other bits set. *)
Definition softfloat_f32UIToCommonNaN (uiA : Z) : flagged bool :=
  raise_if (softfloat_isSigNaNF32UI uiA) softfloat_flag_invalid;; mret (negb (uiA >>> 31 =? 0)).
Definition softfloat_f64UIToCommonNaN (uiA : Z) : flagged bool :=
  raise_if (softfloat_isSigNaNF64UI uiA) softfloat_flag_invalid;; mret (negb (uiA >>> 63 =? 0)).
Definition softfloat_commonNaNToF32UI (sign : bool) : Z := (Z.b2z sign <<< 31) ||| 0x7FFFFFFF.
Definition softfloat_commonNaNToF64UI (sign : bool) : Z := (Z.b2z sign <<< 63) ||| 0x7FFFFFFFFFFFFFFF.

Definition f64_to_ui64 (uiA rm : Z) (exact : bool) : flagged Z :=
  let sign := signF64UI uiA in
  let exp := expF64UI uiA in
  let sig := fracF64UI uiA in
  let sig := if exp =? 0 then sig else sig ||| 0x0010000000000000 in
  let shiftCount := 0x433 - exp in
  if shiftCount <=? 0 then
    if 0x43E <? exp then softfloat_raiseFlags softfloat_flag_invalid;; mret 0xFFFFFFFFFFFFFFFF
    else softfloat_roundPackToUI64 sign (u64 (sig <<< (- shiftCount))) 0 rm exact
  else
    let '(v, extra) := softfloat_shift64ExtraRightJam sig 0 shiftCount in
    softfloat_roundPackToUI64 sign v extra rm exact.

Definition f32_to_f64 (uiA : Z) : flagged Z :=
  let sign := signF32UI uiA in
  let exp := expF32UI uiA in
  let sig := fracF32UI uiA in
  if exp =? 0xFF then
    if negb (sig =? 0) then nan ← softfloat_f32UIToCommonNaN uiA; mret (softfloat_commonNaNToF64UI nan)
    else mret (packToF64UI sign 0x7FF 0)
  else if (exp =? 0) && (sig =? 0) then mret (packToF64UI sign 0 0)
  else
    let '(exp, sig) :=
      if exp =? 0 then let '(e, g) := softfloat_normSubnormalF32Sig sig in (e - 1, g) else (exp, sig) in
    mret (packToF64UI sign (exp + 0x380) (sig <<< 29)).

Definition f64_to_f32 (rm uiA : Z) : flagged Z :=
  let sign := signF64UI uiA in
  let exp := expF64UI uiA in
  let sig := fracF64UI uiA in
  if exp =? 0x7FF then
    if negb (sig =? 0) then nan ← softfloat_f64UIToCommonNaN uiA; mret (softfloat_commonNaNToF32UI nan)
    else mret (packToF32UI sign 0xFF 0)
  else
    let sig32 := softfloat_shortShift64RightJam sig 22 in
    if (exp ||| sig32) =? 0 then mret (packToF32UI sign 0 0)
    else softfloat_roundPackToF32 rm sign (exp - 0x381) (sig32 ||| 0x40000000).

Definition ui64_to_f64 (rm a : Z) : flagged Z :=
  if a =? 0 then mret 0
  else if negb (a &&& 0x8000000000000000 =? 0)
  then softfloat_roundPackToF64 rm false 0x43D (softfloat_shortShift64RightJam a 1)
  else softfloat_normRoundPackToF64 rm false 0x43C a.
