(* ===== verification/SoftFloatArith.v ===== *)
(** * Floating-point arithmetic: fpga/bootloader/softfloat

    Addition, multiplication, division, square root and the fused operation in
    single and double precision, with the helpers on 128-bit numbers and the
    estimates they use.  Every operation takes the rounding mode first.  Sums
    and shifts are wrapped where the ranges of exponents and fractions do not
    keep them inside their type; [uint_fast32_t] has 32 bits, as in newlib.

    A function that ends in several places behind labels has a local definition
    for each of them. *)

From S2P Require Import Prelude SoftFloat.

Definition defaultNaNF32UI : Z := 0xFFFFFFFF.
Definition defaultNaNF64UI : Z := 0xFFFFFFFFFFFFFFFF.

Definition softfloat_propagateNaNF32UI (uiA uiB : Z) : flagged Z :=
  raise_if (softfloat_isSigNaNF32UI uiA || softfloat_isSigNaNF32UI uiB) softfloat_flag_invalid;;
  mret defaultNaNF32UI.

Definition softfloat_propagateNaNF64UI (uiA uiB : Z) : flagged Z :=
  raise_if (softfloat_isSigNaNF64UI uiA || softfloat_isSigNaNF64UI uiB) softfloat_flag_invalid;;
  mret defaultNaNF64UI.

Definition softfloat_normRoundPackToF32 (rm : Z) (sign : bool) (exp sig : Z) : flagged Z :=
  let shiftCount := softfloat_countLeadingZeros32 sig - 1 in
  let exp := exp - shiftCount in
  if (7 <=? shiftCount) && (u16 exp <? 0xFD)
  then mret (packToF32UI sign (if sig =? 0 then 0 else exp) (u32 (sig <<< (shiftCount - 7))))
  else softfloat_roundPackToF32 rm sign exp (u32 (sig <<< shiftCount)).

Definition softfloat_normSubnormalF64Sig (sig : Z) : Z * Z :=
  let shiftCount := softfloat_countLeadingZeros64 sig - 11 in
  (1 - shiftCount, u64 (sig <<< shiftCount)).

(** The exponent and the fraction of a number that is not 0, the latter shifted
    to its place and the former lowered when the number is subnormal. *)
Definition norm_F32 (exp sig : Z) : Z * Z := if exp =? 0 then softfloat_normSubnormalF32Sig sig else (exp, sig).
Definition norm_F64 (exp sig : Z) : Z * Z := if exp =? 0 then softfloat_normSubnormalF64Sig sig else (exp, sig).

(** ** Addition and subtraction of magnitudes *)

Definition softfloat_addMagsF32 (rm uiA uiB : Z) (signZ : bool) : flagged Z :=
  let expA := expF32UI uiA in
  let expB := expF32UI uiB in
  let expDiff := expA - expB in
  let sigA := fracF32UI uiA <<< 6 in
  let sigB := fracF32UI uiB <<< 6 in
  let roundPack expZ sigA sigB :=
    let sigZ := 0x20000000 + sigA + sigB in
    if sigZ <? 0x40000000 then softfloat_roundPackToF32 rm signZ (expZ - 1) (sigZ <<< 1)
    else softfloat_roundPackToF32 rm signZ expZ sigZ in
  if expDiff =? 0 then
    if expA =? 0xFF then
      if negb (sigA ||| sigB =? 0) then softfloat_propagateNaNF32UI uiA uiB else mret uiA
    else if expA =? 0 then mret (packToF32UI signZ 0 (u32 (uiA + uiB) &&& 0x7FFFFFFF))
    else softfloat_roundPackToF32 rm signZ expA (0x40000000 + sigA + sigB)
  else if expDiff <? 0 then
    if expB =? 0xFF then
      if negb (sigB =? 0) then softfloat_propagateNaNF32UI uiA uiB else mret (packToF32UI signZ 0xFF 0)
    else
      let sigA := sigA + (if negb (expA =? 0) then 0x20000000 else sigA) in
      roundPack expB (softfloat_shift32RightJam sigA (- expDiff)) sigB
  else
    if expA =? 0xFF then
      if negb (sigA =? 0) then softfloat_propagateNaNF32UI uiA uiB else mret uiA
    else
      let sigB := sigB + (if negb (expB =? 0) then 0x20000000 else sigB) in
      roundPack expA sigA (softfloat_shift32RightJam sigB expDiff).

Definition softfloat_subMagsF32 (rm uiA uiB : Z) (signZ : bool) : flagged Z :=
  let expA := expF32UI uiA in
  let expB := expF32UI uiB in
  let expDiff := expA - expB in
  let sigA := fracF32UI uiA <<< 7 in
  let sigB := fracF32UI uiB <<< 7 in
  let bBigger expB sigA sigB := softfloat_normRoundPackToF32 rm (negb signZ) (expB - 1) (sigB - sigA) in
  let aBigger expA sigA sigB := softfloat_normRoundPackToF32 rm signZ (expA - 1) (sigA - sigB) in
  if 0 <? expDiff then
    if expA =? 0xFF then
      if negb (sigA =? 0) then softfloat_propagateNaNF32UI uiA uiB else mret uiA
    else
      let sigB := sigB + (if negb (expB =? 0) then 0x40000000 else sigB) in
      aBigger expA (sigA ||| 0x40000000) (softfloat_shift32RightJam sigB expDiff)
  else if expDiff <? 0 then
    if expB =? 0xFF then
      if negb (sigB =? 0) then softfloat_propagateNaNF32UI uiA uiB
      else mret (packToF32UI (negb signZ) 0xFF 0)
    else
      let sigA := sigA + (if negb (expA =? 0) then 0x40000000 else sigA) in
      bBigger expB (softfloat_shift32RightJam sigA (- expDiff)) (sigB ||| 0x40000000)
  else if expA =? 0xFF then
    if negb (sigA ||| sigB =? 0) then softfloat_propagateNaNF32UI uiA uiB
    else softfloat_raiseFlags softfloat_flag_invalid;; mret defaultNaNF32UI
  else
    let exp := if expA =? 0 then 1 else expA in
    if sigB <? sigA then aBigger exp sigA sigB
    else if sigA <? sigB then bBigger exp sigA sigB
    else mret (packToF32UI (rm =? softfloat_round_min) 0 0).

Definition softfloat_addMagsF64 (rm uiA uiB : Z) (signZ : bool) : flagged Z :=
  let expA := expF64UI uiA in
  let expB := expF64UI uiB in
  let expDiff := expA - expB in
  let sigA := fracF64UI uiA <<< 9 in
  let sigB := fracF64UI uiB <<< 9 in
  let roundPack expZ sigA sigB :=
    let sigZ := 0x2000000000000000 + sigA + sigB in
    if sigZ <? 0x4000000000000000 then softfloat_roundPackToF64 rm signZ (expZ - 1) (sigZ <<< 1)
    else softfloat_roundPackToF64 rm signZ expZ sigZ in
  if expDiff =? 0 then
    if expA =? 0x7FF then
      if negb (sigA ||| sigB =? 0) then softfloat_propagateNaNF64UI uiA uiB else mret uiA
    else if expA =? 0 then mret (packToF64UI signZ 0 (u64 (uiA + uiB) &&& 0x7FFFFFFFFFFFFFFF))
    else softfloat_roundPackToF64 rm signZ expA (0x4000000000000000 + sigA + sigB)
  else if expDiff <? 0 then
    if expB =? 0x7FF then
      if negb (sigB =? 0) then softfloat_propagateNaNF64UI uiA uiB else mret (packToF64UI signZ 0x7FF 0)
    else
      let sigA := sigA + (if negb (expA =? 0) then 0x2000000000000000 else sigA) in
      roundPack expB (softfloat_shift64RightJam sigA (- expDiff)) sigB
  else
    if expA =? 0x7FF then
      if negb (sigA =? 0) then softfloat_propagateNaNF64UI uiA uiB else mret uiA
    else
      let sigB := sigB + (if negb (expB =? 0) then 0x2000000000000000 else sigB) in
      roundPack expA sigA (softfloat_shift64RightJam sigB expDiff).

Definition softfloat_subMagsF64 (rm uiA uiB : Z) (signZ : bool) : flagged Z :=
  let expA := expF64UI uiA in
  let expB := expF64UI uiB in
  let expDiff := expA - expB in
  let sigA := fracF64UI uiA <<< 10 in
  let sigB := fracF64UI uiB <<< 10 in
  let bBigger expB sigA sigB := softfloat_normRoundPackToF64 rm (negb signZ) (expB - 1) (sigB - sigA) in
  let aBigger expA sigA sigB := softfloat_normRoundPackToF64 rm signZ (expA - 1) (sigA - sigB) in
  if 0 <? expDiff then
    if expA =? 0x7FF then
      if negb (sigA =? 0) then softfloat_propagateNaNF64UI uiA uiB else mret uiA
    else
      let sigB := sigB + (if negb (expB =? 0) then 0x4000000000000000 else sigB) in
      aBigger expA (sigA ||| 0x4000000000000000) (softfloat_shift64RightJam sigB expDiff)
  else if expDiff <? 0 then
    if expB =? 0x7FF then
      if negb (sigB =? 0) then softfloat_propagateNaNF64UI uiA uiB
      else mret (packToF64UI (negb signZ) 0x7FF 0)
    else
      let sigA := sigA + (if negb (expA =? 0) then 0x4000000000000000 else sigA) in
      bBigger expB (softfloat_shift64RightJam sigA (- expDiff)) (sigB ||| 0x4000000000000000)
  else if expA =? 0x7FF then
    if negb (sigA ||| sigB =? 0) then softfloat_propagateNaNF64UI uiA uiB
    else softfloat_raiseFlags softfloat_flag_invalid;; mret defaultNaNF64UI
  else
    let exp := if expA =? 0 then 1 else expA in
    if sigB <? sigA then aBigger exp sigA sigB
    else if sigA <? sigB then bBigger exp sigA sigB
    else mret (packToF64UI (rm =? softfloat_round_min) 0 0).

Definition f32_add (rm uiA uiB : Z) : flagged Z :=
  let signA := signF32UI uiA in
  let signB := signF32UI uiB in
  (if Bool.eqb signA signB then softfloat_addMagsF32 else softfloat_subMagsF32) rm uiA uiB signA.

Definition f64_add (rm uiA uiB : Z) : flagged Z :=
  let signA := signF64UI uiA in
  let signB := signF64UI uiB in
  (if Bool.eqb signA signB then softfloat_addMagsF64 else softfloat_subMagsF64) rm uiA uiB signA.

(** ** Numbers of 128 bits: the high and the low word *)

Definition softfloat_add128 (a64 a0 b64 b0 : Z) : Z * Z :=
  let v0 := u64 (a0 + b0) in
  (u64 (u64 (a64 + b64) + Z.b2z (v0 <? a0)), v0).

Definition softfloat_sub128 (a64 a0 b64 b0 : Z) : Z * Z :=
  (u64 (u64 (a64 - b64) - Z.b2z (a0 <? b0)), u64 (a0 - b0)).

Definition softfloat_shortShift128Left (a64 a0 count : Z) : Z * Z :=
  (u64 (a64 <<< count) ||| (a0 >>> ((- count) &&& 63)), u64 (a0 <<< count)).

Definition softfloat_shift128RightJam (a64 a0 count : Z) : Z * Z :=
  if count <? 64 then
    let negCount := - count in
    (a64 >>> (count &&& 63),
     (u64 (a64 <<< (negCount &&& 63)) ||| (a0 >>> count))
       ||| Z.b2z (negb (u64 (a0 <<< (negCount &&& 63)) =? 0)))
  else
    (0, if count <? 128
        then (a64 >>> (count &&& 63))
               ||| Z.b2z (negb ((a64 &&& ((1 <<< (count &&& 63)) - 1)) ||| a0 =? 0))
        else Z.b2z (negb (a64 ||| a0 =? 0))).

Definition softfloat_mul64To128 (a b : Z) : Z * Z :=
  let a32 := a >>> 32 in
  let a0 := u32 a in
  let b32 := b >>> 32 in
  let b0 := u32 b in
  let v0 := a0 * b0 in
  let mid1 := a32 * b0 in
  let mid2 := a0 * b32 in
  let v64 := a32 * b32 in
  let mid := u64 (mid1 + mid2) in
  let v64 := u64 (v64 + (u64 (Z.b2z (mid <? mid1) <<< 32) ||| (mid >>> 32))) in
  let mid := u64 (mid <<< 32) in
  let v0 := u64 (v0 + mid) in
  (u64 (v64 + Z.b2z (v0 <? mid)), v0).

(** The loop that lowers an estimate [z] by [step] until the remainder is not
    negative; [addend z] is what a step adds to it. *)
Fixpoint lower_estimate (fuel : nat) (step : Z) (addend : Z -> Z * Z) (z : Z) (rem : Z * Z) : Z * (Z * Z) :=
  match fuel with
  | O => (z, rem)
  | S fuel =>
      if 0x8000000000000000 <=? rem.1 then
        let z := u64 (z - step) in
        let '(b64, b0) := addend z in
        lower_estimate fuel step addend z (softfloat_add128 rem.1 rem.2 b64 b0)
      else (z, rem)
  end.

(** How many steps the loops are given; they take fewer. *)
Definition ESTIMATE_STEPS : nat := 16.

Definition softfloat_estimateDiv128To64 (a64 a0 b : Z) : Z :=
  if b <=? a64 then 0xFFFFFFFFFFFFFFFF
  else
    let b32 := b >>> 32 in
    let z := if (b32 <<< 32) <=? a64 then 0xFFFFFFFF00000000 else u64 ((a64 / b32) <<< 32) in
    let term := softfloat_mul64To128 b z in
    let rem := softfloat_sub128 a64 a0 term.1 term.2 in
    let '(z, rem) := lower_estimate ESTIMATE_STEPS 0x100000000 (fun _ => (b32, u64 (b <<< 32))) z rem in
    let rem32 := u64 (rem.1 <<< 32) ||| (rem.2 >>> 32) in
    z ||| (if (b32 <<< 32) <=? rem32 then 0xFFFFFFFF else rem32 / b32).

Definition sqrtOddAdjustments : list Z :=
  [0x0004; 0x0022; 0x005D; 0x00B1; 0x011D; 0x019F; 0x0236; 0x02E0;
   0x039C; 0x0468; 0x0545; 0x0631; 0x072B; 0x0832; 0x0946; 0x0A67].

Definition sqrtEvenAdjustments : list Z :=
  [0x0A2D; 0x08AF; 0x075A; 0x0629; 0x051A; 0x0429; 0x0356; 0x029E;
   0x0200; 0x0179; 0x0109; 0x00AF; 0x0068; 0x0034; 0x0012; 0x0002].

Definition softfloat_estimateSqrt32 (expA a : Z) : Z :=
  let index := (a >>> 27) &&& 15 in
  let finish a z := u32 (u32 (u64 (a <<< 31) / z) + (z >>> 1)) in
  if negb (expA &&& 1 =? 0) then
    let z := u32 (0x4000 + (a >>> 17) - sqrtOddAdjustments !z index) in
    let z := u32 (u32 ((a / z) <<< 14) + u32 (z <<< 15)) in
    finish (a >>> 1) z
  else
    let z := u32 (0x8000 + (a >>> 17) - sqrtEvenAdjustments !z index) in
    let z := u32 (a / z + z) in
    let z := if 0x20000 <=? z then 0xFFFF8000 else u32 (z <<< 15) in
    if z <=? a then u32 (s32 a >>> 1) else finish a z.

Definition softfloat_shortShift32Right1Jam (a : Z) : Z := (a >>> 1) ||| (a &&& 1).

(** ** Multiplication *)

Definition f32_mul (rm uiA uiB : Z) : flagged Z :=
  let expA := expF32UI uiA in
  let sigA := fracF32UI uiA in
  let expB := expF32UI uiB in
  let sigB := fracF32UI uiB in
  let signZ := xorb (signF32UI uiA) (signF32UI uiB) in
  let propagateNaN := softfloat_propagateNaNF32UI uiA uiB in
  let infArg magBits :=
    if magBits =? 0 then softfloat_raiseFlags softfloat_flag_invalid;; mret defaultNaNF32UI
    else mret (packToF32UI signZ 0xFF 0) in
  let zero := mret (packToF32UI signZ 0 0) in
  if expA =? 0xFF then
    if negb (sigA =? 0) || ((expB =? 0xFF) && negb (sigB =? 0)) then propagateNaN
    else infArg (expB ||| sigB)
  else if expB =? 0xFF then
    if negb (sigB =? 0) then propagateNaN else infArg (expA ||| sigA)
  else if (expA =? 0) && (sigA =? 0) then zero
  else if (expB =? 0) && (sigB =? 0) then zero
  else
    let '(expA, sigA) := norm_F32 expA sigA in
    let '(expB, sigB) := norm_F32 expB sigB in
    let expZ := expA + expB - 0x7F in
    let sigA := (sigA ||| 0x00800000) <<< 7 in
    let sigB := (sigB ||| 0x00800000) <<< 8 in
    let sigZ := softfloat_shortShift64RightJam (sigA * sigB) 32 in
    if sigZ <? 0x40000000 then softfloat_roundPackToF32 rm signZ (expZ - 1) (sigZ <<< 1)
    else softfloat_roundPackToF32 rm signZ expZ sigZ.

Definition f64_mul (rm uiA uiB : Z) : flagged Z :=
  let expA := expF64UI uiA in
  let sigA := fracF64UI uiA in
  let expB := expF64UI uiB in
  let sigB := fracF64UI uiB in
  let signZ := xorb (signF64UI uiA) (signF64UI uiB) in
  let propagateNaN := softfloat_propagateNaNF64UI uiA uiB in
  let infArg magBits :=
    if magBits =? 0 then softfloat_raiseFlags softfloat_flag_invalid;; mret defaultNaNF64UI
    else mret (packToF64UI signZ 0x7FF 0) in
  let zero := mret (packToF64UI signZ 0 0) in
  if expA =? 0x7FF then
    if negb (sigA =? 0) || ((expB =? 0x7FF) && negb (sigB =? 0)) then propagateNaN
    else infArg (expB ||| sigB)
  else if expB =? 0x7FF then
    if negb (sigB =? 0) then propagateNaN else infArg (expA ||| sigA)
  else if (expA =? 0) && (sigA =? 0) then zero
  else if (expB =? 0) && (sigB =? 0) then zero
  else
    let '(expA, sigA) := norm_F64 expA sigA in
    let '(expB, sigB) := norm_F64 expB sigB in
    let expZ := expA + expB - 0x3FF in
    let sigA := (sigA ||| 0x0010000000000000) <<< 10 in
    let sigB := (sigB ||| 0x0010000000000000) <<< 11 in
    let '(v64, v0) := softfloat_mul64To128 sigA sigB in
    let sigZ := v64 ||| Z.b2z (negb (v0 =? 0)) in
    if sigZ <? 0x4000000000000000 then softfloat_roundPackToF64 rm signZ (expZ - 1) (sigZ <<< 1)
    else softfloat_roundPackToF64 rm signZ expZ sigZ.

(** ** Division *)

Definition f32_div (rm uiA uiB : Z) : flagged Z :=
  let expA := expF32UI uiA in
  let sigA := fracF32UI uiA in
  let expB := expF32UI uiB in
  let sigB := fracF32UI uiB in
  let signZ := xorb (signF32UI uiA) (signF32UI uiB) in
  let propagateNaN := softfloat_propagateNaNF32UI uiA uiB in
  let invalid := softfloat_raiseFlags softfloat_flag_invalid;; mret defaultNaNF32UI in
  let infinity := mret (packToF32UI signZ 0xFF 0) in
  let zero := mret (packToF32UI signZ 0 0) in
  if expA =? 0xFF then
    if negb (sigA =? 0) then propagateNaN
    else if expB =? 0xFF then if negb (sigB =? 0) then propagateNaN else invalid
    else infinity
  else if expB =? 0xFF then if negb (sigB =? 0) then propagateNaN else zero
  else if (expB =? 0) && (sigB =? 0) then
    if expA ||| sigA =? 0 then invalid else softfloat_raiseFlags softfloat_flag_infinity;; infinity
  else if (expA =? 0) && (sigA =? 0) then zero
  else
    let '(expB, sigB) := norm_F32 expB sigB in
    let '(expA, sigA) := norm_F32 expA sigA in
    let expZ := expA - expB + 0x7D in
    let sigA := (sigA ||| 0x00800000) <<< 7 in
    let sigB := (sigB ||| 0x00800000) <<< 8 in
    let '(expZ, sigA) := if sigB <=? sigA + sigA then (expZ + 1, sigA >>> 1) else (expZ, sigA) in
    let sigZ := (sigA <<< 32) / sigB in
    let sigZ :=
      if sigZ &&& 0x3F =? 0 then sigZ ||| Z.b2z (negb (sigB * sigZ =? sigA <<< 32)) else sigZ in
    softfloat_roundPackToF32 rm signZ expZ sigZ.

Definition f64_div (rm uiA uiB : Z) : flagged Z :=
  let expA := expF64UI uiA in
  let sigA := fracF64UI uiA in
  let expB := expF64UI uiB in
  let sigB := fracF64UI uiB in
  let signZ := xorb (signF64UI uiA) (signF64UI uiB) in
  let propagateNaN := softfloat_propagateNaNF64UI uiA uiB in
  let invalid := softfloat_raiseFlags softfloat_flag_invalid;; mret defaultNaNF64UI in
  let infinity := mret (packToF64UI signZ 0x7FF 0) in
  let zero := mret (packToF64UI signZ 0 0) in
  if expA =? 0x7FF then
    if negb (sigA =? 0) then propagateNaN
    else if expB =? 0x7FF then if negb (sigB =? 0) then propagateNaN else invalid
    else infinity
  else if expB =? 0x7FF then if negb (sigB =? 0) then propagateNaN else zero
  else if (expB =? 0) && (sigB =? 0) then
    if expA ||| sigA =? 0 then invalid else softfloat_raiseFlags softfloat_flag_infinity;; infinity
  else if (expA =? 0) && (sigA =? 0) then zero
  else
    let '(expB, sigB) := norm_F64 expB sigB in
    let '(expA, sigA) := norm_F64 expA sigA in
    let expZ := expA - expB + 0x3FD in
    let sigA := (sigA ||| 0x0010000000000000) <<< 10 in
    let sigB := (sigB ||| 0x0010000000000000) <<< 11 in
    let '(expZ, sigA) := if sigB <=? u64 (sigA + sigA) then (expZ + 1, sigA >>> 1) else (expZ, sigA) in
    let sigZ := softfloat_estimateDiv128To64 sigA 0 sigB in
    let sigZ :=
      if sigZ &&& 0x1FF <=? 2 then
        let term := softfloat_mul64To128 sigB sigZ in
        let rem := softfloat_sub128 sigA 0 term.1 term.2 in
        let '(sigZ, rem) := lower_estimate ESTIMATE_STEPS 1 (fun _ => (0, sigB)) sigZ rem in
        sigZ ||| Z.b2z (negb (rem.2 =? 0))
      else sigZ in
    softfloat_roundPackToF64 rm signZ expZ sigZ.

(** ** Square root *)

(** The loop of [f32_sqrt] that lowers the root until the remainder is not
    negative. *)
Fixpoint lower_root (fuel : nat) (sigZ rem : Z) : Z * Z :=
  match fuel with
  | O => (sigZ, rem)
  | S fuel =>
      if 0x8000000000000000 <=? rem then
        let sigZ := u32 (sigZ - 1) in
        lower_root fuel sigZ (u64 (rem + ((sigZ <<< 1) ||| 1)))
      else (sigZ, rem)
  end.

Definition f32_sqrt (rm uiA : Z) : flagged Z :=
  let signA := signF32UI uiA in
  let expA := expF32UI uiA in
  let sigA := fracF32UI uiA in
  let invalid := softfloat_raiseFlags softfloat_flag_invalid;; mret defaultNaNF32UI in
  if expA =? 0xFF then
    if negb (sigA =? 0) then softfloat_propagateNaNF32UI uiA 0
    else if negb signA then mret uiA else invalid
  else if signA then if expA ||| sigA =? 0 then mret uiA else invalid
  else if (expA =? 0) && (sigA =? 0) then mret uiA
  else
    let '(expA, sigA) := norm_F32 expA sigA in
    let expZ := ((expA - 0x7F) >>> 1) + 0x7E in
    let sigA := (sigA ||| 0x00800000) <<< 8 in
    let sigZ := u32 (softfloat_estimateSqrt32 (u32 expA) sigA + 2) in
    if (sigZ &&& 0x7F) <=? 5 then
      if sigZ <? 2 then softfloat_roundPackToF32 rm false expZ 0x7FFFFFFF
      else
        let sigA := sigA >>> (expA &&& 1) in
        let term := u64 (sigZ * sigZ) in
        let rem := u64 (u64 (sigA <<< 32) - term) in
        let '(sigZ, rem) := lower_root ESTIMATE_STEPS sigZ rem in
        let sigZ := sigZ ||| Z.b2z (negb (rem =? 0)) in
        softfloat_roundPackToF32 rm false expZ (softfloat_shortShift32Right1Jam sigZ)
    else softfloat_roundPackToF32 rm false expZ (softfloat_shortShift32Right1Jam sigZ).

Definition f64_sqrt (rm uiA : Z) : flagged Z :=
  let signA := signF64UI uiA in
  let expA := expF64UI uiA in
  let sigA := fracF64UI uiA in
  let invalid := softfloat_raiseFlags softfloat_flag_invalid;; mret defaultNaNF64UI in
  if expA =? 0x7FF then
    if negb (sigA =? 0) then softfloat_propagateNaNF64UI uiA 0
    else if negb signA then mret uiA else invalid
  else if signA then if expA ||| sigA =? 0 then mret uiA else invalid
  else if (expA =? 0) && (sigA =? 0) then mret uiA
  else
    let '(expA, sigA) := norm_F64 expA sigA in
    let expZ := ((expA - 0x3FF) >>> 1) + 0x3FE in
    let sigA := sigA ||| 0x0010000000000000 in
    let sigZ32 := softfloat_estimateSqrt32 (u32 expA) (u32 (sigA >>> 21)) in
    let sigA := sigA <<< (9 - (expA &&& 1)) in
    let sigZ := u64 (softfloat_estimateDiv128To64 sigA 0 (sigZ32 <<< 32) + (sigZ32 <<< 30)) in
    let sigZ :=
      if (sigZ &&& 0x1FF) <=? 5 then
        let term := softfloat_mul64To128 sigZ sigZ in
        let rem := softfloat_sub128 sigA 0 term.1 term.2 in
        let '(sigZ, rem) := lower_estimate ESTIMATE_STEPS 1 (fun z => (z >>> 63, u64 (z <<< 1))) sigZ rem in
        sigZ ||| Z.b2z (negb (rem.1 ||| rem.2 =? 0))
      else sigZ in
    softfloat_roundPackToF64 rm false expZ sigZ.

(** ** Multiplication with addition *)

Definition softfloat_mulAdd_subC : Z := 1.
Definition softfloat_mulAdd_subProd : Z := 2.

Definition softfloat_mulAddF32 (rm op uiA uiB uiC : Z) : flagged Z :=
  let expA := expF32UI uiA in
  let sigA := fracF32UI uiA in
  let expB := expF32UI uiB in
  let sigB := fracF32UI uiB in
  let signC := xorb (signF32UI uiC) (op =? softfloat_mulAdd_subC) in
  let expC := expF32UI uiC in
  let sigC := fracF32UI uiC in
  let signProd := xorb (xorb (signF32UI uiA) (signF32UI uiB)) (op =? softfloat_mulAdd_subProd) in
  let propagateNaN_ZC uiZ := softfloat_propagateNaNF32UI uiZ uiC in
  let propagateNaN_ABC := uiZ ← softfloat_propagateNaNF32UI uiA uiB; propagateNaN_ZC uiZ in
  let invalid := softfloat_raiseFlags softfloat_flag_invalid;; propagateNaN_ZC defaultNaNF32UI in
  let infProdArg magBits :=
    if negb (magBits =? 0) then
      let uiZ := packToF32UI signProd 0xFF 0 in
      if negb (expC =? 0xFF) then mret uiZ
      else if negb (sigC =? 0) then propagateNaN_ZC uiZ
      else if Bool.eqb signProd signC then mret uiZ else invalid
    else invalid in
  let completeCancellation := mret (packToF32UI (rm =? softfloat_round_min) 0 0) in
  let zeroProd :=
    if (expC ||| sigC =? 0) && xorb signProd signC then completeCancellation else mret uiC in
  if expA =? 0xFF then
    if negb (sigA =? 0) || ((expB =? 0xFF) && negb (sigB =? 0)) then propagateNaN_ABC
    else infProdArg (expB ||| sigB)
  else if expB =? 0xFF then
    if negb (sigB =? 0) then propagateNaN_ABC else infProdArg (expA ||| sigA)
  else if expC =? 0xFF then if negb (sigC =? 0) then propagateNaN_ZC 0 else mret uiC
  else if (expA =? 0) && (sigA =? 0) then zeroProd
  else if (expB =? 0) && (sigB =? 0) then zeroProd
  else
    let '(expA, sigA) := norm_F32 expA sigA in
    let '(expB, sigB) := norm_F32 expB sigB in
    let expProd := expA + expB - 0x7E in
    let sigA := (sigA ||| 0x00800000) <<< 7 in
    let sigB := (sigB ||| 0x00800000) <<< 7 in
    let sigProd := sigA * sigB in
    let '(expProd, sigProd) :=
      if sigProd <? 0x2000000000000000 then (expProd - 1, sigProd <<< 1) else (expProd, sigProd) in
    if (expC =? 0) && (sigC =? 0)
    then softfloat_roundPackToF32 rm signProd (expProd - 1) (softfloat_shortShift64RightJam sigProd 31)
    else
      let '(expC, sigC) := norm_F32 expC sigC in
      let sigC := (sigC ||| 0x00800000) <<< 6 in
      let expDiff := expProd - expC in
      if Bool.eqb signProd signC then
        let '(expZ, sigZ) :=
          if expDiff <=? 0 then (expC, sigC + softfloat_shift64RightJam sigProd (32 - expDiff))
          else
            let sigZ64 := sigProd + softfloat_shift64RightJam (sigC <<< 32) expDiff in
            (expProd, softfloat_shortShift64RightJam sigZ64 32) in
        if sigZ <? 0x40000000 then softfloat_roundPackToF32 rm signProd (expZ - 1) (sigZ <<< 1)
        else softfloat_roundPackToF32 rm signProd expZ sigZ
      else
        let sigC64 := sigC <<< 32 in
        let finish signZ expZ sigZ64 :=
          let shiftCount := softfloat_countLeadingZeros64 sigZ64 - 1 in
          let expZ := expZ - shiftCount in
          let shiftCount := shiftCount - 32 in
          softfloat_roundPackToF32 rm signZ expZ
            (if shiftCount <? 0 then softfloat_shortShift64RightJam sigZ64 (- shiftCount)
             else u32 (u32 sigZ64 <<< shiftCount)) in
        if expDiff <? 0 then finish signC expC (sigC64 - softfloat_shift64RightJam sigProd (- expDiff))
        else if expDiff =? 0 then
          let sigZ64 := u64 (sigProd - sigC64) in
          if sigZ64 =? 0 then completeCancellation
          else if negb (sigZ64 &&& 0x8000000000000000 =? 0)
          then finish (negb signProd) expProd (u64 (- sigZ64))
          else finish signProd expProd sigZ64
        else finish signProd expProd (sigProd - softfloat_shift64RightJam sigC64 expDiff).

Definition softfloat_mulAddF64 (rm op uiA uiB uiC : Z) : flagged Z :=
  let expA := expF64UI uiA in
  let sigA := fracF64UI uiA in
  let expB := expF64UI uiB in
  let sigB := fracF64UI uiB in
  let signC := xorb (signF64UI uiC) (negb (op &&& softfloat_mulAdd_subC =? 0)) in
  let expC := expF64UI uiC in
  let sigC := fracF64UI uiC in
  let signProd := xorb (xorb (signF64UI uiA) (signF64UI uiB)) (negb (op &&& softfloat_mulAdd_subProd =? 0)) in
  let propagateNaN_ZC uiZ := softfloat_propagateNaNF64UI uiZ uiC in
  let propagateNaN_ABC := uiZ ← softfloat_propagateNaNF64UI uiA uiB; propagateNaN_ZC uiZ in
  let invalid := softfloat_raiseFlags softfloat_flag_invalid;; propagateNaN_ZC defaultNaNF64UI in
  let infProdArg magBits :=
    if negb (magBits =? 0) then
      let uiZ := packToF64UI signProd 0x7FF 0 in
      if negb (expC =? 0x7FF) then mret uiZ
      else if negb (sigC =? 0) then propagateNaN_ZC uiZ
      else if Bool.eqb signProd signC then mret uiZ else invalid
    else invalid in
  let completeCancellation := mret (packToF64UI (rm =? softfloat_round_min) 0 0) in
  let zeroProd :=
    if (expC ||| sigC =? 0) && xorb signProd signC then completeCancellation else mret uiC in
  if expA =? 0x7FF then
    if negb (sigA =? 0) || ((expB =? 0x7FF) && negb (sigB =? 0)) then propagateNaN_ABC
    else infProdArg (expB ||| sigB)
  else if expB =? 0x7FF then
    if negb (sigB =? 0) then propagateNaN_ABC else infProdArg (expA ||| sigA)
  else if expC =? 0x7FF then if negb (sigC =? 0) then propagateNaN_ZC 0 else mret uiC
  else if (expA =? 0) && (sigA =? 0) then zeroProd
  else if (expB =? 0) && (sigB =? 0) then zeroProd
  else
    let '(expA, sigA) := norm_F64 expA sigA in
    let '(expB, sigB) := norm_F64 expB sigB in
    let expProd := expA + expB - 0x3FE in
    let sigA := (sigA ||| 0x0010000000000000) <<< 10 in
    let sigB := (sigB ||| 0x0010000000000000) <<< 10 in
    let sigProd := softfloat_mul64To128 sigA sigB in
    let '(expProd, sigProd) :=
      if sigProd.1 <? 0x2000000000000000
      then (expProd - 1, softfloat_shortShift128Left sigProd.1 sigProd.2 1) else (expProd, sigProd) in
    if (expC =? 0) && (sigC =? 0)
    then softfloat_roundPackToF64 rm signProd (expProd - 1)
           (u64 (sigProd.1 <<< 1) ||| Z.b2z (negb (sigProd.2 =? 0)))
    else
      let '(expC, sigC) := norm_F64 expC sigC in
      let sigC := (sigC ||| 0x0010000000000000) <<< 9 in
      let expDiff := expProd - expC in
      if Bool.eqb signProd signC then
        let '(expZ, sigZ) :=
          if expDiff <=? 0 then
            let v64 := if negb (expDiff =? 0) then softfloat_shift64RightJam sigProd.1 (- expDiff) else sigProd.1 in
            (expC, (sigC + v64) ||| Z.b2z (negb (sigProd.2 =? 0)))
          else
            let sigC128 := softfloat_shift128RightJam sigC 0 expDiff in
            let sigZ128 := softfloat_add128 sigProd.1 sigProd.2 sigC128.1 sigC128.2 in
            (expProd, sigZ128.1 ||| Z.b2z (negb (sigZ128.2 =? 0))) in
        if sigZ <? 0x4000000000000000 then softfloat_roundPackToF64 rm signProd (expZ - 1) (sigZ <<< 1)
        else softfloat_roundPackToF64 rm signProd expZ sigZ
      else
        let finish signZ expZ (sigZ128 : Z * Z) :=
          let '(expZ, sigZ128) := if sigZ128.1 =? 0 then (expZ - 64, (sigZ128.2, 0)) else (expZ, sigZ128) in
          let shiftCount := softfloat_countLeadingZeros64 sigZ128.1 - 1 in
          let expZ := expZ - shiftCount in
          let '(sigZ, v0) :=
            if shiftCount <? 0 then (softfloat_shortShift64RightJam sigZ128.1 (- shiftCount), sigZ128.2)
            else softfloat_shortShift128Left sigZ128.1 sigZ128.2 shiftCount in
          softfloat_roundPackToF64 rm signZ expZ (sigZ ||| Z.b2z (negb (v0 =? 0))) in
        if expDiff <? 0 then
          let sigProd := softfloat_shift128RightJam sigProd.1 sigProd.2 (- expDiff) in
          finish signC expC (softfloat_sub128 sigC 0 sigProd.1 sigProd.2)
        else if expDiff =? 0 then
          let sigZ128 := softfloat_sub128 sigProd.1 sigProd.2 sigC 0 in
          if sigZ128.1 ||| sigZ128.2 =? 0 then completeCancellation
          else if negb (sigZ128.1 &&& 0x8000000000000000 =? 0)
          then finish (negb signProd) expProd (softfloat_sub128 0 0 sigZ128.1 sigZ128.2)
          else finish signProd expProd sigZ128
        else
          let sigC128 := softfloat_shift128RightJam sigC 0 expDiff in
          finish signProd expProd (softfloat_sub128 sigProd.1 sigProd.2 sigC128.1 sigC128.2).
