(* ===== verification/SoftFloatSpec.v ===== *)
(** * Rounding of floating-point numbers

    What the IEEE standard asks of a result: formats, the numbers that bit
    patterns stand for, and rounding in every mode, with the flags; and that the
    functions that round and pack in fpga/bootloader/softfloat do that.

    The magnitudes of a format are counted in units of the least of them, so
    that they are integers, and the patterns without the sign, as numbers, are
    in the order of the magnitudes.  An exact result is given by how integers
    compare with twice its magnitude. *)

From S2P Require Import Prelude SoftFloat SoftFloatArith.

(** ** Formats *)

Record format : Type := MkFormat { fb : Z; (* fraction bits *) eb : Z (* exponent bits *) }.
Definition binary32 : format := MkFormat 23 8.
Definition binary64 : format := MkFormat 52 11.

Section format.
Context (f : format).

Definition sign_bit : Z := 2 ^ (fb f + eb f).
Definition inf_bits : Z := (2 ^ eb f - 1) * 2 ^ fb f.
Definition default_nan : Z := 2 * sign_bit - 1.
(** The least magnitude is 2^-[unit_exp]. *)
Definition unit_exp : Z := 2 ^ (eb f - 1) + fb f - 2.

Definition negative (u : Z) : bool := sign_bit <=? u.
Definition mag (u : Z) : Z := u mod sign_bit.
Definition is_nan (u : Z) : bool := inf_bits <? mag u.
Definition is_signaling (u : Z) : bool := is_nan u && negb (Z.testbit u (fb f - 1)).
Definition is_inf (u : Z) : bool := mag u =? inf_bits.
Definition pack (s : bool) (m : Z) : Z := Z.b2z s * sign_bit + m.

(** The magnitude of a pattern, in units; those from [inf_bits] on are read as
    the numbers that would follow if there were more exponents. *)
Definition fval (b : Z) : Z :=
  if b <? 2 ^ fb f then b else (2 ^ fb f + b mod 2 ^ fb f) * 2 ^ (b / 2 ^ fb f - 1).

Definition fvalue (u : Z) : Z := if negative u then - fval (mag u) else fval (mag u).

(** ** Rounding *)

(** Whether a magnitude strictly between two patterns goes up to the higher one:
    [c] is how half their sum compares with it.  A mode that is none of the five
    rounds away from 0. *)
Definition goes_up (rm : Z) (s : bool) (c : comparison) (odd : bool) : bool :=
  if rm =? softfloat_round_nearest_even then match c with Lt => true | Eq => odd | Gt => false end
  else if rm =? softfloat_round_nearest_maxMag then match c with Gt => false | _ => true end
  else negb ((rm =? softfloat_round_minMag) || (rm =? if s then softfloat_round_max else softfloat_round_min)).

(** Whether an overflow gives infinity and not the greatest number. *)
Definition overflows_to_inf (rm : Z) (s : bool) : bool := goes_up rm s Lt true.

Definition round_from (rm : Z) (s : bool) (c : Z -> comparison) (b : Z) : Z * Z :=
  let exact := match c (2 * fval b) with Eq => true | _ => false end in
  let r := if exact then b else b + Z.b2z (goes_up rm s (c (fval b + fval (b + 1))) (Z.odd b)) in
  if inf_bits <=? r then
    (pack s (inf_bits - Z.b2z (negb (overflows_to_inf rm s))), softfloat_flag_overflow ||| softfloat_flag_inexact)
  else
    (pack s r, if exact then 0
               else softfloat_flag_inexact ||| (if b <? 2 ^ fb f then softfloat_flag_underflow else 0)).

(** [r] is the pattern and the flags of a number with the sign [s] rounded, if an
    integer compares with twice its magnitude as [c] says: [b] is the greatest
    pattern that is not above it. *)
Definition rounds (rm : Z) (s : bool) (c : Z -> comparison) (r : Z * Z) : Prop :=
  exists b, 0 <= b /\ c (2 * fval b) <> Gt /\ c (2 * fval (b + 1)) = Gt /\ r = round_from rm s c b.

End format.

(** The comparison for a quotient, and for a square root. *)
Definition ratio (n d : Z) : Z -> comparison := fun t => t * d ?= n.
Definition twice_ratio (n d : Z) : Z -> comparison := ratio (2 * n) d.

Lemma fval_encode f e m :
  0 <= fb f -> 0 <= e -> 0 <= m <= 2 ^ (fb f + 1) -> e = 0 \/ 2 ^ fb f <= m -> fval f (e * 2 ^ fb f + m) = m * 2 ^ e.
Proof.
  intros Hf He Hm Hc. unfold fval. set (F := 2 ^ fb f) in *.
  assert (HF : 0 < F) by (apply pow2_pos; lia).
  rewrite Z.pow_add_r, Z.pow_1_r in Hm by lia. fold F in Hm.
  destruct (Z.ltb_spec (e * F + m) F).
  { assert (e = 0) as -> by nia. rewrite Z.mul_0_l, Z.add_0_l, Z.pow_0_r. lia. }
  assert (HmF : F <= m) by nia.
  destruct (decide (m = 2 * F)) as [->|].
  - replace (e * F + 2 * F) with ((e + 2) * F) by ring. rewrite Z.mod_mul, Z.div_mul by lia.
    replace (e + 2 - 1) with (Z.succ e) by lia. rewrite Z.pow_succ_r by lia. ring.
  - replace (e * F + m) with ((m - F) + (e + 1) * F) by ring.
    rewrite Z.mod_add, Z.div_add, Z.mod_small, Z.div_small by lia.
    replace (0 + (e + 1) - 1) with e by lia. f_equal. lia.
Qed.

(** ** Shifts that keep track of lost bits *)

Lemma lor_1 q : q ||| 1 = if Z.odd q then q else q + 1.
Proof.
  pose proof (Z.div_mod q 2 ltac:(lia)) as Hq. rewrite Zmod_odd in Hq.
  assert (H0 : q = (q / 2 <<< 1) ||| Z.b2z (Z.odd q)).
  { rewrite lor_disjoint_add by (destruct (Z.odd q); simpl; lia).
    rewrite Z.pow_1_r. destruct (Z.odd q); simpl; lia. }
  rewrite H0 at 1. rewrite <- Z.lor_assoc.
  replace (Z.b2z (Z.odd q) ||| 1) with 1 by (by destruct (Z.odd q)).
  rewrite lor_disjoint_add by lia. rewrite Z.pow_1_r. destruct (Z.odd q); lia.
Qed.

Definition jam (a n : Z) : Z := (a / 2 ^ n) ||| Z.b2z (negb (a mod 2 ^ n =? 0)).

Lemma jam_alt a n :
  jam a n = if (a mod 2 ^ n =? 0) || Z.odd (a / 2 ^ n) then a / 2 ^ n else a / 2 ^ n + 1.
Proof.
  unfold jam. destruct (a mod 2 ^ n =? 0); simpl; [by rewrite Z.lor_0_r|].
  rewrite lor_1. by destruct (Z.odd _).
Qed.

Lemma compare_mul_r a b k : 0 < k -> (a * k ?= b * k) = (a ?= b).
Proof. intros Hk. by rewrite <- Zmult_compare_compat_r by lia. Qed.

Lemma compare_add_r a b k : (a + k ?= b + k) = (a ?= b).
Proof. rewrite !(Z.add_comm _ k). apply Z.add_compare_mono_l. Qed.

(** A jammed value compares with even numbers as the exact one does. *)
Lemma jam_compare a n j : 0 <= n -> (2 * j * 2 ^ n ?= a) = (2 * j ?= jam a n).
Proof.
  intros Hn. rewrite jam_alt. pose proof (pow2_pos n Hn) as HN.
  pose proof (Z.div_mod a (2 ^ n) ltac:(lia)) as Ha. pose proof (Z.mod_pos_bound a (2 ^ n) HN) as Hr.
  set (q := a / 2 ^ n) in *. set (r := a mod 2 ^ n) in *. set (N := 2 ^ n) in *.
  destruct (Z.eqb_spec r 0) as [H0|H0]; cbn [orb].
  { replace a with (q * N) by lia. by apply compare_mul_r. }
  pose proof (Zodd_bool_iff q) as Ho. pose proof (Zeven_odd_bool q) as Hoe.
  assert (Hcase : exists k, q = 2 * k + Z.b2z (Z.odd q)).
  { exists (q / 2). pose proof (Z.div_mod q 2 ltac:(lia)) as Hq. rewrite Zmod_odd in Hq. by destruct (Z.odd q). }
  destruct Hcase as [k Hk].
  assert (Hj : (2 * j * N ?= a) = if 2 * j <=? q then Lt else Gt).
  { destruct (Z.leb_spec (2 * j) q); [apply Z.compare_lt_iff|apply Z.compare_gt_iff]; nia. }
  rewrite Hj. symmetry. destruct (Z.odd q); cbn [Z.b2z] in Hk;
    destruct (Z.leb_spec (2 * j) q); (apply Z.compare_lt_iff || apply Z.compare_gt_iff); lia.
Qed.

Lemma jam_range a n k : 0 <= n -> 0 <= k -> 0 <= a < 2 ^ (n + k) -> 0 <= jam a n < 2 ^ k \/ k = 0.
Proof.
  intros Hn Hk Ha. destruct (decide (k = 0)); [by right|left].
  rewrite Z.pow_add_r in Ha by lia. pose proof (pow2_pos n Hn).
  assert (0 <= a / 2 ^ n < 2 ^ k).
  { split; [apply Z.div_pos; lia|]. apply Z.div_lt_upper_bound; lia. }
  rewrite jam_alt. destruct ((a mod 2 ^ n =? 0) || Z.odd (a / 2 ^ n)) eqn:E; [done|].
  apply orb_false_iff in E as [_ E].
  assert (2 ^ k = 2 * 2 ^ (k - 1)) by (rewrite <- Z.pow_succ_r by lia; f_equal; lia).
  pose proof (Z.div_mod (a / 2 ^ n) 2 ltac:(lia)) as Hq. rewrite Zmod_odd, E in Hq. lia.
Qed.

Lemma shiftl_zero_test a w n :
  0 < n < w -> 0 <= a -> ((a <<< (w - n)) mod 2 ^ w =? 0) = (a mod 2 ^ n =? 0).
Proof.
  intros Hn Ha. rewrite shiftl_mul by lia.
  replace (2 ^ w) with (2 ^ n * 2 ^ (w - n)) by (rewrite <- Z.pow_add_r by lia; f_equal; lia).
  rewrite Z.mul_mod_distr_r by (pose proof (pow2_pos n); pose proof (pow2_pos (w - n)); lia).
  pose proof (pow2_pos (w - n) ltac:(lia)).
  destruct (Z.eqb_spec (a mod 2 ^ n) 0) as [->|H0]; [done|]. apply Z.eqb_neq. nia.
Qed.

Lemma jam_all a n w : 0 <= w <= n -> 0 <= a < 2 ^ w -> jam a n = Z.b2z (negb (a =? 0)).
Proof.
  intros Hw Ha. pose proof (pow2_mono w n ltac:(lia)).
  unfold jam. rewrite Z.div_small, Z.mod_small by lia. done.
Qed.

Lemma neg_land_31 n : 0 < n < 32 -> (- n) &&& 31 = 32 - n.
Proof. intros. change 31 with (2 ^ 5 - 1). rewrite land_pow2_mask by lia. zdm. Qed.
Lemma neg_land_63 n : 0 < n < 64 -> (- n) &&& 63 = 64 - n.
Proof. intros. change 63 with (2 ^ 6 - 1). rewrite land_pow2_mask by lia. zdm. Qed.

Lemma shift32RightJam_eq a n : 0 <= a < 2 ^ 32 -> 0 < n -> softfloat_shift32RightJam a n = jam a n.
Proof.
  intros Ha Hn. unfold softfloat_shift32RightJam. destruct (Z.ltb_spec n 32).
  - rewrite neg_land_31 by lia. unfold u32. rewrite shiftl_zero_test, shiftr_div by lia. done.
  - by rewrite (jam_all a n 32) by lia.
Qed.

Lemma shift64RightJam_eq a n : 0 <= a < 2 ^ 64 -> 0 < n -> softfloat_shift64RightJam a n = jam a n.
Proof.
  intros Ha Hn. unfold softfloat_shift64RightJam. destruct (Z.ltb_spec n 64).
  - rewrite neg_land_63 by lia. unfold u64. rewrite shiftl_zero_test, shiftr_div by lia. done.
  - by rewrite (jam_all a n 64) by lia.
Qed.

Lemma shortShift64RightJam_eq a n : 0 <= n -> softfloat_shortShift64RightJam a n = jam a n.
Proof.
  intros Hn. unfold softfloat_shortShift64RightJam.
  rewrite (shiftl_mul 1), Z.mul_1_l, land_pow2_mask, shiftr_div by lia. done.
Qed.

(** ** Rounding *)

(** [s] compares with the multiples of [W] as the exact number of [v] does. *)
Definition agrees (W : Z) (v : Z -> comparison) (s : Z) : Prop := forall j, v (j * W) = (j * W ?= s).

Section rounding.
Context (f : format) (g : Z) (Hfb : 1 <= fb f) (Hg : 2 <= g).
#[local] Notation F := (2 ^ fb f).
#[local] Notation half := (2 ^ (g - 1)).

Lemma pow_g : 2 ^ g = 2 * half.
Proof using Hg. rewrite <- Z.pow_succ_r by lia. f_equal. lia. Qed.

Lemma half_even : exists k, half = 2 * k /\ 0 < k.
Proof using Hg.
  exists (2 ^ (g - 2)). split; [|apply pow2_pos; lia]. rewrite <- Z.pow_succ_r by lia. f_equal. lia.
Qed.

(** A significand with [g] guard bits, and the neighbours of its number. *)
Lemma neighbours c e sig :
  0 <= e -> 0 <= sig < 2 ^ (fb f + g + 1) -> e = 0 \/ 2 ^ (fb f + g) <= sig ->
  (forall j, c (j * 2 ^ e) = (j * half ?= sig)) ->
  let m := sig / 2 ^ g in let rb := sig mod 2 ^ g in let b := e * F + m in
  0 <= m < 2 ^ (fb f + 1) /\ (e = 0 \/ F <= m) /\
  c (2 * fval f b) = (0 ?= rb) /\ c (fval f b + fval f (b + 1)) = (half ?= rb) /\ c (2 * fval f (b + 1)) = Gt.
Proof using Hfb Hg.
  intros He Hs Hn Hc m rb b.
  assert (HG : 2 ^ g = 2 * half) by apply pow_g.
  assert (Hh : 0 < half) by (apply pow2_pos; lia).
  assert (Hdm : sig = 2 ^ g * m + rb) by (apply Z.div_mod; lia).
  assert (Hrb : 0 <= rb < 2 ^ g) by (apply Z.mod_pos_bound; lia).
  assert (HF : 0 < F) by (apply pow2_pos; lia).
  assert (HFG : 2 ^ (fb f + g) = F * 2 ^ g) by (rewrite Z.pow_add_r by lia; done).
  assert (HFG' : 2 ^ (fb f + g + 1) = 2 * F * 2 ^ g) by (rewrite Z.pow_add_r, HFG by lia; lia).
  assert (HF1 : 2 ^ (fb f + 1) = 2 * F) by (rewrite Z.pow_add_r by lia; lia).
  assert (Hm : 0 <= m < 2 ^ (fb f + 1)) by nia.
  assert (Hme : e = 0 \/ F <= m) by (destruct Hn; [by left|right; nia]).
  assert (Hv0 : fval f b = m * 2 ^ e) by (apply fval_encode; lia).
  assert (Hv1 : fval f (b + 1) = (m + 1) * 2 ^ e).
  { replace (b + 1) with (e * F + (m + 1)) by (subst b; lia). apply fval_encode; lia. }
  rewrite Hv0, Hv1.
  replace (2 * (m * 2 ^ e)) with (2 * m * 2 ^ e) by ring.
  replace (m * 2 ^ e + (m + 1) * 2 ^ e) with ((2 * m + 1) * 2 ^ e) by ring.
  replace (2 * ((m + 1) * 2 ^ e)) with ((2 * m + 2) * 2 ^ e) by ring.
  rewrite !Hc. repeat split; try done; try lia.
  - replace (2 * m * half) with (0 + 2 ^ g * m) by lia. rewrite Hdm.
    rewrite (Z.add_comm _ rb). apply compare_add_r.
  - replace ((2 * m + 1) * half) with (half + 2 ^ g * m) by lia. rewrite Hdm.
    rewrite (Z.add_comm _ rb). apply compare_add_r.
  - apply Z.compare_gt_iff. nia.
Qed.

Definition step_up (rm : Z) (s : bool) (m rb : Z) : bool :=
  if rb =? 0 then false else goes_up rm s (half ?= rb) (Z.odd m).

(** What the increment and the mask make of the significand. *)
Lemma increment_eq rm s sig :
  0 <= sig ->
  let m := sig / 2 ^ g in let rb := sig mod 2 ^ g in
  ((sig + round_increment rm s half (2 ^ g - 1)) >>> g)
    &&& Z.lnot (Z.b2z ((rb ^^^ half =? 0) && (rm =? softfloat_round_nearest_even)))
  = m + Z.b2z (step_up rm s m rb).
Proof using Hg.
  intros Hs m rb. rewrite shiftr_div by lia.
  assert (HG : 2 ^ g = 2 * half) by apply pow_g.
  assert (Hh : 0 < half) by (apply pow2_pos; lia).
  assert (Hdm : sig = rb + m * 2 ^ g) by (pose proof (Z.div_mod sig (2 ^ g)); subst m rb; lia).
  assert (Hrb : 0 <= rb < 2 ^ g) by (apply Z.mod_pos_bound; lia).
  assert (Hx : (rb ^^^ half =? 0) = (rb =? half)).
  { destruct (Z.eqb_spec rb half) as [->|Hne]; [by rewrite Z.lxor_nilpotent|].
    apply Z.eqb_neq. intros H0. by apply Z.lxor_eq in H0. }
  assert (Hd : forall inc, 0 <= inc < 2 ^ g -> (sig + inc) / 2 ^ g = m + Z.b2z (2 ^ g <=? rb + inc)).
  { intros inc Hi. rewrite Hdm. replace (rb + m * 2 ^ g + inc) with (rb + inc + m * 2 ^ g) by ring.
    rewrite Z.div_add by lia.
    destruct (Z.leb_spec (2 ^ g) (rb + inc)); cbn [Z.b2z].
    - rewrite <- (Z.div_unique (rb + inc) (2 ^ g) 1 (rb + inc - 2 ^ g)) by lia. lia.
    - rewrite Z.div_small by lia. lia. }
  assert (Hlnot0 : forall x, x &&& Z.lnot 0 = x) by (intros x; apply Z.land_m1_r).
  assert (Hlnot1 : forall x, x &&& Z.lnot 1 = if Z.odd x then x - 1 else x).
  { intros x. rewrite <- Z.ldiff_land. change (Z.ldiff x 1) with (Z.ldiff x (Z.ones 1)). rewrite Z.ldiff_ones_r, Z.shiftl_mul_pow2, Z.shiftr_div_pow2 by lia.
    pose proof (Z.div_mod x 2 ltac:(lia)) as Hx2. rewrite Zmod_odd in Hx2. rewrite Z.pow_1_r.
    destruct (Z.odd x); lia. }
  rewrite Hx. unfold round_increment, step_up, goes_up, softfloat_round_minMag.
  destruct (Z.eqb_spec rm softfloat_round_nearest_even) as [->|Hne]; cbn [negb andb].
  { rewrite andb_true_r, Hd by lia.
    destruct (Z.eqb_spec rb half) as [->|Hnh]; cbn [Z.b2z].
    - rewrite (proj2 (Z.leb_le _ _)), (proj2 (Z.eqb_neq half 0)), Z.compare_refl, Hlnot1 by lia. cbn [Z.b2z].
      replace (Z.odd (m + 1)) with (negb (Z.odd m)) by (rewrite Z.add_1_r, Z.odd_succ, <- Z.negb_odd; done).
      destruct (Z.odd m); simpl; lia.
    - rewrite Hlnot0. f_equal. f_equal. destruct (Z.eqb_spec rb 0).
      + apply Z.leb_gt. lia.
      + destruct (Z.compare_spec half rb); [lia| |]; [apply Z.leb_le|apply Z.leb_gt]; lia. }
  rewrite andb_false_r. cbn [Z.b2z]. rewrite Hlnot0.
  destruct (Z.eqb_spec rm softfloat_round_nearest_maxMag) as [->|Hnm]; cbn [negb].
  { rewrite Hd by lia. f_equal. f_equal. destruct (Z.eqb_spec rb 0).
    - apply Z.leb_gt. lia.
    - destruct (Z.compare_spec half rb); [apply Z.leb_le|apply Z.leb_le|apply Z.leb_gt]; lia. }
  destruct ((rm =? 1) || _); cbn [negb].
  - rewrite Hd by lia. rewrite Z.add_0_r, (proj2 (Z.leb_gt _ _)) by lia. by case_match.
  - rewrite Hd by lia. f_equal. f_equal. destruct (Z.eqb_spec rb 0); [apply Z.leb_gt|apply Z.leb_le]; lia.
Qed.

Lemma increment_zero rm s : (round_increment rm s half (2 ^ g - 1) =? 0) = negb (overflows_to_inf rm s).
Proof using Hg.
  assert (Hh : 0 < half) by (apply pow2_pos; lia). pose proof pow_g.
  unfold round_increment, overflows_to_inf, goes_up.
  repeat case_match; simpl in *; try done; try (apply Z.eqb_neq; lia); try congruence.
Qed.

(** What the code returns when there is no overflow, and when there is one. *)
Lemma rounds_of c rm s e sig r :
  0 <= e -> 0 <= sig < 2 ^ (fb f + g + 1) -> e = 0 \/ 2 ^ (fb f + g) <= sig ->
  (forall j, c (j * 2 ^ e) = (j * half ?= sig)) ->
  let m := sig / 2 ^ g in let rb := sig mod 2 ^ g in
  let b := e * F + m in let b' := b + Z.b2z (step_up rm s m rb) in
  (if inf_bits f <=? b'
   then r = (pack f s (inf_bits f - Z.b2z (negb (overflows_to_inf rm s))), 5)
   else r = (pack f s b', if rb =? 0 then 0 else 1 ||| (if b <? F then 2 else 0))) ->
  rounds f rm s c r.
Proof using Hfb Hg.
  intros He Hs Hn Hc m rb b b' Hr.
  destruct (neighbours c e sig He Hs Hn Hc) as (Hm & Hme & H0 & H1 & H2).
  fold m rb b in Hm, H0, H1, H2.
  assert (HF : 0 < F) by (apply pow2_pos; lia).
  assert (Hrb : 0 <= rb) by (apply Z.mod_pos_bound, pow2_pos; lia).
  exists b. split; [subst b; nia|]. split; [rewrite H0; by apply Z.compare_nle_iff || (intros E; apply Z.compare_gt_iff in E; lia)|].
  split; [done|]. unfold round_from. rewrite H0, H1.
  assert (Hodd : Z.odd b = Z.odd m).
  { subst b. rewrite Z.odd_add, Z.odd_mul. replace (Z.odd F) with false; [by rewrite andb_false_r|].
    replace F with (2 * 2 ^ (fb f - 1)) by (rewrite <- Z.pow_succ_r by lia; f_equal; lia).
    by rewrite Z.odd_mul. }
  assert (Hex : match 0 ?= rb with Eq => true | _ => false end = (rb =? 0)).
  { destruct (Z.compare_spec 0 rb), (Z.eqb_spec rb 0); lia || done. }
  rewrite Hex, Hodd.
  assert (Hb' : (if rb =? 0 then b else b + Z.b2z (goes_up rm s (half ?= rb) (Z.odd m))) = b').
  { subst b'. unfold step_up. destruct (rb =? 0); cbn [Z.b2z]; lia. }
  rewrite Hb'. destruct (inf_bits f <=? b'); exact Hr.
Qed.

End rounding.

(** The fields of a pattern put together. *)
Lemma packToF32_pack s e m :
  0 <= e -> 0 <= m -> e * 2 ^ 23 + m < 2 ^ 31 -> packToF32UI s e m = pack binary32 s (e * 2 ^ 23 + m).
Proof.
  intros He Hm Hb. unfold packToF32UI, pack, sign_bit. cbn [fb eb binary32].
  rewrite !shiftl_mul, (u32_small e) by lia. rewrite u32_small by (destruct s; cbn [Z.b2z]; lia). change (23 + 8) with 31. lia.
Qed.

Lemma packToF64_pack s e m :
  0 <= e -> 0 <= m -> e * 2 ^ 52 + m < 2 ^ 63 -> packToF64UI s e m = pack binary64 s (e * 2 ^ 52 + m).
Proof.
  intros He Hm Hb. unfold packToF64UI, pack, sign_bit. cbn [fb eb binary64].
  rewrite !shiftl_mul, (u64_small e) by lia. rewrite u64_small by (destruct s; cbn [Z.b2z]; lia). change (52 + 11) with 63. lia.
Qed.

(** The comparisons that a significand [sig] with exponent [exp] and [g] guard
    bits stands for; below the least exponent it is still to be shifted. *)
Definition stands_for (g : Z) (c : Z -> comparison) (exp sig : Z) : Prop :=
  forall j, c (j * 2 ^ Z.max exp 0) = (j * 2 ^ (g - 1 + Z.max (- exp) 0) ?= sig).

Lemma stands_for_normal g c exp sig :
  0 <= exp -> stands_for g c exp sig -> forall j, c (j * 2 ^ exp) = (j * 2 ^ (g - 1) ?= sig).
Proof. intros He H j. specialize (H j). by rewrite Z.max_l, Z.max_r, Z.add_0_r in H by lia. Qed.

Lemma stands_for_tiny g c exp sig :
  2 <= g -> exp < 0 -> stands_for g c exp sig -> forall j, c (j * 2 ^ 0) = (j * 2 ^ (g - 1) ?= jam sig (- exp)).
Proof.
  intros Hg He H j. specialize (H j). rewrite Z.max_r, (Z.max_l (- exp)) in H by lia. rewrite H.
  replace (j * 2 ^ (g - 1)) with (2 * (j * 2 ^ (g - 2))).
  - rewrite <- jam_compare by lia. f_equal.
    replace (g - 1 + - exp) with (1 + (g - 2) + (- exp)) by lia. rewrite !Z.pow_add_r, Z.pow_1_r by lia. ring.
  - replace (g - 1) with (Z.succ (g - 2)) by lia. rewrite Z.pow_succ_r by lia. ring.
Qed.

Lemma overflow_32 rm s : 
  packToF32UI s 255 0 - Z.b2z (round_increment rm s 0x40 0x7F =? 0)
  = pack binary32 s (inf_bits binary32 - Z.b2z (negb (overflows_to_inf rm s))).
Proof.
  change 0x40 with (2 ^ (7 - 1)). change 0x7F with (2 ^ 7 - 1). rewrite increment_zero by lia.
  rewrite packToF32_pack by lia. unfold pack, inf_bits. cbn [fb eb binary32]. lia.
Qed.

Lemma overflow_64 rm s : 
  packToF64UI s 0x7FF 0 - Z.b2z (round_increment rm s 0x200 0x3FF =? 0)
  = pack binary64 s (inf_bits binary64 - Z.b2z (negb (overflows_to_inf rm s))).
Proof.
  change 0x200 with (2 ^ (10 - 1)). change 0x3FF with (2 ^ 10 - 1). rewrite increment_zero by lia.
  rewrite packToF64_pack by lia. unfold pack, inf_bits. cbn [fb eb binary64]. lia.
Qed.

Lemma round_increment_range rm s half full : 0 <= half <= full -> 0 <= round_increment rm s half full <= full.
Proof. intros. unfold round_increment. repeat case_match; lia. Qed.

Lemma land_7F x : x &&& 0x7F = x mod 2 ^ 7.
Proof. by apply (land_pow2_mask x 7). Qed.
Lemma land_3FF x : x &&& 0x3FF = x mod 2 ^ 10.
Proof. by apply (land_pow2_mask x 10). Qed.

(** The significand as the code rounds it, with [g] guard bits. *)
Definition rounded_sig (g rm : Z) (s : bool) (sig : Z) : Z :=
  ((sig + round_increment rm s (2 ^ (g - 1)) (2 ^ g - 1)) >>> g)
    &&& Z.lnot (Z.b2z (((sig mod 2 ^ g) ^^^ 2 ^ (g - 1) =? 0) && (rm =? softfloat_round_nearest_even))).

Lemma rounded_sig_range g rm s sig :
  2 <= g -> 0 <= sig -> sig / 2 ^ g <= rounded_sig g rm s sig <= sig / 2 ^ g + 1.
Proof.
  intros Hg Hs. unfold rounded_sig. rewrite increment_eq by lia. destruct (step_up _ _ _ _ _); cbn [Z.b2z]; lia.
Qed.

Section guarded.
Context (f : format) (g : Z) (Hfb : 1 <= fb f) (Hg : 2 <= g) (Heb : 2 <= eb f).
#[local] Notation F := (2 ^ fb f).

Lemma inf_bits_large : 3 * F <= inf_bits f.
Proof using Hfb Heb.
  unfold inf_bits. pose proof (pow2_mono 2 (eb f) ltac:(lia)). change (2 ^ 2) with 4 in *.
  pose proof (Z.pow_nonneg 2 (fb f)). nia.
Qed.

(** Below the least exponent. *)
Lemma rounds_tiny c rm s exp sig :
  exp < 0 -> 0 <= sig < 2 ^ (fb f + g + 1) -> stands_for g c exp sig ->
  0 <= jam sig (- exp) < 2 ^ (fb f + g) /\
  rounds f rm s c (pack f s (rounded_sig g rm s (jam sig (- exp))), if jam sig (- exp) mod 2 ^ g =? 0 then 0 else 3).
Proof using Hfb Hg Heb.
  intros He Hs Hc. pose proof (pow2_pos g ltac:(lia)) as HG. pose proof (pow2_pos (fb f) ltac:(lia)) as HF.
  assert (Hj : 0 <= jam sig (- exp) < 2 ^ (fb f + g)).
  { destruct (jam_range sig (- exp) (fb f + g) ltac:(lia) ltac:(lia)) as [|]; [|done|lia].
    pose proof (pow2_mono (fb f + g + 1) (- exp + (fb f + g)) ltac:(lia)). lia. }
  split; [done|]. pose proof (pow2_mono (fb f + g) (fb f + g + 1) ltac:(lia)).
  apply (rounds_of f g Hfb Hg c rm s 0 (jam sig (- exp))); [lia|lia|by left|by apply stands_for_tiny|].
  cbv zeta. rewrite Z.mul_0_l, Z.add_0_l, <- increment_eq by lia. fold (rounded_sig g rm s (jam sig (- exp))).
  pose proof (rounded_sig_range g rm s (jam sig (- exp)) Hg ltac:(lia)).
  assert (jam sig (- exp) / 2 ^ g < F).
  { apply Z.div_lt_upper_bound; [lia|]. rewrite Z.pow_add_r in Hj by lia. lia. }
  pose proof inf_bits_large. rewrite (proj2 (Z.leb_gt _ _)), (proj2 (Z.ltb_lt _ F)) by lia. by case_match.
Qed.

Lemma rounds_normal c rm s exp sig :
  0 <= exp -> 2 ^ (fb f + g) <= sig < 2 ^ (fb f + g + 1) -> stands_for g c exp sig ->
  let b := exp * F + rounded_sig g rm s sig in
  rounds f rm s c
    (if inf_bits f <=? b then (pack f s (inf_bits f - Z.b2z (negb (overflows_to_inf rm s))), 5)
     else (pack f s b, if sig mod 2 ^ g =? 0 then 0 else 1)).
Proof using Hfb Hg Heb.
  intros He Hs Hc b. pose proof (pow2_pos g ltac:(lia)) as HG. pose proof (pow2_pos (fb f) ltac:(lia)) as HF.
  apply (rounds_of f g Hfb Hg c rm s exp sig); [lia|lia|right; lia|by apply stands_for_normal|].
  cbv zeta. rewrite <- Z.add_assoc, <- increment_eq by lia. fold (rounded_sig g rm s sig) b.
  assert (F <= sig / 2 ^ g).
  { apply Z.div_le_lower_bound; [lia|]. rewrite Z.pow_add_r in Hs by lia. lia. }
  rewrite (proj2 (Z.ltb_ge _ F)) by nia. by case_match.
Qed.

(** The carry out of the significand. *)
Lemma rounded_sig_carry rm s sig k :
  0 <= sig ->
  (2 * k <=? rounded_sig g rm s sig) = (2 * k * 2 ^ g <=? sig + round_increment rm s (2 ^ (g - 1)) (2 ^ g - 1)).
Proof using Hg.
  intros Hs. unfold rounded_sig. rewrite shiftr_div by lia.
  pose proof (pow2_pos g ltac:(lia)) as HG.
  set (x := sig + _). transitivity (2 * k <=? x / 2 ^ g).
  - assert (H0 : forall y, y &&& Z.lnot 0 = y) by (intros y; apply Z.land_m1_r).
    destruct (_ && _); cbn [Z.b2z]; [|by rewrite H0].
    rewrite <- Z.ldiff_land. change (Z.ldiff (x / 2 ^ g) 1) with (Z.ldiff (x / 2 ^ g) (Z.ones 1)).
    rewrite Z.ldiff_ones_r, Z.shiftl_mul_pow2, Z.shiftr_div_pow2, Z.pow_1_r by lia.
    generalize (x / 2 ^ g). intros y. apply Bool.eq_iff_eq_true. rewrite !Z.leb_le. zdm.
  - apply Bool.eq_iff_eq_true. rewrite !Z.leb_le. split; intros H.
    + pose proof (Z.mul_div_le x (2 ^ g) HG). nia.
    + apply Z.div_le_lower_bound; lia.
Qed.

End guarded.

Lemma if_same {A} (b : bool) (x : A) : (if b then x else x) = x.
Proof. by destruct b. Qed.

Lemma u16_neg exp : - 2 ^ 14 <= exp < 0 -> 2 ^ 15 <= u16 exp.
Proof. intros. unfold u16. zdm. Qed.

Lemma roundPackToF32_rounds rm s exp sig c :
  - 2 ^ 14 <= exp < 2 ^ 14 -> 0 <= sig < 2 ^ 31 -> exp < 0 \/ 2 ^ 30 <= sig -> stands_for 7 c exp sig ->
  rounds binary32 rm s c (softfloat_roundPackToF32 rm s exp sig).
Proof.
  intros He Hs Hn Hc. unfold softfloat_roundPackToF32. cbv zeta. rewrite !land_7F, overflow_32.
  destruct (Z.ltb_spec exp 0) as [Hneg|Hpos].
  - destruct (rounds_tiny binary32 7 ltac:(cbn; lia) ltac:(lia) ltac:(cbn; lia) c rm s exp sig) as [Hj Hr]; [done..|].
    cbn [fb binary32] in Hj. rewrite shift32RightJam_eq by lia.
    rewrite (proj2 (Z.leb_le 0xFD (u16 exp))) by (pose proof (u16_neg exp); lia).
    change 0x40 with (2 ^ (7 - 1)). change 0x7F with (2 ^ 7 - 1). fold (rounded_sig 7 rm s (jam sig (- exp))).
    pose proof (rounded_sig_range 7 rm s (jam sig (- exp))) as Hm.
    rewrite if_same.
    assert (jam sig (- exp) / 2 ^ 7 < 2 ^ 23) by (clear - Hj; zdm).
    assert (0 <= jam sig (- exp) / 2 ^ 7) by (clear - Hj; zdm).
    rewrite packToF32_pack by lia. rewrite Z.mul_0_l, Z.add_0_l. by destruct (_ mod _ =? 0).
  - pose proof (rounds_normal binary32 7 ltac:(cbn; lia) ltac:(lia) ltac:(cbn; lia) c rm s exp sig
      ltac:(lia) ltac:(cbn [fb binary32]; lia) Hc) as Hr.
    pose proof (rounded_sig_carry 7 ltac:(lia) rm s sig (2 ^ 23) ltac:(lia)) as Hcarry.
    pose proof (rounded_sig_range 7 rm s sig ltac:(lia) ltac:(lia)) as Hm.
    change 0x40 with (2 ^ (7 - 1)). change 0x7F with (2 ^ 7 - 1). fold (rounded_sig 7 rm s sig). set (m := rounded_sig 7 rm s sig) in *.
    assert (2 ^ 23 <= m <= 2 ^ 24) by (clear - Hm Hs Hn Hpos; zdm). rewrite u16_small, (proj2 (Z.eqb_neq m 0)) by lia.
    change (inf_bits binary32) with (255 * 2 ^ 23) in *. cbn [fb binary32] in Hr.
    change (2 * 2 ^ 23 * 2 ^ 7) with 0x80000000 in Hcarry.
    destruct (Z.leb_spec (255 * 2 ^ 23) (exp * 2 ^ 23 + m)).
    + rewrite (proj2 (Z.leb_le 0xFD exp)), <- Hcarry by lia.
      replace ((0xFD <? exp) || (2 * 2 ^ 23 <=? m)) with true; [done|].
      symmetry. apply orb_true_iff. rewrite Z.leb_le, Z.ltb_lt. lia.
    + rewrite <- Hcarry. destruct (Z.leb_spec 0xFD exp);
        [rewrite (proj2 (Z.ltb_ge 0xFD exp)), (proj2 (Z.leb_gt (2 * 2 ^ 23) m)) by lia; cbn [orb]|];
        rewrite packToF32_pack by lia; by destruct (_ mod _ =? 0).
Qed.

Lemma roundPackToF64_rounds rm s exp sig c :
  - 2 ^ 14 <= exp < 2 ^ 14 -> 0 <= sig < 2 ^ 63 -> exp < 0 \/ 2 ^ 62 <= sig -> stands_for 10 c exp sig ->
  rounds binary64 rm s c (softfloat_roundPackToF64 rm s exp sig).
Proof.
  intros He Hs Hn Hc. unfold softfloat_roundPackToF64. cbv zeta. rewrite !land_3FF, overflow_64.
  pose proof (round_increment_range rm s 0x200 0x3FF ltac:(lia)) as Hinc.
  destruct (Z.ltb_spec exp 0) as [Hneg|Hpos].
  - destruct (rounds_tiny binary64 10 ltac:(cbn; lia) ltac:(lia) ltac:(cbn; lia) c rm s exp sig) as [Hj Hr]; [done..|].
    cbn [fb binary64] in Hj. rewrite shift64RightJam_eq, u64_small by lia.
    rewrite (proj2 (Z.leb_le 0x7FD (u16 exp))) by (pose proof (u16_neg exp); lia).
    change 0x200 with (2 ^ (10 - 1)). change 0x3FF with (2 ^ 10 - 1). fold (rounded_sig 10 rm s (jam sig (- exp))).
    pose proof (rounded_sig_range 10 rm s (jam sig (- exp))) as Hm.
    rewrite if_same.
    assert (jam sig (- exp) / 2 ^ 10 < 2 ^ 52) by (clear - Hj; zdm).
    assert (0 <= jam sig (- exp) / 2 ^ 10) by (clear - Hj; zdm).
    rewrite packToF64_pack by lia. rewrite Z.mul_0_l, Z.add_0_l. by destruct (_ mod _ =? 0).
  - rewrite !u64_small by lia. pose proof (rounds_normal binary64 10 ltac:(cbn; lia) ltac:(lia) ltac:(cbn; lia) c rm s exp sig
      ltac:(lia) ltac:(cbn [fb binary64]; lia) Hc) as Hr.
    pose proof (rounded_sig_carry 10 ltac:(lia) rm s sig (2 ^ 52) ltac:(lia)) as Hcarry.
    pose proof (rounded_sig_range 10 rm s sig ltac:(lia) ltac:(lia)) as Hm.
    change 0x200 with (2 ^ (10 - 1)). change 0x3FF with (2 ^ 10 - 1). fold (rounded_sig 10 rm s sig). set (m := rounded_sig 10 rm s sig) in *.
    assert (2 ^ 52 <= m <= 2 ^ 53) by (clear - Hm Hs Hn Hpos; zdm). rewrite u16_small, (proj2 (Z.eqb_neq m 0)) by lia.
    change (inf_bits binary64) with (2047 * 2 ^ 52) in *. cbn [fb binary64] in Hr.
    change (2 * 2 ^ 52 * 2 ^ 10) with 0x8000000000000000 in Hcarry.
    destruct (Z.leb_spec (2047 * 2 ^ 52) (exp * 2 ^ 52 + m)).
    + rewrite (proj2 (Z.leb_le 0x7FD exp)), <- Hcarry by lia.
      replace ((0x7FD <? exp) || (2 * 2 ^ 52 <=? m)) with true; [done|].
      symmetry. apply orb_true_iff. rewrite Z.leb_le, Z.ltb_lt. lia.
    + rewrite <- Hcarry. destruct (Z.leb_spec 0x7FD exp);
        [rewrite (proj2 (Z.ltb_ge 0x7FD exp)), (proj2 (Z.leb_gt (2 * 2 ^ 52) m)) by lia; cbn [orb]|];
        rewrite packToF64_pack by lia; by destruct (_ mod _ =? 0).
Qed.

(** ** Exact results that are quotients *)

(** [n / d] is [nv / dv] times 2 to the [k]. *)
Definition scaled (n d nv dv k : Z) : Prop :=
  exists a, 0 <= a /\ 0 <= a + k /\ n * dv * 2 ^ a = nv * d * 2 ^ (a + k).

Lemma stands_for_ratio g n d nv dv exp sig :
  1 <= g -> 0 < d -> 0 < dv -> agrees (2 ^ (g - 1)) (ratio nv dv) sig -> scaled n d nv dv (exp - g) ->
  stands_for g (twice_ratio n d) exp sig.
Proof.
  intros Hg Hd Hdv Hs (a & Ha & Hak & Hx) j. unfold twice_ratio, ratio.
  assert (Hud : 0 <= Z.max exp 0 /\ 0 <= Z.max (- exp) 0 /\ Z.max exp 0 = exp + Z.max (- exp) 0) by lia.
  revert Hud. generalize (Z.max exp 0) (Z.max (- exp) 0). intros up down (Hup & Hdown & Hud).
  assert (Hj : j * 2 ^ (g - 1 + down) = j * 2 ^ down * 2 ^ (g - 1)) by (rewrite Z.pow_add_r by lia; ring).
  rewrite Hj, <- (Hs (j * 2 ^ down)). unfold ratio.
  assert (Hk : 2 ^ (a + (exp - g)) * 2 = 2 ^ (a + (exp - g) + 1)) by (rewrite (Z.pow_add_r 2 (a + (exp - g)) 1) by lia; lia).
  assert (Hp : 0 < 2 ^ a) by (apply pow2_pos; lia).
  assert (Hq : 0 < 2 ^ (a + (exp - g) + 1)) by (apply pow2_pos; lia).
  assert (He : 2 ^ up * 2 ^ a = 2 ^ down * 2 ^ (g - 1) * 2 ^ (a + (exp - g) + 1)).
  { rewrite <- !Z.pow_add_r by lia. f_equal. lia. }
  rewrite <- (compare_mul_r (j * 2 ^ up * d) (2 * n) (dv * 2 ^ a)) by nia.
  rewrite <- (compare_mul_r (j * 2 ^ down * 2 ^ (g - 1) * dv) nv (2 ^ (a + (exp - g) + 1) * d)) by nia.
  f_equal.
  - transitivity (j * d * dv * (2 ^ up * 2 ^ a)); [ring|]. rewrite He. ring.
  - transitivity (2 * (n * dv * 2 ^ a)); [ring|]. rewrite Hx, <- Hk. ring.
Qed.

Lemma agrees_exact W d s : 0 < d -> agrees W (ratio (s * d) d) s.
Proof. intros Hd j. unfold ratio. by apply compare_mul_r. Qed.

Lemma agrees_jam a n : 0 <= n -> agrees 2 (ratio a (2 ^ n)) (jam a n).
Proof. intros Hn j. unfold ratio. rewrite (Z.mul_comm j 2). by apply jam_compare. Qed.

Lemma agrees_coarser W k v s : agrees W v s -> agrees (k * W) v s.
Proof. intros H j. rewrite Z.mul_assoc. apply H. Qed.

Lemma agrees_pow w w' v s : 0 <= w <= w' -> agrees (2 ^ w) v s -> agrees (2 ^ w') v s.
Proof.
  intros Hw H. replace (2 ^ w') with (2 ^ (w' - w) * 2 ^ w) by (rewrite <- Z.pow_add_r by lia; f_equal; lia).
  by apply agrees_coarser.
Qed.

Lemma agrees_add W n d s k : agrees W (ratio n d) s -> agrees W (ratio (n + k * W * d) d) (s + k * W).
Proof.
  intros H j. specialize (H (j - k)). unfold ratio in *.
  replace (j * W * d) with ((j - k) * W * d + k * W * d) by ring.
  replace (j * W) with ((j - k) * W + k * W) by ring. by rewrite !compare_add_r.
Qed.

Lemma compare_sub_l a b k : (k - a ?= k - b) = (b ?= a).
Proof. destruct (Z.compare_spec (k - a) (k - b)), (Z.compare_spec b a); lia || done. Qed.

Lemma agrees_sub W n d s k : agrees W (ratio n d) s -> agrees W (ratio (k * W * d - n) d) (k * W - s).
Proof.
  intros H j. specialize (H (k - j)). unfold ratio in *.
  replace (j * W * d) with (k * W * d - (k - j) * W * d) by ring.
  replace (j * W) with (k * W - (k - j) * W) by ring. rewrite !compare_sub_l.
  rewrite (Z.compare_antisym ((k - j) * W * d)), (Z.compare_antisym ((k - j) * W)). by rewrite H.
Qed.

Lemma agrees_shift W n d s k : 0 <= k -> agrees W (ratio n d) s -> agrees (W * 2 ^ k) (ratio (n * 2 ^ k) d) (s * 2 ^ k).
Proof.
  intros Hk H j. specialize (H j). unfold ratio in *. pose proof (pow2_pos k Hk).
  rewrite <- (compare_mul_r _ n (2 ^ k)), <- (compare_mul_r _ s (2 ^ k)) in H by lia.
  replace (j * (W * 2 ^ k) * d) with (j * W * d * 2 ^ k) by ring.
  replace (j * (W * 2 ^ k)) with (j * W * 2 ^ k) by ring. done.
Qed.
