(* ===== verification/SoftFloatFields.v ===== *)
(** * Fields and normal forms of floating-point numbers

    What the code reads from a pattern, in the terms of SoftFloatSpec.v; the count
    of leading zeros; subnormal numbers brought to the form of normal ones; and
    rounding of a significand that is not in that form yet. *)

From S2P Require Import Prelude SoftFloat SoftFloatArith SoftFloatSpec.

(** ** Fields *)

Lemma expF32UI_eq u : expF32UI u = (u / 2 ^ 23) mod 2 ^ 8.
Proof. unfold expF32UI. rewrite shiftr_div by lia. by apply (land_pow2_mask _ 8). Qed.
Lemma fracF32UI_eq u : fracF32UI u = u mod 2 ^ 23.
Proof. by apply (land_pow2_mask _ 23). Qed.
Lemma expF64UI_eq u : expF64UI u = (u / 2 ^ 52) mod 2 ^ 11.
Proof. unfold expF64UI. rewrite shiftr_div by lia. by apply (land_pow2_mask _ 11). Qed.
Lemma fracF64UI_eq u : fracF64UI u = u mod 2 ^ 52.
Proof. by apply (land_pow2_mask _ 52). Qed.

(** A pattern of the format [f] with the sign [s], the exponent [e] and the
    fraction [m]. *)
Record fields (f : format) (u : Z) (s : bool) (e m : Z) : Prop := {
  fields_exp : 0 <= e < 2 ^ eb f;
  fields_frac : 0 <= m < 2 ^ fb f;
  fields_pack : u = pack f s (e * 2 ^ fb f + m)
}.

Lemma fields_32 u : is_uint 32 u -> fields binary32 u (signF32UI u) (expF32UI u) (fracF32UI u).
Proof.
  intros Hu. unfold is_uint in Hu. rewrite expF32UI_eq, fracF32UI_eq. unfold signF32UI.
  rewrite shiftr_div, u32_small by lia.
  split; unfold pack, sign_bit; cbn [fb eb binary32]; [apply Z.mod_pos_bound; lia..|].
  destruct (Z.eqb_spec (u / 2 ^ 31) 0); cbn [negb Z.b2z]; zdm.
Qed.

Lemma fields_64 u : is_uint 64 u -> fields binary64 u (signF64UI u) (expF64UI u) (fracF64UI u).
Proof.
  intros Hu. unfold is_uint in Hu. rewrite expF64UI_eq, fracF64UI_eq. unfold signF64UI.
  rewrite shiftr_div, u64_small by lia.
  split; unfold pack, sign_bit; cbn [fb eb binary64]; [apply Z.mod_pos_bound; lia..|].
  destruct (Z.eqb_spec (u / 2 ^ 63) 0); cbn [negb Z.b2z]; zdm.
Qed.

Section fields.
Context (f : format) (Hfb : 1 <= fb f) (Heb : 2 <= eb f).
Context (u : Z) (s : bool) (e m : Z) (Hf : fields f u s e m).
#[local] Notation F := (2 ^ fb f).

Lemma fields_bound : 0 <= e * F + m < sign_bit f.
Proof using Hf Hfb Heb.
  destruct Hf as [He Hm _]. unfold sign_bit. rewrite Z.pow_add_r by lia.
  pose proof (pow2_pos (fb f) ltac:(lia)). pose proof (pow2_pos (eb f) ltac:(lia)). nia.
Qed.

Lemma mag_fields : mag f u = e * F + m.
Proof using Hf Hfb Heb.
  pose proof fields_bound. rewrite (fields_pack _ _ _ _ _ Hf). unfold mag, pack.
  rewrite Z.add_comm, Z.mod_add by lia. by apply Z.mod_small.
Qed.

Lemma negative_fields : negative f u = s.
Proof using Hf Hfb Heb.
  pose proof fields_bound. rewrite (fields_pack _ _ _ _ _ Hf). unfold negative, pack.
  destruct s; cbn [Z.b2z]; [apply Z.leb_le|apply Z.leb_gt]; lia.
Qed.

Lemma is_nan_fields : is_nan f u = (e =? 2 ^ eb f - 1) && negb (m =? 0).
Proof using Hf Hfb Heb.
  unfold is_nan, inf_bits. rewrite mag_fields. destruct Hf as [He Hm _].
  apply Bool.eq_iff_eq_true. rewrite andb_true_iff, negb_true_iff, Z.ltb_lt, Z.eqb_eq, Z.eqb_neq. nia.
Qed.

Lemma is_inf_fields : is_inf f u = (e =? 2 ^ eb f - 1) && (m =? 0).
Proof using Hf Hfb Heb.
  unfold is_inf, inf_bits. rewrite mag_fields. destruct Hf as [He Hm _].
  apply Bool.eq_iff_eq_true. rewrite andb_true_iff, !Z.eqb_eq.
  split; [intros H|intros [-> ->]; lia]. assert (e = 2 ^ eb f - 1) by (apply Z.le_antisymm; nia). nia.
Qed.

Lemma mag_zero_fields : (mag f u =? 0) = (e =? 0) && (m =? 0).
Proof using Hf Hfb Heb.
  rewrite mag_fields. destruct Hf as [He Hm _]. pose proof (pow2_pos (fb f) ltac:(lia)).
  apply Bool.eq_iff_eq_true. rewrite andb_true_iff, !Z.eqb_eq. nia.
Qed.

(** The significand and the exponent of a number, the least exponent being 1. *)
Definition significand : Z := if e =? 0 then m else F + m.
Definition exponent : Z := Z.max e 1.

Lemma significand_range : 0 <= significand < 2 * F /\ (e <> 0 -> F <= significand) /\ 1 <= exponent.
Proof using Hf Hfb Heb. destruct Hf as [He Hm _]. unfold significand, exponent. destruct (Z.eqb_spec e 0); lia. Qed.

Lemma fval_fields : fval f (mag f u) = significand * 2 ^ (exponent - 1).
Proof using Hf Hfb Heb.
  rewrite mag_fields. destruct Hf as [He Hm _]. unfold significand, exponent.
  assert (HF : 2 ^ (fb f + 1) = 2 * F) by (rewrite Z.pow_add_r by lia; lia).
  destruct (Z.eqb_spec e 0) as [->|Hne].
  - change (Z.max 0 1 - 1) with 0. rewrite <- (fval_encode f 0 m) by lia. done.
  - rewrite Z.max_l by lia. rewrite <- (fval_encode f (e - 1)) by lia. f_equal. ring.
Qed.
End fields.

Lemma significand_normal f e m : e <> 0 -> significand f e m = 2 ^ fb f + m.
Proof. intros He. unfold significand. by rewrite (proj2 (Z.eqb_neq e 0)). Qed.
Lemma exponent_pos e : 1 <= exponent e.
Proof. unfold exponent. lia. Qed.
Lemma exponent_normal e : 0 < e -> exponent e = e.
Proof. intros He. unfold exponent. lia. Qed.

(** A NaN is signaling when the first bit of its fraction is 0. *)
Lemma signaling_split x w e :
  0 <= w -> 1 <= e -> 0 <= x ->
  ((x / 2 ^ w) mod 2 ^ (e + 1) =? 2 ^ (e + 1) - 2) && negb (x mod 2 ^ w =? 0)
  = ((x / 2 ^ (w + 1)) mod 2 ^ e =? 2 ^ e - 1) && negb (x mod 2 ^ (w + 1) =? 0) && negb (Z.odd (x / 2 ^ w)).
Proof.
  intros Hw He Hx. pose proof (pow2_pos w Hw) as HW. pose proof (pow2_pos e ltac:(lia)) as HE.
  rewrite !(Z.pow_add_r 2 _ 1), Z.pow_1_r, <- Z.div_div by lia.
  assert (Hm : x mod (2 ^ w * 2) = (x / 2 ^ w) mod 2 * 2 ^ w + x mod 2 ^ w) by (rewrite Z.rem_mul_r by lia; ring).
  pose proof (Z.mod_pos_bound x (2 ^ w) HW) as Hr. rewrite Hm. revert Hr.
  generalize (x mod 2 ^ w). intros r Hr. generalize (x / 2 ^ w). intros h.
  rewrite (Z.mul_comm (2 ^ e) 2), Z.rem_mul_r, Zmod_odd by lia.
  pose proof (Z.mod_pos_bound (h / 2) (2 ^ e) HE). apply Bool.eq_iff_eq_true.
  rewrite !andb_true_iff, !negb_true_iff, !Z.eqb_eq, !Z.eqb_neq. destruct (Z.odd h); lia.
Qed.

Lemma isSigNaN32_eq u : is_uint 32 u -> softfloat_isSigNaNF32UI u = is_signaling binary32 u.
Proof.
  intros Hu. unfold softfloat_isSigNaNF32UI, is_signaling.
  rewrite (is_nan_fields binary32 ltac:(cbn; lia) ltac:(cbn; lia) _ _ _ _ (fields_32 u Hu)).
  rewrite expF32UI_eq, fracF32UI_eq. change 0x1FF with (2 ^ 9 - 1). change 0x3FFFFF with (2 ^ 22 - 1).
  rewrite !land_pow2_mask, shiftr_div, Z.testbit_odd, shiftr_div by (cbn; lia).
  unfold is_uint in Hu. exact (signaling_split u 22 8 ltac:(lia) ltac:(lia) ltac:(lia)).
Qed.

Lemma isSigNaN64_eq u : is_uint 64 u -> softfloat_isSigNaNF64UI u = is_signaling binary64 u.
Proof.
  intros Hu. unfold softfloat_isSigNaNF64UI, is_signaling.
  rewrite (is_nan_fields binary64 ltac:(cbn; lia) ltac:(cbn; lia) _ _ _ _ (fields_64 u Hu)).
  rewrite expF64UI_eq, fracF64UI_eq. change 0xFFF with (2 ^ 12 - 1). change 0x7FFFFFFFFFFFF with (2 ^ 51 - 1).
  rewrite !land_pow2_mask, shiftr_div, Z.testbit_odd, shiftr_div by (cbn; lia).
  unfold is_uint in Hu. exact (signaling_split u 51 11 ltac:(lia) ltac:(lia) ltac:(lia)).
Qed.

(** ** Leading zeros *)

Lemma clz8_table : forallb (fun i =>
  let k := softfloat_countLeadingZeros8 !z (Z.of_nat i) in
  (0 <=? k) && (k <=? 7) && (128 <=? Z.of_nat i * 2 ^ k) && (Z.of_nat i * 2 ^ k <? 256)) (seq 1 255) = true.
Proof. by vm_compute. Qed.

Lemma clz8_spec i :
  0 < i < 256 -> let k := softfloat_countLeadingZeros8 !z i in 0 <= k <= 7 /\ 2 ^ 7 <= i * 2 ^ k < 2 ^ 8.
Proof.
  intros Hi k. pose proof clz8_table as H. rewrite forallb_forall in H.
  specialize (H (Z.to_nat i) ltac:(apply in_seq; lia)). rewrite Z2Nat.id in H by lia. cbv zeta in H. fold k in H.
  rewrite !andb_true_iff, !Z.leb_le, Z.ltb_lt in H. lia.
Qed.

(** [k] is the number of leading zeros of [a] in [w] bits. *)
Definition leads (w a k : Z) : Prop := 0 <= k < w /\ 2 ^ (w - 1) <= a * 2 ^ k < 2 ^ w.

Lemma leads_unshift w a s k : 0 <= s -> 0 < a -> leads w (a * 2 ^ s) k -> k + s < w -> leads w a (k + s).
Proof. intros Hs Ha [Hk Hl] Hks. split; [lia|]. rewrite Z.pow_add_r by lia. split; lia. Qed.

Lemma leads_bound w a s k : 0 < a -> 0 <= s -> leads w (a * 2 ^ s) k -> k + s < w.
Proof.
  intros Ha Hs [Hk Hl]. destruct (Z.lt_ge_cases (k + s) w) as [|Hge]; [done|].
  pose proof (pow2_mono w (k + s) ltac:(lia)). rewrite Z.pow_add_r in H by lia. nia.
Qed.

Lemma leads_top b : 2 ^ 24 <= b < 2 ^ 32 -> leads 32 b (softfloat_countLeadingZeros8 !z (b >>> 24)).
Proof.
  intros Hb. rewrite shiftr_div by lia. destruct (clz8_spec (b / 2 ^ 24)) as [Hk1 Hk2]; [zdm|].
  set (k := _ !z _) in *. split; [lia|]. pose proof (Z.div_mod b (2 ^ 24) ltac:(lia)).
  pose proof (Z.mod_pos_bound b (2 ^ 24) ltac:(lia)). set (q := b / 2 ^ 24) in *.
  assert (H8 : 2 ^ 8 = 2 ^ (8 - k) * 2 ^ k) by (rewrite <- Z.pow_add_r by lia; f_equal; lia).
  pose proof (pow2_pos k ltac:(lia)). pose proof (pow2_pos (8 - k) ltac:(lia)).
  assert (q < 2 ^ (8 - k)) by nia.
  change (2 ^ (32 - 1)) with (2 ^ 7 * 2 ^ 24). change (2 ^ 32) with (2 ^ 8 * 2 ^ 24).
  assert ((q + 1) * 2 ^ k <= 2 ^ 8) by nia. nia.
Qed.

Lemma clz_byte_spec c b :
  2 ^ 16 <= b < 2 ^ 32 ->
  exists k, (let '(c', b') := if b <? 0x1000000 then (c + 8, u32 (b <<< 8)) else (c, b) in
             c' + softfloat_countLeadingZeros8 !z (b' >>> 24)) = c + k /\ leads 32 b k.
Proof.
  intros Hb. destruct (Z.ltb_spec b 0x1000000).
  - rewrite shiftl_mul, u32_small by lia. eexists. split; [by rewrite <- Z.add_assoc, (Z.add_comm 8)|].
    pose proof (leads_top (b * 2 ^ 8) ltac:(lia)) as Ht. apply leads_unshift; [lia|lia|done|].
    apply (leads_bound 32 b); [lia|lia|done].
  - eexists. split; [done|]. apply leads_top. lia.
Qed.

Lemma clz_half_spec c a :
  0 < a < 2 ^ 32 ->
  exists k, (let '(count, a) := if a <? 0x10000 then (c + 16, u32 (a <<< 16)) else (c, a) in
             let '(count, a) := if a <? 0x1000000 then (count + 8, u32 (a <<< 8)) else (count, a) in
             count + softfloat_countLeadingZeros8 !z (a >>> 24)) = c + k /\ leads 32 a k.
Proof.
  intros Ha. destruct (Z.ltb_spec a 0x10000).
  - rewrite shiftl_mul, u32_small by lia.
    destruct (clz_byte_spec (c + 16) (a * 2 ^ 16) ltac:(lia)) as (k & Hk & Hl). rewrite Hk.
    exists (k + 16). split; [lia|]. apply leads_unshift; [lia|lia|done|].
    apply (leads_bound 32 a); [lia|lia|done].
  - apply clz_byte_spec. lia.
Qed.

Lemma clz32_spec a : 0 < a < 2 ^ 32 -> leads 32 a (softfloat_countLeadingZeros32 a).
Proof.
  intros Ha. destruct (clz_half_spec 0 a Ha) as (k & Hk & Hl).
  assert (softfloat_countLeadingZeros32 a = k) as ->; [exact Hk|done].
Qed.

Lemma clz64_spec a : 0 < a < 2 ^ 64 -> leads 64 a (softfloat_countLeadingZeros64 a).
Proof.
  intros Ha. unfold softfloat_countLeadingZeros64. destruct (Z.leb_spec 0x100000000 a).
  - rewrite shiftr_div, u32_small by (try lia; zdm).
    destruct (clz_half_spec 0 (a / 2 ^ 32) ltac:(zdm)) as (k & -> & Hk & Hl). split; [lia|].
    rewrite Z.add_0_l. pose proof (Z.div_mod a (2 ^ 32) ltac:(lia)). pose proof (Z.mod_pos_bound a (2 ^ 32) ltac:(lia)).
    set (q := a / 2 ^ 32) in *. assert (H32 : 2 ^ 32 = 2 ^ (32 - k) * 2 ^ k) by (rewrite <- Z.pow_add_r by lia; f_equal; lia).
    pose proof (pow2_pos k ltac:(lia)). pose proof (pow2_pos (32 - k) ltac:(lia)).
    assert (q < 2 ^ (32 - k)) by nia. assert ((q + 1) * 2 ^ k <= 2 ^ 32) by nia.
    change (2 ^ (64 - 1)) with (2 ^ (32 - 1) * 2 ^ 32). change (2 ^ 64) with (2 ^ 32 * 2 ^ 32). nia.
  - rewrite u32_small by lia. destruct (clz_half_spec 32 a ltac:(lia)) as (k & -> & Hk & Hl). split; [lia|].
    rewrite Z.pow_add_r by lia. change (2 ^ (64 - 1)) with (2 ^ (32 - 1) * 2 ^ 32). change (2 ^ 64) with (2 ^ 32 * 2 ^ 32). lia.
Qed.

(** ** Normal forms *)

(** The number with exponent [e] and fraction [m] as a significand [sg] with its
    top bit set and an exponent [e'] that may be below the least one. *)
Definition normal_form (f : format) (e m e' sg : Z) : Prop :=
  2 ^ fb f <= sg < 2 * 2 ^ fb f /\ 1 - fb f <= e' /\ e' < 2 ^ eb f - 1 /\
  significand f e m * 2 ^ (exponent e - 1 + fb f) = sg * 2 ^ (e' - 1 + fb f).

Lemma lor_top x k : 0 <= k -> 2 ^ k <= x < 2 * 2 ^ k -> x ||| 2 ^ k = x.
Proof.
  intros Hk Hx. assert (H : x = (1 <<< k) ||| (x - 2 ^ k)) by (rewrite lor_disjoint_add by lia; lia).
  rewrite H at 1. rewrite <- Z.lor_assoc, (Z.lor_comm (x - _)), Z.lor_assoc.
  rewrite shiftl_mul, Z.mul_1_l, Z.lor_diag by lia. rewrite <- (Z.mul_1_l (2 ^ k)) at 1.
  rewrite <- shiftl_mul, lor_disjoint_add by lia. lia.
Qed.

Lemma lor_low x k : 0 <= k -> 0 <= x < 2 ^ k -> x ||| 2 ^ k = 2 ^ k + x.
Proof.
  intros Hk Hx. rewrite <- (Z.mul_1_l (2 ^ k)) at 1. rewrite <- shiftl_mul, lor_disjoint_add' by lia. lia.
Qed.

Lemma normal_form_normal f e m :
  1 <= fb f -> 0 < e < 2 ^ eb f - 1 -> 0 <= m < 2 ^ fb f -> normal_form f e m e (m ||| 2 ^ fb f).
Proof.
  intros Hf He Hm. rewrite lor_low by lia. unfold normal_form, significand, exponent.
  rewrite (proj2 (Z.eqb_neq e 0)), Z.max_l by lia. repeat split; try lia. 
Qed.

Lemma normal_form_subnormal f m k :
  1 <= fb f -> 1 <= eb f -> 0 < m -> 1 <= k -> 2 ^ fb f <= m * 2 ^ k < 2 * 2 ^ fb f ->
  normal_form f 0 m (1 - k) ((m * 2 ^ k) ||| 2 ^ fb f).
Proof.
  intros Hf He Hm Hk Hb. rewrite lor_top by lia.
  assert (Hkf : k <= fb f).
  { destruct (Z.le_gt_cases k (fb f)); [done|]. pose proof (pow2_mono (fb f + 1) k ltac:(lia)).
    rewrite Z.pow_add_r in H0 by lia. nia. }
  pose proof (pow2_mono 1 (eb f) ltac:(lia)).
  unfold normal_form, significand, exponent. cbn [Z.eqb]. change (Z.max 0 1) with 1. repeat split; try lia.
  rewrite <- Z.mul_assoc, <- Z.pow_add_r by lia. f_equal. f_equal. lia.
Qed.

Lemma norm_F32_spec e m :
  0 <= e < 255 -> 0 <= m < 2 ^ 23 -> (e =? 0) && (m =? 0) = false ->
  normal_form binary32 e m (norm_F32 e m).1 ((norm_F32 e m).2 ||| 0x00800000).
Proof.
  intros He Hm H0. unfold norm_F32. change 0x00800000 with (2 ^ fb binary32). destruct (Z.eqb_spec e 0) as [->|].
  - cbn [andb] in H0. apply Z.eqb_neq in H0. unfold softfloat_normSubnormalF32Sig. cbv zeta. cbn [fst snd].
    destruct (clz32_spec m ltac:(lia)) as [Hk Hl]. set (k := softfloat_countLeadingZeros32 m) in *.
    assert (Hk8 : 9 <= k).
    { destruct (Z.le_gt_cases 9 k); [done|]. pose proof (pow2_mono k 8 ltac:(lia)). nia. }
    assert (Hs : 2 ^ 23 <= m * 2 ^ (k - 8) < 2 * 2 ^ 23).
    { replace k with (k - 8 + 8) in Hl by lia. rewrite (Z.pow_add_r 2 (k - 8) 8) in Hl by lia. lia. }
    rewrite shiftl_mul, u32_small by lia. apply normal_form_subnormal; cbn [fb eb binary32]; lia.
  - cbn [fst snd]. apply normal_form_normal; cbn [fb eb binary32]; lia.
Qed.

Lemma norm_F64_spec e m :
  0 <= e < 2047 -> 0 <= m < 2 ^ 52 -> (e =? 0) && (m =? 0) = false ->
  normal_form binary64 e m (norm_F64 e m).1 ((norm_F64 e m).2 ||| 0x0010000000000000).
Proof.
  intros He Hm H0. unfold norm_F64. change 0x0010000000000000 with (2 ^ fb binary64). destruct (Z.eqb_spec e 0) as [->|].
  - cbn [andb] in H0. apply Z.eqb_neq in H0. unfold softfloat_normSubnormalF64Sig. cbv zeta. cbn [fst snd].
    destruct (clz64_spec m ltac:(lia)) as [Hk Hl]. set (k := softfloat_countLeadingZeros64 m) in *.
    assert (Hk8 : 12 <= k).
    { destruct (Z.le_gt_cases 12 k); [done|]. pose proof (pow2_mono k 11 ltac:(lia)). nia. }
    assert (Hs : 2 ^ 52 <= m * 2 ^ (k - 11) < 2 * 2 ^ 52).
    { replace k with (k - 11 + 11) in Hl by lia. rewrite (Z.pow_add_r 2 (k - 11) 11) in Hl by lia. lia. }
    rewrite shiftl_mul, u64_small by lia. apply normal_form_subnormal; cbn [fb eb binary64]; lia.
  - cbn [fst snd]. apply normal_form_normal; cbn [fb eb binary64]; lia.
Qed.

(** ** Significands that are not in normal form *)

Lemma stands_for_lshift g n d nv dv exp sig w k :
  1 <= g -> 0 < d -> 0 < dv -> 0 <= w -> 0 <= k -> w + k <= g - 1 ->
  agrees (2 ^ w) (ratio nv dv) sig -> scaled n d nv dv (exp - g) ->
  stands_for g (twice_ratio n d) (exp - k) (sig * 2 ^ k).
Proof.
  intros Hg Hd Hdv Hw Hk Hwk Hs (a & Ha & Hak & Hx). apply (stands_for_ratio g n d (nv * 2 ^ k) dv); try done.
  - apply (agrees_pow (w + k)); [lia|]. rewrite Z.pow_add_r by lia. by apply agrees_shift.
  - exists (a + k). split; [lia|]. split; [lia|].
    replace (a + k + (exp - k - g)) with (a + (exp - g)) by lia. rewrite Z.pow_add_r by lia.
    transitivity (n * dv * 2 ^ a * 2 ^ k); [ring|]. rewrite Hx. ring.
Qed.

Lemma stands_for_exact g n d exp sig k :
  1 <= g -> 0 < d -> 0 <= k -> scaled n d sig 1 (exp - g) -> stands_for g (twice_ratio n d) (exp - k) (sig * 2 ^ k).
Proof.
  intros Hg Hd Hk (a & Ha & Hak & Hx). apply (stands_for_ratio g n d (sig * 2 ^ k) 1); try lia.
  - intros j. unfold ratio. by rewrite Z.mul_1_r.
  - exists (a + k). split; [lia|]. split; [lia|].
    replace (a + k + (exp - k - g)) with (a + (exp - g)) by lia. rewrite Z.pow_add_r by lia.
    transitivity (n * 1 * 2 ^ a * 2 ^ k); [ring|]. rewrite Hx. ring.
Qed.

Lemma rounded_sig_exact g rm s m : 2 <= g -> 0 <= m -> rounded_sig g rm s (m * 2 ^ g) = m.
Proof.
  intros Hg Hm. pose proof (pow2_pos g ltac:(lia)). unfold rounded_sig. rewrite increment_eq by lia.
  rewrite Z.div_mul, Z.mod_mul by lia. unfold step_up. cbn. lia.
Qed.

Lemma normRoundPackToF32_rounds rm s exp sig c :
  - 2 ^ 13 <= exp < 2 ^ 13 -> 0 < sig < 2 ^ 31 ->
  (forall k, 0 <= k -> 2 ^ 30 <= sig * 2 ^ k < 2 ^ 31 -> stands_for 7 c (exp - k) (sig * 2 ^ k)) ->
  rounds binary32 rm s c (softfloat_normRoundPackToF32 rm s exp sig).
Proof.
  intros He Hs Hc. unfold softfloat_normRoundPackToF32. cbv zeta.
  destruct (clz32_spec sig ltac:(lia)) as [Hk Hl]. set (z := softfloat_countLeadingZeros32 sig) in *.
  assert (Hz : 1 <= z). { destruct (Z.le_gt_cases 1 z); [done|]. assert (z = 0) as Hz0 by lia. rewrite Hz0 in Hl. lia. }
  replace z with (z - 1 + 1) in Hl by lia. rewrite (Z.pow_add_r 2 (z - 1) 1) in Hl by lia.
  revert Hl Hk Hz. generalize z. clear z. intros z Hl Hk Hz. set (k := z - 1) in *.
  specialize (Hc k ltac:(lia) ltac:(lia)). rewrite (proj2 (Z.eqb_neq sig 0)) by lia.
  destruct ((7 <=? k) && (u16 (exp - k) <? 0xFD)) eqn:E.
  - apply andb_true_iff in E as [E1 E2]. apply Z.leb_le in E1. apply Z.ltb_lt in E2.
    assert (Hpos : 0 <= exp - k) by (destruct (Z.le_gt_cases 0 (exp - k)); [done|]; pose proof (u16_neg (exp - k)); lia).
    rewrite u16_small in E2 by lia.
    assert (Hsk : sig * 2 ^ k = sig * 2 ^ (k - 7) * 2 ^ 7).
    { rewrite <- Z.mul_assoc, <- Z.pow_add_r by lia. do 2 f_equal. lia. }
    assert (0 <= sig * 2 ^ (k - 7) < 2 ^ 24) by lia.
    pose proof (rounds_normal binary32 7 ltac:(cbn; lia) ltac:(lia) ltac:(cbn; lia) c rm s (exp - k) (sig * 2 ^ k)
      ltac:(lia) ltac:(cbn [fb binary32]; lia) Hc) as Hr.
    rewrite Hsk, rounded_sig_exact, Z.mod_mul in Hr by lia.
    change (inf_bits binary32) with (255 * 2 ^ 23) in Hr. cbn [fb binary32] in Hr.
    rewrite (proj2 (Z.leb_gt (255 * 2 ^ 23) _)) in Hr by lia.
    rewrite shiftl_mul, u32_small, packToF32_pack by lia. exact Hr.
  - rewrite shiftl_mul, u32_small by lia. apply roundPackToF32_rounds; [lia|lia|right; lia|done].
Qed.

Lemma normRoundPackToF64_rounds rm s exp sig c :
  - 2 ^ 13 <= exp < 2 ^ 13 -> 0 < sig < 2 ^ 63 ->
  (forall k, 0 <= k -> 2 ^ 62 <= sig * 2 ^ k < 2 ^ 63 -> stands_for 10 c (exp - k) (sig * 2 ^ k)) ->
  rounds binary64 rm s c (softfloat_normRoundPackToF64 rm s exp sig).
Proof.
  intros He Hs Hc. unfold softfloat_normRoundPackToF64. cbv zeta.
  destruct (clz64_spec sig ltac:(lia)) as [Hk Hl]. set (z := softfloat_countLeadingZeros64 sig) in *.
  assert (Hz : 1 <= z). { destruct (Z.le_gt_cases 1 z); [done|]. assert (z = 0) as Hz0 by lia. rewrite Hz0 in Hl. lia. }
  replace z with (z - 1 + 1) in Hl by lia. rewrite (Z.pow_add_r 2 (z - 1) 1) in Hl by lia.
  revert Hl Hk Hz. generalize z. clear z. intros z Hl Hk Hz. set (k := z - 1) in *.
  specialize (Hc k ltac:(lia) ltac:(lia)). rewrite (proj2 (Z.eqb_neq sig 0)) by lia.
  destruct ((10 <=? k) && (u16 (exp - k) <? 0x7FD)) eqn:E.
  - apply andb_true_iff in E as [E1 E2]. apply Z.leb_le in E1. apply Z.ltb_lt in E2.
    assert (Hpos : 0 <= exp - k) by (destruct (Z.le_gt_cases 0 (exp - k)); [done|]; pose proof (u16_neg (exp - k)); lia).
    rewrite u16_small in E2 by lia.
    assert (Hsk : sig * 2 ^ k = sig * 2 ^ (k - 10) * 2 ^ 10).
    { rewrite <- Z.mul_assoc, <- Z.pow_add_r by lia. do 2 f_equal. lia. }
    assert (0 <= sig * 2 ^ (k - 10) < 2 ^ 53) by lia.
    pose proof (rounds_normal binary64 10 ltac:(cbn; lia) ltac:(lia) ltac:(cbn; lia) c rm s (exp - k) (sig * 2 ^ k)
      ltac:(lia) ltac:(cbn [fb binary64]; lia) Hc) as Hr.
    rewrite Hsk, rounded_sig_exact, Z.mod_mul in Hr by lia.
    change (inf_bits binary64) with (2047 * 2 ^ 52) in Hr. cbn [fb binary64] in Hr.
    rewrite (proj2 (Z.leb_gt (2047 * 2 ^ 52) _)) in Hr by lia.
    rewrite shiftl_mul, u64_small, packToF64_pack by lia. exact Hr.
  - rewrite shiftl_mul, u64_small by lia. apply roundPackToF64_rounds; [lia|lia|right; lia|done].
Qed.

(** What the operations rely on: a format with [g] guard bits and the two
    functions that round a significand to it. *)
Class Rounder (f : format) (g : Z) (roundPack normRoundPack : Z -> bool -> Z -> Z -> flagged Z) : Prop := {
  rounder_fb : 1 <= fb f;
  rounder_eb : 2 <= eb f;
  rounder_small : 2 ^ eb f <= 2 ^ 12 /\ fb f <= 2 ^ 10;
  rounder_g : 4 <= g;
  roundPack_rounds : forall rm s exp sig c,
    - 2 ^ 14 <= exp < 2 ^ 14 -> 0 <= sig < 2 ^ (fb f + g + 1) -> exp < 0 \/ 2 ^ (fb f + g) <= sig ->
    stands_for g c exp sig -> rounds f rm s c (roundPack rm s exp sig);
  normRoundPack_rounds : forall rm s exp sig c,
    - 2 ^ 13 <= exp < 2 ^ 13 -> 0 < sig < 2 ^ (fb f + g + 1) ->
    (forall k, 0 <= k -> 2 ^ (fb f + g) <= sig * 2 ^ k < 2 ^ (fb f + g + 1) -> stands_for g c (exp - k) (sig * 2 ^ k)) ->
    rounds f rm s c (normRoundPack rm s exp sig)
}.

#[export] Instance rounder_32 : Rounder binary32 7 softfloat_roundPackToF32 softfloat_normRoundPackToF32.
Proof.
  split; try (cbn; lia); intros; [by apply roundPackToF32_rounds|by apply normRoundPackToF32_rounds].
Qed.

#[export] Instance rounder_64 : Rounder binary64 10 softfloat_roundPackToF64 softfloat_normRoundPackToF64.
Proof.
  split; try (cbn; lia); intros; [by apply roundPackToF64_rounds|by apply normRoundPackToF64_rounds].
Qed.
