(* ===== verification/SoftFloatAdd.v ===== *)
(** * Floating-point addition and multiplication are correctly rounded *)

From S2P Require Import Prelude SoftFloat SoftFloatArith SoftFloatSpec SoftFloatFields.

(** ** What the standard asks *)

Definition nan_result (f : format) (us : list Z) : Z * Z :=
  (default_nan f, if existsb (is_signaling f) us then softfloat_flag_invalid else 0).
Definition invalid_result (f : format) : Z * Z := (default_nan f, softfloat_flag_invalid).

(** [r] is the sum of [a] and [b] and its flags. *)
Definition is_sum (f : format) (rm a b : Z) (r : Z * Z) : Prop :=
  if is_nan f a || is_nan f b then r = nan_result f [a; b]
  else if is_inf f a then
    if is_inf f b && xorb (negative f a) (negative f b) then r = invalid_result f else r = (a, 0)
  else if is_inf f b then r = (b, 0)
  else
    let n := fvalue f a + fvalue f b in
    if n =? 0 then
      r = (pack f (if Bool.eqb (negative f a) (negative f b) then negative f a else rm =? softfloat_round_min) 0, 0)
    else rounds f rm (n <? 0) (twice_ratio (Z.abs n) 1) r.

(** ** Shared steps *)

Lemma rounds_exact f rm s b :
  1 <= fb f -> 2 <= eb f -> 0 <= b < 2 * 2 ^ fb f -> rounds f rm s (twice_ratio b 1) (pack f s b, 0).
Proof.
  intros Hf He Hb. assert (HF : 2 ^ (fb f + 1) = 2 * 2 ^ fb f) by (rewrite Z.pow_add_r by lia; lia).
  assert (H0 : fval f b = b) by (rewrite <- (Z.add_0_l b) at 1; rewrite <- (Z.mul_0_l (2 ^ fb f)), fval_encode; lia).
  assert (H1 : fval f (b + 1) = b + 1)
    by (rewrite <- (Z.add_0_l (b + 1)) at 1; rewrite <- (Z.mul_0_l (2 ^ fb f)), fval_encode; lia).
  pose proof (inf_bits_large f Hf He). unfold twice_ratio, ratio.
  exists b. split; [lia|]. rewrite H0, H1, !Z.mul_1_r, Z.compare_refl. split; [done|].
  split; [apply Z.compare_gt_iff; lia|]. unfold round_from. rewrite H0, Z.mul_1_r, Z.compare_refl.
  by rewrite (proj2 (Z.leb_gt _ _)) by lia.
Qed.

(** The smaller operand shifted to the exponent of the greater one: significands
    [sa] and [sb] with exponents [xa] and [xb], [h] guard bits, and the shift by
    [t], one more for a subnormal number that was doubled. *)
Lemma scaled_aligned sa sb xa xb h dl (q : bool) :
  0 <= h -> 0 <= dl -> 1 <= xb <= xa ->
  let t := xa - xb + dl in
  scaled (if q then sa * 2 ^ (xa - 1) + sb * 2 ^ (xb - 1) else sa * 2 ^ (xa - 1) - sb * 2 ^ (xb - 1)) 1
    (if q then sb * 2 ^ (h + dl) + sa * 2 ^ h * 2 ^ t else sa * 2 ^ h * 2 ^ t - sb * 2 ^ (h + dl)) (2 ^ t) (xa - 1 - h).
Proof.
  intros Hh Hd Hx t. exists h. split; [done|]. split; [lia|].
  replace (h + (xa - 1 - h)) with (xa - 1) by lia.
  assert (Ht : 2 ^ (xb - 1) * 2 ^ t = 2 ^ dl * 2 ^ (xa - 1)) by (rewrite <- !Z.pow_add_r by lia; f_equal; lia).
  rewrite (Z.pow_add_r 2 h dl) by lia.
  assert (He : sb * 2 ^ (xb - 1) * 2 ^ t = sb * 2 ^ dl * 2 ^ (xa - 1)) by (rewrite <- !Z.mul_assoc, Ht; ring).
  destruct q.
  - transitivity (sa * 2 ^ (xa - 1) * 2 ^ t * 2 ^ h + sb * 2 ^ (xb - 1) * 2 ^ t * 2 ^ h); [ring|]. rewrite He. ring.
  - transitivity (sa * 2 ^ (xa - 1) * 2 ^ t * 2 ^ h - sb * 2 ^ (xb - 1) * 2 ^ t * 2 ^ h); [ring|]. rewrite He. ring.
Qed.

Lemma agrees_far_add q t k : 0 <= t -> agrees 2 (ratio (q + k * 2 * 2 ^ t) (2 ^ t)) (jam q t + k * 2).
Proof. intros Ht. by apply agrees_add, agrees_jam. Qed.

Lemma agrees_far_sub q t k : 0 <= t -> agrees 2 (ratio (k * 2 * 2 ^ t - q) (2 ^ t)) (k * 2 - jam q t).
Proof. intros Ht. by apply agrees_sub, agrees_jam. Qed.

(** A jammed shift keeps the order of magnitude. *)
Lemma jam_le a n k : 0 <= n -> 1 <= k -> 0 <= a < 2 ^ (n + k) -> 0 <= jam a n < 2 ^ k.
Proof. intros. destruct (jam_range a n k); [lia..|done|lia]. Qed.

Lemma scaled_reduce n d v dv k : 0 < dv -> scaled n d (v * dv) dv k -> scaled n d v 1 k.
Proof.
  intros Hdv (a & Ha & Hak & Hx). exists a. split; [done|]. split; [done|]. rewrite Z.mul_1_r.
  apply (Z.mul_reg_r _ _ dv); [lia|]. transitivity (n * dv * 2 ^ a); [ring|]. rewrite Hx. ring.
Qed.

(** The difference of two aligned significands, if the shift loses nothing or
    little enough. *)
Lemma stands_for_difference g n q t k0 exp sig k :
  4 <= g -> 1 <= t -> 0 <= k ->
  (t = 1 -> q mod 2 = 0) -> (2 <= t -> k <= 1) ->
  sig = k0 * 2 - jam q t -> scaled n 1 (k0 * 2 * 2 ^ t - q) (2 ^ t) (exp - g) ->
  stands_for g (twice_ratio n 1) (exp - k) (sig * 2 ^ k).
Proof.
  intros Hg Ht Hk H1 H2 -> Hs. pose proof (pow2_pos t ltac:(lia)).
  destruct (Z.eq_dec t 1) as [Ht1|].
  - apply stands_for_exact; [lia..|]. specialize (H1 Ht1). subst t. rewrite Z.pow_1_r in *.
    apply scaled_reduce with (dv := 2); [lia|].
    replace ((k0 * 2 - jam q 1) * 2) with (k0 * 2 * 2 - q); [done|].
    rewrite jam_alt, Z.pow_1_r, H1. cbn [Z.eqb orb]. pose proof (Z.div_mod q 2). lia.
  - apply (stands_for_lshift g n 1 (k0 * 2 * 2 ^ t - q) (2 ^ t) exp _ 1 k); try lia; try done.
    apply agrees_far_sub. lia.
Qed.


Section rounder.
Context {f : format} {g : Z} {RP NRP : Z -> bool -> Z -> Z -> flagged Z} `{!Rounder f g RP NRP}.
#[local] Notation F := (2 ^ fb f).
#[local] Notation G := (2 ^ (fb f + g)).
#[local] Notation Hfb := (rounder_fb (Rounder := Rounder0)).
#[local] Notation Hg := (rounder_g (Rounder := Rounder0)).

Lemma pow_top : 2 ^ (fb f + g + 1) = 2 * G /\ G = 2 * 2 ^ (fb f + g - 1) /\ G = F * 2 ^ g /\ 2 ^ g = 2 * 2 ^ (g - 1).
Proof using Rounder0.
  pose proof Hfb. pose proof Hg. repeat split; rewrite <- ?Z.pow_add_r, <- ?Z.pow_succ_r by lia; f_equal; lia.
Qed.

(** The tail of addition and multiplication: a significand that may lack its
    top bit. *)
Lemma roundPack_or_shift rm s x sig n d nv dv :
  - 2 ^ 13 <= x <= 2 ^ 13 -> 2 ^ (fb f + g - 1) <= sig < 2 ^ (fb f + g + 1) -> 0 < d -> 0 < dv ->
  agrees 2 (ratio nv dv) sig -> scaled n d nv dv (x - g) ->
  rounds f rm s (twice_ratio n d) (if sig <? G then RP rm s (x - 1) (sig <<< 1) else RP rm s x sig).
Proof using Rounder0.
  intros Hx Hs Hd Hdv Ha Hsc. pose proof Hg. destruct pow_top as (P1 & P2 & _).
  pose proof (fun k => stands_for_lshift g n d nv dv x sig 1 k ltac:(lia) Hd Hdv ltac:(lia)) as Hk.
  destruct (Z.ltb_spec sig G).
  - rewrite shiftl_mul by lia. apply roundPack_rounds; [lia|lia|right; lia|]. apply (Hk 1); [lia|lia|done..].
  - apply roundPack_rounds; [lia|lia|right; lia|].
    specialize (Hk 0 ltac:(lia) ltac:(lia) Ha Hsc). by rewrite Z.sub_0_r, Z.mul_1_r in Hk.
Qed.

(** Operands with different exponents. *)
Lemma add_far rm s sa sb xa xb dl :
  F <= sa < 2 * F -> 0 <= sb < 2 ^ (fb f + 1 - dl) -> 0 <= dl <= 1 -> 1 <= xb <= xa -> xa <= 2 ^ 12 -> 1 <= xa - xb + dl ->
  rounds f rm s (twice_ratio (sa * 2 ^ (xa - 1) + sb * 2 ^ (xb - 1)) 1)
    (let sig := sa * 2 ^ (g - 1) + jam (sb * 2 ^ (g - 1 + dl)) (xa - xb + dl) in
     if sig <? G then RP rm s (xa - 1) (sig <<< 1) else RP rm s xa sig).
Proof using Rounder0.
  intros Hsa Hsb Hdl Hx Hxa Ht. pose proof Hg. pose proof Hfb. destruct pow_top as (P1 & P2 & P3 & P4).
  set (t := xa - xb + dl) in *.
  assert (Hq : 0 <= sb * 2 ^ (g - 1 + dl) < G).
  { replace G with (2 ^ (fb f + 1 - dl) * 2 ^ (g - 1 + dl)) by (rewrite <- Z.pow_add_r by lia; f_equal; lia).
    pose proof (pow2_pos (g - 1 + dl) ltac:(lia)). nia. }
  pose proof (pow2_mono (fb f + g) (t + (fb f + g - 1)) ltac:(lia)).
  pose proof (jam_le (sb * 2 ^ (g - 1 + dl)) t (fb f + g - 1) ltac:(lia) ltac:(lia) ltac:(lia)) as Hj.
  assert (2 ^ (fb f + g - 1) <= sa * 2 ^ (g - 1) < G).
  { replace (2 ^ (fb f + g - 1)) with (F * 2 ^ (g - 1)) by (rewrite <- Z.pow_add_r by lia; f_equal; lia).
    rewrite P3, P4. pose proof (pow2_pos (g - 1) ltac:(lia)). nia. }
  assert (Hg1 : 2 ^ (g - 1) = 2 ^ (g - 2) * 2) by (replace (g - 1) with (Z.succ (g - 2)) by lia; rewrite Z.pow_succ_r by lia; ring).
  cbv zeta. apply roundPack_or_shift with (nv := sb * 2 ^ (g - 1 + dl) + sa * 2 ^ (g - 1) * 2 ^ t) (dv := 2 ^ t);
    [lia|lia|lia|apply pow2_pos; lia| |].
  - rewrite Hg1, !Z.mul_assoc, (Z.add_comm _ (jam _ _)). apply agrees_far_add. lia.
  - replace (xa - g) with (xa - 1 - (g - 1)) by lia. apply (scaled_aligned sa sb xa xb (g - 1) dl true); lia.
Qed.

Lemma sub_far rm s sa sb xa xb dl :
  F <= sa < 2 * F -> 0 <= sb < 2 ^ (fb f + 1 - dl) -> 0 <= dl <= 1 -> 1 <= xb <= xa -> xa <= 2 ^ 12 -> 1 <= xa - xb + dl ->
  rounds f rm s (twice_ratio (sa * 2 ^ (xa - 1) - sb * 2 ^ (xb - 1)) 1)
    (NRP rm s (xa - 1) (sa * 2 ^ g - jam (sb * 2 ^ (g + dl)) (xa - xb + dl))).
Proof using Rounder0.
  intros Hsa Hsb Hdl Hx Hxa Ht. pose proof Hg. pose proof Hfb. destruct pow_top as (P1 & P2 & P3 & P4).
  pose proof (scaled_aligned sa sb xa xb g dl false ltac:(lia) ltac:(lia) Hx) as Hsc.
  cbv zeta in Hsc. set (t := xa - xb + dl) in *. set (q := sb * 2 ^ (g + dl)) in *.
  assert (Hq : 0 <= q < 2 ^ (fb f + g + 1)).
  { subst q. replace (fb f + g + 1) with ((fb f + 1 - dl) + (g + dl)) by lia. rewrite (Z.pow_add_r 2 (fb f + 1 - dl)) by lia.
    pose proof (pow2_pos (g + dl) ltac:(lia)). nia. }
  pose proof (pow2_mono (fb f + g + 1) (t + (fb f + g)) ltac:(lia)).
  pose proof (jam_le q t (fb f + g) ltac:(lia) ltac:(lia) ltac:(lia)) as Hj.
  assert (Hj2 : 2 <= t -> jam q t < 2 ^ (fb f + g - 1)).
  { intros Ht2. pose proof (pow2_mono (fb f + g + 1) (t + (fb f + g - 1)) ltac:(lia)). apply jam_le; lia. }
  assert (Hsag : G <= sa * 2 ^ g < 2 * G) by (rewrite P3; pose proof (pow2_pos g ltac:(lia)); split;
    [apply Z.mul_le_mono_nonneg_r|rewrite Z.mul_assoc; apply Z.mul_lt_mono_pos_r]; lia).
  apply normRoundPack_rounds; [lia|lia|]. intros k Hk Hn.
  apply (stands_for_difference g _ q t (sa * 2 ^ (g - 1))); [lia|lia|done| | |lia|].
  - intros _. subst q. rewrite (Z.add_comm g), Z.pow_add_r, Z.mul_assoc, P4, (Z.mul_comm 2), Z.mul_assoc by lia.
    by apply Z.mod_mul.
  - intros Ht2. specialize (Hj2 Ht2). destruct (Z.le_gt_cases k 1); [done|].
    pose proof (pow2_mono 2 k ltac:(lia)). nia.
  - replace (sa * 2 ^ (g - 1) * 2) with (sa * 2 ^ g) by (rewrite P4; ring). exact Hsc.
Qed.

(** The same exponent. *)
Lemma sub_near rm s sa sb x :
  0 <= sa < 2 * F -> 0 <= sb < sa -> 1 <= x <= 2 ^ 12 ->
  rounds f rm s (twice_ratio (sa * 2 ^ (x - 1) - sb * 2 ^ (x - 1)) 1) (NRP rm s (x - 1) (sa * 2 ^ g - sb * 2 ^ g)).
Proof using Rounder0.
  intros Ha Hb Hx. pose proof Hg. destruct pow_top as (P1 & P2 & P3 & P4). pose proof (pow2_pos g ltac:(lia)).
  apply normRoundPack_rounds; [lia|nia|]. intros k Hk _. apply stands_for_exact; [lia..|].
  exists g. split; [lia|]. split; [lia|]. replace (g + (x - 1 - g)) with (x - 1) by lia. ring.
Qed.

Lemma add_near rm s sa sb x :
  F <= sa < 2 * F -> F <= sb < 2 * F -> 1 <= x <= 2 ^ 12 ->
  rounds f rm s (twice_ratio (sa * 2 ^ (x - 1) + sb * 2 ^ (x - 1)) 1) (RP rm s x (sa * 2 ^ (g - 1) + sb * 2 ^ (g - 1))).
Proof using Rounder0.
  intros Ha Hb Hx. pose proof Hg. destruct pow_top as (P1 & P2 & P3 & P4). pose proof (pow2_pos (g - 1) ltac:(lia)).
  apply roundPack_rounds; [lia|nia|right; nia|].
  pose proof (stands_for_exact g (sa * 2 ^ (x - 1) + sb * 2 ^ (x - 1)) 1 x (sa * 2 ^ (g - 1) + sb * 2 ^ (g - 1)) 0
    ltac:(lia) ltac:(lia) ltac:(lia)) as Hst.
  rewrite Z.sub_0_r, Z.mul_1_r in Hst. apply Hst. exists (g - 1). split; [lia|]. split; [lia|].
  replace (g - 1 + (x - g)) with (x - 1) by lia. ring.
Qed.

(** The smaller operand as the code shifts it. *)
Lemma small_operand e m h :
  0 <= e -> 0 <= m < F -> 0 <= h ->
  m * 2 ^ h + (if negb (e =? 0) then 2 ^ (fb f + h) else m * 2 ^ h)
    = significand f e m * 2 ^ (h + Z.b2z (e =? 0)) /\
  0 <= significand f e m < 2 ^ (fb f + 1 - Z.b2z (e =? 0)) /\
  exponent e = e + Z.b2z (e =? 0).
Proof using Rounder0.
  intros He Hm Hh. pose proof Hfb. unfold significand, exponent.
  destruct (Z.eqb_spec e 0) as [->|]; cbn [negb Z.b2z].
  - rewrite (Z.pow_add_r 2 h 1) by lia. replace (fb f + 1 - 1) with (fb f) by lia. split; [ring|lia].
  - rewrite Z.add_0_r, (Z.pow_add_r 2 (fb f) h), Z.sub_0_r, (Z.pow_add_r 2 (fb f) 1) by lia. split; [ring|lia].
Qed.

End rounder.

(** A normal number with the greater exponent is the greater one. *)
Lemma far_greater f sa sb xa xb :
  0 <= fb f -> 2 ^ fb f <= sa -> 0 <= sb < 2 * 2 ^ fb f -> 1 <= xb <= xa -> xb < xa \/ sb < 2 ^ fb f ->
  sb * 2 ^ (xb - 1) < sa * 2 ^ (xa - 1).
Proof.
  intros Hf Hsa Hsb Hx Hc. pose proof (pow2_pos (xb - 1) ltac:(lia)). pose proof (pow2_pos (fb f) Hf).
  destruct (Z.eq_dec xb xa) as [->|]; [nia|].
  apply Z.lt_le_trans with (2 * 2 ^ fb f * 2 ^ (xb - 1)); [nia|].
  transitivity (2 ^ fb f * 2 ^ xb).
  - replace xb with (Z.succ (xb - 1)) at 2 by lia. rewrite Z.pow_succ_r by lia. lia.
  - pose proof (pow2_mono xb (xa - 1) ltac:(lia)). nia.
Qed.

Definition is_difference (f : format) (rm : Z) (s : bool) (x y : Z) (r : Z * Z) : Prop :=
  if x =? y then r = (pack f (rm =? softfloat_round_min) 0, 0)
  else rounds f rm (if x <? y then negb s else s) (twice_ratio (Z.abs (x - y)) 1) r.

Lemma is_difference_greater f rm s x y r : y < x -> rounds f rm s (twice_ratio (x - y) 1) r -> is_difference f rm s x y r.
Proof.
  intros Hxy Hr. unfold is_difference. by rewrite (proj2 (Z.eqb_neq x y)), (proj2 (Z.ltb_ge x y)), Z.abs_eq by lia.
Qed.

Lemma is_difference_less f rm s x y r :
  x < y -> rounds f rm (negb s) (twice_ratio (y - x) 1) r -> is_difference f rm s x y r.
Proof.
  intros Hxy Hr. unfold is_difference. rewrite (proj2 (Z.eqb_neq x y)), (proj2 (Z.ltb_lt x y)), Z.abs_neq by lia.
  by replace (- (x - y)) with (y - x) by lia.
Qed.

Lemma fval_pos f b : 0 <= fb f -> 0 < b -> 0 < fval f b.
Proof.
  intros Hf Hb. pose proof (pow2_pos (fb f) Hf). unfold fval. destruct (Z.ltb_spec b (2 ^ fb f)); [done|].
  assert (1 <= b / 2 ^ fb f) by (apply Z.div_le_lower_bound; lia).
  pose proof (Z.mod_pos_bound b (2 ^ fb f)). pose proof (pow2_pos (b / 2 ^ fb f - 1)). nia.
Qed.

Lemma rounds_zero f rm s r : 1 <= fb f -> 2 <= eb f -> rounds f rm s (twice_ratio 0 1) r -> r = (pack f s 0, 0).
Proof.
  intros Hf He (b & Hb & Hle & _ & ->). unfold twice_ratio, ratio in Hle. rewrite Z.mul_1_r in Hle.
  destruct (Z.eq_dec b 0) as [->|].
  - pose proof (inf_bits_large f Hf He). pose proof (pow2_pos (fb f) ltac:(lia)).
    assert (Hz : fval f 0 = 0) by (unfold fval; by rewrite (proj2 (Z.ltb_lt 0 (2 ^ fb f)))).
    unfold round_from. rewrite Hz. unfold twice_ratio, ratio. change (2 * 0 * 1 ?= 2 * 0) with Eq. cbv iota zeta. by rewrite (proj2 (Z.leb_gt (inf_bits f) 0)) by lia.
  - pose proof (fval_pos f b ltac:(lia) ltac:(lia)). exfalso. apply Hle. apply Z.compare_gt_iff. lia.
Qed.

Lemma fval_nonneg f b : 0 <= fb f -> 0 <= b -> 0 <= fval f b.
Proof.
  intros Hf Hb. destruct (Z.eq_dec b 0) as [->|]; [|pose proof (fval_pos f b Hf); lia].
  pose proof (pow2_pos (fb f) Hf). unfold fval. by rewrite (proj2 (Z.ltb_lt 0 (2 ^ fb f))).
Qed.

Section sum.
Context (f : format) (Hfb : 1 <= fb f) (Heb : 2 <= eb f).

Lemma mag_nonneg u : 0 <= mag f u.
Proof using Hfb Heb. apply Z.mod_pos_bound. unfold sign_bit. apply pow2_pos. lia. Qed.

(** Sums of two finite numbers, by their signs. *)
Lemma is_sum_same_sign rm a b r :
  is_nan f a = false -> is_nan f b = false -> is_inf f a = false -> is_inf f b = false ->
  negative f a = negative f b ->
  rounds f rm (negative f a) (twice_ratio (fval f (mag f a) + fval f (mag f b)) 1) r -> is_sum f rm a b r.
Proof using Hfb Heb.
  intros Hna Hnb Hia Hib Hs Hr. unfold is_sum. rewrite Hna, Hnb, Hia, Hib, <- Hs, Bool.eqb_reflx. cbn [orb].
  unfold fvalue. rewrite <- Hs.
  pose proof (fval_nonneg f (mag f a) ltac:(lia) (mag_nonneg a)).
  pose proof (fval_nonneg f (mag f b) ltac:(lia) (mag_nonneg b)).
  set (x := fval f (mag f a)) in *. set (y := fval f (mag f b)) in *. cbv zeta.
  assert (Hz : x + y = 0 -> r = (pack f (negative f a) 0, 0)).
  { intros Hxy. rewrite Hxy in Hr. by apply (rounds_zero f rm). }
  destruct (negative f a).
  - destruct (Z.eqb_spec (- x + - y) 0); [apply Hz; lia|].
    rewrite (proj2 (Z.ltb_lt _ 0)), Z.abs_neq by lia. by replace (- (- x + - y)) with (x + y) by lia.
  - destruct (Z.eqb_spec (x + y) 0); [by apply Hz|]. by rewrite (proj2 (Z.ltb_ge _ 0)), Z.abs_eq by lia.
Qed.

Lemma is_sum_other_sign rm a b r :
  is_nan f a = false -> is_nan f b = false -> is_inf f a = false -> is_inf f b = false ->
  negative f b = negb (negative f a) ->
  is_difference f rm (negative f a) (fval f (mag f a)) (fval f (mag f b)) r -> is_sum f rm a b r.
Proof using Hfb Heb.
  intros Hna Hnb Hia Hib Hs Hr. unfold is_sum. rewrite Hna, Hnb, Hia, Hib, Hs. cbn [orb].
  unfold fvalue. rewrite Hs. unfold is_difference in Hr. cbv zeta.
  set (x := fval f (mag f a)) in *. set (y := fval f (mag f b)) in *.
  destruct (negative f a); cbn [negb Bool.eqb] in *; destruct (Z.eqb_spec x y) as [Hxy|Hxy].
  - by rewrite (proj2 (Z.eqb_eq (- x + y) 0)) by lia.
  - rewrite (proj2 (Z.eqb_neq (- x + y) 0)) by lia. rewrite <- Z.abs_opp in Hr.
    replace (- (x - y)) with (- x + y) in Hr by lia.
    replace (if x <? y then false else true) with (- x + y <? 0) in Hr; [done|].
    destruct (Z.ltb_spec (- x + y) 0), (Z.ltb_spec x y); lia || done.
  - by rewrite (proj2 (Z.eqb_eq (x + - y) 0)) by lia.
  - rewrite (proj2 (Z.eqb_neq (x + - y) 0)) by lia.
    replace (if x <? y then true else false) with (x + - y <? 0) in Hr; [done|].
    destruct (Z.ltb_spec (x + - y) 0), (Z.ltb_spec x y); lia || done.
Qed.
End sum.

Lemma lor_zero_test x y n : 0 <= n -> ((x <<< n) ||| (y <<< n) =? 0) = (x =? 0) && (y =? 0).
Proof.
  intros Hn. rewrite <- Z.shiftl_lor, shiftl_mul by done. pose proof (pow2_pos n Hn).
  apply Bool.eq_iff_eq_true. rewrite andb_true_iff, !Z.eqb_eq, <- Z.lor_eq_0_iff. nia.
Qed.

Lemma shiftl_eqb_0 x n : 0 <= n -> (x <<< n =? 0) = (x =? 0).
Proof. intros Hn. rewrite shiftl_mul by done. pose proof (pow2_pos n Hn). apply Bool.eq_iff_eq_true. rewrite !Z.eqb_eq. nia. Qed.

Lemma propagateNaN32_eq a b :
  is_uint 32 a -> is_uint 32 b -> softfloat_propagateNaNF32UI a b = nan_result binary32 [a; b].
Proof.
  intros Ha Hb. unfold softfloat_propagateNaNF32UI, nan_result. cbn [existsb].
  rewrite !isSigNaN32_eq, orb_false_r by done. by destruct (_ || _).
Qed.

Lemma propagateNaN64_eq a b :
  is_uint 64 a -> is_uint 64 b -> softfloat_propagateNaNF64UI a b = nan_result binary64 [a; b].
Proof.
  intros Ha Hb. unfold softfloat_propagateNaNF64UI, nan_result. cbn [existsb].
  rewrite !isSigNaN64_eq, orb_false_r by done. by destruct (_ || _).
Qed.

(** ** Single precision *)

Lemma fval_finite_32 u :
  is_uint 32 u -> fval binary32 (mag binary32 u)
    = significand binary32 (expF32UI u) (fracF32UI u) * 2 ^ (exponent (expF32UI u) - 1).
Proof. intros Hu. exact (fval_fields binary32 ltac:(cbn; lia) ltac:(cbn; lia) _ _ _ _ (fields_32 u Hu)). Qed.

Lemma small_operand_32 e m h :
  0 <= e -> 0 <= m < 2 ^ 23 -> 0 <= h ->
  m * 2 ^ h + (if negb (e =? 0) then 2 ^ (23 + h) else m * 2 ^ h)
    = significand binary32 e m * 2 ^ (h + Z.b2z (e =? 0)) /\
  0 <= significand binary32 e m < 2 ^ (24 - Z.b2z (e =? 0)) /\
  exponent e = e + Z.b2z (e =? 0).
Proof. exact (small_operand (Rounder0 := rounder_32) e m h). Qed.

Lemma addMagsF32_finite rm a b s :
  is_uint 32 a -> is_uint 32 b -> signF32UI a = s -> signF32UI b = s -> expF32UI a <> 255 -> expF32UI b <> 255 ->
  rounds binary32 rm s (twice_ratio (fval binary32 (mag binary32 a) + fval binary32 (mag binary32 b)) 1)
    (softfloat_addMagsF32 rm a b s).
Proof.
  intros Ha Hb Hsa Hsb Hea Heb. pose proof (fields_32 a Ha) as Fa. pose proof (fields_32 b Hb) as Fb.
  rewrite Hsa in Fa. rewrite Hsb in Fb. rewrite !fval_finite_32 by done.
  unfold softfloat_addMagsF32. cbv zeta.
  destruct Fa as [Rea Rma Pa], Fb as [Reb Rmb Pb]. cbn [fb eb binary32] in Rea, Rma, Reb, Rmb, Pa, Pb.
  set (ea := expF32UI a) in *. set (ma := fracF32UI a) in *. set (e := expF32UI b) in *. set (m := fracF32UI b) in *.
  rewrite (shiftl_mul ma), (shiftl_mul m) by lia. rewrite (proj2 (Z.eqb_neq ea 255)), (proj2 (Z.eqb_neq e 255)) by lia.
  destruct (Z.eqb_spec (ea - e) 0) as [Heq|Hne]; [|destruct (Z.ltb_spec (ea - e) 0)].
  - assert (Hee : ea = e) by lia. rewrite Hee in *. destruct (Z.eqb_spec e 0) as [He0|He0].
    + rewrite He0 in *. unfold significand, exponent. cbn [Z.eqb Z.max Z.compare]. rewrite !Z.mul_1_r.
      change 0x7FFFFFFF with (2 ^ 31 - 1). rewrite land_pow2_mask by lia.
      assert (Hab : u32 (a + b) mod 2 ^ 31 = ma + m).
      { rewrite Pa, Pb. unfold u32, pack, sign_bit. cbn [fb eb binary32]. clear - Rma Rmb. destruct s; cbn [Z.b2z]; zdm. }
      rewrite Hab, packToF32_pack, Z.mul_0_l, Z.add_0_l by lia. apply rounds_exact; cbn [fb eb binary32]; lia.
    + rewrite !significand_normal, exponent_normal by lia. cbn [fb binary32].
      replace (0x40000000 + ma * 2 ^ 6 + m * 2 ^ 6) with ((2 ^ 23 + ma) * 2 ^ 6 + (2 ^ 23 + m) * 2 ^ 6) by ring.
      apply (add_near (Rounder0 := rounder_32)); cbn [fb binary32]; lia.
  - rewrite (significand_normal binary32 e), (exponent_normal e), Z.add_comm by lia.
    destruct (small_operand_32 ea ma 6 ltac:(lia) ltac:(lia) ltac:(lia)) as (Hsm & Hsr & Hx).
    change 0x20000000 with (2 ^ (23 + 6)). rewrite Hsm, shift32RightJam_eq by (destruct (ea =? 0); cbn [Z.b2z] in *; lia).
    replace (- (ea - e)) with (e - exponent ea + Z.b2z (ea =? 0)) by lia.
    rewrite <- Z.add_assoc, (Z.add_comm (jam _ _)), Z.add_assoc. rewrite Z.pow_add_r, <- Z.mul_add_distr_r by lia.
    apply (add_far (Rounder0 := rounder_32)); cbn [fb binary32]; destruct (Z.eqb_spec ea 0); cbn [Z.b2z] in *; lia.
  - rewrite (significand_normal binary32 ea), (exponent_normal ea) by lia.
    destruct (small_operand_32 e m 6 ltac:(lia) ltac:(lia) ltac:(lia)) as (Hsm & Hsr & Hx).
    change 0x20000000 with (2 ^ (23 + 6)). rewrite Hsm, shift32RightJam_eq by (destruct (e =? 0); cbn [Z.b2z] in *; lia).
    replace (ea - e) with (ea - exponent e + Z.b2z (e =? 0)) by lia.
    rewrite Z.pow_add_r, <- Z.mul_add_distr_r by lia.
    apply (add_far (Rounder0 := rounder_32)); cbn [fb binary32]; destruct (Z.eqb_spec e 0); cbn [Z.b2z] in *; lia.
Qed.

Lemma subMagsF32_finite rm a b s :
  is_uint 32 a -> is_uint 32 b -> expF32UI a <> 255 -> expF32UI b <> 255 ->
  is_difference binary32 rm s (fval binary32 (mag binary32 a)) (fval binary32 (mag binary32 b))
    (softfloat_subMagsF32 rm a b s).
Proof.
  intros Ha Hb Hea Heb. rewrite !fval_finite_32 by done.
  destruct (fields_32 a Ha) as [Rea Rma _], (fields_32 b Hb) as [Reb Rmb _]. cbn [fb eb binary32] in Rea, Rma, Reb, Rmb.
  unfold softfloat_subMagsF32. cbv zeta.
  set (ea := expF32UI a) in *. set (ma := fracF32UI a) in *. set (e := expF32UI b) in *. set (m := fracF32UI b) in *.
  rewrite (shiftl_mul ma), (shiftl_mul m), (proj2 (Z.eqb_neq ea 255)), (proj2 (Z.eqb_neq e 255)) by lia.
  change 0x40000000 with (2 ^ (23 + 7)).
  destruct (small_operand_32 e m 7 ltac:(lia) ltac:(lia) ltac:(lia)) as (Hsm & Hsr & Hx).
  destruct (small_operand_32 ea ma 7 ltac:(lia) ltac:(lia) ltac:(lia)) as (Hsm' & Hsr' & Hx').
  assert (Hlor : forall x, 0 <= x < 2 ^ 23 -> (x * 2 ^ 7) ||| 2 ^ (23 + 7) = (2 ^ 23 + x) * 2 ^ 7).
  { intros x Hx0. rewrite lor_low by lia. lia. }
  rewrite Hsm, Hsm', !Hlor by lia.
  destruct (Z.ltb_spec 0 (ea - e)); [|destruct (Z.ltb_spec (ea - e) 0)].
  - rewrite (significand_normal binary32 ea), (exponent_normal ea), shift32RightJam_eq
      by (try destruct (e =? 0); cbn [Z.b2z] in *; lia).
    replace (ea - e) with (ea - exponent e + Z.b2z (e =? 0)) by lia. pose proof (exponent_pos e).
    apply is_difference_greater; [apply (far_greater binary32)|apply (sub_far (Rounder0 := rounder_32))];
      cbn [fb binary32]; destruct (Z.eqb_spec e 0); cbn [Z.b2z] in *; lia.
  - rewrite (significand_normal binary32 e), (exponent_normal e), shift32RightJam_eq
      by (try destruct (ea =? 0); cbn [Z.b2z] in *; lia).
    replace (- (ea - e)) with (e - exponent ea + Z.b2z (ea =? 0)) by lia. pose proof (exponent_pos ea).
    apply is_difference_less; [apply (far_greater binary32)|apply (sub_far (Rounder0 := rounder_32))];
      cbn [fb binary32]; destruct (Z.eqb_spec ea 0); cbn [Z.b2z] in *; lia.
  - assert (Hee : ea = e) by lia. rewrite Hee in *.
    replace (if e =? 0 then 1 else e) with (exponent e) by (unfold exponent; destruct (Z.eqb_spec e 0); lia).
    pose proof (exponent_pos e). assert (exponent e <= 2 ^ 12) by (unfold exponent; lia).
    pose proof (pow2_pos (exponent e - 1) ltac:(lia)).
    assert (Hsd : exists c0, 0 <= c0 <= 2 ^ 23 /\ significand binary32 e ma = c0 + ma /\ significand binary32 e m = c0 + m).
    { exists (if e =? 0 then 0 else 2 ^ 23). unfold significand. cbn [fb binary32]. destruct (e =? 0); lia. }
    destruct Hsd as (c0 & Hc0 & -> & ->).
    destruct (Z.ltb_spec (m * 2 ^ 7) (ma * 2 ^ 7)); [|destruct (Z.ltb_spec (ma * 2 ^ 7) (m * 2 ^ 7))].
    + apply is_difference_greater; [nia|].
      replace (ma * 2 ^ 7 - m * 2 ^ 7) with ((c0 + ma) * 2 ^ 7 - (c0 + m) * 2 ^ 7) by ring.
      apply (sub_near (Rounder0 := rounder_32)); cbn [fb binary32]; lia.
    + apply is_difference_less; [nia|].
      replace (m * 2 ^ 7 - ma * 2 ^ 7) with ((c0 + m) * 2 ^ 7 - (c0 + ma) * 2 ^ 7) by ring.
      apply (sub_near (Rounder0 := rounder_32)); cbn [fb binary32]; lia.
    + assert (ma = m) as -> by lia. unfold is_difference. by rewrite Z.eqb_refl, packToF32_pack by lia.
Qed.

(** Operands that are not finite. *)
Lemma addMagsF32_special rm a b s :
  expF32UI a <= 255 -> expF32UI b <= 255 -> expF32UI a = 255 \/ expF32UI b = 255 ->
  softfloat_addMagsF32 rm a b s =
  if (expF32UI a =? 255) && negb (fracF32UI a =? 0) || (expF32UI b =? 255) && negb (fracF32UI b =? 0)
  then softfloat_propagateNaNF32UI a b
  else if expF32UI a =? 255 then mret a else mret (packToF32UI s 255 0).
Proof.
  intros Ha Hb Hab. unfold softfloat_addMagsF32. cbv zeta. rewrite lor_zero_test, !shiftl_eqb_0 by lia.
  destruct (Z.eqb_spec (expF32UI a) 255) as [Ea|Ea], (Z.eqb_spec (expF32UI b) 255) as [Eb|Eb]; [..|lia].
  - rewrite (proj2 (Z.eqb_eq (expF32UI a - _) 0)) by lia.
    by destruct (fracF32UI a =? 0), (fracF32UI b =? 0).
  - rewrite (proj2 (Z.eqb_neq (expF32UI a - _) 0)), (proj2 (Z.ltb_ge (expF32UI a - _) 0)) by lia.
    cbn [andb]. by rewrite orb_false_r.
  - rewrite (proj2 (Z.eqb_neq (expF32UI a - _) 0)), (proj2 (Z.ltb_lt (expF32UI a - _) 0)) by lia. done.
Qed.

Lemma subMagsF32_special rm a b s :
  expF32UI a <= 255 -> expF32UI b <= 255 -> expF32UI a = 255 \/ expF32UI b = 255 ->
  softfloat_subMagsF32 rm a b s =
  if (expF32UI a =? 255) && negb (fracF32UI a =? 0) || (expF32UI b =? 255) && negb (fracF32UI b =? 0)
  then softfloat_propagateNaNF32UI a b
  else if (expF32UI a =? 255) && (expF32UI b =? 255) then (defaultNaNF32UI, softfloat_flag_invalid)
  else if expF32UI a =? 255 then mret a else mret (packToF32UI (negb s) 255 0).
Proof.
  intros Ha Hb Hab. unfold softfloat_subMagsF32. cbv zeta. rewrite lor_zero_test, !shiftl_eqb_0 by lia.
  destruct (Z.eqb_spec (expF32UI a) 255) as [Ea|Ea], (Z.eqb_spec (expF32UI b) 255) as [Eb|Eb]; [..|lia].
  - rewrite (proj2 (Z.ltb_ge 0 _)), (proj2 (Z.ltb_ge (expF32UI a - _) 0)) by lia.
    by destruct (fracF32UI a =? 0), (fracF32UI b =? 0).
  - rewrite (proj2 (Z.ltb_lt 0 _)) by lia. cbn [andb]. by rewrite orb_false_r.
  - rewrite (proj2 (Z.ltb_ge 0 _)), (proj2 (Z.ltb_lt (expF32UI a - _) 0)) by lia. done.
Qed.

Lemma f32_add_sum rm a b : is_uint 32 a -> is_uint 32 b -> is_sum binary32 rm a b (f32_add rm a b).
Proof.
  intros Ha Hb. pose proof (fields_32 a Ha) as Fa. pose proof (fields_32 b Hb) as Fb.
  pose proof (is_nan_fields binary32 ltac:(cbn; lia) ltac:(cbn; lia) _ _ _ _ Fa) as Na.
  pose proof (is_nan_fields binary32 ltac:(cbn; lia) ltac:(cbn; lia) _ _ _ _ Fb) as Nb.
  pose proof (is_inf_fields binary32 ltac:(cbn; lia) ltac:(cbn; lia) _ _ _ _ Fa) as Ia.
  pose proof (is_inf_fields binary32 ltac:(cbn; lia) ltac:(cbn; lia) _ _ _ _ Fb) as Ib.
  pose proof (negative_fields binary32 ltac:(cbn; lia) ltac:(cbn; lia) _ _ _ _ Fa) as Sa.
  pose proof (negative_fields binary32 ltac:(cbn; lia) ltac:(cbn; lia) _ _ _ _ Fb) as Sb.
  change (2 ^ eb binary32 - 1) with 255 in *. unfold f32_add.
  destruct (Z.eqb_spec (expF32UI a) 255) as [Ea|Ea], (Z.eqb_spec (expF32UI b) 255) as [Eb|Eb].
  4: { destruct (Bool.eqb_spec (signF32UI a) (signF32UI b)) as [Hs|Hs].
       - apply is_sum_same_sign; try done; [cbn; lia..|congruence|]. rewrite Sa. by apply addMagsF32_finite.
       - apply is_sum_other_sign; try done; [cbn; lia..| |].
         + rewrite Sa, Sb. by destruct (signF32UI a), (signF32UI b).
         + rewrite Sa. by apply subMagsF32_finite. }
  all: destruct Fa as [Rea Rma Pa], Fb as [Reb Rmb Pb]; cbn [fb eb binary32] in *; unfold is_sum; rewrite Na, Nb, Ia, Ib, Sa, Sb.
  all: destruct (Bool.eqb_spec (signF32UI a) (signF32UI b)) as [Hs|Hs];
    rewrite ?addMagsF32_special, ?subMagsF32_special, propagateNaN32_eq by first [done|lia].
  all: rewrite ?Ea, ?Eb; change (255 =? 255) with true; rewrite ?(proj2 (Z.eqb_neq (expF32UI _) 255)) by done;
    cbn [andb orb].
  all: rewrite ?packToF32_pack, ?Z.add_0_r by lia.
  all: destruct (Z.eqb_spec (fracF32UI a) 0) as [Ma|], (Z.eqb_spec (fracF32UI b) 0) as [Mb|]; cbn [negb orb andb].
  all: try reflexivity; rewrite ?Z.add_0_r in Pb.
  all: destruct (signF32UI a), (signF32UI b); try reflexivity; try discriminate Hs; try by destruct Hs.
  all: rewrite Pb, Eb, Mb, Z.add_0_r; reflexivity.
Qed.

(** ** Double precision *)

Lemma fval_finite_64 u :
  is_uint 64 u -> fval binary64 (mag binary64 u)
    = significand binary64 (expF64UI u) (fracF64UI u) * 2 ^ (exponent (expF64UI u) - 1).
Proof. intros Hu. exact (fval_fields binary64 ltac:(cbn; lia) ltac:(cbn; lia) _ _ _ _ (fields_64 u Hu)). Qed.

Lemma small_operand_64 e m h :
  0 <= e -> 0 <= m < 2 ^ 52 -> 0 <= h ->
  m * 2 ^ h + (if negb (e =? 0) then 2 ^ (52 + h) else m * 2 ^ h)
    = significand binary64 e m * 2 ^ (h + Z.b2z (e =? 0)) /\
  0 <= significand binary64 e m < 2 ^ (53 - Z.b2z (e =? 0)) /\
  exponent e = e + Z.b2z (e =? 0).
Proof. exact (small_operand (Rounder0 := rounder_64) e m h). Qed.

Lemma addMagsF64_finite rm a b s :
  is_uint 64 a -> is_uint 64 b -> signF64UI a = s -> signF64UI b = s -> expF64UI a <> 2047 -> expF64UI b <> 2047 ->
  rounds binary64 rm s (twice_ratio (fval binary64 (mag binary64 a) + fval binary64 (mag binary64 b)) 1)
    (softfloat_addMagsF64 rm a b s).
Proof.
  intros Ha Hb Hsa Hsb Hea Heb. pose proof (fields_64 a Ha) as Fa. pose proof (fields_64 b Hb) as Fb.
  rewrite Hsa in Fa. rewrite Hsb in Fb. rewrite !fval_finite_64 by done.
  unfold softfloat_addMagsF64. cbv zeta.
  destruct Fa as [Rea Rma Pa], Fb as [Reb Rmb Pb]. cbn [fb eb binary64] in Rea, Rma, Reb, Rmb, Pa, Pb.
  set (ea := expF64UI a) in *. set (ma := fracF64UI a) in *. set (e := expF64UI b) in *. set (m := fracF64UI b) in *.
  rewrite (shiftl_mul ma), (shiftl_mul m) by lia. rewrite (proj2 (Z.eqb_neq ea 2047)), (proj2 (Z.eqb_neq e 2047)) by lia.
  destruct (Z.eqb_spec (ea - e) 0) as [Heq|Hne]; [|destruct (Z.ltb_spec (ea - e) 0)].
  - assert (Hee : ea = e) by lia. rewrite Hee in *. destruct (Z.eqb_spec e 0) as [He0|He0].
    + rewrite He0 in *. unfold significand, exponent. cbn [Z.eqb Z.max Z.compare]. rewrite !Z.mul_1_r.
      change 0x7FFFFFFFFFFFFFFF with (2 ^ 63 - 1). rewrite land_pow2_mask by lia.
      assert (Hab : u64 (a + b) mod 2 ^ 63 = ma + m).
      { rewrite Pa, Pb. unfold u64, pack, sign_bit. cbn [fb eb binary64]. clear - Rma Rmb. destruct s; cbn [Z.b2z]; zdm. }
      rewrite Hab, packToF64_pack, Z.mul_0_l, Z.add_0_l by lia. apply rounds_exact; cbn [fb eb binary64]; lia.
    + rewrite !significand_normal, exponent_normal by lia. cbn [fb binary64].
      replace (0x4000000000000000 + ma * 2 ^ 9 + m * 2 ^ 9) with ((2 ^ 52 + ma) * 2 ^ 9 + (2 ^ 52 + m) * 2 ^ 9) by ring.
      apply (add_near (Rounder0 := rounder_64)); cbn [fb binary64]; lia.
  - rewrite (significand_normal binary64 e), (exponent_normal e), Z.add_comm by lia.
    destruct (small_operand_64 ea ma 9 ltac:(lia) ltac:(lia) ltac:(lia)) as (Hsm & Hsr & Hx).
    change 0x2000000000000000 with (2 ^ (52 + 9)). rewrite Hsm, shift64RightJam_eq by (destruct (ea =? 0); cbn [Z.b2z] in *; lia).
    replace (- (ea - e)) with (e - exponent ea + Z.b2z (ea =? 0)) by lia.
    rewrite <- Z.add_assoc, (Z.add_comm (jam _ _)), Z.add_assoc. rewrite Z.pow_add_r, <- Z.mul_add_distr_r by lia.
    apply (add_far (Rounder0 := rounder_64)); cbn [fb binary64]; destruct (Z.eqb_spec ea 0); cbn [Z.b2z] in *; lia.
  - rewrite (significand_normal binary64 ea), (exponent_normal ea) by lia.
    destruct (small_operand_64 e m 9 ltac:(lia) ltac:(lia) ltac:(lia)) as (Hsm & Hsr & Hx).
    change 0x2000000000000000 with (2 ^ (52 + 9)). rewrite Hsm, shift64RightJam_eq by (destruct (e =? 0); cbn [Z.b2z] in *; lia).
    replace (ea - e) with (ea - exponent e + Z.b2z (e =? 0)) by lia.
    rewrite Z.pow_add_r, <- Z.mul_add_distr_r by lia.
    apply (add_far (Rounder0 := rounder_64)); cbn [fb binary64]; destruct (Z.eqb_spec e 0); cbn [Z.b2z] in *; lia.
Qed.

Lemma subMagsF64_finite rm a b s :
  is_uint 64 a -> is_uint 64 b -> expF64UI a <> 2047 -> expF64UI b <> 2047 ->
  is_difference binary64 rm s (fval binary64 (mag binary64 a)) (fval binary64 (mag binary64 b))
    (softfloat_subMagsF64 rm a b s).
Proof.
  intros Ha Hb Hea Heb. rewrite !fval_finite_64 by done.
  destruct (fields_64 a Ha) as [Rea Rma _], (fields_64 b Hb) as [Reb Rmb _]. cbn [fb eb binary64] in Rea, Rma, Reb, Rmb.
  unfold softfloat_subMagsF64. cbv zeta.
  set (ea := expF64UI a) in *. set (ma := fracF64UI a) in *. set (e := expF64UI b) in *. set (m := fracF64UI b) in *.
  rewrite (shiftl_mul ma), (shiftl_mul m), (proj2 (Z.eqb_neq ea 2047)), (proj2 (Z.eqb_neq e 2047)) by lia.
  change 0x4000000000000000 with (2 ^ (52 + 10)).
  destruct (small_operand_64 e m 10 ltac:(lia) ltac:(lia) ltac:(lia)) as (Hsm & Hsr & Hx).
  destruct (small_operand_64 ea ma 10 ltac:(lia) ltac:(lia) ltac:(lia)) as (Hsm' & Hsr' & Hx').
  assert (Hlor : forall x, 0 <= x < 2 ^ 52 -> (x * 2 ^ 10) ||| 2 ^ (52 + 10) = (2 ^ 52 + x) * 2 ^ 10).
  { intros x Hx0. rewrite lor_low by lia. lia. }
  rewrite Hsm, Hsm', !Hlor by lia.
  destruct (Z.ltb_spec 0 (ea - e)); [|destruct (Z.ltb_spec (ea - e) 0)].
  - rewrite (significand_normal binary64 ea), (exponent_normal ea), shift64RightJam_eq
      by (try destruct (e =? 0); cbn [Z.b2z] in *; lia).
    replace (ea - e) with (ea - exponent e + Z.b2z (e =? 0)) by lia. pose proof (exponent_pos e).
    apply is_difference_greater; [apply (far_greater binary64)|apply (sub_far (Rounder0 := rounder_64))];
      cbn [fb binary64]; destruct (Z.eqb_spec e 0); cbn [Z.b2z] in *; lia.
  - rewrite (significand_normal binary64 e), (exponent_normal e), shift64RightJam_eq
      by (try destruct (ea =? 0); cbn [Z.b2z] in *; lia).
    replace (- (ea - e)) with (e - exponent ea + Z.b2z (ea =? 0)) by lia. pose proof (exponent_pos ea).
    apply is_difference_less; [apply (far_greater binary64)|apply (sub_far (Rounder0 := rounder_64))];
      cbn [fb binary64]; destruct (Z.eqb_spec ea 0); cbn [Z.b2z] in *; lia.
  - assert (Hee : ea = e) by lia. rewrite Hee in *.
    replace (if e =? 0 then 1 else e) with (exponent e) by (unfold exponent; destruct (Z.eqb_spec e 0); lia).
    pose proof (exponent_pos e). assert (exponent e <= 2 ^ 12) by (unfold exponent; lia).
    pose proof (pow2_pos (exponent e - 1) ltac:(lia)).
    assert (Hsd : exists c0, 0 <= c0 <= 2 ^ 52 /\ significand binary64 e ma = c0 + ma /\ significand binary64 e m = c0 + m).
    { exists (if e =? 0 then 0 else 2 ^ 52). unfold significand. cbn [fb binary64]. destruct (e =? 0); lia. }
    destruct Hsd as (c0 & Hc0 & -> & ->).
    destruct (Z.ltb_spec (m * 2 ^ 10) (ma * 2 ^ 10)); [|destruct (Z.ltb_spec (ma * 2 ^ 10) (m * 2 ^ 10))].
    + apply is_difference_greater; [nia|].
      replace (ma * 2 ^ 10 - m * 2 ^ 10) with ((c0 + ma) * 2 ^ 10 - (c0 + m) * 2 ^ 10) by ring.
      apply (sub_near (Rounder0 := rounder_64)); cbn [fb binary64]; lia.
    + apply is_difference_less; [nia|].
      replace (m * 2 ^ 10 - ma * 2 ^ 10) with ((c0 + m) * 2 ^ 10 - (c0 + ma) * 2 ^ 10) by ring.
      apply (sub_near (Rounder0 := rounder_64)); cbn [fb binary64]; lia.
    + assert (ma = m) as -> by lia. unfold is_difference. by rewrite Z.eqb_refl, packToF64_pack by lia.
Qed.

Lemma addMagsF64_special rm a b s :
  expF64UI a <= 2047 -> expF64UI b <= 2047 -> expF64UI a = 2047 \/ expF64UI b = 2047 ->
  softfloat_addMagsF64 rm a b s =
  if (expF64UI a =? 2047) && negb (fracF64UI a =? 0) || (expF64UI b =? 2047) && negb (fracF64UI b =? 0)
  then softfloat_propagateNaNF64UI a b
  else if expF64UI a =? 2047 then mret a else mret (packToF64UI s 2047 0).
Proof.
  intros Ha Hb Hab. unfold softfloat_addMagsF64. cbv zeta. rewrite lor_zero_test, !shiftl_eqb_0 by lia.
  destruct (Z.eqb_spec (expF64UI a) 2047) as [Ea|Ea], (Z.eqb_spec (expF64UI b) 2047) as [Eb|Eb]; [..|lia].
  - rewrite (proj2 (Z.eqb_eq (expF64UI a - _) 0)) by lia.
    by destruct (fracF64UI a =? 0), (fracF64UI b =? 0).
  - rewrite (proj2 (Z.eqb_neq (expF64UI a - _) 0)), (proj2 (Z.ltb_ge (expF64UI a - _) 0)) by lia.
    cbn [andb]. by rewrite orb_false_r.
  - rewrite (proj2 (Z.eqb_neq (expF64UI a - _) 0)), (proj2 (Z.ltb_lt (expF64UI a - _) 0)) by lia. done.
Qed.

Lemma subMagsF64_special rm a b s :
  expF64UI a <= 2047 -> expF64UI b <= 2047 -> expF64UI a = 2047 \/ expF64UI b = 2047 ->
  softfloat_subMagsF64 rm a b s =
  if (expF64UI a =? 2047) && negb (fracF64UI a =? 0) || (expF64UI b =? 2047) && negb (fracF64UI b =? 0)
  then softfloat_propagateNaNF64UI a b
  else if (expF64UI a =? 2047) && (expF64UI b =? 2047) then (defaultNaNF64UI, softfloat_flag_invalid)
  else if expF64UI a =? 2047 then mret a else mret (packToF64UI (negb s) 2047 0).
Proof.
  intros Ha Hb Hab. unfold softfloat_subMagsF64. cbv zeta. rewrite lor_zero_test, !shiftl_eqb_0 by lia.
  destruct (Z.eqb_spec (expF64UI a) 2047) as [Ea|Ea], (Z.eqb_spec (expF64UI b) 2047) as [Eb|Eb]; [..|lia].
  - rewrite (proj2 (Z.ltb_ge 0 _)), (proj2 (Z.ltb_ge (expF64UI a - _) 0)) by lia.
    by destruct (fracF64UI a =? 0), (fracF64UI b =? 0).
  - rewrite (proj2 (Z.ltb_lt 0 _)) by lia. cbn [andb]. by rewrite orb_false_r.
  - rewrite (proj2 (Z.ltb_ge 0 _)), (proj2 (Z.ltb_lt (expF64UI a - _) 0)) by lia. done.
Qed.

Lemma f64_add_sum rm a b : is_uint 64 a -> is_uint 64 b -> is_sum binary64 rm a b (f64_add rm a b).
Proof.
  intros Ha Hb. pose proof (fields_64 a Ha) as Fa. pose proof (fields_64 b Hb) as Fb.
  pose proof (is_nan_fields binary64 ltac:(cbn; lia) ltac:(cbn; lia) _ _ _ _ Fa) as Na.
  pose proof (is_nan_fields binary64 ltac:(cbn; lia) ltac:(cbn; lia) _ _ _ _ Fb) as Nb.
  pose proof (is_inf_fields binary64 ltac:(cbn; lia) ltac:(cbn; lia) _ _ _ _ Fa) as Ia.
  pose proof (is_inf_fields binary64 ltac:(cbn; lia) ltac:(cbn; lia) _ _ _ _ Fb) as Ib.
  pose proof (negative_fields binary64 ltac:(cbn; lia) ltac:(cbn; lia) _ _ _ _ Fa) as Sa.
  pose proof (negative_fields binary64 ltac:(cbn; lia) ltac:(cbn; lia) _ _ _ _ Fb) as Sb.
  change (2 ^ eb binary64 - 1) with 2047 in *. unfold f64_add.
  destruct (Z.eqb_spec (expF64UI a) 2047) as [Ea|Ea], (Z.eqb_spec (expF64UI b) 2047) as [Eb|Eb].
  4: { destruct (Bool.eqb_spec (signF64UI a) (signF64UI b)) as [Hs|Hs].
       - apply is_sum_same_sign; try done; [cbn; lia..|congruence|]. rewrite Sa. by apply addMagsF64_finite.
       - apply is_sum_other_sign; try done; [cbn; lia..| |].
         + rewrite Sa, Sb. by destruct (signF64UI a), (signF64UI b).
         + rewrite Sa. by apply subMagsF64_finite. }
  all: destruct Fa as [Rea Rma Pa], Fb as [Reb Rmb Pb]; cbn [fb eb binary64] in *; unfold is_sum; rewrite Na, Nb, Ia, Ib, Sa, Sb.
  all: destruct (Bool.eqb_spec (signF64UI a) (signF64UI b)) as [Hs|Hs];
    rewrite ?addMagsF64_special, ?subMagsF64_special, propagateNaN64_eq by first [done|lia].
  all: rewrite ?Ea, ?Eb; change (2047 =? 2047) with true; rewrite ?(proj2 (Z.eqb_neq (expF64UI _) 2047)) by done;
    cbn [andb orb].
  all: rewrite ?packToF64_pack, ?Z.add_0_r by lia.
  all: destruct (Z.eqb_spec (fracF64UI a) 0) as [Ma|], (Z.eqb_spec (fracF64UI b) 0) as [Mb|]; cbn [negb orb andb].
  all: try reflexivity; rewrite ?Z.add_0_r in Pb.
  all: destruct (signF64UI a), (signF64UI b); try reflexivity; try discriminate Hs; try by destruct Hs.
  all: rewrite Pb, Eb, Mb, Z.add_0_r; reflexivity.
Qed.

(** ** The operations *)

(** C19: [f32_add] and [f64_add] give the sum that the IEEE standard asks for, to the bit and with its
    flags, for all operands and every rounding mode: NaNs, infinities and zeros by its rules, and otherwise
    the exact sum rounded, also where the operands or the result are subnormal, where the result
    overflows, and where it underflows. *)
Theorem softfloat_add_correct :
  (forall rm a b, is_uint 32 a -> is_uint 32 b -> is_sum binary32 rm a b (f32_add rm a b)) /\
  (forall rm a b, is_uint 64 a -> is_uint 64 b -> is_sum binary64 rm a b (f64_add rm a b)).
Proof. split; intros; [by apply f32_add_sum|by apply f64_add_sum]. Qed.

(** 1.5 + 2^-149 rounded up in single precision, and the least number minus itself rounded down in double. *)
Lemma softfloat_add_correct_witness :
  is_sum binary32 softfloat_round_max 0x3FC00000 1 (0x3FC00001, softfloat_flag_inexact) /\
  is_sum binary64 softfloat_round_min 1 0x8000000000000001 (0x8000000000000000, 0).
Proof.
  split.
  - replace (0x3FC00001, softfloat_flag_inexact)
      with (f32_add softfloat_round_max 0x3FC00000 1) by (vm_compute; reflexivity).
    apply (proj1 softfloat_add_correct); unfold is_uint; lia.
  - replace (0x8000000000000000, 0)
      with (f64_add softfloat_round_min 1 0x8000000000000001) by (vm_compute; reflexivity).
    apply (proj2 softfloat_add_correct); unfold is_uint; lia.
Defined.
