(* ===== verification/SoftFloatMul.v ===== *)
(** * Floating-point multiplication is correctly rounded *)

From S2P Require Import Prelude SoftFloat SoftFloatArith SoftFloatSpec SoftFloatFields SoftFloatAdd.

(** ** What the standard asks *)

Definition is_product (f : format) (rm a b : Z) (r : Z * Z) : Prop :=
  let s := xorb (negative f a) (negative f b) in
  if is_nan f a || is_nan f b then r = nan_result f [a; b]
  else if is_inf f a || is_inf f b then
    if (mag f a =? 0) || (mag f b =? 0) then r = invalid_result f else r = (pack f s (inf_bits f), 0)
  else rounds f rm s (twice_ratio (fval f (mag f a) * fval f (mag f b)) (2 ^ unit_exp f)) r.

(** ** Products of words *)

Lemma mul64To128_eq a b :
  is_uint 64 a -> is_uint 64 b -> softfloat_mul64To128 a b = (a * b / 2 ^ 64, (a * b) mod 2 ^ 64).
Proof.
  intros Ha Hb. unfold is_uint in *. unfold softfloat_mul64To128. cbv zeta. rewrite !(shiftr_div _ 32) by lia.
  assert (Hah : 0 <= a / 2 ^ 32 < 2 ^ 32) by zdm. assert (Hbh : 0 <= b / 2 ^ 32 < 2 ^ 32) by zdm.
  pose proof (u32_range a) as Hal. pose proof (u32_range b) as Hbl.
  assert (Hda : a = a / 2 ^ 32 * 2 ^ 32 + u32 a) by (unfold u32; zdm).
  assert (Hdb : b = b / 2 ^ 32 * 2 ^ 32 + u32 b) by (unfold u32; zdm).
  set (a1 := a / 2 ^ 32) in *. set (b1 := b / 2 ^ 32) in *. set (a0 := u32 a) in *. set (b0 := u32 b) in *.
  assert (Hab : a * b = a1 * b1 * 2 ^ 64 + (a1 * b0 + a0 * b1) * 2 ^ 32 + a0 * b0).
  { rewrite Hda, Hdb. change (2 ^ 64) with (2 ^ 32 * 2 ^ 32). ring. }
  assert (Hp : forall x y, 0 <= x < 2 ^ 32 -> 0 <= y < 2 ^ 32 -> 0 <= x * y <= (2 ^ 32 - 1) * (2 ^ 32 - 1)).
  { intros x y Hx Hy. nia. }
  pose proof (Hp a1 b1 Hah Hbh). pose proof (Hp a1 b0 Hah Hbl). pose proof (Hp a0 b1 Hal Hbh). pose proof (Hp a0 b0 Hal Hbl).
  rewrite Hab. clear - H H0 H1 H2. revert H H0 H1 H2.
  generalize (a1 * b1) (a1 * b0) (a0 * b1) (a0 * b0). intros p11 p10 p01 p00 H11 H10 H01 H00.
  assert (Hc : (u64 (p10 + p01) <? p10) = (2 ^ 64 <=? p10 + p01)).
  { unfold u64. apply Bool.eq_iff_eq_true. rewrite Z.ltb_lt, Z.leb_le. zdm. }
  rewrite Hc. set (c := Z.b2z (2 ^ 64 <=? p10 + p01)).
  assert (Hcv : 0 <= c <= 1 /\ p10 + p01 = u64 (p10 + p01) + c * 2 ^ 64).
  { subst c. unfold u64. destruct (Z.leb_spec (2 ^ 64) (p10 + p01)); cbn [Z.b2z]; zdm. }
  pose proof (u64_range (p10 + p01)) as Hm. destruct Hcv as [Hcr Hmid]. revert Hm Hmid.
  generalize (u64 (p10 + p01)). intros mid Hm Hmid. rewrite Hmid.
  rewrite (shiftl_mul c), (u64_small (c * _)) by lia. rewrite <- (shiftl_mul c) by lia.
  rewrite lor_disjoint_add by zdm. rewrite shiftl_mul by lia.
  assert (Hml : u64 (mid * 2 ^ 32) = mid mod 2 ^ 32 * 2 ^ 32) by (unfold u64; zdm). rewrite Hml.
  assert (Hv0 : (u64 (p00 + mid mod 2 ^ 32 * 2 ^ 32) <? mid mod 2 ^ 32 * 2 ^ 32) = (2 ^ 64 <=? p00 + mid mod 2 ^ 32 * 2 ^ 32)).
  { unfold u64. apply Bool.eq_iff_eq_true. rewrite Z.ltb_lt, Z.leb_le. zdm. }
  rewrite Hv0. pose proof (Z.div_mod mid (2 ^ 32) ltac:(lia)) as Hdm. pose proof (Z.mod_pos_bound mid (2 ^ 32) ltac:(lia)) as Hml'.
  revert Hdm Hml' Hmid Hm. generalize (mid / 2 ^ 32) (mid mod 2 ^ 32). intros mh ml Hdm Hml' Hmid Hm.
  f_equal.
  - destruct (Z.leb_spec (2 ^ 64) (p00 + ml * 2 ^ 32)); cbn [Z.b2z]; unfold u64; zdm.
  - unfold u64. subst mid. zdm.
Qed.

(** ** Multiplication *)

Lemma jam_lower a n k : 0 <= n -> k * 2 ^ n <= a -> k <= jam a n.
Proof.
  intros Hn Ha. assert (k <= a / 2 ^ n) by (apply Z.div_le_lower_bound; [apply pow2_pos|]; lia).
  rewrite jam_alt. case_match; lia.
Qed.

Section rounder.
Context {f : format} {g : Z} {RP NRP : Z -> bool -> Z -> Z -> flagged Z} `{!Rounder f g RP NRP}.
#[local] Notation F := (2 ^ fb f).
#[local] Notation Hfb := (rounder_fb (Rounder := Rounder0)).
#[local] Notation Heb := (rounder_eb (Rounder := Rounder0)).
#[local] Notation Hg := (rounder_g (Rounder := Rounder0)).
#[local] Notation bias := (2 ^ (eb f - 1) - 1).

Lemma bias_range : 1 <= bias < 2 ^ 11 /\ fb f <= 2 ^ 10 /\ 2 ^ eb f = 2 * bias + 2 /\ unit_exp f = bias + fb f - 1.
Proof using Rounder0.
  pose proof Heb. pose proof (rounder_small (Rounder := Rounder0)).
  assert (2 ^ eb f = 2 * 2 ^ (eb f - 1)) by (rewrite <- Z.pow_succ_r by lia; f_equal; lia).
  pose proof (pow2_mono 1 (eb f - 1) ltac:(lia)). unfold unit_exp. lia.
Qed.

Lemma scaled_product ea ma eb' mb ea' sa eb'' sb :
  normal_form f ea ma ea' sa -> normal_form f eb' mb eb'' sb ->
  scaled (significand f ea ma * 2 ^ (exponent ea - 1) * (significand f eb' mb * 2 ^ (exponent eb' - 1))) (2 ^ unit_exp f)
    (sa * sb * 2 ^ (2 * g + 1)) (2 ^ (fb f + g + 2)) (ea' + eb'' - bias - g).
Proof using Rounder0.
  intros (_ & Ha1 & Ha2 & Ha) (_ & Hb1 & Hb2 & Hb). pose proof Hg. pose proof Hfb. destruct bias_range as (Hbi & _ & _ & Hu).
  exists (2 * fb f + bias + g). split; [lia|]. split; [lia|].
  pose proof (exponent_pos ea). pose proof (exponent_pos eb').
  rewrite (Z.pow_add_r 2 (exponent ea - 1)) in Ha by lia. rewrite (Z.pow_add_r 2 (exponent eb' - 1)) in Hb by lia.
  set (x := significand f ea ma * 2 ^ (exponent ea - 1)) in *. set (y := significand f eb' mb * 2 ^ (exponent eb' - 1)) in *.
  replace (2 * fb f + bias + g) with (fb f + (fb f + (bias + g))) at 1 by lia. rewrite !(Z.pow_add_r 2 (fb f)) by lia.
  assert (Hx : x * F = sa * 2 ^ (ea' - 1 + fb f)) by (rewrite <- Ha; subst x; ring).
  assert (Hy : y * F = sb * 2 ^ (eb'' - 1 + fb f)) by (rewrite <- Hb; subst y; ring).
  transitivity (x * F * (y * F) * (F * 2 ^ (g + 2) * 2 ^ (bias + g))); [rewrite <- Z.add_assoc, Z.pow_add_r by lia; ring|].
  rewrite Hx, Hy.
  transitivity (sa * sb * (2 ^ (ea' - 1 + fb f) * 2 ^ (eb'' - 1 + fb f) * (F * 2 ^ (g + 2) * 2 ^ (bias + g)))); [ring|].
  transitivity (sa * sb * (2 ^ (2 * g + 1) * 2 ^ unit_exp f * 2 ^ (2 * fb f + bias + g + (ea' + eb'' - bias - g)))); [|ring].
  f_equal. rewrite <- !Z.pow_add_r by lia. f_equal. lia.
Qed.

Lemma mul_rounds rm s ea ma eb' mb ea' sa eb'' sb :
  normal_form f ea ma ea' sa -> normal_form f eb' mb eb'' sb ->
  let x := ea' + eb'' - bias in
  let sig := jam (sa * sb * 2 ^ (2 * g + 1)) (fb f + g + 2) in
  rounds f rm s
    (twice_ratio (significand f ea ma * 2 ^ (exponent ea - 1) * (significand f eb' mb * 2 ^ (exponent eb' - 1))) (2 ^ unit_exp f))
    (if sig <? 2 ^ (fb f + g) then RP rm s (x - 1) (sig <<< 1) else RP rm s x sig).
Proof using Rounder0.
  intros Ha Hb x sig. pose proof (scaled_product _ _ _ _ _ _ _ _ Ha Hb) as Hsc.
  destruct Ha as (Ha0 & Ha1 & Ha2 & _), Hb as (Hb0 & Hb1 & Hb2 & _). pose proof Hg. pose proof Hfb.
  destruct bias_range as (Hbi & Hsm & Hbe & Hu).
  assert (HFF : F * F * 2 ^ (2 * g + 1) = 2 ^ (fb f + g - 1) * 2 ^ (fb f + g + 2)) by (rewrite <- !Z.pow_add_r by lia; f_equal; lia).
  assert (HFF' : 4 * (F * F * 2 ^ (2 * g + 1)) = 2 ^ (fb f + g + 2 + (fb f + g + 1))).
  { change 4 with (2 ^ 2). rewrite <- !Z.pow_add_r by lia. f_equal. lia. }
  assert (Hp : 0 < 2 ^ (2 * g + 1)) by (apply pow2_pos; lia).
  assert (Hq : F * F * 2 ^ (2 * g + 1) <= sa * sb * 2 ^ (2 * g + 1) < 4 * (F * F * 2 ^ (2 * g + 1))).
  { assert (HF : 0 < F) by (apply pow2_pos; lia). split.
    - apply Z.mul_le_mono_nonneg_r; [lia|]. apply Z.mul_le_mono_nonneg; lia.
    - rewrite Z.mul_assoc. apply Z.mul_lt_mono_pos_r; [lia|].
      replace (4 * (F * F)) with (2 * F * (2 * F)) by ring. apply Z.mul_lt_mono_nonneg; lia. }
  apply roundPack_or_shift with (nv := sa * sb * 2 ^ (2 * g + 1)) (dv := 2 ^ (fb f + g + 2));
    [subst x; lia| |apply pow2_pos; lia|apply pow2_pos; lia|apply agrees_jam; lia|exact Hsc].
  split; [apply jam_lower; lia|]. apply jam_le; lia.
Qed.
End rounder.

Lemma rounds_zero_intro f rm s d : 1 <= fb f -> 2 <= eb f -> 0 < d -> rounds f rm s (twice_ratio 0 d) (pack f s 0, 0).
Proof.
  intros Hf He Hd. pose proof (inf_bits_large f Hf He). pose proof (pow2_pos (fb f) ltac:(lia)).
  pose proof (pow2_mono 1 (fb f) ltac:(lia)).
  assert (Hz : fval f 0 = 0) by (unfold fval; by rewrite (proj2 (Z.ltb_lt 0 (2 ^ fb f))) by lia).
  assert (Hz1 : fval f (0 + 1) = 1) by (unfold fval; by rewrite (proj2 (Z.ltb_lt (0 + 1) (2 ^ fb f))) by lia).
  unfold twice_ratio, ratio. exists 0. split; [lia|]. rewrite Hz, Hz1. split; [by rewrite Z.mul_0_r|].
  split; [apply Z.compare_gt_iff; lia|]. unfold round_from. rewrite Hz. change (2 * 0) with 0. rewrite Z.mul_0_l.
  change (0 ?= 0) with Eq. cbv iota zeta. by rewrite (proj2 (Z.leb_gt (inf_bits f) 0)) by lia.
Qed.

Lemma lor_eqb_0 x y : (x ||| y =? 0) = (x =? 0) && (y =? 0).
Proof. apply Bool.eq_iff_eq_true. by rewrite andb_true_iff, !Z.eqb_eq, Z.lor_eq_0_iff. Qed.

(** What the operations find out about an operand. *)
Lemma classify_32 u :
  is_uint 32 u ->
  is_nan binary32 u = (expF32UI u =? 0xFF) && negb (fracF32UI u =? 0) /\
  is_inf binary32 u = (expF32UI u =? 0xFF) && (fracF32UI u =? 0) /\
  negative binary32 u = signF32UI u /\
  (mag binary32 u =? 0) = (expF32UI u =? 0) && (fracF32UI u =? 0) /\
  0 <= expF32UI u < 256 /\ 0 <= fracF32UI u < 2 ^ 23.
Proof.
  intros Hu. pose proof (fields_32 u Hu) as F. assert (1 <= fb binary32 /\ 2 <= eb binary32) as [H1 H2] by (cbn; lia).
  split; [exact (is_nan_fields _ H1 H2 _ _ _ _ F)|]. split; [exact (is_inf_fields _ H1 H2 _ _ _ _ F)|].
  split; [exact (negative_fields _ H1 H2 _ _ _ _ F)|]. split; [exact (mag_zero_fields _ H1 H2 _ _ _ _ F)|].
  exact (conj (fields_exp _ _ _ _ _ F) (fields_frac _ _ _ _ _ F)).
Qed.

Lemma finite_product_32 rm s a b :
  is_uint 32 a -> is_uint 32 b -> expF32UI a <> 255 -> expF32UI b <> 255 -> 
  rounds binary32 rm s (twice_ratio (fval binary32 (mag binary32 a) * fval binary32 (mag binary32 b)) (2 ^ unit_exp binary32))
    (if (expF32UI a =? 0) && (fracF32UI a =? 0) then (packToF32UI s 0 0, 0)
     else if (expF32UI b =? 0) && (fracF32UI b =? 0) then (packToF32UI s 0 0, 0)
     else
       let '(expA, sigA) := norm_F32 (expF32UI a) (fracF32UI a) in
       let '(expB, sigB) := norm_F32 (expF32UI b) (fracF32UI b) in
       let expZ := expA + expB - 0x7F in
       let sigA := (sigA ||| 0x00800000) <<< 7 in
       let sigB := (sigB ||| 0x00800000) <<< 8 in
       let sigZ := softfloat_shortShift64RightJam (sigA * sigB) 32 in
       if sigZ <? 0x40000000 then softfloat_roundPackToF32 rm s (expZ - 1) (sigZ <<< 1)
       else softfloat_roundPackToF32 rm s expZ sigZ).
Proof.
  intros Ha Hb Ea Eb. rewrite !fval_finite_32 by done.
  destruct (classify_32 a Ha) as (_ & _ & _ & _ & Rea & Rma), (classify_32 b Hb) as (_ & _ & _ & _ & Reb & Rmb).
  rewrite packToF32_pack by lia.
  destruct ((expF32UI a =? 0) && (fracF32UI a =? 0)) eqn:Za.
  { apply andb_true_iff in Za as [Z1 Z2]. apply Z.eqb_eq in Z1, Z2. rewrite Z1, Z2.
    change (significand binary32 0 0) with 0. rewrite !Z.mul_0_l, Z.add_0_r.
    by apply rounds_zero_intro. }
  destruct ((expF32UI b =? 0) && (fracF32UI b =? 0)) eqn:Zb.
  { apply andb_true_iff in Zb as [Z1 Z2]. apply Z.eqb_eq in Z1, Z2. rewrite Z1, Z2.
    change (significand binary32 0 0) with 0. rewrite !Z.mul_0_l, Z.mul_0_r, Z.add_0_r.
    by apply rounds_zero_intro. }
  pose proof (norm_F32_spec (expF32UI a) _ ltac:(lia) Rma Za) as Na. pose proof (norm_F32_spec (expF32UI b) _ ltac:(lia) Rmb Zb) as Nb.
  destruct (norm_F32 (expF32UI a) _) as [expA sigA], (norm_F32 (expF32UI b) _) as [expB sigB]. cbn [fst snd] in Na, Nb.
  cbv zeta. rewrite shortShift64RightJam_eq, (shiftl_mul _ 7), (shiftl_mul _ 8) by lia.
  pose proof (mul_rounds (Rounder0 := rounder_32) rm s _ _ _ _ _ _ _ _ Na Nb) as Hr. cbv zeta in Hr.
  replace ((sigA ||| 8388608) * 2 ^ 7 * ((sigB ||| 8388608) * 2 ^ 8))
    with ((sigA ||| 8388608) * (sigB ||| 8388608) * 2 ^ (2 * 7 + 1))
    by (change (2 ^ (2 * 7 + 1)) with (2 ^ 7 * 2 ^ 8); ring).
  exact Hr.
Qed.

Lemma f32_mul_product rm a b : is_uint 32 a -> is_uint 32 b -> is_product binary32 rm a b (f32_mul rm a b).
Proof.
  intros Ha Hb. pose proof (finite_product_32 rm (xorb (signF32UI a) (signF32UI b)) a b Ha Hb) as Hfin.
  destruct (classify_32 a Ha) as (Na & Ia & Sa & Za & Rea & Rma), (classify_32 b Hb) as (Nb & Ib & Sb & Zb & Reb & Rmb).
  unfold is_product. rewrite Na, Nb, Ia, Ib, Sa, Sb, Za, Zb. unfold f32_mul. cbv zeta.
  rewrite propagateNaN32_eq, !lor_eqb_0, !packToF32_pack by first [done|lia].
  destruct (Z.eqb_spec (expF32UI a) 0xFF) as [Ea|Ea]; [|destruct (Z.eqb_spec (expF32UI b) 0xFF) as [Eb|Eb]].
  - rewrite Ea. cbn [andb]. change (255 =? 0) with false. cbn [andb orb].
    destruct (fracF32UI a =? 0), ((expF32UI b =? 255) && negb (fracF32UI b =? 0)); cbn [negb orb]; try reflexivity.
    by destruct ((expF32UI b =? 0) && (fracF32UI b =? 0)).
  - rewrite Eb. cbn [andb]. change (255 =? 0) with false. cbn [andb orb].
    destruct (fracF32UI b =? 0); cbn [negb]; [|reflexivity]. rewrite orb_false_r.
    by destruct ((expF32UI a =? 0) && (fracF32UI a =? 0)).
  - rewrite packToF32_pack in Hfin by lia. exact (Hfin Ea Eb).
Qed.

Lemma classify_64 u :
  is_uint 64 u ->
  is_nan binary64 u = (expF64UI u =? 0x7FF) && negb (fracF64UI u =? 0) /\
  is_inf binary64 u = (expF64UI u =? 0x7FF) && (fracF64UI u =? 0) /\
  negative binary64 u = signF64UI u /\
  (mag binary64 u =? 0) = (expF64UI u =? 0) && (fracF64UI u =? 0) /\
  0 <= expF64UI u < 2048 /\ 0 <= fracF64UI u < 2 ^ 52.
Proof.
  intros Hu. pose proof (fields_64 u Hu) as F. assert (1 <= fb binary64 /\ 2 <= eb binary64) as [H1 H2] by (cbn; lia).
  split; [exact (is_nan_fields _ H1 H2 _ _ _ _ F)|]. split; [exact (is_inf_fields _ H1 H2 _ _ _ _ F)|].
  split; [exact (negative_fields _ H1 H2 _ _ _ _ F)|]. split; [exact (mag_zero_fields _ H1 H2 _ _ _ _ F)|].
  exact (conj (fields_exp _ _ _ _ _ F) (fields_frac _ _ _ _ _ F)).
Qed.

Lemma finite_product_64 rm s a b :
  is_uint 64 a -> is_uint 64 b -> expF64UI a <> 2047 -> expF64UI b <> 2047 -> 
  rounds binary64 rm s (twice_ratio (fval binary64 (mag binary64 a) * fval binary64 (mag binary64 b)) (2 ^ unit_exp binary64))
    (if (expF64UI a =? 0) && (fracF64UI a =? 0) then (packToF64UI s 0 0, 0)
     else if (expF64UI b =? 0) && (fracF64UI b =? 0) then (packToF64UI s 0 0, 0)
     else
       let '(expA, sigA) := norm_F64 (expF64UI a) (fracF64UI a) in
       let '(expB, sigB) := norm_F64 (expF64UI b) (fracF64UI b) in
       let expZ := expA + expB - 0x3FF in
       let sigA := (sigA ||| 0x0010000000000000) <<< 10 in
       let sigB := (sigB ||| 0x0010000000000000) <<< 11 in
       let '(v64, v0) := softfloat_mul64To128 sigA sigB in
       let sigZ := v64 ||| Z.b2z (negb (v0 =? 0)) in
       if sigZ <? 0x4000000000000000 then softfloat_roundPackToF64 rm s (expZ - 1) (sigZ <<< 1)
       else softfloat_roundPackToF64 rm s expZ sigZ).
Proof.
  intros Ha Hb Ea Eb. rewrite !fval_finite_64 by done.
  destruct (classify_64 a Ha) as (_ & _ & _ & _ & Rea & Rma), (classify_64 b Hb) as (_ & _ & _ & _ & Reb & Rmb).
  rewrite packToF64_pack by lia.
  destruct ((expF64UI a =? 0) && (fracF64UI a =? 0)) eqn:Za.
  { apply andb_true_iff in Za as [Z1 Z2]. apply Z.eqb_eq in Z1, Z2. rewrite Z1, Z2.
    change (significand binary64 0 0) with 0. rewrite !Z.mul_0_l, Z.add_0_r.
    by apply rounds_zero_intro. }
  destruct ((expF64UI b =? 0) && (fracF64UI b =? 0)) eqn:Zb.
  { apply andb_true_iff in Zb as [Z1 Z2]. apply Z.eqb_eq in Z1, Z2. rewrite Z1, Z2.
    change (significand binary64 0 0) with 0. rewrite !Z.mul_0_l, Z.mul_0_r, Z.add_0_r.
    by apply rounds_zero_intro. }
  pose proof (norm_F64_spec (expF64UI a) _ ltac:(lia) Rma Za) as Na. pose proof (norm_F64_spec (expF64UI b) _ ltac:(lia) Rmb Zb) as Nb.
  destruct (norm_F64 (expF64UI a) _) as [expA sigA], (norm_F64 (expF64UI b) _) as [expB sigB]. cbn [fst snd] in Na, Nb.
  pose proof Na as [Ra _]. pose proof Nb as [Rb _]. cbn [fb binary64] in Ra, Rb. cbv zeta.
  rewrite (shiftl_mul _ 10), (shiftl_mul _ 11), mul64To128_eq by (unfold is_uint; lia).
  fold (jam ((sigA ||| 0x0010000000000000) * 2 ^ 10 * ((sigB ||| 0x0010000000000000) * 2 ^ 11)) 64).
  pose proof (mul_rounds (Rounder0 := rounder_64) rm s _ _ _ _ _ _ _ _ Na Nb) as Hr. cbv zeta in Hr.
  replace ((sigA ||| 4503599627370496) * 2 ^ 10 * ((sigB ||| 4503599627370496) * 2 ^ 11))
    with ((sigA ||| 4503599627370496) * (sigB ||| 4503599627370496) * 2 ^ (2 * 10 + 1))
    by (change (2 ^ (2 * 10 + 1)) with (2 ^ 10 * 2 ^ 11); ring).
  exact Hr.
Qed.

Lemma f64_mul_product rm a b : is_uint 64 a -> is_uint 64 b -> is_product binary64 rm a b (f64_mul rm a b).
Proof.
  intros Ha Hb. pose proof (finite_product_64 rm (xorb (signF64UI a) (signF64UI b)) a b Ha Hb) as Hfin.
  destruct (classify_64 a Ha) as (Na & Ia & Sa & Za & Rea & Rma), (classify_64 b Hb) as (Nb & Ib & Sb & Zb & Reb & Rmb).
  unfold is_product. rewrite Na, Nb, Ia, Ib, Sa, Sb, Za, Zb. unfold f64_mul. cbv zeta.
  rewrite propagateNaN64_eq, !lor_eqb_0, !packToF64_pack by first [done|lia].
  destruct (Z.eqb_spec (expF64UI a) 0x7FF) as [Ea|Ea]; [|destruct (Z.eqb_spec (expF64UI b) 0x7FF) as [Eb|Eb]].
  - rewrite Ea. cbn [andb]. change (2047 =? 0) with false. cbn [andb orb].
    destruct (fracF64UI a =? 0), ((expF64UI b =? 2047) && negb (fracF64UI b =? 0)); cbn [negb orb]; try reflexivity.
    by destruct ((expF64UI b =? 0) && (fracF64UI b =? 0)).
  - rewrite Eb. cbn [andb]. change (2047 =? 0) with false. cbn [andb orb].
    destruct (fracF64UI b =? 0); cbn [negb]; [|reflexivity]. rewrite orb_false_r.
    by destruct ((expF64UI a =? 0) && (fracF64UI a =? 0)).
  - rewrite packToF64_pack in Hfin by lia. exact (Hfin Ea Eb).
Qed.

(** ** The operations *)

(** C20: [f32_mul] and [f64_mul] give the product that the IEEE standard asks for, to the bit and with its
    flags, for all operands and every rounding mode: NaNs, infinities and zeros by its rules, and otherwise
    the exact product rounded, also where the operands or the result are subnormal, where the result
    overflows, and where it underflows. *)
Theorem softfloat_mul_correct :
  (forall rm a b, is_uint 32 a -> is_uint 32 b -> is_product binary32 rm a b (f32_mul rm a b)) /\
  (forall rm a b, is_uint 64 a -> is_uint 64 b -> is_product binary64 rm a b (f64_mul rm a b)).
Proof. split; intros; [by apply f32_mul_product|by apply f64_mul_product]. Qed.

(** The greatest number times 2 rounded towards 0 in single precision, and the square of the least number of
    double precision. *)
Lemma softfloat_mul_correct_witness :
  is_product binary32 softfloat_round_minMag 0x7F7FFFFF 0x40000000
    (0x7F7FFFFF, softfloat_flag_overflow ||| softfloat_flag_inexact) /\
  is_product binary64 softfloat_round_nearest_even 1 1 (0, softfloat_flag_inexact ||| softfloat_flag_underflow).
Proof.
  split.
  - replace (0x7F7FFFFF, softfloat_flag_overflow ||| softfloat_flag_inexact)
      with (f32_mul softfloat_round_minMag 0x7F7FFFFF 0x40000000) by (vm_compute; reflexivity).
    apply (proj1 softfloat_mul_correct); unfold is_uint; lia.
  - replace (0, softfloat_flag_inexact ||| softfloat_flag_underflow)
      with (f64_mul softfloat_round_nearest_even 1 1) by (vm_compute; reflexivity).
    apply (proj2 softfloat_mul_correct); unfold is_uint; lia.
Defined.
