(* ===== verification/SoftFloatEstimate.v ===== *)
(** * Quotients of two words by one

    The estimate of a quotient of 128 by 64 bits, from which the 64-bit
    division starts, is never too small and exceeds the quotient by at most
    two; and the loops that correct such an estimate end with the quotient. *)

From S2P Require Import Prelude SoftFloat SoftFloatArith SoftFloatSpec SoftFloatFields SoftFloatAdd SoftFloatMul.

(** ** Numbers of two words *)

(** A number modulo [2 ^ 128], the way the code keeps it: negative remainders
    too. *)
Definition words (x : Z) : Z * Z := (u64 (x / 2 ^ 64), u64 x).

Lemma words_add x y : softfloat_add128 (words x).1 (words x).2 (words y).1 (words y).2 = words (x + y).
Proof.
  unfold softfloat_add128, words. cbn [fst snd]. cbv zeta. unfold u64. f_equal; [|symmetry; apply Zplus_mod].
  rewrite <- (Zplus_mod (x / 2 ^ 64)).
  assert (Hc : (x + y) / 2 ^ 64 = x / 2 ^ 64 + y / 2 ^ 64
    + Z.b2z ((x mod 2 ^ 64 + y mod 2 ^ 64) mod 2 ^ 64 <? x mod 2 ^ 64)).
  { destruct (Z.ltb_spec ((x mod 2 ^ 64 + y mod 2 ^ 64) mod 2 ^ 64) (x mod 2 ^ 64)); cbn [Z.b2z]; zdm. }
  rewrite Hc, Zplus_mod_idemp_l. done.
Qed.

Lemma words_sub x y : softfloat_sub128 (words x).1 (words x).2 (words y).1 (words y).2 = words (x - y).
Proof.
  unfold softfloat_sub128, words. cbn [fst snd]. cbv zeta. unfold u64. f_equal; [|symmetry; apply Zminus_mod].
  rewrite <- (Zminus_mod (x / 2 ^ 64)).
  assert (Hc : (x - y) / 2 ^ 64 = x / 2 ^ 64 - y / 2 ^ 64 - Z.b2z (x mod 2 ^ 64 <? y mod 2 ^ 64)).
  { destruct (Z.ltb_spec (x mod 2 ^ 64) (y mod 2 ^ 64)); cbn [Z.b2z]; zdm. }
  rewrite Hc, Zminus_mod_idemp_l. done.
Qed.

Lemma words_negative x : - 2 ^ 127 <= x < 2 ^ 127 -> (0x8000000000000000 <=? (words x).1) = (x <? 0).
Proof.
  intros Hx. unfold words, u64. cbn [fst]. apply Bool.eq_iff_eq_true. rewrite Z.leb_le, Z.ltb_lt.
  change 0x8000000000000000 with (2 ^ 63). zdm.
Qed.

Lemma words_pair a b : is_uint 64 a -> is_uint 64 b -> (a, b) = words (a * 2 ^ 64 + b).
Proof. unfold is_uint. intros Ha Hb. unfold words, u64. f_equal; zdm. Qed.

Lemma mul64_words a b : is_uint 64 a -> is_uint 64 b -> softfloat_mul64To128 a b = words (a * b).
Proof.
  intros Ha Hb. rewrite mul64To128_eq by done. unfold words, u64. f_equal.
  symmetry. apply Z.mod_small. unfold is_uint in *. split; [apply Z.div_pos; nia|].
  apply Z.div_lt_upper_bound; [lia|]. nia.
Qed.

Lemma remainder_words a64 a0 b z :
  is_uint 64 a64 -> is_uint 64 a0 -> is_uint 64 b -> is_uint 64 z ->
  softfloat_sub128 a64 a0 (softfloat_mul64To128 b z).1 (softfloat_mul64To128 b z).2 =
  words (a64 * 2 ^ 64 + a0 - b * z).
Proof. intros. by rewrite mul64_words, <- words_sub, <- words_pair by done. Qed.

(** ** The correction of an estimate *)

Lemma lower_estimate_spec step b N n fuel t :
  (n < fuel)%nat -> 0 < step -> 0 < b -> t = N / (step * b) + Z.of_nat n -> 0 <= N -> step * t < 2 ^ 64 ->
  - 2 ^ 127 <= N - t * (step * b) -> step * b < 2 ^ 127 ->
  lower_estimate fuel step (fun _ => words (step * b)) (step * t) (words (N - t * (step * b))) =
  (step * (N / (step * b)), words (N - N / (step * b) * (step * b))).
Proof.
  intros Hn Hs Hb. revert n t Hn. induction fuel as [|fuel IH]; intros n t Hn Ht HN Ht64 Hlow Hup; [lia|].
  assert (Hsb : 0 < step * b) by (apply Z.mul_pos_pos; lia).
  pose proof (Z.div_mod N (step * b) ltac:(lia)) as HD. pose proof (Z.mod_pos_bound N (step * b) Hsb).
  pose proof (Z.div_pos N (step * b) ltac:(lia) Hsb).
  cbn [lower_estimate]. set (q := N / (step * b)) in *. set (B := step * b) in *.
  assert (HqB : t * B = q * B + Z.of_nat n * B) by (rewrite Ht; ring).
  assert (0 <= Z.of_nat n * B) by (apply Z.mul_nonneg_nonneg; lia).
  rewrite words_negative by lia. destruct n as [|n].
  - replace t with q in * by lia. destruct (Z.ltb_spec (N - q * B) 0); [lia|done].
  - assert (B <= Z.of_nat (S n) * B) by nia. destruct (Z.ltb_spec (N - t * B) 0); [|lia].
    cbv zeta. assert (step * 1 <= step * t) by (apply Z.mul_le_mono_nonneg_l; lia).
    assert (Hz : u64 (step * t - step) = step * (t - 1)).
    { unfold u64. rewrite Z.mod_small by lia. ring. }
    rewrite Hz. fold (words B). rewrite (surjective_pairing (words B)), words_add.
    replace (N - t * B + B) with (N - (t - 1) * B) by ring.
    change (words B) with (words (step * b)). apply (IH n); lia.
Qed.

(** ** The estimate *)

(** A digit of a quotient, estimated from the two leading digits of the
    numerator and the leading one of the denominator. *)
Lemma digit_estimate D N b b1 b0 :
  0 < D -> b = b1 * D + b0 -> 0 <= b0 < D -> D <= 2 * b1 -> 0 <= N < b * D ->
  let z := if b1 * D <=? N / D then D - 1 else N / D / b1 in N / b <= z <= N / b + 2 /\ z < D.
Proof.
  intros HD Hb Hb0 Hb1 HN z. assert (Hbp : 0 < b) by nia.
  pose proof (Z.div_mod N b ltac:(lia)) as Hq. pose proof (Z.mod_pos_bound N b Hbp).
  pose proof (Z.div_pos N b ltac:(lia) Hbp).
  pose proof (Z.div_mod N D ltac:(lia)) as Ht. pose proof (Z.mod_pos_bound N D HD).
  pose proof (Z.div_lt_upper_bound N b D Hbp ltac:(lia)) as HqD.
  assert (Hz : z * b1 <= N / D /\ 0 <= z < D /\ N / b <= z).
  { subst z. destruct (Z.leb_spec (b1 * D) (N / D)); [split; [nia|lia]|].
    pose proof (Z.div_mod (N / D) b1 ltac:(lia)). pose proof (Z.mod_pos_bound (N / D) b1 ltac:(lia)).
    pose proof (Z.div_pos (N / D) b1 ltac:(apply Z.div_pos; lia) ltac:(lia)).
    split; [lia|]. split; [split; [done|apply Z.div_lt_upper_bound; lia]|].
    apply Z.div_le_lower_bound; [lia|]. apply Z.div_le_lower_bound; [lia|].
    assert (N / b * (b1 * D) <= N / b * b) by (apply Z.mul_le_mono_nonneg_l; lia). lia. }
  clearbody z. destruct Hz as (Hz1 & Hz2 & Hz3). split; [|lia]. split; [done|].
  destruct (Z.le_gt_cases z (N / b + 2)) as [|Hgt]; [done|exfalso].
  assert (z * b1 * D <= N) by nia. assert (z * b0 <= (D - 1) * (D - 1)) by (apply Z.mul_le_mono_nonneg; lia).
  assert (D * D <= 2 * b) by nia. assert ((N / b + 3) * b <= z * b) by (apply Z.mul_le_mono_nonneg_r; lia). nia.
Qed.

Lemma words_middle x : 0 <= x < 2 ^ 96 -> u64 ((words x).1 <<< 32) ||| ((words x).2 >>> 32) = x / 2 ^ 32.
Proof.
  intros Hx. unfold words. cbn [fst snd]. rewrite shiftl_mul, shiftr_div by lia.
  assert (H1 : u64 (u64 (x / 2 ^ 64) * 2 ^ 32) = (x / 2 ^ 64) <<< 32) by (rewrite shiftl_mul by lia; unfold u64; zdm).
  rewrite H1, Z.lor_comm, lor_disjoint_add' by (unfold u64; zdm). unfold u64. zdm.
Qed.

(** A digit as the code computes it. *)
Lemma digit_eq b1 t : 0 < b1 -> (if (b1 <<< 32) <=? t then 0xFFFFFFFF else t / b1) = if b1 * 2 ^ 32 <=? t then 2 ^ 32 - 1 else t / b1.
Proof. intros. by rewrite shiftl_mul by lia. Qed.

(** The low digit, and the two digits together. *)
Lemma low_digit b b1 b0 q R :
  b = b1 * 2 ^ 32 + b0 -> 0 <= b0 < 2 ^ 32 -> 2 ^ 31 <= b1 < 2 ^ 32 -> 0 <= R < b * 2 ^ 32 ->
  let rem32 := u64 ((words R).1 <<< 32) ||| ((words R).2 >>> 32) in
  q * 2 ^ 32 + R / b <=
    (2 ^ 32 * q) ||| (if (b1 <<< 32) <=? rem32 then 0xFFFFFFFF else rem32 / b1) <=
    q * 2 ^ 32 + R / b + 2.
Proof.
  intros Hb Hb0 Hb1 HR. cbv zeta. rewrite words_middle by lia. rewrite digit_eq by lia.
  destruct (digit_estimate (2 ^ 32) R b b1 b0 ltac:(lia) Hb Hb0 ltac:(lia) HR) as [Hd Hd'].
  set (d := if b1 * 2 ^ 32 <=? R / 2 ^ 32 then 2 ^ 32 - 1 else R / 2 ^ 32 / b1) in *. clearbody d.
  pose proof (Z.div_pos R b ltac:(lia) ltac:(lia)).
  replace (2 ^ 32 * q) with (q <<< 32) by (rewrite shiftl_mul; lia). rewrite lor_disjoint_add by lia. lia.
Qed.

Lemma estimateDiv128To64_spec a64 a0 b :
  is_uint 64 a64 -> is_uint 64 a0 -> 2 ^ 63 <= b < 2 ^ 64 -> a64 < b ->
  let q := (a64 * 2 ^ 64 + a0) / b in
  q <= softfloat_estimateDiv128To64 a64 a0 b <= q + 2.
Proof.
  intros Ha64 Ha0 Hb Hab. cbv zeta. unfold softfloat_estimateDiv128To64.
  rewrite (proj2 (Z.leb_gt b a64)) by lia. cbv zeta. unfold is_uint in *. rewrite (shiftr_div b) by lia.
  assert (Hb1 : 2 ^ 31 <= b / 2 ^ 32 < 2 ^ 32) by zdm. pose proof (Z.mod_pos_bound b (2 ^ 32) ltac:(lia)) as Hb0.
  pose proof (Z.div_mod b (2 ^ 32) ltac:(lia)) as HB. rewrite Z.mul_comm in HB.
  set (b1 := b / 2 ^ 32) in *. set (b0 := b mod 2 ^ 32) in *. set (A := a64 * 2 ^ 64 + a0).
  assert (HA : 0 <= A < b * 2 ^ 64) by (subst A; lia).
  assert (HN : A / 2 ^ 32 / 2 ^ 32 = a64) by (rewrite Z.div_div by lia; subst A; zdm).
  assert (HN0 : 0 <= A / 2 ^ 32 < b * 2 ^ 32) by (split; [apply Z.div_pos; lia|apply Z.div_lt_upper_bound; lia]).
  destruct (digit_estimate (2 ^ 32) (A / 2 ^ 32) b b1 b0 ltac:(lia) HB Hb0 ltac:(lia) HN0) as [Hd Hd'].
  rewrite HN in Hd, Hd'. set (d := if b1 * 2 ^ 32 <=? a64 then 2 ^ 32 - 1 else a64 / b1) in *.
  replace (if (b1 <<< 32) <=? a64 then 18446744069414584320 else u64 ((a64 / b1) <<< 32)) with (2 ^ 32 * d).
  2: { subst d. rewrite !shiftl_mul by lia. destruct (b1 * 2 ^ 32 <=? a64); [done|]. unfold u64.
       rewrite Z.mod_small; [lia|]. split; [|lia]. apply Z.mul_nonneg_nonneg; [apply Z.div_pos; lia|lia]. }
  assert (Hd0 : 0 <= d) by (assert (0 <= A / 2 ^ 32 / b) by (apply Z.div_pos; lia); lia).
  clearbody d. rewrite Z.div_div in Hd by lia. clear HN HN0. pose proof (Z.mul_comm b (2 ^ 32)) as Hbc.
  rewrite (remainder_words a64 a0 b (2 ^ 32 * d)) by (unfold is_uint; lia). fold A.
  replace (A - b * (2 ^ 32 * d)) with (A - d * (2 ^ 32 * b)) by ring.
  replace (b1, u64 (b <<< 32)) with (words (2 ^ 32 * b)).
  2: { unfold words, u64. rewrite shiftl_mul by lia. f_equal; [zdm|by rewrite Z.mul_comm]. }
  set (B := 2 ^ 32 * b) in *. pose proof (Z.div_mod A B ltac:(lia)) as HAB.
  pose proof (Z.mod_pos_bound A B ltac:(lia)). pose proof (Z.div_pos A B ltac:(lia) ltac:(lia)).
  assert (Hlow : - (2 * B) <= A - d * B) by nia.
  assert (HL := lower_estimate_spec 0x100000000 b A (Z.to_nat (d - A / B)) ESTIMATE_STEPS d). change (0x100000000 * b) with B in HL.
  change (2 ^ 32 * d) with (0x100000000 * d). rewrite HL by (unfold ESTIMATE_STEPS; lia). cbv zeta.
  replace (A - A / B * B) with (A mod B) by lia.
  assert (Hq : A / b = A / B * 2 ^ 32 + A mod B / b).
  { rewrite HAB at 1. replace (B * (A / B)) with (A / B * 2 ^ 32 * b) by (subst B; ring).
    by rewrite Z.div_add_l by lia. }
  rewrite Hq. apply (low_digit b b1 b0); lia.
Qed.
