(* ===== verification/SoftFloatDiv.v ===== *)
(** * Floating-point division is correctly rounded *)

From S2P Require Import Prelude SoftFloat SoftFloatArith SoftFloatSpec SoftFloatFields SoftFloatAdd SoftFloatMul SoftFloatEstimate.

Definition is_quotient (f : format) (rm a b : Z) (r : Z * Z) : Prop :=
  let s := xorb (negative f a) (negative f b) in
  if is_nan f a || is_nan f b then r = nan_result f [a; b]
  else if is_inf f a then if is_inf f b then r = invalid_result f else r = (pack f s (inf_bits f), 0)
  else if is_inf f b then r = (pack f s 0, 0)
  else if mag f b =? 0 then
    if mag f a =? 0 then r = invalid_result f else r = (pack f s (inf_bits f), softfloat_flag_infinity)
  else rounds f rm s (twice_ratio (fval f (mag f a) * 2 ^ unit_exp f) (fval f (mag f b))) r.

(** ** Quotients with a sticky bit *)

(** Halves, then quarters and so on of a number: the position of [n / d] between
    multiples of an even [W] is that of its integer part with the lowest bit set
    when there is a remainder. *)
Definition sticky (n d : Z) : Z := (n / d) ||| Z.b2z (negb (n mod d =? 0)).

Lemma agrees_floor W n d s :
  0 < d -> 1 < W -> n / d mod W <> 0 -> s / W = n / d / W -> s mod W <> 0 -> agrees W (ratio n d) s.
Proof.
  intros Hd HW Hq Hs Hs0 j. unfold ratio. pose proof (Z.div_mod n d ltac:(lia)) as Hn.
  pose proof (Z.mod_pos_bound n d Hd). set (q := n / d) in *.
  pose proof (Z.div_mod q W ltac:(lia)). pose proof (Z.mod_pos_bound q W ltac:(lia)).
  pose proof (Z.div_mod s W ltac:(lia)). pose proof (Z.mod_pos_bound s W ltac:(lia)).
  rewrite Hs in *. destruct (Z.le_gt_cases j (q / W)).
  - assert (j * W < s) by nia. assert (j * W < q) by nia.
    transitivity Lt; [apply Z.compare_lt_iff; nia|symmetry; apply Z.compare_lt_iff; lia].
  - assert (s < j * W) by nia. assert (q + 1 <= j * W) by nia.
    transitivity Gt; [apply Z.compare_gt_iff; nia|symmetry; apply Z.compare_gt_iff; lia].
Qed.

Lemma agrees_sticky n d : 0 < d -> agrees 2 (ratio n d) (sticky n d).
Proof.
  intros Hd j. unfold ratio, sticky. pose proof (Z.div_mod n d ltac:(lia)) as Hn.
  pose proof (Z.mod_pos_bound n d Hd) as Hr. set (q := n / d) in *.
  destruct (Z.eqb_spec (n mod d) 0) as [H0|H0]; cbn [negb Z.b2z].
  - rewrite Z.lor_0_r. replace n with (q * d) by lia. by apply compare_mul_r.
  - rewrite lor_1. pose proof (Z.div_mod q 2 ltac:(lia)) as Hq. rewrite Zmod_odd in Hq.
    assert (Hj : (j * 2 * d ?= n) = if j * 2 <=? q then Lt else Gt).
    { destruct (Z.leb_spec (j * 2) q); [apply Z.compare_lt_iff|apply Z.compare_gt_iff]; nia. }
    rewrite Hj. symmetry. destruct (Z.odd q), (Z.leb_spec (j * 2) q);
      (apply Z.compare_lt_iff || apply Z.compare_gt_iff); lia.
Qed.

Lemma agrees_cancel W n d c s : 0 < c -> agrees W (ratio (n * c) (d * c)) s -> agrees W (ratio n d) s.
Proof. intros Hc H j. rewrite <- (H j). unfold ratio. rewrite Z.mul_assoc. symmetry. by apply compare_mul_r. Qed.

(** The code looks at the remainder only when the low bits of the quotient do
    not show already that it lies between two multiples. *)
Lemma agrees_quotient n d w :
  0 < d -> 1 <= w -> let q := n / d in
  agrees (2 ^ w) (ratio n d) (if q mod 2 ^ w =? 0 then q ||| Z.b2z (negb (d * q =? n)) else q).
Proof.
  intros Hd Hw q. pose proof (pow2_mono 1 w ltac:(lia)). destruct (Z.eqb_spec (q mod 2 ^ w) 0).
  - replace (d * q =? n) with (n mod d =? 0).
    + apply (agrees_pow 1 w); [lia|]. by apply agrees_sticky.
    + pose proof (Z.div_mod n d ltac:(lia)). apply Bool.eq_iff_eq_true. rewrite !Z.eqb_eq. subst q. lia.
  - apply agrees_floor; try done; lia.
Qed.

(** The quotient that the code passes on, before it rounds. *)
Definition divided (q d n w : Z) : Z := if q mod 2 ^ w =? 0 then q ||| Z.b2z (negb (d * q =? n)) else q.

Lemma lor_bit_range q c m : 1 <= m -> q < 2 ^ m -> q <= q ||| Z.b2z c /\ q ||| Z.b2z c <= q + 2 /\ q ||| Z.b2z c < 2 ^ m.
Proof.
  intros Hm Hq. destruct c; cbn [Z.b2z]; [|rewrite Z.lor_0_r; lia].
  assert (Hp : 2 ^ m = 2 * 2 ^ (m - 1)) by (replace m with (1 + (m - 1)) at 1 by lia; rewrite Z.pow_add_r; lia).
  pose proof (Z.div_mod q 2 ltac:(lia)) as Hq2. rewrite Zmod_odd in Hq2. rewrite lor_1. destruct (Z.odd q); lia.
Qed.

Lemma divided_spec n d w m (q := n / d) :
  0 < d -> 1 <= w <= m -> q < 2 ^ m ->
  agrees (2 ^ w) (ratio n d) (divided q d n w) /\ q <= divided q d n w /\
  divided q d n w <= q + 2 /\ divided q d n w < 2 ^ m.
Proof.
  intros Hd Hw Hq. pose proof (agrees_quotient n d w Hd ltac:(lia)) as Ha. fold q in Ha. cbv zeta in Ha.
  split; [exact Ha|]. unfold divided. destruct (Z.eqb_spec (q mod 2 ^ w) 0); [apply lor_bit_range|]; lia.
Qed.

Lemma sticky_spec n d w m :
  0 < d -> 1 <= w <= m -> n / d < 2 ^ m ->
  agrees (2 ^ w) (ratio n d) (sticky n d) /\ n / d <= sticky n d /\ sticky n d <= n / d + 2 /\ sticky n d < 2 ^ m.
Proof.
  intros Hd Hw Hq. split; [|apply lor_bit_range; lia]. apply (agrees_pow 1 w); [lia|]. by apply agrees_sticky.
Qed.

(** An estimate whose low bits show that the quotient lies between the same
    two multiples need not be corrected. *)
Lemma estimate_spec n d w m z :
  0 < d -> 2 <= w <= m -> n / d < 2 ^ m -> n / d <= z <= n / d + 2 -> 3 <= z mod 2 ^ w ->
  agrees (2 ^ w) (ratio n d) z /\ z < 2 ^ m.
Proof.
  intros Hd Hw Hq Hz Hl. pose proof (pow2_mono 2 w ltac:(lia)). set (q := n / d) in *. set (W := 2 ^ w) in *.
  pose proof (Z.div_mod z W ltac:(lia)) as HZ. pose proof (Z.mod_pos_bound z W ltac:(lia)).
  assert (HQ : q = W * (z / W) + (z mod W - (z - q))) by lia.
  assert (Hd1 : q / W = z / W) by (symmetry; apply (Z.div_unique_pos q W _ (z mod W - (z - q))); lia).
  assert (Hm1 : q mod W = z mod W - (z - q)) by (symmetry; apply (Z.mod_unique_pos q W (z / W)); lia).
  split; [apply agrees_floor; fold q; try lia; congruence|].
  assert (Hp : 2 ^ m = W * 2 ^ (m - w)) by (subst W; rewrite <- Z.pow_add_r by lia; f_equal; lia).
  rewrite Hp in *. assert (z / W < 2 ^ (m - w)); [|nia]. rewrite <- Hd1. apply Z.div_lt_upper_bound; lia.
Qed.

(** ** Division *)

Section rounder.
Context {f : format} {g : Z} {RP NRP : Z -> bool -> Z -> Z -> flagged Z} `{!Rounder f g RP NRP}.
#[local] Notation F := (2 ^ fb f).
#[local] Notation Hfb := (rounder_fb (Rounder := Rounder0)).
#[local] Notation Hg := (rounder_g (Rounder := Rounder0)).
#[local] Notation bias := (2 ^ (eb f - 1) - 1).

Lemma scaled_quotient ea ma eb' mb ea' sa eb'' sb k :
  normal_form f ea ma ea' sa -> normal_form f eb' mb eb'' sb -> 0 <= k <= 1 ->
  scaled (significand f ea ma * 2 ^ (exponent ea - 1) * 2 ^ unit_exp f) (significand f eb' mb * 2 ^ (exponent eb' - 1))
    (sa * 2 ^ (fb f + g + k)) sb (ea' - eb'' + bias - 1 - k - g).
Proof using Rounder0.
  intros (_ & Ha1 & Ha2 & Ha) (_ & Hb1 & Hb2 & Hb) Hk. pose proof Hg. pose proof Hfb.
  destruct (bias_range (Rounder0 := Rounder0)) as (Hbi & Hsm & Hbe & Hu).
  set (m := 2 ^ 13 + g). exists (fb f + m). split; [lia|]. split; [subst m; lia|].
  pose proof (exponent_pos ea). pose proof (exponent_pos eb').
  rewrite (Z.pow_add_r 2 (exponent ea - 1)) in Ha by lia. rewrite (Z.pow_add_r 2 (exponent eb' - 1)) in Hb by lia.
  set (x := significand f ea ma * 2 ^ (exponent ea - 1)) in *. set (y := significand f eb' mb * 2 ^ (exponent eb' - 1)) in *.
  assert (Hx : x * F = sa * 2 ^ (ea' - 1 + fb f)) by (rewrite <- Ha; subst x; ring).
  assert (Hy : y * F = sb * 2 ^ (eb'' - 1 + fb f)) by (rewrite <- Hb; subst y; ring).
  set (l := fb f + m + (ea' - eb'' + bias - 1 - k - g) - fb f).
  replace (fb f + m + (ea' - eb'' + bias - 1 - k - g)) with (fb f + l) by lia.
  assert (0 <= l) by (subst l m; lia). rewrite !(Z.pow_add_r 2 (fb f)) by (subst m; lia).
  transitivity (x * F * (2 ^ unit_exp f * sb * 2 ^ m)); [ring|]. rewrite Hx.
  transitivity (sa * (y * F) * (F * 2 ^ (g + k) * 2 ^ l)); [rewrite Hy|rewrite <- Z.add_assoc, (Z.pow_add_r 2 (fb f)) by lia; ring].
  transitivity (sa * sb * (2 ^ (ea' - 1 + fb f) * 2 ^ unit_exp f * 2 ^ m)); [ring|].
  transitivity (sa * sb * (2 ^ (eb'' - 1 + fb f) * F * 2 ^ (g + k) * 2 ^ l)); [|ring].
  f_equal. rewrite <- !Z.pow_add_r by (subst m; lia). f_equal. subst l m. lia.
Qed.

Lemma normal_form_pos e m e' m' : normal_form f e m e' m' -> 0 < significand f e m * 2 ^ (exponent e - 1).
Proof using Rounder0.
  intros (H0 & H1 & H2 & H). pose proof Hfb. pose proof (pow2_pos (fb f) ltac:(lia)) as HF.
  pose proof (exponent_pos e). pose proof (pow2_pos (e' - 1 + fb f) ltac:(lia)).
  rewrite Z.pow_add_r, Z.mul_assoc in H by lia. apply (Z.mul_pos_cancel_r _ F HF). rewrite H.
  apply Z.mul_pos_pos; lia.
Qed.

Lemma quotient_range sa sb :
  F <= sa < 2 * F -> F <= sb < 2 * F ->
  let k := Z.b2z (negb (sb <=? sa)) in let n := sa * 2 ^ (fb f + g + k) in
  0 <= k <= 1 /\ 2 ^ (fb f + g) <= n / sb < 2 ^ (fb f + g + 1).
Proof using Rounder0.
  intros Ha Hb k n. pose proof Hfb. pose proof Hg. pose proof (pow2_pos (fb f + g) ltac:(lia)) as Hp.
  pose proof (pow2_pos (fb f) ltac:(lia)). subst n k. set (W := 2 ^ (fb f + g)) in *.
  destruct (Z.leb_spec sb sa); cbn [negb Z.b2z]; (split; [lia|]).
  - rewrite Z.add_0_r, (Z.pow_add_r 2 (fb f + g)) by lia. fold W. split.
    + apply Z.div_le_lower_bound; [lia|]. apply Z.mul_le_mono_nonneg_r; lia.
    + apply Z.div_lt_upper_bound; [lia|]. replace (sb * (W * 2 ^ 1)) with (2 * sb * W) by ring.
      apply Z.mul_lt_mono_pos_r; lia.
  - rewrite (Z.pow_add_r 2 (fb f + g)) by lia. fold W. replace (sa * (W * 2 ^ 1)) with (2 * sa * W) by ring. split.
    + apply Z.div_le_lower_bound; [lia|]. apply Z.mul_le_mono_nonneg_r; lia.
    + apply Z.div_lt_upper_bound; [lia|]. replace (sb * (W * 2 ^ 1)) with (2 * sb * W) by ring.
      apply Z.mul_lt_mono_pos_r; lia.
Qed.

Lemma div_rounds rm s ea ma eb' mb ea' sa eb'' sb sig :
  normal_form f ea ma ea' sa -> normal_form f eb' mb eb'' sb ->
  let k := Z.b2z (negb (sb <=? sa)) in let n := sa * 2 ^ (fb f + g + k) in
  agrees (2 ^ (g - 1)) (ratio n sb) sig -> n / sb <= sig -> sig <= n / sb + 2 -> sig < 2 ^ (fb f + g + 1) ->
  rounds f rm s
    (twice_ratio (significand f ea ma * 2 ^ (exponent ea - 1) * 2 ^ unit_exp f) (significand f eb' mb * 2 ^ (exponent eb' - 1)))
    (RP rm s (ea' - eb'' + bias - 1 - k) sig).
Proof using Rounder0.
  intros Ha Hb k n Hag H1 H2 H3.
  assert (Hk : 0 <= k <= 1) by (subst k; destruct (negb _); cbn; lia).
  pose proof (scaled_quotient _ _ _ _ _ _ _ _ k Ha Hb Hk) as Hsc.
  pose proof Hb as Hnb. destruct Ha as (Ha0 & Ha1 & Ha2 & Ha), Hb as (Hb0 & Hb1 & Hb2 & Hb). pose proof Hg. pose proof Hfb.
  destruct (bias_range (Rounder0 := Rounder0)) as (Hbi & Hsm & Hbe & Hu).
  assert (HF : 0 < F) by (apply pow2_pos; lia).
  pose proof (quotient_range sa sb ltac:(lia) ltac:(lia)) as [_ [Hq _]]. cbv zeta in Hq. fold k n in Hq.
  pose proof (normal_form_pos _ _ _ _ Hnb) as Hpos.
  apply roundPack_rounds.
  - clear - Ha1 Ha2 Hb1 Hb2 Hbi Hsm Hbe Hk. lia.
  - clear - HF Hq H1 H3 H H0. lia.
  - right. clear - Hq H1. lia.
  - apply (stands_for_ratio g _ _ n sb); [clear - H; lia|done|clear - HF Hb0; lia|done|exact Hsc].
Qed.
End rounder.

(** The step that makes the quotient of the significands at least one. *)
Lemma halved_step e sa sb m : 1 <= m ->
  let k := Z.b2z (negb (sb <=? sa)) in
  (if sb * 2 ^ (m + 1) <=? sa * 2 ^ m + sa * 2 ^ m then (e + 1, (sa * 2 ^ m) >>> 1) else (e, sa * 2 ^ m)) =
  (e + 1 - k, sa * 2 ^ (m - 1 + k)).
Proof.
  intros Hm k. pose proof (pow2_pos m ltac:(lia)).
  replace (sb * 2 ^ (m + 1) <=? sa * 2 ^ m + sa * 2 ^ m) with (sb <=? sa).
  - subst k. destruct (sb <=? sa); cbn [negb Z.b2z]; f_equal; try lia.
    + rewrite Z.shiftr_div_pow2, Z.add_0_r by lia. replace m with (m - 1 + 1) at 1 by lia.
      rewrite Z.pow_add_r, Z.mul_assoc, Z.div_mul by lia. done.
    + f_equal. f_equal. lia.
  - replace (sb * 2 ^ (m + 1)) with (sb * (2 * 2 ^ m)) by (rewrite Z.pow_add_r by lia; lia).
    apply Bool.eq_iff_eq_true. rewrite !Z.leb_le. split; intros.
    + apply Z.le_trans with (sa * (2 * 2 ^ m)); [apply Z.mul_le_mono_nonneg_r; lia|lia].
    + apply (Z.mul_le_mono_pos_r _ _ (2 * 2 ^ m)); lia.
Qed.

Lemma finite_quotient_32 rm s a b :
  is_uint 32 a -> is_uint 32 b -> expF32UI a <> 255 -> expF32UI b <> 255 ->
  (expF32UI b =? 0) && (fracF32UI b =? 0) = false ->
  rounds binary32 rm s (twice_ratio (fval binary32 (mag binary32 a) * 2 ^ unit_exp binary32) (fval binary32 (mag binary32 b)))
    (if (expF32UI a =? 0) && (fracF32UI a =? 0) then (packToF32UI s 0 0, 0)
     else
       let '(expB, sigB) := norm_F32 (expF32UI b) (fracF32UI b) in
       let '(expA, sigA) := norm_F32 (expF32UI a) (fracF32UI a) in
       let expZ := expA - expB + 0x7D in
       let sigA := (sigA ||| 0x00800000) <<< 7 in
       let sigB := (sigB ||| 0x00800000) <<< 8 in
       let '(expZ, sigA) := if sigB <=? sigA + sigA then (expZ + 1, sigA >>> 1) else (expZ, sigA) in
       let sigZ := (sigA <<< 32) / sigB in
       let sigZ :=
         if sigZ &&& 0x3F =? 0 then sigZ ||| Z.b2z (negb (sigB * sigZ =? sigA <<< 32)) else sigZ in
       softfloat_roundPackToF32 rm s expZ sigZ).
Proof.
  intros Ha Hb Ea Eb Zb. rewrite !fval_finite_32 by done.
  destruct (classify_32 a Ha) as (_ & _ & _ & _ & Rea & Rma), (classify_32 b Hb) as (_ & _ & _ & _ & Reb & Rmb).
  rewrite packToF32_pack by lia.
  pose proof (norm_F32_spec (expF32UI b) _ ltac:(lia) Rmb Zb) as Nb. pose proof (normal_form_pos (Rounder0 := rounder_32) _ _ _ _ Nb).
  destruct (norm_F32 (expF32UI b) _) as [expB sigB]. cbn [fst snd] in Nb.
  destruct ((expF32UI a =? 0) && (fracF32UI a =? 0)) eqn:Za.
  { apply andb_true_iff in Za as [Z1 Z2]. apply Z.eqb_eq in Z1, Z2. rewrite Z1, Z2.
    change (significand binary32 0 0) with 0. rewrite !Z.mul_0_l. by apply rounds_zero_intro. }
  pose proof (norm_F32_spec (expF32UI a) _ ltac:(lia) Rma Za) as Na.
  destruct (norm_F32 (expF32UI a) _) as [expA sigA]. cbn [fst snd] in Na.
  cbv zeta. rewrite (shiftl_mul _ 7), (shiftl_mul _ 8), (halved_step (expA - expB + 0x7D) _ _ 7) by lia.
  set (sa := sigA ||| 0x00800000) in *. set (sb := sigB ||| 0x00800000) in *. cbv zeta.
  pose proof Na as (Ra & _). pose proof Nb as (Rb & _).
  pose proof (quotient_range (Rounder0 := rounder_32) sa sb ltac:(lia) ltac:(lia)) as Hqr.
  pose proof (fun sig => div_rounds (Rounder0 := rounder_32) rm s _ _ _ _ _ _ _ _ sig Na Nb) as Hr. cbv zeta in Hqr, Hr. set (k := Z.b2z (negb (sb <=? sa))) in *.
  destruct Hqr as [Hk Hq]. change (fb binary32) with 23 in *. set (n := sa * 2 ^ (23 + 7 + k)) in *.
  assert (Hn : (sa * 2 ^ (7 - 1 + k)) <<< 32 = n * 2 ^ 8).
  { rewrite shiftl_mul by lia. subst n. rewrite <- !Z.mul_assoc, <- !Z.pow_add_r by lia. do 2 f_equal. lia. }
  rewrite Hn, Z.div_mul_cancel_r by lia. change 0x3F with (Z.ones 6). rewrite Z.land_ones by lia.
  replace (sb * 2 ^ 8 * (n / sb) =? n * 2 ^ 8) with (sb * (n / sb) =? n)
    by (apply Bool.eq_iff_eq_true; rewrite !Z.eqb_eq; lia).
  fold (divided (n / sb) sb n 6).
  pose proof (divided_spec n sb 6 31 ltac:(lia) ltac:(lia) ltac:(lia)) as (D1 & D2 & D3 & D4).
  replace (expA - expB + 125 + 1 - k) with (expA - expB + (2 ^ (eb binary32 - 1) - 1) - 1 - k) by (cbn; lia).
  exact (Hr _ D1 D2 D3 D4).
Qed.

Lemma f32_div_quotient rm a b : is_uint 32 a -> is_uint 32 b -> is_quotient binary32 rm a b (f32_div rm a b).
Proof.
  intros Ha Hb. pose proof (finite_quotient_32 rm (xorb (signF32UI a) (signF32UI b)) a b Ha Hb) as Hfin.
  destruct (classify_32 a Ha) as (Na & Ia & Sa & Za & Rea & Rma), (classify_32 b Hb) as (Nb & Ib & Sb & Zb & Reb & Rmb).
  unfold is_quotient. rewrite Na, Nb, Ia, Ib, Sa, Sb, Za, Zb. unfold f32_div. cbv zeta.
  rewrite propagateNaN32_eq, !lor_eqb_0, !packToF32_pack by first [done|lia].
  destruct (Z.eqb_spec (expF32UI a) 0xFF) as [Ea|Ea]; [|destruct (Z.eqb_spec (expF32UI b) 0xFF) as [Eb|Eb]].
  - destruct (fracF32UI a =? 0), (expF32UI b =? 255), (fracF32UI b =? 0); reflexivity.
  - destruct (fracF32UI b =? 0); reflexivity.
  - cbn [andb orb]. destruct ((expF32UI b =? 0) && (fracF32UI b =? 0)).
    + destruct ((expF32UI a =? 0) && (fracF32UI a =? 0)); reflexivity.
    + rewrite packToF32_pack in Hfin by lia. exact (Hfin Ea Eb eq_refl).
Qed.

(** The quotient of [f64_div], corrected where it has to be. *)
Definition corrected64 (sigA sigB : Z) : Z :=
  let sigZ := softfloat_estimateDiv128To64 sigA 0 sigB in
  if sigZ &&& 0x1FF <=? 2 then
    let term := softfloat_mul64To128 sigB sigZ in
    let rem := softfloat_sub128 sigA 0 term.1 term.2 in
    let '(sigZ, rem) := lower_estimate ESTIMATE_STEPS 1 (fun _ => (0, sigB)) sigZ rem in
    sigZ ||| Z.b2z (negb (rem.2 =? 0))
  else sigZ.

Lemma corrected64_spec a b (n := a * 2 ^ 64) :
  is_uint 64 a -> 2 ^ 63 <= b < 2 ^ 64 -> a < b -> n / b < 2 ^ 63 ->
  agrees (2 ^ 9) (ratio n b) (corrected64 a b) /\ n / b <= corrected64 a b /\
  corrected64 a b <= n / b + 2 /\ corrected64 a b < 2 ^ 63.
Proof.
  intros Ha Hb Hab Hq. pose proof (estimateDiv128To64_spec a 0 b Ha ltac:(unfold is_uint; lia) Hb Hab) as He.
  cbv zeta in He. rewrite Z.add_0_r in He. fold n in He. unfold is_uint in *.
  assert (0 <= n / b) by (apply Z.div_pos; lia).
  unfold corrected64. set (z := softfloat_estimateDiv128To64 a 0 b) in *. clearbody z. cbv zeta.
  change 0x1FF with (Z.ones 9). rewrite Z.land_ones by lia. destruct (Z.leb_spec (z mod 2 ^ 9) 2).
  - rewrite remainder_words, Z.add_0_r by (unfold is_uint; lia). fold n.
    rewrite (words_pair 0 b), Z.mul_0_l, Z.add_0_l by (unfold is_uint; lia).
    pose proof (Z.div_mod n b ltac:(lia)) as Hn. pose proof (Z.mod_pos_bound n b ltac:(lia)).
    pose proof (lower_estimate_spec 1 b n (Z.to_nat (z - n / b)) ESTIMATE_STEPS z) as HL. rewrite !Z.mul_1_l in HL.
    rewrite (Z.mul_comm b z), HL by (unfold ESTIMATE_STEPS; nia).
    replace (n - n / b * b) with (n mod b) by lia. unfold words. cbn [snd].
    unfold u64. rewrite (Z.mod_small (n mod b)) by lia. apply sticky_spec; lia.
  - destruct (estimate_spec n b 9 63 z ltac:(lia) ltac:(lia) Hq He ltac:(lia)). split; [done|lia].
Qed.

Lemma finite_quotient_64 rm s a b :
  is_uint 64 a -> is_uint 64 b -> expF64UI a <> 2047 -> expF64UI b <> 2047 ->
  (expF64UI b =? 0) && (fracF64UI b =? 0) = false ->
  rounds binary64 rm s (twice_ratio (fval binary64 (mag binary64 a) * 2 ^ unit_exp binary64) (fval binary64 (mag binary64 b)))
    (if (expF64UI a =? 0) && (fracF64UI a =? 0) then (packToF64UI s 0 0, 0)
     else
       let '(expB, sigB) := norm_F64 (expF64UI b) (fracF64UI b) in
       let '(expA, sigA) := norm_F64 (expF64UI a) (fracF64UI a) in
       let expZ := expA - expB + 0x3FD in
       let sigA := (sigA ||| 0x0010000000000000) <<< 10 in
       let sigB := (sigB ||| 0x0010000000000000) <<< 11 in
       let '(expZ, sigA) := if sigB <=? u64 (sigA + sigA) then (expZ + 1, sigA >>> 1) else (expZ, sigA) in
       softfloat_roundPackToF64 rm s expZ (corrected64 sigA sigB)).
Proof.
  intros Ha Hb Ea Eb Zb. rewrite !fval_finite_64 by done.
  destruct (classify_64 a Ha) as (_ & _ & _ & _ & Rea & Rma), (classify_64 b Hb) as (_ & _ & _ & _ & Reb & Rmb).
  rewrite packToF64_pack by lia.
  pose proof (norm_F64_spec (expF64UI b) _ ltac:(lia) Rmb Zb) as Nb. pose proof (normal_form_pos (Rounder0 := rounder_64) _ _ _ _ Nb).
  destruct (norm_F64 (expF64UI b) _) as [expB sigB]. cbn [fst snd] in Nb.
  destruct ((expF64UI a =? 0) && (fracF64UI a =? 0)) eqn:Za.
  { apply andb_true_iff in Za as [Z1 Z2]. apply Z.eqb_eq in Z1, Z2. rewrite Z1, Z2.
    change (significand binary64 0 0) with 0. rewrite !Z.mul_0_l. by apply rounds_zero_intro. }
  pose proof (norm_F64_spec (expF64UI a) _ ltac:(lia) Rma Za) as Na.
  destruct (norm_F64 (expF64UI a) _) as [expA sigA]. cbn [fst snd] in Na.
  cbv zeta. set (sa := sigA ||| 0x0010000000000000) in *. set (sb := sigB ||| 0x0010000000000000) in *.
  pose proof Na as (Ra & _). pose proof Nb as (Rb & _). change (2 ^ fb binary64) with (2 ^ 52) in Ra, Rb.
  rewrite (shiftl_mul _ 10), (shiftl_mul _ 11) by lia.
  assert (Hu : u64 (sa * 2 ^ 10 + sa * 2 ^ 10) = sa * 2 ^ 10 + sa * 2 ^ 10) by (apply Z.mod_small; lia).
  rewrite Hu, (halved_step (expA - expB + 0x3FD) _ _ 10) by lia. cbv zeta.
  pose proof (quotient_range (Rounder0 := rounder_64) sa sb ltac:(cbn; lia) ltac:(cbn; lia)) as Hqr.
  pose proof (fun sig => div_rounds (Rounder0 := rounder_64) rm s _ _ _ _ _ _ _ _ sig Na Nb) as Hr. cbv zeta in Hqr, Hr.
  change (fb binary64) with 52 in *. set (n := sa * 2 ^ (52 + 10 + Z.b2z (negb (sb <=? sa)))) in *.
  destruct Hqr as [Hk Hq]. assert (Hs : sa * 2 ^ (10 - 1 + Z.b2z (negb (sb <=? sa))) < sb * 2 ^ 11).
  { destruct (Z.leb_spec sb sa); cbn [negb Z.b2z]; lia. }
  set (k := Z.b2z (negb (sb <=? sa))) in *. set (a1 := sa * 2 ^ (10 - 1 + k)) in *.
  assert (Hn : a1 * 2 ^ 64 = n * 2 ^ 11).
  { subst n a1. rewrite <- !Z.mul_assoc, <- !Z.pow_add_r by lia. do 2 f_equal. lia. }
  assert (Ha1 : is_uint 64 a1).
  { split; [apply Z.mul_nonneg_nonneg; [lia|apply Z.pow_nonneg; lia]|lia]. }
  pose proof (corrected64_spec a1 (sb * 2 ^ 11) Ha1 ltac:(lia) Hs) as HC. cbv zeta in HC.
  rewrite Hn, Z.div_mul_cancel_r in HC by lia. destruct (HC ltac:(lia)) as (D1 & D2 & D3 & D4).
  apply agrees_cancel in D1; [|lia].
  replace (expA - expB + 1021 + 1 - k) with (expA - expB + (2 ^ (eb binary64 - 1) - 1) - 1 - k) by (cbn; lia).
  exact (Hr _ D1 D2 D3 D4).
Qed.

Lemma f64_div_quotient rm a b : is_uint 64 a -> is_uint 64 b -> is_quotient binary64 rm a b (f64_div rm a b).
Proof.
  intros Ha Hb. pose proof (finite_quotient_64 rm (xorb (signF64UI a) (signF64UI b)) a b Ha Hb) as Hfin.
  destruct (classify_64 a Ha) as (Na & Ia & Sa & Za & Rea & Rma), (classify_64 b Hb) as (Nb & Ib & Sb & Zb & Reb & Rmb).
  unfold is_quotient. rewrite Na, Nb, Ia, Ib, Sa, Sb, Za, Zb. unfold f64_div. fold corrected64. cbv zeta.
  rewrite propagateNaN64_eq, !lor_eqb_0, !packToF64_pack by first [done|lia].
  destruct (Z.eqb_spec (expF64UI a) 0x7FF) as [Ea|Ea]; [|destruct (Z.eqb_spec (expF64UI b) 0x7FF) as [Eb|Eb]].
  - destruct (fracF64UI a =? 0), (expF64UI b =? 2047), (fracF64UI b =? 0); reflexivity.
  - destruct (fracF64UI b =? 0); reflexivity.
  - cbn [andb orb]. destruct ((expF64UI b =? 0) && (fracF64UI b =? 0)).
    + destruct ((expF64UI a =? 0) && (fracF64UI a =? 0)); reflexivity.
    + rewrite packToF64_pack in Hfin by lia. exact (Hfin Ea Eb eq_refl).
Qed.

(** ** The operations *)

(** C21: [f32_div] and [f64_div] give the quotient that the IEEE standard asks for, to the bit and with its
    flags, for all operands and every rounding mode: NaNs, infinities and zeros by its rules, and otherwise
    the exact quotient rounded, also where the operands or the result are subnormal, where the result
    overflows, and where it underflows. *)
Theorem softfloat_div_correct :
  (forall rm a b, is_uint 32 a -> is_uint 32 b -> is_quotient binary32 rm a b (f32_div rm a b)) /\
  (forall rm a b, is_uint 64 a -> is_uint 64 b -> is_quotient binary64 rm a b (f64_div rm a b)).
Proof. split; intros; [by apply f32_div_quotient|by apply f64_div_quotient]. Qed.

(** 1 / 3 in single precision, and -1 / 0 in double. *)
Lemma softfloat_div_correct_witness :
  is_quotient binary32 softfloat_round_nearest_even 0x3F800000 0x40400000 (0x3EAAAAAB, softfloat_flag_inexact) /\
  is_quotient binary64 softfloat_round_nearest_even 0xBFF0000000000000 0
    (0xFFF0000000000000, softfloat_flag_infinity).
Proof.
  split.
  - replace (0x3EAAAAAB, softfloat_flag_inexact)
      with (f32_div softfloat_round_nearest_even 0x3F800000 0x40400000) by (vm_compute; reflexivity).
    apply (proj1 softfloat_div_correct); unfold is_uint; lia.
  - replace (0xFFF0000000000000, softfloat_flag_infinity)
      with (f64_div softfloat_round_nearest_even 0xBFF0000000000000 0) by (vm_compute; reflexivity).
    apply (proj2 softfloat_div_correct); unfold is_uint; lia.
Defined.
