(* ===== verification/Isa.v ===== *)
(** * Instructions and registers of RISC-V

    The fields of an instruction word and the state of a hart, as the
    instruction-set manual names them, and how the macros of emulation.h read
    them.  The theorems about the emulation are stated in these terms. *)

From S2P Require Export Prelude Machine.

(** ** The fields of an instruction *)

Definition opcode (insn : Z) : Z := insn mod 2 ^ 7.
Definition rd (insn : Z) : Z := (insn / 2 ^ 7) mod 2 ^ 5.
Definition funct3 (insn : Z) : Z := (insn / 2 ^ 12) mod 2 ^ 3.
Definition rs1 (insn : Z) : Z := (insn / 2 ^ 15) mod 2 ^ 5.
Definition rs2 (insn : Z) : Z := (insn / 2 ^ 20) mod 2 ^ 5.
Definition rs3 (insn : Z) : Z := (insn / 2 ^ 27) mod 2 ^ 5.
Definition funct7 (insn : Z) : Z := (insn / 2 ^ 25) mod 2 ^ 7.
Definition funct12 (insn : Z) : Z := (insn / 2 ^ 20) mod 2 ^ 12.

Lemma field_range x k n : 0 <= n -> 0 <= (x / 2 ^ k) mod 2 ^ n < 2 ^ n.
Proof. intros. apply Z.mod_pos_bound. by apply pow2_pos. Qed.

Lemma GET_REG_field insn pos : 3 <= pos -> GET_REG insn pos = (insn / 2 ^ pos) mod 2 ^ 5.
Proof.
  intros. unfold GET_REG. change 0xf8 with (Z.ones 5 <<< 3). rewrite land_field by lia.
  rewrite shiftr_div, Z.div_div, <- Z.pow_add_r, Z.div_mul by lia.
  by replace (pos - 3 + 3) with pos by lia.
Qed.

Lemma mask_funct3 insn : insn &&& 0x707f = funct3 insn * 2 ^ 12 + opcode insn.
Proof.
  change 0x707f with ((Z.ones 3 <<< 12) ||| Z.ones 7). rewrite land_lor_mask, land_field, land_ones_pow2 by lia.
  rewrite <- shiftl_mul, lor_disjoint_add by (try lia; pose proof (Z.mod_pos_bound insn (2 ^ 7)); lia).
  done.
Qed.

Lemma mask_funct7 insn :
  0 <= insn < 2 ^ 32 -> insn &&& 0xfe00707f = funct7 insn * 2 ^ 25 + funct3 insn * 2 ^ 12 + opcode insn.
Proof.
  intros. change 0xfe00707f with ((Z.ones 7 <<< 25) ||| 0x707f).
  rewrite land_lor_mask, land_field, mask_funct3 by lia.
  pose proof (field_range insn 12 3). pose proof (Z.mod_pos_bound insn (2 ^ 7)).
  rewrite <- shiftl_mul, lor_disjoint_add by (unfold funct3, opcode; lia).
  unfold funct7, funct3. lia.
Qed.

(** ** The state of a hart *)

(** Register [i] of the interrupted program; register 0 is 0. *)
Definition reg (s : hart) (i : Z) : Z := regs s !z i.
Definition freg (s : hart) (i : Z) : Z := regs s !z (32 + i).

(** Values that fit, and the slot of register 0 clear, as mentry.S leaves it
    before it calls a handler. *)
Record wf_hart (s : hart) : Prop := {
  wf_len : lenz (regs s) = 64;
  wf_regs : forall i, 0 <= i < 64 -> is_uint 64 (regs s !z i);
  wf_csrs : forall c, is_uint 64 (csrs s c);
  wf_mem : forall a b, mem s !! a = Some b -> is_uint 64 a /\ is_byte b
}.

Definition set_reg (i v : Z) (s : hart) : hart := with_regs (<[Z.to_nat i := u64 v]> (regs s)) s.
Definition set_csr_to (c : csr) (v : Z) (s : hart) : hart := with_csrs (<[c := u64 v]> (csrs s)) s.

(** Running a sequence. *)
Lemma run_Done {A B} (m : T A) (f : A -> T B) s a s' : m s = Done a s' -> (m ≫= f) s = f a s'.
Proof. unfold mbind, T_bind. by intros ->. Qed.
Lemma run_Redirect {A B} (m : T A) (f : A -> T B) s s' : m s = Redirect s' -> (m ≫= f) s = Redirect s'.
Proof. unfold mbind, T_bind. by intros ->. Qed.
Lemma read_csr_bind {A} c (f : Z -> T A) s : (read_csr c ≫= f) s = f (csrs s c) s.
Proof. done. Qed.

Lemma get_reg_bind {A} (s : hart) i (f : Z -> T A) :
  wf_hart s -> 0 <= i < 64 -> (get_reg i ≫= f) s = f (regs s !z i) s.
Proof.
  intros Hs Hi. unfold get_reg, asks, of_outcome, mbind, T_bind.
  by rewrite get_ok by (rewrite (wf_len s Hs); lia).
Qed.

Lemma put_reg_done (s : hart) i v : wf_hart s -> 0 <= i < 64 -> put_reg i v s = Done tt (set_reg i v s).
Proof.
  intros Hs Hi. unfold put_reg, asks, of_outcome, mbind, T_bind.
  by rewrite put_insert by (rewrite (wf_len s Hs); lia).
Qed.

Section fields.
Context (s : hart) (insn : Z) (Hs : wf_hart s).

Lemma GET_RS1_bind {A} (f : Z -> T A) : (GET_RS1 insn ≫= f) s = f (reg s (rs1 insn)) s.
Proof.
  unfold GET_RS1. rewrite GET_REG_field by lia. pose proof (field_range insn 15 5).
  by rewrite get_reg_bind by (done || lia).
Qed.

Lemma GET_RS2_bind {A} (f : Z -> T A) : (GET_RS2 insn ≫= f) s = f (reg s (rs2 insn)) s.
Proof.
  unfold GET_RS2. rewrite GET_REG_field by lia. pose proof (field_range insn 20 5).
  by rewrite get_reg_bind by (done || lia).
Qed.

Lemma SET_RD_done v : SET_RD insn v s = Done tt (set_reg (rd insn) v s).
Proof.
  unfold SET_RD. rewrite GET_REG_field by lia. pose proof (field_range insn 7 5).
  by rewrite put_reg_done by (done || lia).
Qed.

Lemma reg_range i : 0 <= i < 32 -> is_uint 64 (reg s i).
Proof. intros. apply (wf_regs s Hs). lia. Qed.
End fields.

Lemma rs1_range insn : 0 <= rs1 insn < 32.
Proof. apply field_range. lia. Qed.
Lemma rs2_range insn : 0 <= rs2 insn < 32.
Proof. apply field_range. lia. Qed.
Lemma rd_range insn : 0 <= rd insn < 32.
Proof. apply field_range. lia. Qed.
Lemma funct3_range insn : 0 <= funct3 insn < 8.
Proof. apply field_range. lia. Qed.
Lemma opcode_range insn : 0 <= opcode insn < 128.
Proof. apply Z.mod_pos_bound. lia. Qed.
Lemma funct7_range insn : 0 <= funct7 insn < 128.
Proof. apply field_range. lia. Qed.

(** ** Well-formed states are closed under the handlers' changes *)

Lemma wf_set_reg i v s : wf_hart s -> 0 <= i < 64 -> wf_hart (set_reg i v s).
Proof.
  intros [Hl Hr Hc Hm] Hi. split; simpl; [by rewrite lenz_insert| |done..].
  intros j Hj. rewrite nthz_insert by lia. case_match; [apply u64_range|by apply Hr].
Qed.

Lemma wf_set_csr c v s : wf_hart s -> wf_hart (set_csr_to c v s).
Proof.
  intros [Hl Hr Hc Hm]. split; simpl; [done..| |done]. intros c'.
  destruct (decide (c = c')) as [<-|]; [rewrite fn_lookup_insert; apply u64_range|].
  by rewrite fn_lookup_insert_ne.
Qed.

Lemma wf_with_tp t s : wf_hart s -> wf_hart (with_tp t s).
Proof. by intros []. Qed.

(** ** Handing over: the fields of mstatus *)

(** What redirect_trap makes of mstatus: the previous mode and its interrupt
    enable move to the supervisor's fields, and the monitor will return to the
    supervisor with interrupts disabled. *)
Definition redirected_mstatus (ms : Z) : Z :=
  let sie := INSERT_FIELD (INSERT_FIELD ms MSTATUS_SPP (EXTRACT_FIELD ms MSTATUS_MPP))
               MSTATUS_SPIE (EXTRACT_FIELD ms MSTATUS_MPIE) in
  INSERT_FIELD (INSERT_FIELD sie MSTATUS_MPP PRV_S) MSTATUS_MPIE 0.

(** The supervisor sees a trap that the monitor hands over: nothing but the
    registers of the trap has changed. *)
Record took_trap (s s' : hart) (cause epc ms : Z) : Prop := {
  tt_regs : regs s' = regs s;
  tt_mem : mem s' = mem s;
  tt_hls : hls s' = hls s;
  tt_sepc : csrs s' SEPC = epc;
  tt_scause : csrs s' SCAUSE = cause;
  tt_pc : csrs s' MEPC = csrs s STVEC;
  tt_mstatus : csrs s' MSTATUS = redirected_mstatus ms;
  tt_others : forall c, c ∉ [SEPC; SCAUSE; MEPC; MSTATUS] -> csrs s' c = csrs s c;
  tt_wf : wf_hart s'
}.

Lemma is_uint_lor w a b : 0 <= w -> is_uint w a -> is_uint w b -> is_uint w (a ||| b).
Proof.
  intros Hw [Ha1 Ha2] [Hb1 Hb2]. split; [by apply Z.lor_nonneg|].
  assert (H : (a ||| b) mod 2 ^ w = a ||| b); [|rewrite <- H; by apply Z.mod_pos_bound, pow2_pos].
  apply Z.bits_inj'. intros n Hn. destruct (decide (n < w)).
  - by rewrite Z.mod_pow2_bits_low by lia.
  - by rewrite Z.mod_pow2_bits_high, Z.lor_spec, !(testbit_high _ w) by lia.
Qed.

Lemma is_uint_land w a b : 0 <= w -> is_uint w a -> is_uint w (a &&& b).
Proof.
  intros Hw [Ha1 Ha2]. split; [apply Z.land_nonneg; by left|].
  assert (H : (a &&& b) mod 2 ^ w = a &&& b); [|rewrite <- H; by apply Z.mod_pos_bound, pow2_pos].
  apply Z.bits_inj'. intros n Hn. destruct (decide (n < w)).
  - by rewrite Z.mod_pow2_bits_low by lia.
  - by rewrite Z.mod_pow2_bits_high, Z.land_spec, (testbit_high a w) by lia.
Qed.

Lemma is_uint_insert_field val which v : is_uint 64 val -> is_uint 64 (INSERT_FIELD val which v).
Proof.
  intros. apply is_uint_lor; [lia|by apply is_uint_land|apply u64_range].
Qed.

Lemma is_uint_redirected ms : is_uint 64 ms -> is_uint 64 (redirected_mstatus ms).
Proof. intros. unfold redirected_mstatus. by do 4 apply is_uint_insert_field. Qed.

Lemma wf_with_csrs c s : wf_hart s -> (forall x, is_uint 64 (c x)) -> wf_hart (with_csrs c s).
Proof. intros [] ?. by split. Qed.

(** The state after redirect_trap. *)
Definition handed_over (epc ms : Z) (s : hart) : hart :=
  let s := set_csr_to SEPC epc s in
  let s := set_csr_to SCAUSE (csrs s MCAUSE) s in
  let s := set_csr_to MEPC (csrs s STVEC) s in
  set_csr_to MSTATUS (redirected_mstatus ms) s.

Lemma redirect_trap_run {A} s epc ms : redirect_trap (A := A) epc ms s = Redirect (handed_over epc ms s).
Proof. reflexivity. Qed.

Lemma set_csr_to_eq c v s : is_uint 64 v -> csrs (set_csr_to c v s) c = v.
Proof. intros. simpl. rewrite fn_lookup_insert. by apply u64_small. Qed.
Lemma set_csr_to_ne c c' v s : c <> c' -> csrs (set_csr_to c v s) c' = csrs s c'.
Proof. intros. simpl. by rewrite fn_lookup_insert_ne. Qed.

Lemma handed_over_took s epc ms :
  wf_hart s -> is_uint 64 epc -> is_uint 64 ms ->
  took_trap s (handed_over epc ms s) (csrs s MCAUSE) epc ms.
Proof.
  intros Hs He Hms. pose proof (wf_csrs s Hs) as Hc.
  assert (forall c, is_uint 64 (csrs (set_csr_to SEPC epc s) c)) as Hc1 by apply (wf_csrs _ (wf_set_csr _ _ _ Hs)).
  unfold handed_over. cbv zeta. split; try done.
  - by rewrite !set_csr_to_ne, set_csr_to_eq by done.
  - rewrite !(set_csr_to_ne MSTATUS), (set_csr_to_ne MEPC), set_csr_to_eq by done. by rewrite set_csr_to_ne.
  - rewrite set_csr_to_ne, set_csr_to_eq; [|rewrite !set_csr_to_ne by done; apply Hc|done].
    by rewrite !set_csr_to_ne by done.
  - rewrite set_csr_to_eq; [done|]. by apply is_uint_redirected.
  - intros c Hni. rewrite !not_elem_of_cons in Hni. destruct Hni as (?&?&?&?&?).
    by rewrite !set_csr_to_ne by congruence.
  - by repeat apply wf_set_csr.
Qed.

(** ** Fields, bit by bit *)

Section mask.
Context (which k w : Z) (Hk : 0 <= k) (Hw : 0 <= w)
  (Hwhich : which = Z.ones w <<< k) (Hlsb : field_lsb which = 2 ^ k).

Lemma EXTRACT_FIELD_eq val : EXTRACT_FIELD val which = (val / 2 ^ k) mod 2 ^ w.
Proof.
  unfold EXTRACT_FIELD. rewrite Hlsb, Hwhich, land_field by done.
  apply Z.div_mul. pose proof (pow2_pos k). lia.
Qed.

Lemma INSERT_FIELD_bits val v n :
  is_uint w v -> 0 <= n -> k + w <= 64 ->
  Z.testbit (INSERT_FIELD val which v) n
  = if (k <=? n) && (n <? k + w) then Z.testbit v (n - k) else Z.testbit val n.
Proof.
  intros [Hv0 Hv1] Hn H64. unfold INSERT_FIELD.
  assert (v * 2 ^ k < 2 ^ w * 2 ^ k) by (apply Z.mul_lt_mono_pos_r; [by apply pow2_pos|done]).
  rewrite <- Z.pow_add_r in * by done.
  pose proof (pow2_mono (w + k) 64 ltac:(lia)). pose proof (pow2_pos k Hk).
  rewrite Hlsb, u64_small by (split; [apply Z.mul_nonneg_nonneg|]; lia).
  rewrite Hwhich, <- shiftl_mul, Z.lor_spec, Z.land_spec, Z.lnot_spec, !Z.shiftl_spec by lia.
  destruct (Z.leb_spec k n); simpl.
  - rewrite Z.testbit_ones by done. destruct (Z.leb_spec 0 (n - k)); [|lia]. simpl.
    destruct (Z.ltb_spec (n - k) w), (Z.ltb_spec n (k + w)); try lia; simpl.
    + by rewrite andb_false_r.
    + by rewrite (testbit_high v w), andb_true_r, orb_false_r by lia.
  - rewrite !(Z.testbit_neg_r _ (n - k)) by lia. simpl. by rewrite andb_true_r, orb_false_r.
Qed.
End mask.

(** ** Bytes and memory *)

Lemma length_to_bytes n v : length (to_bytes n v) = n.
Proof. revert v. induction n as [|n IH]; intros v; simpl; [done|]. by rewrite IH. Qed.

Lemma of_to_bytes n v : of_bytes (to_bytes n v) = v mod 2 ^ (8 * Z.of_nat n).
Proof.
  revert v. induction n as [|n IH]; intros v; [by rewrite Z.mod_1_r|].
  cbn [to_bytes of_bytes]. rewrite IH.
  replace (8 * Z.of_nat (S n)) with (8 + 8 * Z.of_nat n) by lia.
  rewrite Z.pow_add_r, (Z.rem_mul_r v) by lia. done.
Qed.

Lemma of_bytes_range l : Forall is_byte l -> 0 <= of_bytes l < 2 ^ (8 * lenz l).
Proof.
  induction 1 as [|b l Hb Hl IH]; [done|]. rewrite lenz_cons, Z.mul_add_distr_l, Z.pow_add_r by
    (pose proof (lenz_nonneg l); lia).
  cbn [of_bytes]. unfold is_byte in Hb. lia.
Qed.

Lemma of_bytes_zeros l n : of_bytes (l ++ replicate n 0) = of_bytes l.
Proof.
  induction l as [|b l IH]; simpl; [|by rewrite IH]. induction n as [|n IH]; simpl; [done|]. by rewrite IH.
Qed.

Lemma u64_add_l a b : u64 (u64 a + b) = u64 (a + b).
Proof. apply Zplus_mod_idemp_l. Qed.

(** [bs] are the bytes at [a]; addresses wrap around. *)
Definition bytes_at (m : gmap Z Z) (a : Z) (bs : list Z) : Prop :=
  forall i, 0 <= i < lenz bs -> m !! u64 (a + i) = Some (bs !z i).

Lemma bytes_at_cons m a b bs :
  is_uint 64 a -> bytes_at m a (b :: bs) <-> m !! a = Some b /\ bytes_at m (u64 (a + 1)) bs.
Proof.
  intros Ha. unfold bytes_at. rewrite lenz_cons. pose proof (lenz_nonneg bs). split.
  - intros Hm. split.
    + specialize (Hm 0). rewrite Z.add_0_r, (u64_small a) in Hm by done. by rewrite Hm by lia.
    + intros i Hi. rewrite u64_add_l. specialize (Hm (i + 1) ltac:(lia)). rewrite nthz_cons in Hm by lia.
      destruct (Z.eqb_spec (i + 1) 0); [lia|].
      replace (i + 1 - 1) with i in Hm by lia. rewrite <- Hm. do 2 f_equal. lia.
  - intros [Hb Hbs] i Hi. rewrite nthz_cons by lia. destruct (Z.eqb_spec i 0) as [->|].
    + by rewrite Z.add_0_r, u64_small.
    + rewrite <- Hbs by lia. rewrite u64_add_l. do 2 f_equal. lia.
Qed.

Lemma mem_read_Some m a n bs :
  is_uint 64 a -> mem_read m a n = Some bs <-> length bs = n /\ bytes_at m a bs.
Proof.
  revert a bs. induction n as [|n IH]; intros a bs Ha; simpl.
  - split; [|intros [Hl _]; by destruct bs]. intros [= <-]. split; [done|].
    intros i Hi. change (0 <= i < 0) in Hi. lia.
  - assert (is_uint 64 (u64 (a + 1))) as Ha1 by apply u64_range. split.
    + intros Hr. apply bind_Some in Hr as (b & Hb & Hr). apply bind_Some in Hr as (l & Hl & [= <-]).
      apply IH in Hl as [Hn Hl]; [|done]. simpl. split; [lia|]. by apply bytes_at_cons.
    + intros [Hn Hbs]. destruct bs as [|b l]; [done|]. apply bytes_at_cons in Hbs as [Hb Hl]; [|done].
      rewrite Hb. simpl. assert (mem_read m (u64 (a + 1)) n = Some l) as ->; [|done].
      apply IH; [done|]. split; [simpl in Hn; lia|done].
Qed.

(** The instruction at [pc], where the interrupted program may read it. *)
Definition insn_at (s : hart) (pc insn : Z) : Prop :=
  pc mod 4 = 0 /\ exists bs, length bs = 4%nat /\ bytes_at (mem s) pc bs /\ insn = of_bytes bs.

Lemma insn_at_range s pc insn : wf_hart s -> insn_at s pc insn -> is_uint 32 insn.
Proof.
  intros Hs (_ & bs & Hl & Hbs & ->).
  assert (Forall is_byte bs) as Hb.
  { apply Forall_nthz_iff. intros i Hi. eapply (wf_mem s Hs). by apply Hbs. }
  pose proof (of_bytes_range bs Hb) as H. unfold lenz in H. by rewrite Hl in H.
Qed.

Lemma get_insn_bind {A} s pc insn (f : Z * Z -> T A) :
  is_uint 64 pc -> insn_at s pc insn -> (get_insn pc ≫= f) s = f (insn, csrs s MSTATUS) s.
Proof.
  intros Hpc (Hal & bs & Hl & Hbs & ->).
  unfold get_insn, load_bytes, read_csr, asks, mbind, T_bind, mret, T_ret.
  change (Z.of_nat 4) with 4. rewrite Hal. simpl negb. cbv iota.
  assert (mem_read (mem s) pc 4 = Some bs) as -> by by apply mem_read_Some.
  done.
Qed.

Lemma wf_store s a b : wf_hart s -> is_uint 64 a -> is_byte b -> wf_hart (with_mem (<[a := b]> (mem s)) s).
Proof.
  intros [] Ha Hb. split; try done. simpl. intros a' b' H.
  apply lookup_insert_Some in H as [[<- <-]|[_ H]]; eauto.
Qed.

Lemma wf_mem_write bs s a :
  wf_hart s -> is_uint 64 a -> Forall is_byte bs -> wf_hart (with_mem (mem_write (mem s) a bs) s).
Proof.
  intros Hs Ha Hb. revert s a Hs Ha. induction Hb as [|b bs Hb Hbs IH]; intros s a Hs Ha; [by destruct s|].
  cbn [mem_write]. pose proof (IH (with_mem (<[a := b]> (mem s)) s) (u64 (a + 1))) as H.
  simpl in H. apply H; [by apply wf_store|apply u64_range].
Qed.

Lemma to_bytes_byte n v : Forall is_byte (to_bytes n v).
Proof.
  revert v. induction n as [|n IH]; intros v; cbn [to_bytes]; constructor; [|done].
  by apply Z.mod_pos_bound.
Qed.

(** ** Faults of the monitor's own accesses *)

(** The state at a page fault that the monitor meets at [addr]. *)
Definition page_faulted (cause addr epc : Z) (s : hart) : hart :=
  let ms := csrs s MSTATUS in
  handed_over epc ms
    (set_csr_to SBADADDR addr (set_csr_to MSTATUS (ms ||| MSTATUS_MPRV)
      (set_csr_to MBADADDR addr (set_csr_to MCAUSE cause s)))).

Lemma MPRV_set ms : ((ms ||| MSTATUS_MPRV) &&& MSTATUS_MPRV =? 0) = false.
Proof.
  apply Z.eqb_neq. intros H. apply (f_equal (fun z => Z.testbit z 17)) in H.
  by rewrite Z.land_spec, Z.lor_spec, orb_true_r in H.
Qed.

Lemma access_fault_run {A} s cause addr epc :
  wf_hart s -> is_uint 64 addr -> cause = CAUSE_FAULT_LOAD \/ cause = CAUSE_FAULT_STORE ->
  access_fault (A := A) cause addr epc (csrs s MSTATUS) s = Redirect (page_faulted cause addr epc s).
Proof.
  intros Hs Ha Hc. pose proof (wf_csrs s Hs MSTATUS) as Hms.
  assert (is_uint 64 (csrs s MSTATUS ||| MSTATUS_MPRV)) as Hm1
    by (apply is_uint_lor; [lia|done|unfold is_uint, MSTATUS_MPRV; lia]).
  unfold access_fault, trap_from_machine_mode, machine_page_fault, write_csr, read_csr, update, asks, mbind, T_bind.
  fold (set_csr_to MCAUSE cause s). set (s1 := set_csr_to MCAUSE cause s).
  fold (set_csr_to MBADADDR addr s1). set (s2 := set_csr_to MBADADDR addr s1).
  fold (set_csr_to MSTATUS (csrs s MSTATUS ||| MSTATUS_MPRV) s2). set (s3 := set_csr_to MSTATUS _ s2).
  assert (csrs s3 MCAUSE = cause) as ->.
  { unfold s3, s2, s1. rewrite !set_csr_to_ne by done. apply set_csr_to_eq.
    destruct Hc as [-> | ->]; unfold is_uint, CAUSE_FAULT_LOAD, CAUSE_FAULT_STORE; lia. }
  assert ((cause =? CAUSE_FAULT_LOAD) || (cause =? CAUSE_FAULT_STORE) = true) as -> by by destruct Hc; subst.
  assert (csrs s3 MSTATUS = csrs s MSTATUS ||| MSTATUS_MPRV) as -> by by apply set_csr_to_eq.
  rewrite MPRV_set. cbn [negb]. cbv beta iota.
  assert (csrs s3 MBADADDR = addr) as ->.
  { unfold s3, s2. by rewrite set_csr_to_ne, set_csr_to_eq. }
  fold (set_csr_to SBADADDR addr s3). by rewrite redirect_trap_run.
Qed.

(** The supervisor takes a page fault at the instruction, for the address. *)
Record took_page_fault (s s' : hart) (cause addr epc : Z) : Prop := {
  pf_regs : regs s' = regs s;
  pf_mem : mem s' = mem s;
  pf_sepc : csrs s' SEPC = epc;
  pf_scause : csrs s' SCAUSE = cause;
  pf_sbadaddr : csrs s' SBADADDR = addr;
  pf_pc : csrs s' MEPC = csrs s STVEC;
  pf_mstatus : csrs s' MSTATUS = redirected_mstatus (csrs s MSTATUS);
  pf_wf : wf_hart s'
}.

Lemma page_faulted_took s cause addr epc :
  wf_hart s -> is_uint 64 addr -> is_uint 64 epc -> is_uint 64 cause ->
  took_page_fault s (page_faulted cause addr epc s) cause addr epc.
Proof.
  intros Hs Ha He Hc. unfold page_faulted. cbv zeta. set (ms := csrs s MSTATUS).
  assert (is_uint 64 ms) as Hms by apply (wf_csrs s Hs).
  set (t := set_csr_to SBADADDR addr _).
  assert (wf_hart t) as Ht by by repeat apply wf_set_csr.
  destruct (handed_over_took t epc ms Ht He Hms) as [H1 H2 H3 H4 H5 H6 H7 H8 H9].
  split; try done.
  - rewrite H5. unfold t. by rewrite !set_csr_to_ne, set_csr_to_eq by done.
  - rewrite H8 by set_solver. unfold t. by rewrite set_csr_to_eq.
Qed.

(** ** Emulated floating-point registers *)

Definition set_freg (i v : Z) (s : hart) : hart := set_reg (32 + i) v s.
Definition fs_dirty (s : hart) : hart := set_csr_to MSTATUS (csrs s MSTATUS ||| MSTATUS_FS) s.

(** A single-precision result replaces the low half of the register. *)
Definition low_half (old v : Z) : Z := old / 2 ^ 32 * 2 ^ 32 + u32 v.

Lemma fp_slot insn pos : 3 <= pos -> ((insn >>> (pos - 3)) &&& 0xf8) / 8 = (insn / 2 ^ pos) mod 2 ^ 5.
Proof. apply GET_REG_field. Qed.

Section fp_fields.
Context (s : hart) (insn : Z) (Hs : wf_hart s).

Lemma GET_F64_REG_bind {A} pos (f : Z -> T A) :
  3 <= pos -> (GET_F64_REG insn pos ≫= f) s = f (freg s ((insn / 2 ^ pos) mod 2 ^ 5)) s.
Proof.
  intros. unfold GET_F64_REG. rewrite fp_slot by done. pose proof (field_range insn pos 5).
  by rewrite get_reg_bind by (done || lia).
Qed.

Lemma GET_F32_REG_bind {A} pos (f : Z -> T A) :
  3 <= pos -> (GET_F32_REG insn pos ≫= f) s = f (s32 (freg s ((insn / 2 ^ pos) mod 2 ^ 5))) s.
Proof.
  intros H. unfold GET_F32_REG. pose proof (GET_F64_REG_bind pos (fun v => mret (s32 v)) H) as E.
  unfold mbind at 1, T_bind at 1. by rewrite E.
Qed.

Lemma SET_FS_DIRTY_done t : SET_FS_DIRTY t = Done tt (fs_dirty t).
Proof. done. Qed.

Lemma SET_F64_RD_done v : SET_F64_RD insn v s = Done tt (fs_dirty (set_freg (rd insn) v s)).
Proof.
  unfold SET_F64_RD, SET_F64_REG. rewrite fp_slot by lia. pose proof (field_range insn 7 5).
  unfold mbind, T_bind. by rewrite put_reg_done by (done || lia).
Qed.

Lemma SET_F32_RD_done v :
  SET_F32_RD insn v s = Done tt (fs_dirty (set_freg (rd insn) (low_half (freg s (rd insn)) v) s)).
Proof.
  unfold SET_F32_RD, SET_F32_REG. unfold mbind at 1, T_bind at 1. rewrite GET_F64_REG_bind by lia.
  unfold SET_F64_REG. rewrite fp_slot by lia. pose proof (field_range insn 7 5).
  rewrite put_reg_done by (done || lia). rewrite SET_FS_DIRTY_done. unfold set_freg, low_half.
  rewrite shiftr_div, lor_disjoint_add by (lia || apply u32_range). done.
Qed.

Lemma wf_set_freg i v : 0 <= i < 32 -> wf_hart (set_freg i v s).
Proof. intros. apply wf_set_reg; [done|lia]. Qed.

Lemma wf_fs_dirty : wf_hart (fs_dirty s).
Proof. by apply wf_set_csr. Qed.
End fp_fields.

#[export] Hint Resolve wf_set_reg wf_set_csr wf_with_tp wf_set_freg wf_fs_dirty rd_range rs1_range rs2_range : hart.

(** ** A concrete hart

    An instruction at 0x1000, bytes 1, 2, ... from 0x2001 on, and register [i]
    holding [f i]. *)

Definition demo_csrs : csr -> Z := fun c =>
  match c with
  | MCAUSE => 2 | MSTATUS => 0x2880 | MBADADDR => 0x2001 | STVEC => 0x100 | MEPC => 0x1000 | MCYCLE => 7 | _ => 0
  end.

Definition demo_mem (insn : Z) : gmap Z Z :=
  mem_write (mem_write ∅ 0x1000 (to_bytes 4 insn)) 0x2001 [1; 2; 3; 4; 5; 6; 0x87; 0x88].

Definition demo_hart (insn : Z) (f : nat -> Z) : hart :=
  MkHart (f <$> seq 0 64) 0x21 demo_csrs 100 (MkHls 0 0 0 0 0 1 2 3 4 5) (demo_mem insn) (fun a => negb (a =? 0x2005)).

Lemma demo_wf insn f : (forall n, is_uint 64 (f n)) -> wf_hart (demo_hart insn f).
Proof.
  intros Hf. split.
  - done.
  - intros i Hi. unfold demo_hart, regs. set (l := f <$> seq 0 64).
    assert (lenz l = 64) as Hl by done. rewrite <- Hl in Hi. revert i Hi.
    apply Forall_nthz_iff, Forall_fmap, Forall_true. intros. apply Hf.
  - intros []; unfold is_uint; simpl; lia.
  - simpl. unfold demo_mem. intros a b.
    assert (forall m a0 bs, (forall x y, m !! x = Some y -> is_uint 64 x /\ is_byte y) ->
       is_uint 64 a0 -> Forall is_byte bs ->
       forall x y, mem_write m a0 bs !! x = Some y -> is_uint 64 x /\ is_byte y) as Hw.
    { intros m a0 bs Hm. revert m a0 Hm. induction bs as [|y bs IH]; intros m a0 Hm Ha0 Hbs; [done|].
      inversion_clear Hbs. apply IH; [|apply u64_range|done].
      intros x z Hx. apply lookup_insert_Some in Hx as [[<- <-]|[_ Hx]]; eauto. }
    revert a b. apply Hw; [apply Hw|..]; try (unfold is_uint; lia).
    + intros x y Hx. by rewrite lookup_empty in Hx.
    + apply to_bytes_byte.
    + repeat constructor; unfold is_byte; lia.
Qed.

Lemma bytes_at_of m a bs : is_uint 64 a -> mem_read m a (length bs) = Some bs -> bytes_at m a bs.
Proof. intros Ha H. by apply mem_read_Some in H as [_ H]. Qed.
