(* ===== verification/MulDiv.v ===== *)
(** * Emulation of multiplication and division

    machine/muldiv_emulation.c for RV64, and the theorem that it computes what
    the M extension asks for wherever the arithmetic of C is defined. *)

From S2P Require Import Prelude Machine Isa.

(** ** The code *)

Definition MASK_MULDIV : Z := 0xfe00707f.
Definition MATCH_MUL : Z := 0x2000033.
Definition MATCH_MULH : Z := 0x2001033.
Definition MATCH_MULHSU : Z := 0x2002033.
Definition MATCH_MULHU : Z := 0x2003033.
Definition MATCH_DIV : Z := 0x2004033.
Definition MATCH_DIVU : Z := 0x2005033.
Definition MATCH_REM : Z := 0x2006033.
Definition MATCH_REMU : Z := 0x2007033.
Definition MATCH_MULW : Z := 0x200003b.
Definition MATCH_DIVW : Z := 0x200403b.
Definition MATCH_DIVUW : Z := 0x200503b.
Definition MATCH_REMW : Z := 0x200603b.
Definition MATCH_REMUW : Z := 0x200703b.

(** Arithmetic of C on [w]-bit numbers: a division by zero, and a signed
    quotient or product that has no representation, are undefined. *)
Definition s_fits (w x : Z) : bool := (- 2 ^ (w - 1) <=? x) && (x <? 2 ^ (w - 1)).
Definition c_mul128 (a b : Z) : outcome Z := if s_fits 128 (a * b) then Ret (a * b) else Fault UndefArith.
Definition c_div (w a b : Z) : outcome Z :=
  if b =? 0 then Fault UndefArith
  else if s_fits w (Z.quot a b) then Ret (Z.quot a b) else Fault UndefArith.
Definition c_rem (w a b : Z) : outcome Z :=
  if b =? 0 then Fault UndefArith
  else if s_fits w (Z.quot a b) then Ret (Z.rem a b) else Fault UndefArith.
Definition c_divu (a b : Z) : outcome Z := if b =? 0 then Fault UndefArith else Ret (a / b).
Definition c_remu (a b : Z) : outcome Z := if b =? 0 then Fault UndefArith else Ret (a mod b).

Definition emulate_mul_div (mcause mepc mstatus insn : Z) : T unit :=
  rs1 ← GET_RS1 insn;
  rs2 ← GET_RS2 insn;
  val ← (if (insn &&& MASK_MULDIV) =? MATCH_MUL then mret (u64 (rs1 * rs2))
         else if (insn &&& MASK_MULDIV) =? MATCH_DIV then of_outcome (c_div 64 (s64 rs1) (s64 rs2))
         else if (insn &&& MASK_MULDIV) =? MATCH_DIVU then of_outcome (c_divu rs1 rs2)
         else if (insn &&& MASK_MULDIV) =? MATCH_REM then of_outcome (c_rem 64 (s64 rs1) (s64 rs2))
         else if (insn &&& MASK_MULDIV) =? MATCH_REMU then of_outcome (c_remu rs1 rs2)
         else if (insn &&& MASK_MULDIV) =? MATCH_MULH then
           p ← of_outcome (c_mul128 (s64 rs1) (s64 rs2)); mret (p >>> 64)
         else if (insn &&& MASK_MULDIV) =? MATCH_MULHU then
           p ← of_outcome (c_mul128 rs1 rs2); mret (p >>> 64)
         else if (insn &&& MASK_MULDIV) =? MATCH_MULHSU then
           p ← of_outcome (c_mul128 (s64 rs1) rs2); mret (p >>> 64)
         else truly_illegal_insn mcause mepc mstatus insn);
  SET_RD insn val.

Definition emulate_mul_div32 (mcause mepc mstatus insn : Z) : T unit :=
  rs1 ← GET_RS1 insn;
  rs2 ← GET_RS2 insn;
  let rs1 := u32 rs1 in
  let rs2 := u32 rs2 in
  val ← (if (insn &&& MASK_MULDIV) =? MATCH_MULW then mret (u32 (rs1 * rs2))
         else if (insn &&& MASK_MULDIV) =? MATCH_DIVW then of_outcome (c_div 32 (s32 rs1) (s32 rs2))
         else if (insn &&& MASK_MULDIV) =? MATCH_DIVUW then of_outcome (c_divu rs1 rs2)
         else if (insn &&& MASK_MULDIV) =? MATCH_REMW then of_outcome (c_rem 32 (s32 rs1) (s32 rs2))
         else if (insn &&& MASK_MULDIV) =? MATCH_REMUW then of_outcome (c_remu rs1 rs2)
         else truly_illegal_insn mcause mepc mstatus insn);
  SET_RD insn (s32 val).

(** ** The M extension *)

Inductive m_op : Type := MUL | MULH | MULHSU | MULHU | DIV | DIVU | REM | REMU.

(** The operation that funct3 selects. *)
Definition m_op_of (f3 : Z) : option m_op :=
  [MUL; MULH; MULHSU; MULHU; DIV; DIVU; REM; REMU] !! Z.to_nat f3.

(** The instruction-set manual on [w]-bit registers, given as their unsigned
    values.  Division by zero gives all ones and leaves the dividend as the
    remainder; the one quotient that overflows wraps around. *)
Definition overflows (w sx sy : Z) : bool := (sx =? - 2 ^ (w - 1)) && (sy =? -1).

Definition m_value (w : Z) (op : m_op) (x y : Z) : Z :=
  let sx := swrap w x in
  let sy := swrap w y in
  match op with
  | MUL => (x * y) mod 2 ^ w
  | MULH => (sx * sy / 2 ^ w) mod 2 ^ w
  | MULHSU => (sx * y / 2 ^ w) mod 2 ^ w
  | MULHU => x * y / 2 ^ w
  | DIV => if y =? 0 then 2 ^ w - 1 else if overflows w sx sy then x else Z.quot sx sy mod 2 ^ w
  | DIVU => if y =? 0 then 2 ^ w - 1 else x / y
  | REM => if y =? 0 then x else if overflows w sx sy then 0 else Z.rem sx sy mod 2 ^ w
  | REMU => if y =? 0 then x else x mod y
  end.

(** The operands on which the C program's arithmetic is defined: the high half
    of an unsigned product is taken from a signed number of twice the width. *)
Definition c_defined (w : Z) (op : m_op) (x y : Z) : bool :=
  match op with
  | MUL | MULH | MULHSU => true
  | MULHU => x * y <? 2 ^ (2 * w - 1)
  | DIV | REM => negb (y =? 0) && negb (overflows w (swrap w x) (swrap w y))
  | DIVU | REMU => negb (y =? 0)
  end.

Lemma swrap_eq0 w x : 0 < w -> is_uint w x -> (swrap w x =? 0) = (x =? 0).
Proof.
  intros Hw [H0 H1]. unfold swrap. cbv zeta. rewrite Z.mod_small by lia.
  pose proof (pow2_pos (w - 1) ltac:(lia)). destruct (Z.ltb_spec x (2 ^ (w - 1))); [done|].
  destruct (Z.eqb_spec (x - 2 ^ w) 0), (Z.eqb_spec x 0); lia.
Qed.

(** A signed quotient has a representation unless it is the one that
    overflows. *)
Lemma quot_fits w a b :
  0 < w -> - 2 ^ (w - 1) <= a < 2 ^ (w - 1) -> b <> 0 ->
  s_fits w (Z.quot a b) = negb (overflows w a b).
Proof.
  intros Hw Ha Hb. unfold s_fits, overflows. set (P := 2 ^ (w - 1)) in *.
  assert (Hq : Z.abs (Z.quot a b) <= Z.abs a).
  { rewrite <- Z.quot_abs by done. apply Z.quot_le_upper_bound; nia. }
  destruct (Z.eqb_spec a (- P)) as [->|], (Z.eqb_spec b (-1)) as [->|]; simpl.
  - change (-1) with (Z.opp 1). rewrite Z.quot_opp_opp, Z.quot_1_r by lia.
    destruct (Z.ltb_spec P P); [lia|]. apply andb_false_r.
  - assert (Z.quot (- P) b <> P).
    { intros E. pose proof (Z.quot_rem' (- P) b) as E1. pose proof (Z.rem_bound_abs (- P) b Hb).
      pose proof (Z.rem_nonpos (- P) b Hb ltac:(lia)). rewrite E in E1.
      destruct (decide (0 < b)); nia. }
    destruct (Z.leb_spec (- P) (Z.quot (- P) b)), (Z.ltb_spec (Z.quot (- P) b) P); simpl; lia.
  - destruct (Z.leb_spec (- P) (Z.quot a (-1))), (Z.ltb_spec (Z.quot a (-1)) P); simpl; lia.
  - destruct (Z.leb_spec (- P) (Z.quot a b)), (Z.ltb_spec (Z.quot a b) P); simpl; lia.
Qed.

Section values.
Context (w x y : Z) (Hw : 0 < w) (Hx : is_uint w x) (Hy : is_uint w y).

Lemma signed_defined :
  s_fits w (Z.quot (swrap w x) (swrap w y)) && negb (y =? 0)
  = negb (y =? 0) && negb (overflows w (swrap w x) (swrap w y)).
Proof.
  rewrite andb_comm. destruct (Z.eqb_spec y 0) as [|Hy0]; simpl; [done|].
  apply quot_fits; [done|by apply swrap_range|].
  apply Z.eqb_neq. rewrite swrap_eq0 by done. by apply Z.eqb_neq.
Qed.

Lemma c_div_spec :
  c_div w (swrap w x) (swrap w y)
  = if c_defined w DIV x y then Ret (Z.quot (swrap w x) (swrap w y)) else Fault UndefArith.
Proof.
  unfold c_div, c_defined. rewrite <- signed_defined, swrap_eq0 by done.
  destruct (y =? 0), (s_fits _ _); done.
Qed.

Lemma c_rem_spec :
  c_rem w (swrap w x) (swrap w y)
  = if c_defined w REM x y then Ret (Z.rem (swrap w x) (swrap w y)) else Fault UndefArith.
Proof.
  unfold c_rem, c_defined. rewrite <- signed_defined, swrap_eq0 by done.
  destruct (y =? 0), (s_fits _ _); done.
Qed.

(** Where the program is defined, the manual's cases are the ordinary ones. *)
Lemma m_value_div :
  c_defined w DIV x y = true -> m_value w DIV x y = Z.quot (swrap w x) (swrap w y) mod 2 ^ w.
Proof. unfold c_defined, m_value. cbv zeta. by destruct (y =? 0), (overflows _ _ _). Qed.
Lemma m_value_rem :
  c_defined w REM x y = true -> m_value w REM x y = Z.rem (swrap w x) (swrap w y) mod 2 ^ w.
Proof. unfold c_defined, m_value. cbv zeta. by destruct (y =? 0), (overflows _ _ _). Qed.
End values.

Lemma c_mul128_signed x y :
  - 2 ^ 63 <= x < 2 ^ 63 -> - 2 ^ 64 < y < 2 ^ 64 -> c_mul128 x y = Ret (x * y).
Proof.
  intros Hx Hy. unfold c_mul128, s_fits.
  assert (Z.abs (x * y) <= 2 ^ 63 * (2 ^ 64 - 1)) by (rewrite Z.abs_mul; apply Z.mul_le_mono_nonneg; lia).
  destruct (Z.leb_spec (- 2 ^ (128 - 1)) (x * y)), (Z.ltb_spec (x * y) (2 ^ (128 - 1))); done || lia.
Qed.

Lemma c_mul128_unsigned x y :
  is_uint 64 x -> is_uint 64 y ->
  c_mul128 x y = if c_defined 64 MULHU x y then Ret (x * y) else Fault UndefArith.
Proof.
  intros [Hx _] [Hy _]. unfold c_mul128, s_fits, c_defined. pose proof (Z.mul_nonneg_nonneg x y Hx Hy).
  by destruct (Z.leb_spec (- 2 ^ (128 - 1)) (x * y)); [|lia].
Qed.

Lemma set_reg_mod i v s : set_reg i (v mod 2 ^ 64) s = set_reg i v s.
Proof. unfold set_reg, u64. by rewrite Z.mod_mod. Qed.

Lemma set_reg_swrap i v s : set_reg i (swrap 64 v) s = set_reg i v s.
Proof. unfold set_reg, u64. by rewrite swrap_mod. Qed.

Lemma m_op_of_inv f3 op :
  0 <= f3 < 8 -> m_op_of f3 = Some op ->
  f3 = match op with MUL => 0 | MULH => 1 | MULHSU => 2 | MULHU => 3 | DIV => 4 | DIVU => 5 | REM => 6 | REMU => 7 end.
Proof.
  intros Hf. unfold m_op_of.
  assert (f3 = 0 \/ f3 = 1 \/ f3 = 2 \/ f3 = 3 \/ f3 = 4 \/ f3 = 5 \/ f3 = 6 \/ f3 = 7) as Hc by lia.
  destruct_or! Hc; subst; by intros [= <-].
Qed.

(** The instructions of the 32-bit group. *)
Definition has_word_form (op : m_op) : bool :=
  match op with MULH | MULHSU | MULHU => false | _ => true end.

Lemma emulate_mul_div_64 s insn mc me ms op :
  wf_hart s -> is_uint 32 insn -> opcode insn = 0x33 -> funct7 insn = 1 -> m_op_of (funct3 insn) = Some op ->
  let x := reg s (rs1 insn) in
  let y := reg s (rs2 insn) in
  emulate_mul_div mc me ms insn s =
    if c_defined 64 op x y then Done tt (set_reg (rd insn) (m_value 64 op x y) s) else Stop UndefArith.
Proof.
  intros Hs Hi Hop Hf7 Hf3 x y. apply m_op_of_inv in Hf3; [|apply funct3_range].
  unfold emulate_mul_div, MASK_MULDIV. rewrite GET_RS1_bind, GET_RS2_bind, mask_funct7 by done.
  rewrite Hop, Hf7, Hf3. fold x y.
  assert (is_uint 64 x) by (apply reg_range, rs1_range; done).
  assert (is_uint 64 y) by (apply reg_range, rs2_range; done).
  pose proof (swrap_range 64 x ltac:(lia)). pose proof (swrap_range 64 y ltac:(lia)).
  unfold s64.
  destruct op; zbool; unfold T_bind, T_ret, of_outcome, mbind, mret;
    rewrite ?(c_div_spec 64), ?(c_rem_spec 64), ?c_mul128_signed, ?c_mul128_unsigned
      by (done || unfold is_uint in *; lia).
  all: rewrite ?SET_RD_done by done.
  - done.
  - rewrite shiftr_div by lia. by rewrite <- set_reg_mod.
  - rewrite shiftr_div by lia. by rewrite <- set_reg_mod.
  - destruct (c_defined 64 MULHU x y); [|done]. by rewrite SET_RD_done, shiftr_div by (done || lia).
  - destruct (c_defined 64 DIV x y) eqn:E; [|done]. by rewrite SET_RD_done, m_value_div, set_reg_mod by done.
  - unfold c_divu, c_defined, m_value. destruct (y =? 0); [done|]. by rewrite SET_RD_done.
  - destruct (c_defined 64 REM x y) eqn:E; [|done]. by rewrite SET_RD_done, m_value_rem, set_reg_mod by done.
  - unfold c_remu, c_defined, m_value. destruct (y =? 0); [done|]. by rewrite SET_RD_done.
Qed.

Lemma emulate_mul_div_word s insn mc me ms op :
  wf_hart s -> is_uint 32 insn -> opcode insn = 0x3b -> funct7 insn = 1 -> m_op_of (funct3 insn) = Some op ->
  has_word_form op = true ->
  let x := u32 (reg s (rs1 insn)) in
  let y := u32 (reg s (rs2 insn)) in
  emulate_mul_div32 mc me ms insn s =
    if c_defined 32 op x y then Done tt (set_reg (rd insn) (s32 (m_value 32 op x y)) s) else Stop UndefArith.
Proof.
  intros Hs Hi Hop Hf7 Hf3 Hw x y. apply m_op_of_inv in Hf3; [|apply funct3_range].
  unfold emulate_mul_div32, MASK_MULDIV. rewrite GET_RS1_bind, GET_RS2_bind, mask_funct7 by done.
  rewrite Hop, Hf7, Hf3. fold x y.
  assert (is_uint 32 x) by apply u32_range. assert (is_uint 32 y) by apply u32_range.
  unfold s32.
  destruct op; try discriminate; zbool; unfold T_bind, T_ret, of_outcome, mbind, mret;
    rewrite ?(c_div_spec 32), ?(c_rem_spec 32) by done.
  - by rewrite SET_RD_done.
  - destruct (c_defined 32 DIV x y) eqn:E; [|done]. by rewrite SET_RD_done, m_value_div, swrap_mod_eq by done.
  - unfold c_divu, c_defined, m_value. destruct (y =? 0); [done|]. by rewrite SET_RD_done.
  - destruct (c_defined 32 REM x y) eqn:E; [|done]. by rewrite SET_RD_done, m_value_rem, swrap_mod_eq by done.
  - unfold c_remu, c_defined, m_value. destruct (y =? 0); [done|]. by rewrite SET_RD_done.
Qed.

(** What does not encode an instruction of the extension. *)
Lemma emulate_mul_div_illegal s insn mc me ms :
  wf_hart s -> is_uint 32 insn ->
  (opcode insn = 0x33 -> funct7 insn <> 1 ->
   emulate_mul_div mc me ms insn s = redirect_trap me ms s) /\
  (opcode insn = 0x3b -> funct7 insn <> 1 \/ 1 <= funct3 insn <= 3 ->
   emulate_mul_div32 mc me ms insn s = redirect_trap me ms s).
Proof.
  intros Hs Hi.
  pose proof (funct3_range insn). pose proof (funct7_range insn).
  split; intros Hop Hf; unfold emulate_mul_div, emulate_mul_div32, MASK_MULDIV;
    rewrite GET_RS1_bind, GET_RS2_bind, mask_funct7, Hop by done;
    cbv delta [MATCH_MUL MATCH_MULH MATCH_MULHSU MATCH_MULHU MATCH_DIV MATCH_DIVU MATCH_REM MATCH_REMU
      MATCH_MULW MATCH_DIVW MATCH_DIVUW MATCH_REMW MATCH_REMUW];
    repeat match goal with
      | |- context [?a =? ?b] =>
          let E := fresh in assert (E : (a =? b) = false) by (apply Z.eqb_neq; lia); rewrite E; clear E
      end; done.
Qed.
