(* ===== verification/Misaligned.v ===== *)
(** * Misaligned loads and stores: machine/misaligned_ldst.c *)

From S2P Require Import Prelude Machine Isa.

Definition MASK_LDST : Z := 0x707f.
Definition MATCH_LH : Z := 0x1003.
Definition MATCH_LW : Z := 0x2003.
Definition MATCH_LD : Z := 0x3003.
Definition MATCH_LHU : Z := 0x5003.
Definition MATCH_LWU : Z := 0x6003.
Definition MATCH_SH : Z := 0x1023.
Definition MATCH_SW : Z := 0x2023.
Definition MATCH_SD : Z := 0x3023.
Definition MATCH_FLW : Z := 0x2007.
Definition MATCH_FLD : Z := 0x3007.
Definition MATCH_FSW : Z := 0x2027.
Definition MATCH_FSD : Z := 0x3027.

(** [for (intptr_t i = len-1; i >= 0; i--) val.bytes[i] = load_uint8_t(addr + i, mepc)] *)
Fixpoint load_loop (i : nat) (addr mepc : Z) (bytes : list Z) : T (list Z) :=
  match i with
  | O => mret bytes
  | S i =>
      b ← load_uint8_t (u64 (addr + Z.of_nat i)) mepc;
      bytes ← of_outcome (put bytes (Z.of_nat i) b);
      load_loop i addr mepc bytes
  end.

(** The length, the shift that extends the sign, and whether a floating-point
    register is the target. *)
Definition load_kind (insn : Z) : option (Z * Z * bool) :=
  if (insn &&& MASK_LDST) =? MATCH_LW then Some (4, 32, false)
  else if (insn &&& MASK_LDST) =? MATCH_LD then Some (8, 0, false)
  else if (insn &&& MASK_LDST) =? MATCH_LWU then Some (4, 0, false)
  else if (insn &&& MASK_LDST) =? MATCH_FLD then Some (8, 0, true)
  else if (insn &&& MASK_LDST) =? MATCH_FLW then Some (4, 0, true)
  else if (insn &&& MASK_LDST) =? MATCH_LH then Some (2, 48, false)
  else if (insn &&& MASK_LDST) =? MATCH_LHU then Some (2, 0, false)
  else None.

Definition misaligned_load_trap (mcause mepc : Z) : T unit :=
  '(insn, mstatus) ← get_insn mepc;
  addr ← read_csr MBADADDR;
  match load_kind insn with
  | None => truly_illegal_insn mcause mepc mstatus insn
  | Some (len, shift, fp) =>
      bytes ← load_loop (Z.to_nat len) addr mepc (zeros 8);
      let val := of_bytes bytes in
      (if negb fp then SET_RD insn (s64 (s64 val <<< shift) >>> shift)
       else if len =? 8 then SET_F64_RD insn val
       else SET_F32_RD insn val);;
      write_csr MEPC (mepc + 4)
  end.

(** [for (int i = 0; i < len; i++) store_uint8_t(addr + i, val.bytes[i], mepc)] *)
Fixpoint store_loop (n : nat) (i addr mepc : Z) (bytes : list Z) : T unit :=
  match n with
  | O => mret tt
  | S n =>
      b ← of_outcome (get bytes i);
      store_uint8_t (u64 (addr + i)) b mepc;;
      store_loop n (i + 1) addr mepc bytes
  end.

Definition misaligned_store_trap (mcause mepc : Z) : T unit :=
  '(insn, mstatus) ← get_insn mepc;
  v ← GET_RS2 insn;
  '(len, v) ← (if (insn &&& MASK_LDST) =? MATCH_SW then mret (4, v)
              else if (insn &&& MASK_LDST) =? MATCH_SD then mret (8, v)
              else if (insn &&& MASK_LDST) =? MATCH_FSD then v ← GET_F64_RS2 insn; mret (8, v)
              else if (insn &&& MASK_LDST) =? MATCH_FSW then v ← GET_F32_RS2 insn; mret (4, u64 v)
              else if (insn &&& MASK_LDST) =? MATCH_SH then mret (2, v)
              else truly_illegal_insn mcause mepc mstatus insn);
  addr ← read_csr MBADADDR;
  store_loop (Z.to_nat len) 0 addr mepc (to_bytes 8 v);;
  write_csr MEPC (mepc + 4).
