(* ===== verification/TrapSpec.v ===== *)
(** * What the trap handlers do

    Handing a trap to the supervisor, and misaligned loads and stores. *)

From S2P Require Import Prelude Machine Isa Misaligned.

(** ** redirect_trap *)

(** What the supervisor must find in mstatus, by bits: its previous mode (8)
    and previous interrupt enable (5) are those of the trap (11, 7); the
    monitor returns to the supervisor (11 and 12 hold 1) with interrupts off
    (7). *)
Definition supervisor_bit (ms n : Z) : bool :=
  if n =? 8 then Z.testbit ms 11
  else if n =? 5 then Z.testbit ms 7
  else if n =? 11 then true
  else if n =? 12 then false
  else if n =? 7 then false
  else Z.testbit ms n.

Lemma MPP_range ms : Z.testbit ms 12 = false -> EXTRACT_FIELD ms MSTATUS_MPP = Z.b2z (Z.testbit ms 11).
Proof.
  intros H12. rewrite (EXTRACT_FIELD_eq _ 11 2) by done. apply Z.bits_inj'. intros n Hn.
  destruct (decide (n < 2)).
  - rewrite Z.mod_pow2_bits_low, Z.div_pow2_bits by lia.
    destruct (decide (n = 0)) as [->|]; [by rewrite Z.b2z_bit0|]. replace n with 1 by lia.
    change (1 + 11) with 12. rewrite H12. by destruct (Z.testbit ms 11).
  - rewrite Z.mod_pow2_bits_high by lia. symmetry. apply (testbit_high _ 1); [|lia].
    destruct (Z.testbit ms 11); simpl; lia.
Qed.

Lemma MPIE_bit ms : EXTRACT_FIELD ms MSTATUS_MPIE = Z.b2z (Z.testbit ms 7).
Proof. by rewrite (EXTRACT_FIELD_eq _ 7 1), Z.testbit_spec' by done. Qed.

Lemma redirected_bits ms n :
  Z.testbit ms 12 = false -> 0 <= n -> Z.testbit (redirected_mstatus ms) n = supervisor_bit ms n.
Proof.
  intros H12 Hn. unfold redirected_mstatus, supervisor_bit. cbv zeta.
  assert (forall b : bool, is_uint 1 (Z.b2z b)) as Hb by (intros []; unfold is_uint; simpl; lia).
  rewrite (INSERT_FIELD_bits _ 7 1), (INSERT_FIELD_bits _ 11 2), MPP_range, MPIE_bit,
    (INSERT_FIELD_bits _ 5 1), (INSERT_FIELD_bits _ 8 1) by (done || apply Hb || unfold is_uint, PRV_S; lia).
  assert (forall k, (k <=? n) && (n <? k + 1) = (n =? k)) as Hone.
  { intros k. destruct (Z.leb_spec k n), (Z.ltb_spec n (k + 1)), (Z.eqb_spec n k); simpl; lia. }
  rewrite !Hone.
  destruct (Z.eqb_spec n 7) as [->|]; [done|].
  destruct (Z.eqb_spec n 5) as [->|]; [change (Z.testbit (Z.b2z (Z.testbit ms 7)) 0 = Z.testbit ms 7); apply Z.b2z_bit0|].
  destruct (Z.eqb_spec n 8) as [->|]; [change (Z.testbit (Z.b2z (Z.testbit ms 11)) 0 = Z.testbit ms 11); apply Z.b2z_bit0|].
  destruct (Z.leb_spec 11 n), (Z.ltb_spec n (11 + 2)), (Z.eqb_spec n 11), (Z.eqb_spec n 12); subst; done || lia.
Qed.

(** C22: [redirect_trap] gives the supervisor the trap as if it had been
    delegated: its exception registers hold the address and the cause of the
    trap, its fields of mstatus the mode (user or supervisor) and the interrupt
    enable of the trap, the monitor will return to the supervisor's trap vector
    with interrupts off, and nothing else changes. *)
Theorem redirect_trap_correct s epc ms :
  wf_hart s -> is_uint 64 epc -> is_uint 64 ms -> Z.testbit ms 12 = false ->
  exists s', redirect_trap (A := unit) epc ms s = Redirect s' /\
    regs s' = regs s /\ mem s' = mem s /\ hls s' = hls s /\ wf_hart s' /\
    csrs s' SEPC = epc /\ csrs s' SCAUSE = csrs s MCAUSE /\ csrs s' MEPC = csrs s STVEC /\
    (forall n, 0 <= n -> Z.testbit (csrs s' MSTATUS) n = supervisor_bit ms n) /\
    (forall c, c <> SEPC -> c <> SCAUSE -> c <> MEPC -> c <> MSTATUS -> csrs s' c = csrs s c).
Proof.
  intros Hs He Hm H12. eexists. split; [apply redirect_trap_run|].
  destruct (handed_over_took s epc ms Hs He Hm) as [? ? ? ? ? ? Hms Ho ?].
  split_and!; try done.
  - intros n Hn. rewrite Hms. by apply redirected_bits.
  - intros c ????. apply Ho. set_solver.
Qed.

(** ** Misaligned loads *)

(** The loads of the manual: bytes, whether the value is sign-extended, whether
    it goes to a floating-point register. *)
Definition load_of (insn : Z) : option (Z * bool * bool) :=
  if opcode insn =? 0x03 then
    match funct3 insn with
    | 1 => Some (2, true, false)
    | 2 => Some (4, true, false)
    | 3 => Some (8, true, false)
    | 5 => Some (2, false, false)
    | 6 => Some (4, false, false)
    | _ => None
    end
  else if opcode insn =? 0x07 then
    match funct3 insn with 2 => Some (4, false, true) | 3 => Some (8, false, true) | _ => None end
  else None.

Definition shift_of (len : Z) (sext : bool) : Z := if sext then 8 * (8 - len) else 0.

Lemma funct3_cases insn :
  funct3 insn = 0 \/ funct3 insn = 1 \/ funct3 insn = 2 \/ funct3 insn = 3 \/
  funct3 insn = 4 \/ funct3 insn = 5 \/ funct3 insn = 6 \/ funct3 insn = 7.
Proof. pose proof (funct3_range insn). lia. Qed.

Lemma load_kind_of insn :
  load_kind insn = ('(len, sext, fp) ← load_of insn; Some (len, shift_of len sext, fp)).
Proof.
  unfold load_kind, load_of, MASK_LDST, shift_of. rewrite mask_funct3. pose proof (opcode_range insn).
  unfold MATCH_LW, MATCH_LD, MATCH_LWU, MATCH_FLD, MATCH_FLW, MATCH_LH, MATCH_LHU.
  destruct (funct3_cases insn) as [E|E]; repeat destruct E as [E|E]; rewrite E; clear E;
    (destruct (decide (opcode insn = 0x03)) as [E|?]; [by rewrite E|]);
    (destruct (decide (opcode insn = 0x07)) as [E|?]; [by rewrite E|]);
    repeat match goal with |- context [?a =? ?b] => rewrite (proj2 (Z.eqb_neq a b)) by lia end; done.
Qed.

(** The loop reads downwards from the last byte. *)
Lemma load_uint8_bind {A} s a epc (f : Z -> T A) :
  wf_hart s -> is_uint 64 a ->
  (load_uint8_t a epc ≫= f) s =
    match mem s !! a with
    | Some b => f b s
    | None => Redirect (page_faulted CAUSE_FAULT_LOAD a epc s)
    end.
Proof.
  intros Hs Ha. unfold load_uint8_t, load_bytes, read_csr, asks, mbind, T_bind.
  change (Z.of_nat 1) with 1. rewrite Z.mod_1_r. cbn [negb Z.eqb mem_read].
  destruct (mem s !! a) as [b|]; cbn.
  - unfold mret, T_ret. cbn. by rewrite Z.add_0_r.
  - rewrite access_fault_run by (done || by left). done.
Qed.

Lemma load_loop_ok n s a epc bs bytes :
  wf_hart s -> length bs = n -> (n <= length bytes)%nat -> bytes_at (mem s) a bs ->
  load_loop n a epc bytes s = Done (bs ++ drop n bytes) s.
Proof.
  intros Hs. revert bs bytes. induction n as [|n IH]; intros bs bytes Hn Hl Hbs; cbn [load_loop].
  { by destruct bs. }
  destruct (exists_last (l := bs)) as (bs' & b & ->); [by destruct bs|].
  rewrite length_app in Hn. simpl in Hn.
  assert (lenz bs' = Z.of_nat n) as Hn' by (unfold lenz; lia).
  rewrite load_uint8_bind by (done || apply u64_range).
  rewrite (Hbs (Z.of_nat n)) by (rewrite lenz_app, Hn'; change (lenz [b]) with 1; lia).
  rewrite nthz_app, Hn', Z.ltb_irrefl, Z.sub_diag by lia. change ([b] !z 0) with b.
  unfold of_outcome, mbind, T_bind. rewrite put_insert, Nat2Z.id by (unfold lenz; lia).
  rewrite (IH bs') by
    (rewrite ?length_insert; try lia; intros i Hi; rewrite (Hbs i) by (rewrite lenz_app; pose proof (lenz_nonneg [b]); lia);
     rewrite nthz_app by lia; by rewrite (proj2 (Z.ltb_lt i (lenz bs'))) by lia).
  f_equal. rewrite <- app_assoc. f_equal. simpl.
  by rewrite (drop_S _ b n), drop_insert_lt by (lia || apply list_lookup_insert_eq; lia).
Qed.

Lemma load_loop_fault n s a epc bytes j :
  wf_hart s -> (n <= length bytes)%nat -> 0 <= j < Z.of_nat n -> mem s !! u64 (a + j) = None ->
  (forall k, j < k < Z.of_nat n -> is_Some (mem s !! u64 (a + k))) ->
  load_loop n a epc bytes s = Redirect (page_faulted CAUSE_FAULT_LOAD (u64 (a + j)) epc s).
Proof.
  intros Hs. revert bytes. induction n as [|n IH]; intros bytes Hl Hj Hnone Hsome; [lia|]. cbn [load_loop].
  rewrite load_uint8_bind by (done || apply u64_range).
  destruct (decide (j = Z.of_nat n)) as [->|]; [by rewrite Hnone|].
  destruct (Hsome (Z.of_nat n)) as [b Hb]; [lia|]. rewrite Hb.
  unfold of_outcome, mbind, T_bind. rewrite put_insert by (unfold lenz; lia).
  apply IH; [by rewrite length_insert; lia|lia|done|]. intros k Hk. apply Hsome. lia.
Qed.

(** The register gets the value, extended to its width. *)
Definition loaded (insn len : Z) (sext fp : bool) (v : Z) (s : hart) : hart :=
  if fp then
    fs_dirty (set_freg (rd insn) (if len =? 8 then v else low_half (freg s (rd insn)) v) s)
  else set_reg (rd insn) (if sext then swrap (8 * len) v else v) s.

Lemma sign_extend len v :
  len = 2 \/ len = 4 \/ len = 8 -> 0 <= v < 2 ^ (8 * len) ->
  u64 (s64 (s64 v <<< shift_of len true) >>> shift_of len true) = u64 (swrap (8 * len) v).
Proof.
  intros Hlen Hv. unfold shift_of. rewrite shiftl_mul, shiftr_div by lia.
  destruct Hlen as [->|[->| ->]]; unfold_ints; cbv zeta; simpl in Hv |- *;
    rewrite (Z.mod_small v) by lia; repeat case_match; zdm.
Qed.

Lemma unsigned_extend v : 0 <= v < 2 ^ 64 -> u64 (s64 (s64 v <<< 0) >>> 0) = u64 v.
Proof. intros Hv. rewrite Z.shiftl_0_r, Z.shiftr_0_r. unfold_ints. cbv zeta. repeat case_match; zdm. Qed.

Lemma load_of_len insn len sext fp :
  load_of insn = Some (len, sext, fp) -> (len = 2 \/ len = 4 \/ len = 8) /\ (fp = true -> len <> 2 /\ sext = false).
Proof.
  unfold load_of. destruct (funct3_cases insn) as [E|E]; repeat destruct E as [E|E]; rewrite E;
    repeat case_match; intros [=]; subst; split; lia || (intros; split; congruence || lia) .
Qed.

Lemma load_target s insn len sext fp v :
  wf_hart s -> len = 2 \/ len = 4 \/ len = 8 -> (fp = true -> len <> 2 /\ sext = false) -> 0 <= v < 2 ^ (8 * len) ->
  (if negb fp then SET_RD insn (s64 (s64 v <<< shift_of len sext) >>> shift_of len sext)
   else if len =? 8 then SET_F64_RD insn v else SET_F32_RD insn v) s
  = Done tt (loaded insn len sext fp v s).
Proof.
  intros Hs Hlen Hfp Hv. unfold loaded. destruct fp; cbn [negb].
  - destruct (len =? 8); [by rewrite SET_F64_RD_done|by rewrite SET_F32_RD_done].
  - rewrite SET_RD_done by done. f_equal. unfold set_reg. do 2 f_equal. destruct sext.
    + by apply sign_extend.
    + apply unsigned_extend. destruct Hlen as [->|[->| ->]]; lia.
Qed.

(** C23: a misaligned load is emulated: the register gets the little-endian value
    of the bytes at the address, extended as the instruction asks, and the
    program goes on after it; when some of the bytes may not be read, the
    supervisor gets a page fault of the instruction, for the last such byte,
    and no register has changed.  Loads of other kinds are handed over as they
    came. *)
Theorem misaligned_load_correct s mcause pc insn :
  wf_hart s -> is_uint 64 pc -> insn_at s pc insn ->
  let a := csrs s MBADADDR in
  match load_of insn with
  | Some (len, sext, fp) =>
      (forall bs, lenz bs = len -> bytes_at (mem s) a bs ->
        misaligned_load_trap mcause pc s
        = Done tt (set_csr_to MEPC (pc + 4) (loaded insn len sext fp (of_bytes bs) s))) /\
      (forall j, 0 <= j < len -> mem s !! u64 (a + j) = None ->
        (forall k, j < k < len -> is_Some (mem s !! u64 (a + k))) ->
        exists s', misaligned_load_trap mcause pc s = Redirect s' /\
          took_page_fault s s' CAUSE_FAULT_LOAD (u64 (a + j)) pc)
  | None => misaligned_load_trap mcause pc s = redirect_trap pc (csrs s MSTATUS) s
  end.
Proof.
  intros Hs Hpc Hin a. unfold misaligned_load_trap. rewrite (get_insn_bind s pc insn) by done.
  cbv beta iota. rewrite read_csr_bind. fold a. rewrite load_kind_of.
  destruct (load_of insn) as [[[len sext] fp]|] eqn:Hl; cbn [mbind option_bind]; [|done].
  apply load_of_len in Hl as [Hlen Hfp].
  assert (length (zeros 8) = 8%nat) as Hz by done. split.
  - intros bs Hbl Hbs. 
    erewrite run_Done by (apply (load_loop_ok _ _ _ _ bs); done || unfold lenz in Hbl; lia).
    assert (Forall is_byte bs) as Hb.
    { apply Forall_nthz_iff. intros i Hi. eapply (wf_mem s Hs). by apply Hbs. }
    pose proof (of_bytes_range bs Hb) as Hr. rewrite Hbl in Hr.
    replace (of_bytes (bs ++ drop (Z.to_nat len) (zeros 8))) with (of_bytes bs)
      by (unfold zeros; by rewrite drop_replicate, of_bytes_zeros).
    by erewrite run_Done by (apply load_target; done).
  - intros j Hj Hnone Hsome. eexists. split.
    + apply run_Redirect. apply (load_loop_fault _ _ _ _ _ j); try done; rewrite ?Hz, ?Z2Nat.id by lia; lia || done.
    + apply page_faulted_took; try done. apply u64_range.
Qed.

(** ** Misaligned stores *)

(** The bytes a store writes, and whether they come from a floating-point
    register. *)
Definition store_of (insn : Z) : option (Z * bool) :=
  if opcode insn =? 0x23 then
    match funct3 insn with 1 => Some (2, false) | 2 => Some (4, false) | 3 => Some (8, false) | _ => None end
  else if opcode insn =? 0x27 then
    match funct3 insn with 2 => Some (4, true) | 3 => Some (8, true) | _ => None end
  else None.

Definition writable (s : hart) (a : Z) : Prop := is_Some (mem s !! a) /\ may_write s a = true.

Definition stored_value (insn : Z) (fp : bool) (s : hart) : Z :=
  if fp then freg s (rs2 insn) else reg s (rs2 insn).

Lemma writable_insert s a b a' : writable s a' -> writable (with_mem (<[a := b]> (mem s)) s) a'.
Proof.
  intros [Hm Hw]. split; [|done]. simpl. destruct (decide (a = a')) as [->|].
  - rewrite lookup_insert_eq. eauto.
  - by rewrite lookup_insert_ne.
Qed.

Lemma store_uint8_ok s a b epc :
  is_uint 64 a -> is_byte b -> writable s a ->
  store_uint8_t a b epc s = Done tt (with_mem (<[a := b]> (mem s)) s).
Proof.
  intros Ha Hb [Hm Hw]. unfold store_uint8_t, store_bytes, mbind, T_bind, read_csr, asks, update.
  change (Z.of_nat 1) with 1. rewrite Z.mod_1_r. cbn [negb Z.eqb can_write to_bytes mem_write id].
  rewrite bool_decide_eq_true_2, Hw by done. cbn. by rewrite (Z.mod_small b) by done.
Qed.

Lemma store_uint8_fault s a b epc :
  wf_hart s -> is_uint 64 a -> ~ writable s a ->
  store_uint8_t a b epc s = Redirect (page_faulted CAUSE_FAULT_STORE a epc s).
Proof.
  intros Hs Ha Hw. unfold store_uint8_t, store_bytes, mbind, T_bind, read_csr, asks, update.
  change (Z.of_nat 1) with 1. rewrite Z.mod_1_r. cbn [negb Z.eqb can_write to_bytes mem_write id].
  destruct (bool_decide_reflect (is_Some (mem s !! a))), (may_write s a) eqn:E;
    try (by destruct Hw); cbn; by rewrite access_fault_run by (done || by right).
Qed.

(** The stores of the loop, upwards from byte [i]. *)
Lemma store_loop_ok n i s a epc bytes :
  wf_hart s -> Forall is_byte bytes -> 0 <= i -> i + Z.of_nat n <= lenz bytes ->
  (forall k, i <= k < i + Z.of_nat n -> writable s (u64 (a + k))) ->
  store_loop n i a epc bytes s
  = Done tt (with_mem (mem_write (mem s) (u64 (a + i)) (take n (drop (Z.to_nat i) bytes))) s).
Proof.
  intros Hs Hb. revert i s Hs. induction n as [|n IH]; intros i s Hs Hi Hn Hw.
  { cbn [store_loop]. rewrite take_0. by destruct s. }
  cbn [store_loop]. unfold of_outcome, mbind, T_bind. rewrite get_ok by lia.
  assert (is_byte (bytes !z i)) as Hbi by (apply Forall_nthz_iff; [done|lia]).
  rewrite store_uint8_ok by (done || apply u64_range || (apply Hw; lia)).
  assert (wf_hart (with_mem (<[u64 (a + i) := bytes !z i]> (mem s)) s)) as Hs'
    by (apply wf_store; [done|apply u64_range|done]).
  rewrite (IH (i + 1)); [|done|lia|lia|intros k Hk; apply writable_insert, Hw; lia].
  rewrite (drop_S bytes (bytes !z i) (Z.to_nat i)) by (apply nthz_lookup; lia).
  cbn [take mem_write]. rewrite u64_add_l. replace (a + i + 1) with (a + (i + 1)) by lia.
  by replace (Z.to_nat (i + 1)) with (S (Z.to_nat i)) by lia.
Qed.

Lemma store_loop_fault n i j s a epc bytes :
  wf_hart s -> Forall is_byte bytes -> 0 <= i -> i + Z.of_nat n <= lenz bytes ->
  i <= j < i + Z.of_nat n -> ~ writable s (u64 (a + j)) ->
  (forall k, i <= k < j -> writable s (u64 (a + k))) ->
  (forall k, i <= k < j -> u64 (a + k) <> u64 (a + j)) ->
  store_loop n i a epc bytes s
  = Redirect (page_faulted CAUSE_FAULT_STORE (u64 (a + j)) epc
      (with_mem (mem_write (mem s) (u64 (a + i)) (take (Z.to_nat (j - i)) (drop (Z.to_nat i) bytes))) s)).
Proof.
  intros Hs Hb. revert i s Hs. induction n as [|n IH]; intros i s Hs Hi Hn Hj Hno Hw Hne; [lia|].
  cbn [store_loop]. unfold of_outcome, mbind, T_bind. rewrite get_ok by lia.
  destruct (decide (i = j)) as [<-|].
  { rewrite store_uint8_fault by (done || apply u64_range). rewrite Z.sub_diag. by destruct s. }
  assert (is_byte (bytes !z i)) as Hbi by (apply Forall_nthz_iff; [done|lia]).
  rewrite store_uint8_ok by (done || apply u64_range || (apply Hw; lia)).
  assert (wf_hart (with_mem (<[u64 (a + i) := bytes !z i]> (mem s)) s)) as Hs'
    by (apply wf_store; [done|apply u64_range|done]).
  rewrite (IH (i + 1)); [|done|lia|lia|lia| | |].
  - rewrite (drop_S bytes (bytes !z i) (Z.to_nat i)) by (apply nthz_lookup; lia).
    replace (Z.to_nat (j - i)) with (S (Z.to_nat (j - (i + 1)))) by lia.
    cbn [take mem_write]. rewrite u64_add_l. replace (a + i + 1) with (a + (i + 1)) by lia.
    by replace (Z.to_nat (i + 1)) with (S (Z.to_nat i)) by lia.
  - intros [Hm Hmw]. apply Hno. split; [|done]. simpl in Hm.
    by rewrite lookup_insert_ne in Hm by (apply Hne; lia).
  - intros k Hk. apply writable_insert, Hw. lia.
  - intros k Hk. apply Hne. lia.
Qed.

Lemma to_bytes_mod n v w : v mod 2 ^ (8 * Z.of_nat n) = w mod 2 ^ (8 * Z.of_nat n) -> to_bytes n v = to_bytes n w.
Proof.
  revert v w. induction n as [|n IH]; intros v w H; [done|]. cbn [to_bytes].
  replace (8 * Z.of_nat (S n)) with (8 + 8 * Z.of_nat n) in H by lia.
  rewrite Z.pow_add_r, !Z.rem_mul_r in H by lia.
  pose proof (Z.mod_pos_bound v 256). pose proof (Z.mod_pos_bound w 256).
  assert (v mod 256 = w mod 256 /\ (v / 256) mod 2 ^ (8 * Z.of_nat n) = (w / 256) mod 2 ^ (8 * Z.of_nat n))
    as [E1 E2] by (change (2 ^ 8) with 256 in H; lia).
  f_equal; [done|]. by apply IH.
Qed.

Lemma take_to_bytes n m v : (n <= m)%nat -> take n (to_bytes m v) = to_bytes n v.
Proof.
  revert m v. induction n as [|n IH]; intros m v H; [by rewrite take_0|].
  destruct m as [|m]; [lia|]. cbn [to_bytes take]. by rewrite IH by lia.
Qed.

Lemma u64_add_inj a j k : Z.abs (j - k) < 2 ^ 64 -> j <> k -> u64 (a + j) <> u64 (a + k).
Proof. unfold u64. zdm. Qed.

(** The length and the value that the code chooses. *)
Definition store_choice (insn v mcause mepc mstatus : Z) : T (Z * Z) :=
  if (insn &&& MASK_LDST) =? MATCH_SW then mret (4, v)
  else if (insn &&& MASK_LDST) =? MATCH_SD then mret (8, v)
  else if (insn &&& MASK_LDST) =? MATCH_FSD then v ← GET_F64_RS2 insn; mret (8, v)
  else if (insn &&& MASK_LDST) =? MATCH_FSW then v ← GET_F32_RS2 insn; mret (4, u64 v)
  else if (insn &&& MASK_LDST) =? MATCH_SH then mret (2, v)
  else truly_illegal_insn mcause mepc mstatus insn.

Lemma store_choice_run s insn mc me ms :
  wf_hart s ->
  store_choice insn (reg s (rs2 insn)) mc me ms s =
  match store_of insn with
  | Some (len, fp) =>
      Done (len, if fp && (len =? 4) then u64 (s32 (stored_value insn fp s)) else stored_value insn fp s) s
  | None => redirect_trap me ms s
  end.
Proof.
  intros Hs. unfold store_choice, store_of, MASK_LDST. rewrite mask_funct3. pose proof (opcode_range insn).
  unfold MATCH_SW, MATCH_SD, MATCH_FSD, MATCH_FSW, MATCH_SH.
  destruct (funct3_cases insn) as [E|E]; repeat destruct E as [E|E]; rewrite E; clear E;
    (destruct (decide (opcode insn = 0x23)) as [E|?]; [by rewrite E|]);
    (destruct (decide (opcode insn = 0x27)) as [E|?]; [rewrite E|]);
    repeat match goal with |- context [?a =? ?b] => rewrite (proj2 (Z.eqb_neq a b)) by lia end; try done.
  - zbool. unfold GET_F32_RS2. by rewrite GET_F32_REG_bind.
  - zbool. unfold GET_F64_RS2. by rewrite GET_F64_REG_bind.
Qed.

Lemma store_of_len insn len fp : store_of insn = Some (len, fp) -> len = 2 \/ len = 4 \/ len = 8.
Proof.
  unfold store_of. destruct (funct3_cases insn) as [E|E]; repeat destruct E as [E|E]; rewrite E;
    repeat case_match; intros [=]; subst; lia.
Qed.

(** C24: a misaligned store is emulated: the bytes at the address become those of
    the register, lowest first, and the program goes on after it; when some of
    the bytes may not be written, the supervisor gets a page fault of the
    instruction for the first such byte, and only the bytes before it have
    changed.  Stores of other kinds are handed over as they came. *)
Theorem misaligned_store_correct s mcause pc insn :
  wf_hart s -> is_uint 64 pc -> insn_at s pc insn ->
  let a := csrs s MBADADDR in
  match store_of insn with
  | Some (len, fp) =>
      let bs := to_bytes (Z.to_nat len) (stored_value insn fp s) in
      ((forall k, 0 <= k < len -> writable s (u64 (a + k))) ->
        misaligned_store_trap mcause pc s
        = Done tt (set_csr_to MEPC (pc + 4) (with_mem (mem_write (mem s) a bs) s))) /\
      (forall j, 0 <= j < len -> ~ writable s (u64 (a + j)) ->
        (forall k, 0 <= k < j -> writable s (u64 (a + k))) ->
        exists s', misaligned_store_trap mcause pc s = Redirect s' /\
          took_page_fault (with_mem (mem_write (mem s) a (take (Z.to_nat j) bs)) s) s'
            CAUSE_FAULT_STORE (u64 (a + j)) pc)
  | None => misaligned_store_trap mcause pc s = redirect_trap pc (csrs s MSTATUS) s
  end.
Proof.
  intros Hs Hpc Hin a. unfold misaligned_store_trap. rewrite (get_insn_bind s pc insn) by done.
  cbv beta iota. rewrite GET_RS2_bind by done.
  fold (store_choice insn (reg s (rs2 insn)) mcause pc (csrs s MSTATUS)).
  pose proof (store_choice_run s insn mcause pc (csrs s MSTATUS) Hs) as Hc.
  destruct (store_of insn) as [[len fp]|] eqn:Hl;
    [|erewrite run_Redirect by (rewrite Hc; apply redirect_trap_run); by rewrite redirect_trap_run].
  apply store_of_len in Hl as Hlen. rewrite (run_Done _ _ _ _ _ Hc). cbv beta iota zeta.
  rewrite read_csr_bind. fold a. set (v := if fp && (len =? 4) then _ else _).
  assert (Hu : u64 (a + 0) = a) by (rewrite Z.add_0_r; apply u64_small, (wf_csrs s Hs)).
  assert (Hv : take (Z.to_nat len) (to_bytes 8 v) = to_bytes (Z.to_nat len) (stored_value insn fp s)).
  { rewrite take_to_bytes by lia. apply to_bytes_mod. unfold v.
    destruct fp, (Z.eqb_spec len 4) as [->|]; try done. apply u64_s32_mod. }
  assert (lenz (to_bytes 8 v) = 8) as H8 by by unfold lenz; rewrite length_to_bytes.
  pose proof (to_bytes_byte 8 v) as Hb. split.
  - intros Hw. erewrite run_Done by (apply store_loop_ok; [done..|rewrite H8; lia|intros k Hk; apply Hw; lia]).
    change (drop (Z.to_nat 0) (to_bytes 8 v)) with (to_bytes 8 v). by rewrite Hv, Hu.
  - intros j Hj Hno Hw. eexists. split.
    + apply run_Redirect. apply (store_loop_fault _ 0 j); try done; rewrite ?H8; try lia.
      intros k Hk. apply u64_add_inj; lia.
    + rewrite Z.sub_0_r, Hu. change (drop (Z.to_nat 0) (to_bytes 8 v)) with (to_bytes 8 v).
      rewrite <- Hv, take_take, Nat.min_l by lia.
      apply page_faulted_took; try done; [|apply u64_range].
      apply wf_mem_write; [done|apply (wf_csrs s Hs)|]. by apply Forall_take.
Qed.

(** ** The theorems at a concrete hart *)

Lemma redirect_trap_correct_witness :
  exists s', redirect_trap (A := unit) 0x1000 0x2880 (demo_hart 0 (fun _ => 0)) = Redirect s' /\
    csrs s' SEPC = 0x1000 /\ csrs s' MEPC = 0x100 /\ csrs s' MSTATUS = 0x2920.
Proof.
  destruct (redirect_trap_correct (demo_hart 0 (fun _ => 0)) 0x1000 0x2880) as (s' & Hr & _ & _ & _ & _ & H1 & _ & H2 & _).
  - apply demo_wf. intros. unfold is_uint. lia.
  - unfold is_uint. lia.
  - unfold is_uint. lia.
  - reflexivity.
  - exists s'. split; [exact Hr|]. split; [exact H1|]. split; [exact H2|].
    injection Hr as <-. reflexivity.
Defined.

(** lw x5, 0(x5) and sd x5, 0(x5). *)
Definition demo_lw : Z := 0x0002A283.
Definition demo_sd : Z := 0x0052B023.

Lemma demo_insn_at insn f : is_uint 32 insn -> insn_at (demo_hart insn f) 0x1000 insn.
Proof.
  intros Hi. split; [done|]. exists (to_bytes 4 insn). split; [done|]. split.
  - apply bytes_at_of; [unfold is_uint; lia|]. cbn - [Z.modulo Z.div]. unfold demo_mem. done.
  - rewrite of_to_bytes. symmetry. by apply Z.mod_small.
Qed.

Lemma misaligned_load_correct_witness :
  misaligned_load_trap 4 0x1000 (demo_hart demo_lw (fun _ => 0))
  = Done tt (set_csr_to MEPC 0x1004 (set_reg 5 0x04030201 (demo_hart demo_lw (fun _ => 0)))).
Proof.
  assert (wf_hart (demo_hart demo_lw (fun _ => 0))) as Hs by (apply demo_wf; intros; unfold is_uint; lia).
  assert (is_uint 64 0x1000) as Hpc by (unfold is_uint; lia).
  assert (insn_at (demo_hart demo_lw (fun _ => 0)) 0x1000 demo_lw) as Hi
    by (apply demo_insn_at; unfold is_uint, demo_lw; lia).
  destruct (misaligned_load_correct _ 4 _ _ Hs Hpc Hi) as [Hok _].
  apply (Hok [1; 2; 3; 4]); [reflexivity|].
  apply bytes_at_of; [unfold is_uint; simpl; lia|]. vm_compute. reflexivity.
Defined.

(** The byte at 0x2005 may not be written: the four bytes before it change. *)
Lemma misaligned_store_correct_witness :
  let s := demo_hart demo_sd (fun i => Z.of_nat i) in
  exists s', misaligned_store_trap 6 0x1000 s = Redirect s' /\
    took_page_fault (with_mem (mem_write (mem s) 0x2001 [5; 0; 0; 0]) s) s' CAUSE_FAULT_STORE 0x2005 0x1000.
Proof.
  intros s.
  assert (wf_hart s) as Hs.
  { split; [done|..].
    - apply (wf_regs (demo_hart demo_sd (fun i => if (i <? 64)%nat then Z.of_nat i else 0))), demo_wf.
      intros n. unfold is_uint. destruct (Nat.ltb_spec n 64); lia.
    - apply (wf_csrs (demo_hart demo_sd (fun _ => 0))), demo_wf. intros. unfold is_uint. lia.
    - apply (wf_mem (demo_hart demo_sd (fun _ => 0))), demo_wf. intros. unfold is_uint. lia. }
  assert (is_uint 64 0x1000) as Hpc by (unfold is_uint; lia).
  assert (insn_at s 0x1000 demo_sd) as Hi by (apply demo_insn_at; unfold is_uint, demo_sd; lia).
  destruct (misaligned_store_correct s 6 _ _ Hs Hpc Hi) as [_ Hbad].
  apply (Hbad 4); [lia|by intros [_ Hw]|].
  intros k Hk. assert (k = 0 \/ k = 1 \/ k = 2 \/ k = 3) as Hc by lia.
  destruct_or! Hc; subst k; (split; [|reflexivity]);
    apply (@bool_decide_unpack _ (is_Some_dec _)); vm_compute; reflexivity.
Defined.
