(* ===== verification/FpEmulation.v ===== *)
(** * Emulation of the F and D extensions: machine/fp_emulation.c, fp_ldst.c

    Each emulation function takes the cause, the address, mstatus at the trap
    and the instruction.  The operations are those of the SoftFloat
    library, in SoftFloat.v and SoftFloatArith.v. *)

From S2P Require Import Prelude Machine SoftFloat SoftFloatArith Misaligned.

(** The result of an operation, its flags raised. *)
Definition of_flagged {A} (m : flagged A) : T A :=
  Machine.softfloat_raiseFlags m.2;; mret m.1.

(** A single-precision operand as the library takes it. *)
Definition F32_RS1 (insn : Z) : T Z := v ← GET_F32_RS1 insn; mret (u32 v).
Definition F32_RS2 (insn : Z) : T Z := v ← GET_F32_RS2 insn; mret (u32 v).
Definition F32_RS3 (insn : Z) : T Z := v ← GET_F32_RS3 insn; mret (u32 v).

(** The choice by the precision of the instruction. *)
Definition by_precision {A} (mcause mepc mstatus insn : Z) (single double : T A) : T A :=
  if GET_PRECISION insn =? PRECISION_S then single
  else if GET_PRECISION insn =? PRECISION_D then double
  else truly_illegal_insn mcause mepc mstatus insn.

Section arithmetic.
Context (mcause mepc mstatus insn : Z).
#[local] Notation illegal := (truly_illegal_insn mcause mepc mstatus insn).
#[local] Notation precision := (by_precision mcause mepc mstatus insn).

(** [neg_b] is 0 or INT32_MIN. *)
Definition emulate_any_fadd (neg_b : Z) : T unit :=
  precision
    (rs1 ← F32_RS1 insn; rs2 ← F32_RS2 insn;
     rm ← softfloat_roundingMode;
     v ← of_flagged (f32_add rm rs1 (rs2 ^^^ u32 neg_b));
     SET_F32_RD insn v)
    (rs1 ← GET_F64_RS1 insn; rs2 ← GET_F64_RS2 insn;
     rm ← softfloat_roundingMode;
     v ← of_flagged (f64_add rm rs1 (rs2 ^^^ u64 (neg_b <<< 32)));
     SET_F64_RD insn v).

Definition emulate_fadd : T unit := emulate_any_fadd 0.
Definition emulate_fsub : T unit := emulate_any_fadd (- 2 ^ 31).

Definition emulate_fmul : T unit :=
  precision
    (rs1 ← F32_RS1 insn; rs2 ← F32_RS2 insn;
     rm ← softfloat_roundingMode;
     v ← of_flagged (f32_mul rm rs1 rs2); SET_F32_RD insn v)
    (rs1 ← GET_F64_RS1 insn; rs2 ← GET_F64_RS2 insn;
     rm ← softfloat_roundingMode;
     v ← of_flagged (f64_mul rm rs1 rs2); SET_F64_RD insn v).

Definition emulate_fdiv : T unit :=
  precision
    (rs1 ← F32_RS1 insn; rs2 ← F32_RS2 insn;
     rm ← softfloat_roundingMode;
     v ← of_flagged (f32_div rm rs1 rs2); SET_F32_RD insn v)
    (rs1 ← GET_F64_RS1 insn; rs2 ← GET_F64_RS2 insn;
     rm ← softfloat_roundingMode;
     v ← of_flagged (f64_div rm rs1 rs2); SET_F64_RD insn v).

Definition emulate_fsqrt : T unit :=
  if negb ((insn >>> 20) &&& 0x1f =? 0) then illegal
  else precision
    (rs1 ← F32_RS1 insn;
     rm ← softfloat_roundingMode;
     v ← of_flagged (f32_sqrt rm rs1); SET_F32_RD insn v)
    (rs1 ← GET_F64_RS1 insn;
     rm ← softfloat_roundingMode;
     v ← of_flagged (f64_sqrt rm rs1); SET_F64_RD insn v).
End arithmetic.

(** ** Signs, comparisons and moves *)

(** DO_FSGNJ at width [w]. *)
Definition DO_FSGNJ (w rs1 rs2 rm : Z) : Z :=
  let rs1_sign := rs1 >>> (w - 1) in
  let rs2_sign := rs2 >>> (w - 1) in
  let rs1_sign := rs1_sign &&& (rm >>> 1) in
  let rs1_sign := rs1_sign ^^^ (rm ^^^ rs2_sign) in
  (uwrap w (rs1 <<< 1) >>> 1) ||| uwrap w (rs1_sign <<< (w - 1)).

Section data.
Context (mcause mepc mstatus insn : Z).
#[local] Notation illegal := (truly_illegal_insn mcause mepc mstatus insn).
#[local] Notation precision := (by_precision mcause mepc mstatus insn).

Definition emulate_fsgnj : T unit :=
  let rm := GET_RM insn in
  if 3 <=? rm then illegal
  else precision
    (rs1 ← F32_RS1 insn; rs2 ← F32_RS2 insn; SET_F32_RD insn (DO_FSGNJ 32 rs1 rs2 rm))
    (rs1 ← GET_F64_RS1 insn; rs2 ← GET_F64_RS2 insn; SET_F64_RD insn (DO_FSGNJ 64 rs1 rs2 rm)).

Definition emulate_fmin : T unit :=
  let rm := GET_RM insn in
  if 2 <=? rm then illegal
  else precision
    (rs1 ← F32_RS1 insn; rs2 ← F32_RS2 insn;
     let '(arg1, arg2) := if rm =? 0 then (rs1, rs2) else (rs2, rs1) in
     lt ← of_flagged (f32_lt_quiet arg1 arg2);
     SET_F32_RD insn (if lt || isNaNF32UI rs2 then rs1 else rs2))
    (rs1 ← GET_F64_RS1 insn; rs2 ← GET_F64_RS2 insn;
     let '(arg1, arg2) := if rm =? 0 then (rs1, rs2) else (rs2, rs1) in
     lt ← of_flagged (f64_lt_quiet arg1 arg2);
     SET_F64_RD insn (if lt || isNaNF64UI rs2 then rs1 else rs2)).

Definition emulate_fcmp : T unit :=
  let rm := GET_RM insn in
  if 3 <=? rm then illegal
  else
    (* rm 0 is <=, 1 is <, 2 is == *)
    let compare (eq lt : Z -> Z -> flagged bool) (rs1 rs2 : Z) : T bool :=
      if rm =? 1 then of_flagged (lt rs1 rs2)
      else
        result ← of_flagged (eq rs1 rs2);
        if (rm =? 0) && negb result then of_flagged (lt rs1 rs2) else mret result in
    result ← precision
      (rs1 ← F32_RS1 insn; rs2 ← F32_RS2 insn; compare f32_eq f32_lt rs1 rs2)
      (rs1 ← GET_F64_RS1 insn; rs2 ← GET_F64_RS2 insn; compare f64_eq f64_lt rs1 rs2);
    SET_RD insn (Z.b2z result).

Definition MASK_FMV : Z := 0xfff0707f.
Definition MATCH_FMV_X_S : Z := 0xe0000053.
Definition MATCH_FMV_X_D : Z := 0xe2000053.
Definition MATCH_FMV_S_X : Z := 0xf0000053.
Definition MATCH_FMV_D_X : Z := 0xf2000053.

Definition emulate_fmv_if : T unit :=
  result ← (if (insn &&& MASK_FMV) =? MATCH_FMV_X_S then GET_F32_RS1 insn
            else if (insn &&& MASK_FMV) =? MATCH_FMV_X_D then GET_F64_RS1 insn
            else illegal);
  SET_RD insn result.

Definition emulate_fmv_fi : T unit :=
  rs1 ← GET_RS1 insn;
  if (insn &&& MASK_FMV) =? MATCH_FMV_S_X then SET_F32_RD insn rs1
  else if (insn &&& MASK_FMV) =? MATCH_FMV_D_X then SET_F64_RD insn rs1
  else illegal.

(** ** Conversions *)

Definition emulate_fcvt_ff : T unit :=
  let rs2_num := (insn >>> 20) &&& 0x1f in
  precision
    (if negb (rs2_num =? 1) then illegal
     else rs1 ← GET_F64_RS1 insn;
          rm ← softfloat_roundingMode;
          v ← of_flagged (f64_to_f32 rm rs1); SET_F32_RD insn v)
    (if negb (rs2_num =? 0) then illegal
     else rs1 ← F32_RS1 insn;
          v ← of_flagged (f32_to_f64 rs1); SET_F64_RD insn v).

(** The sign and the magnitude of the integer operand; the negation of the
    smallest [int32_t] is undefined. *)
Definition int_operand (rs2_num uint_val : Z) : T (bool * Z) :=
  match rs2_num with
  | 0 =>
      let negative := s32 uint_val <? 0 in
      if s32 uint_val =? - 2 ^ 31 then stop UndefArith
      else mret (negative, u64 (if negative then - s32 uint_val else s32 uint_val))
  | 1 => mret (false, u32 uint_val)
  | 2 =>
      let negative := s64 uint_val <? 0 in
      mret (negative, if negative then u64 (- uint_val) else uint_val)
  | 3 => mret (false, uint_val)
  | _ => illegal
  end.

Definition emulate_fcvt_fi : T unit :=
  if negb (GET_PRECISION insn =? PRECISION_S) && negb (GET_PRECISION insn =? PRECISION_D) then illegal
  else
    rs1 ← GET_RS1 insn;
    '(negative, uint_val) ← int_operand ((insn >>> 20) &&& 0x1f) rs1;
    rm ← softfloat_roundingMode;
    float64 ← of_flagged (ui64_to_f64 rm uint_val);
    let float64 := if negative : bool then float64 ^^^ 2 ^ 63 else float64 in
    if GET_PRECISION insn =? PRECISION_S
    then v ← of_flagged (f64_to_f32 rm float64); SET_F32_RD insn v
    else SET_F64_RD insn float64.

(** The result, the limit of the magnitude, and the result beyond the limit. *)
Definition fcvt_result (rs2_num : Z) (negative : bool) (uint_val : Z) : Z * Z * Z :=
  match rs2_num with
  | 0 => if negative then (u64 (s32 (- uint_val)), 2 ^ 31, 2 ^ 31)
         else (u64 (s32 uint_val), 2 ^ 31 - 1, 2 ^ 31 - 1)
  | 1 => if negative then (0, 0, 2 ^ 32 - 1) else (u32 uint_val, 2 ^ 32 - 1, 2 ^ 32 - 1)
  | 2 => if negative then (u64 (- uint_val), 2 ^ 63, 2 ^ 63) else (uint_val, 2 ^ 63 - 1, 2 ^ 63 - 1)
  | _ => if negative then (0, 0, 2 ^ 64 - 1) else (uint_val, 2 ^ 64 - 1, 2 ^ 64 - 1)
  end.

Definition emulate_fcvt_if : T unit :=
  let rs2_num := (insn >>> 20) &&& 0x1f in
  if 4 <=? rs2_num then illegal
  else
    float64 ← precision
      (rs1 ← F32_RS1 insn; of_flagged (f32_to_f64 rs1))
      (GET_F64_RS1 insn);
    let negative := s64 float64 <? 0 in
    let float64 := if negative then float64 ^^^ 2 ^ 63 else float64 in
    rm ← softfloat_roundingMode;
    uint_val ← of_flagged (f64_to_ui64 float64 rm true);
    let '(result, limit, limit_result) := fcvt_result rs2_num negative uint_val in
    result ← (if limit <? uint_val
              then Machine.softfloat_raiseFlags softfloat_flag_invalid;; mret limit_result
              else mret result);
    SET_FS_DIRTY;;
    SET_RD insn result.
End data.

(** ** The tables *)

Definition emulation_func : Type := Z -> Z -> Z -> Z -> T unit.

Section tables.

Definition fp_emulation_table : list emulation_func :=
  [ emulate_fadd; emulate_fsub; emulate_fmul; emulate_fdiv;
    emulate_fsgnj; emulate_fmin; truly_illegal_insn; truly_illegal_insn;
    emulate_fcvt_ff; truly_illegal_insn; truly_illegal_insn; emulate_fsqrt;
    truly_illegal_insn; truly_illegal_insn; truly_illegal_insn; truly_illegal_insn;
    truly_illegal_insn; truly_illegal_insn; truly_illegal_insn; truly_illegal_insn;
    emulate_fcmp; truly_illegal_insn; truly_illegal_insn; truly_illegal_insn;
    emulate_fcvt_if; truly_illegal_insn; emulate_fcvt_fi; truly_illegal_insn;
    emulate_fmv_if; truly_illegal_insn; emulate_fmv_fi; truly_illegal_insn ].

(** The entry of a table at a byte offset. *)
Definition table_entry (t : list emulation_func) (offset : Z) : emulation_func :=
  match t !! Z.to_nat (offset / 4) with
  | Some f => f
  | None => fun _ _ _ _ => stop OutOfBounds
  end.

Definition emulate_fp (mcause mepc mstatus insn : Z) : T unit :=
  (* if FPU is disabled, punt back to the OS *)
  if mstatus &&& MSTATUS_FS =? 0 then truly_illegal_insn mcause mepc mstatus insn
  else
    SETUP_STATIC_ROUNDING mcause mepc mstatus insn;;
    table_entry fp_emulation_table ((insn >>> 25) &&& 0x7c) mcause mepc mstatus insn.

Definition emulate_fmadd (mcause mepc mstatus insn : Z) : T unit :=
  if mstatus &&& MSTATUS_FS =? 0 then truly_illegal_insn mcause mepc mstatus insn
  else
    let op := (insn >>> 2) &&& 3 in
    SETUP_STATIC_ROUNDING mcause mepc mstatus insn;;
    by_precision mcause mepc mstatus insn
      (rs1 ← F32_RS1 insn; rs2 ← F32_RS2 insn; rs3 ← F32_RS3 insn;
       rm ← softfloat_roundingMode;
       v ← of_flagged (softfloat_mulAddF32 rm op rs1 rs2 rs3); SET_F32_RD insn v)
      (rs1 ← GET_F64_RS1 insn; rs2 ← GET_F64_RS2 insn; rs3 ← GET_F64_RS3 insn;
       rm ← softfloat_roundingMode;
       v ← of_flagged (softfloat_mulAddF64 rm op rs1 rs2 rs3); SET_F64_RD insn v).
End tables.

(** ** Loads and stores: fp_ldst.c *)

Definition emulate_float_load (mcause mepc mstatus insn : Z) : T unit :=
  rs1 ← GET_RS1 insn;
  let addr := u64 (rs1 + IMM_I insn) in
  if (insn &&& MASK_FUNCT3) =? (MATCH_FLW &&& MASK_FUNCT3) then
    if negb (addr mod 4 =? 0) then misaligned_load_trap mcause mepc
    else v ← load_int32_t addr mepc; SET_F32_RD insn v
  else if (insn &&& MASK_FUNCT3) =? (MATCH_FLD &&& MASK_FUNCT3) then
    if negb (addr mod 8 =? 0) then misaligned_load_trap mcause mepc
    else v ← load_uint64_t addr mepc; SET_F64_RD insn v
  else truly_illegal_insn mcause mepc mstatus insn.

Definition emulate_float_store (mcause mepc mstatus insn : Z) : T unit :=
  rs1 ← GET_RS1 insn;
  let addr := u64 (rs1 + IMM_S insn) in
  if (insn &&& MASK_FUNCT3) =? (MATCH_FSW &&& MASK_FUNCT3) then
    if negb (addr mod 4 =? 0) then misaligned_store_trap mcause mepc
    else v ← GET_F32_RS2 insn; store_uint32_t addr v mepc
  else if (insn &&& MASK_FUNCT3) =? (MATCH_FSD &&& MASK_FUNCT3) then
    if negb (addr mod 8 =? 0) then misaligned_store_trap mcause mepc
    else v ← GET_F64_RS2 insn; store_uint64_t addr v mepc
  else truly_illegal_insn mcause mepc mstatus insn.
