(* ===== verification/Emulation.v ===== *)
(** * Illegal instructions: machine/emulation.c

    The emulated control and status registers, the dispatch of illegal
    instructions to the emulation functions, and the part of mentry.S that
    surrounds a handler. *)

From S2P Require Import Prelude Machine SoftFloat SoftFloatArith MulDiv Misaligned FpEmulation.

Definition CSR_FFLAGS : Z := 0x1.
Definition CSR_FRM : Z := 0x2.
Definition CSR_FCSR : Z := 0x3.
Definition CSR_CYCLE : Z := 0xc00.
Definition CSR_TIME : Z := 0xc01.
Definition CSR_INSTRET : Z := 0xc02.
Definition CSR_SCYCLE : Z := 0xd00.
Definition CSR_STIME : Z := 0xd01.
Definition CSR_SINSTRET : Z := 0xd02.

(** The value, or nothing for [-1]. *)
Definition emulate_read_csr (num mstatus : Z) : T (option Z) :=
  time ← asks mtime;
  h ← asks hls;
  cycle ← read_csr MCYCLE;
  instret ← read_csr MINSTRET;
  if num =? CSR_TIME then mret (Some (u64 (time + utime_delta h)))
  else if num =? CSR_CYCLE then mret (Some (u64 (cycle + ucycle_delta h)))
  else if num =? CSR_INSTRET then mret (Some (u64 (instret + uinstret_delta h)))
  else if num =? CSR_STIME then mret (Some (u64 (time + stime_delta h)))
  else if num =? CSR_SCYCLE then mret (Some (u64 (cycle + scycle_delta h)))
  else if num =? CSR_SINSTRET then mret (Some (u64 (instret + sinstret_delta h)))
  else if num =? CSR_FRM then
    if mstatus &&& MSTATUS_FS =? 0 then mret None else v ← GET_FRM; mret (Some v)
  else if num =? CSR_FFLAGS then
    if mstatus &&& MSTATUS_FS =? 0 then mret None else v ← GET_FFLAGS; mret (Some v)
  else if num =? CSR_FCSR then
    if mstatus &&& MSTATUS_FS =? 0 then mret None else v ← GET_FCSR; mret (Some v)
  else mret None.

(** Whether the register could be written. *)
Definition emulate_write_csr (num value mstatus : Z) : T bool :=
  if num =? CSR_FRM then SET_FRM value;; mret true
  else if num =? CSR_FFLAGS then SET_FFLAGS value;; mret true
  else if num =? CSR_FCSR then SET_FCSR value;; mret true
  else mret false.

Definition emulate_system_opcode (mcause mepc mstatus insn : Z) : T unit :=
  let rs1_num := (insn >>> 15) &&& 0x1f in
  rs1_val ← GET_RS1 insn;
  let csr_num := insn >>> 20 in
  csr_val ← emulate_read_csr csr_num mstatus;
  match csr_val with
  | None => truly_illegal_insn mcause mepc mstatus insn
  | Some csr_val =>
      '(do_write, new_csr_val) ←
        match GET_RM insn with
        | 1 => mret (true, rs1_val)
        | 2 => mret (negb (rs1_num =? 0), csr_val ||| rs1_val)
        | 3 => mret (negb (rs1_num =? 0), csr_val &&& Z.lnot rs1_val)
        | 5 => mret (true, rs1_num)
        | 6 => mret (negb (rs1_num =? 0), csr_val ||| rs1_num)
        | 7 => mret (negb (rs1_num =? 0), csr_val &&& Z.lnot rs1_num)
        | _ => truly_illegal_insn mcause mepc mstatus insn
        end;
      (if do_write : bool then
         ok ← emulate_write_csr csr_num new_csr_val mstatus;
         if ok : bool then mret tt else truly_illegal_insn mcause mepc mstatus insn
       else mret tt);;
      SET_RD insn csr_val
  end.

Section dispatch.

Definition illegal_insn_trap_table : list emulation_func :=
  [ truly_illegal_insn; emulate_float_load; truly_illegal_insn; truly_illegal_insn;
    truly_illegal_insn; truly_illegal_insn; truly_illegal_insn; truly_illegal_insn;
    truly_illegal_insn; emulate_float_store; truly_illegal_insn; truly_illegal_insn;
    emulate_mul_div; truly_illegal_insn; emulate_mul_div32; truly_illegal_insn;
    emulate_fmadd; emulate_fmadd; emulate_fmadd; emulate_fmadd;
    emulate_fp; truly_illegal_insn; truly_illegal_insn; truly_illegal_insn;
    truly_illegal_insn; truly_illegal_insn; truly_illegal_insn; truly_illegal_insn;
    emulate_system_opcode; truly_illegal_insn; truly_illegal_insn; truly_illegal_insn ].

Definition illegal_insn_trap (mcause mepc : Z) : T unit :=
  '(insn, mstatus) ← get_insn mepc;
  if negb (insn &&& 3 =? 3) then truly_illegal_insn mcause mepc mstatus insn
  else
    write_csr MEPC (mepc + 4);;
    table_entry illegal_insn_trap_table (insn &&& 0x7c) mcause mepc mstatus insn.
End dispatch.

(** What mentry.S does around a handler: the emulated fcsr moves from the slot of
    register 0 to tp and back, and the handler finds register 0 clear.  A
    handler that hands the trap over does not come back here. *)
Definition run_handler (handler : Z -> Z -> T unit) : T unit :=
  mcause ← read_csr MCAUSE;
  mepc ← read_csr MEPC;
  x0 ← get_reg 0;
  update (with_tp (s32 x0));;
  put_reg 0 0;;
  handler mcause mepc;;
  t ← asks tp;
  x0 ← get_reg 0;
  put_reg 0 ((x0 >>> 32 <<< 32) ||| u32 t).
