(* ===== verification/EmulationSpec.v ===== *)
(** * What the emulation of illegal instructions does

    The dispatch of illegal_insn_trap and, for each group of instructions, the
    state it leaves: what the instruction-set manual asks for, or a trap of the
    supervisor. *)

From S2P Require Import Prelude Machine Isa SoftFloat SoftFloatArith MulDiv Misaligned TrapSpec FpEmulation Emulation.

Section dispatch.

Lemma insn_low_bits insn : insn &&& 3 = opcode insn mod 4.
Proof.
  change 3 with (2 ^ 2 - 1). rewrite land_pow2_mask by lia.
  unfold opcode. change 4 with (2 ^ 2). by rewrite mod_pow2_mod by lia.
Qed.

Lemma table_offset insn : (insn &&& 0x7c) / 4 = opcode insn / 4.
Proof.
  change 0x7c with (Z.ones 5 <<< 2). rewrite land_field by lia. change (2 ^ 2) with 4.
  rewrite Z.div_mul by lia. unfold opcode. change (2 ^ 7) with 128. change (2 ^ 5) with 32. zdm.
Qed.

(** The function that the handler calls for an opcode, with mepc already past
    the instruction. *)
Definition handler_of (insn : Z) : emulation_func :=
  table_entry illegal_insn_trap_table (insn &&& 0x7c).

Lemma illegal_insn_trap_run s mcause pc insn :
  is_uint 64 pc -> insn_at s pc insn ->
  illegal_insn_trap mcause pc s =
  if opcode insn mod 4 =? 3
  then handler_of insn mcause pc (csrs s MSTATUS) insn (set_csr_to MEPC (pc + 4) s)
  else redirect_trap pc (csrs s MSTATUS) s.
Proof.
  intros Hpc Hin. unfold illegal_insn_trap. rewrite (get_insn_bind s pc insn) by done.
  cbv beta iota. rewrite insn_low_bits. by destruct (_ =? 3).
Qed.

Lemma handler_of_opcode insn i f :
  opcode insn / 4 = i -> illegal_insn_trap_table !! Z.to_nat i = Some f -> handler_of insn = f.
Proof. intros Hi Hf. unfold handler_of, table_entry. by rewrite table_offset, Hi, Hf. Qed.
End dispatch.

(** ** Multiplication and division *)

Section mul_div.

(** C25: an instruction of the M extension is emulated: the register gets the
    value that the manual defines, and the program goes on after it.  The C
    program is undefined where it divides by zero, where a quotient overflows,
    and where a product of two unsigned numbers reaches 2^127; it leaves
    everything else of the two opcodes to the supervisor. *)
Theorem mul_div_correct s mcause pc insn :
  wf_hart s -> is_uint 64 pc -> insn_at s pc insn -> opcode insn = 0x33 \/ opcode insn = 0x3b ->
  let w := if opcode insn =? 0x33 then 64 else 32 in
  let x := reg s (rs1 insn) mod 2 ^ w in
  let y := reg s (rs2 insn) mod 2 ^ w in
  let next := set_csr_to MEPC (pc + 4) s in
  illegal_insn_trap mcause pc s =
  match m_op_of (funct3 insn) with
  | Some op =>
      if (funct7 insn =? 1) && ((w =? 64) || has_word_form op)
      then if c_defined w op x y
           then Done tt (set_reg (rd insn) (swrap w (m_value w op x y)) next)
           else Stop UndefArith
      else redirect_trap pc (csrs s MSTATUS) next
  | None => Stop OutOfBounds
  end.
Proof.
  intros Hs Hpc Hin Hop w.
  assert (w = 64 /\ opcode insn = 0x33 \/ w = 32 /\ opcode insn = 0x3b) as Hw
    by (unfold w; destruct Hop as [-> | ->]; auto).
  clearbody w. clear Hop. intros x y next. pose proof (insn_at_range _ _ _ Hs Hin) as Hi.
  rewrite (illegal_insn_trap_run s mcause pc insn) by done.
  assert (wf_hart next) as Hn by by apply wf_set_csr.
  assert (forall i, reg next i = reg s i) as Hreg by done.
  pose proof (emulate_mul_div_illegal next insn mcause pc (csrs s MSTATUS) Hn Hi) as [Hill Hill32].
  pose proof (funct3_range insn) as Hf3.
  destruct (m_op_of (funct3 insn)) as [op|] eqn:Hm.
  2:{ exfalso. unfold m_op_of in Hm. apply lookup_ge_None in Hm. simpl in Hm. lia. }
  apply m_op_of_inv in Hm as Hf; [|done].
  destruct Hw as [[-> Hop]|[-> Hop]]; rewrite Hop; cbv iota; fold next.
  - rewrite (handler_of_opcode insn 12 emulate_mul_div) by (done || by rewrite Hop).
    change (0x33 mod 4 =? 3) with true. change (64 =? 64) with true. simpl orb. rewrite andb_true_r.
    destruct (Z.eqb_spec (funct7 insn) 1) as [H7|H7]; [|by apply Hill].
    rewrite (emulate_mul_div_64 next insn _ _ _ op) by done. rewrite !Hreg.
    assert (x = reg s (rs1 insn)) as -> by (apply Z.mod_small, (reg_range s Hs), rs1_range).
    assert (y = reg s (rs2 insn)) as -> by (apply Z.mod_small, (reg_range s Hs), rs2_range).
    destruct (c_defined _ _ _ _); [|done]. by rewrite set_reg_swrap.
  - rewrite (handler_of_opcode insn 14 emulate_mul_div32) by (done || by rewrite Hop).
    change (0x3b mod 4 =? 3) with true. change (32 =? 64) with false. simpl orb.
    destruct (Z.eqb_spec (funct7 insn) 1) as [H7|H7]; simpl andb; [|apply Hill32; [done|by left]].
    destruct (has_word_form op) eqn:Hw.
    + by rewrite (emulate_mul_div_word next insn _ _ _ op) by done.
    + apply Hill32; [done|right]. destruct op; lia || done.
Qed.
End mul_div.

(** ** Control and status registers *)

(** The registers that user and supervisor programs see: the counters, which
    run from the machine's with an offset, and the parts of fcsr, which exist
    while the floating-point unit is on. *)
Definition fp_csr (num : Z) : bool := (num =? CSR_FFLAGS) || (num =? CSR_FRM) || (num =? CSR_FCSR).

Definition fp_csr_value (num fcsr : Z) : Z :=
  if num =? CSR_FFLAGS then fcsr mod 32 else if num =? CSR_FRM then fcsr / 32 else fcsr.

Definition counter (s : hart) (num : Z) : option Z :=
  if num =? CSR_CYCLE then Some (csrs s MCYCLE + ucycle_delta (hls s))
  else if num =? CSR_TIME then Some (mtime s + utime_delta (hls s))
  else if num =? CSR_INSTRET then Some (csrs s MINSTRET + uinstret_delta (hls s))
  else if num =? CSR_SCYCLE then Some (csrs s MCYCLE + scycle_delta (hls s))
  else if num =? CSR_STIME then Some (mtime s + stime_delta (hls s))
  else if num =? CSR_SINSTRET then Some (csrs s MINSTRET + sinstret_delta (hls s))
  else None.

Definition csr_value (s : hart) (num : Z) : option Z :=
  if fp_csr num then
    if csrs s MSTATUS &&& MSTATUS_FS =? 0 then None else Some (fp_csr_value num (tp s mod 256))
  else u64 <$> counter s num.

(** fcsr after a write to one of its parts. *)
Definition fcsr_written (num v fcsr : Z) : Z :=
  if num =? CSR_FFLAGS then fcsr / 32 * 32 + v mod 32
  else if num =? CSR_FRM then v mod 8 * 32 + fcsr mod 32
  else v mod 256.

Lemma GET_FCSR_run s : GET_FCSR s = Done (tp s mod 256) s.
Proof. unfold GET_FCSR, asks, mbind, T_bind. change 0xFF with (2 ^ 8 - 1). by rewrite land_pow2_mask. Qed.
Lemma GET_FRM_run s : GET_FRM s = Done (tp s mod 256 / 32) s.
Proof. unfold GET_FRM. erewrite run_Done by apply GET_FCSR_run. by rewrite shiftr_div. Qed.
Lemma GET_FFLAGS_run s : GET_FFLAGS s = Done ((tp s mod 256) mod 32) s.
Proof.
  unfold GET_FFLAGS. erewrite run_Done by apply GET_FCSR_run. change 0x1F with (2 ^ 5 - 1).
  by rewrite land_pow2_mask.
Qed.

Lemma fp_csr_cases num :
  fp_csr num = true -> num = CSR_FFLAGS \/ num = CSR_FRM \/ num = CSR_FCSR.
Proof. unfold fp_csr. rewrite !orb_true_iff, !Z.eqb_eq. tauto. Qed.

Lemma emulate_read_csr_run s num :
  emulate_read_csr num (csrs s MSTATUS) s = Done (csr_value s num) s.
Proof.
  unfold emulate_read_csr, csr_value, read_csr, asks, mbind, T_bind. destruct (fp_csr num) eqn:Hfp.
  - destruct (fp_csr_cases num Hfp) as [->|[->| ->]]; cbn - [Z.land GET_FRM GET_FFLAGS GET_FCSR];
      (destruct (_ =? 0); [done|]); rewrite ?GET_FRM_run, ?GET_FFLAGS_run, ?GET_FCSR_run; done.
  - unfold fp_csr in Hfp. rewrite !orb_false_iff in Hfp. destruct Hfp as [[H1 H2] H3].
    unfold counter. cbn - [Z.eqb u64]. rewrite H1, H2, H3.
    destruct (num =? CSR_TIME) eqn:E1; [apply Z.eqb_eq in E1 as ->; done|].
    destruct (num =? CSR_CYCLE); [done|]. destruct (num =? CSR_INSTRET); [done|].
    destruct (num =? CSR_STIME) eqn:E4; [apply Z.eqb_eq in E4 as ->; done|].
    destruct (num =? CSR_SCYCLE); [done|]. by destruct (num =? CSR_SINSTRET).
Qed.

Lemma emulate_write_csr_run s num v ms :
  0 <= v ->
  emulate_write_csr num v ms s =
  if fp_csr num then Done true (with_tp (fcsr_written num v (tp s mod 256)) s) else Done false s.
Proof.
  intros Hv. unfold emulate_write_csr. destruct (fp_csr num) eqn:Hfp.
  - pose proof (Z.mod_pos_bound (tp s) 256 ltac:(lia)) as Ht. set (f := tp s mod 256) in *.
    assert (forall x, x &&& 0xFF = x mod 256) as H255 by (intros x; apply (land_pow2_mask x 8); lia).
    destruct (fp_csr_cases num Hfp) as [->|[->| ->]]; cbn - [Z.land SET_FRM SET_FFLAGS SET_FCSR];
      unfold SET_FRM, SET_FFLAGS, mbind, T_bind; rewrite ?GET_FRM_run, ?GET_FFLAGS_run; fold f;
      unfold SET_FCSR, update; rewrite H255.
    + change 0x1F with (2 ^ 5 - 1). rewrite land_pow2_mask, lor_disjoint_add by (try apply Z.mod_pos_bound; lia).
      do 2 f_equal. unfold fcsr_written. cbn - [Z.div Z.modulo Z.mul Z.add]. zdm.
    + rewrite lor_disjoint_add' by (try apply Z.mod_pos_bound; lia).
      do 2 f_equal. unfold fcsr_written. cbn - [Z.div Z.modulo Z.mul Z.add]. zdm.
    + done.
  - unfold fp_csr in Hfp. rewrite !orb_false_iff in Hfp. destruct Hfp as [[H1 H2] H3]. by rewrite H1, H2, H3.
Qed.

Lemma GET_RM_funct3 insn : GET_RM insn = funct3 insn.
Proof. unfold GET_RM. change 7 with (2 ^ 3 - 1). by rewrite land_pow2_mask, shiftr_div. Qed.

Lemma rs1_num_field insn : (insn >>> 15) &&& 0x1f = rs1 insn.
Proof. change 0x1f with (2 ^ 5 - 1). by rewrite land_pow2_mask, shiftr_div. Qed.

(** The operand of a CSR instruction, the value it writes and whether it writes:
    the set and clear forms with register 0 or immediate 0 do not. *)
Definition csr_source (insn : Z) (s : hart) : Z :=
  if funct3 insn <? 4 then reg s (rs1 insn) else rs1 insn.

Definition csr_new (insn old src : Z) : Z :=
  if funct3 insn mod 4 =? 1 then src
  else if funct3 insn mod 4 =? 2 then old ||| src else old &&& Z.lnot src.

Definition csr_writes (insn : Z) : bool := (funct3 insn mod 4 =? 1) || negb (rs1 insn =? 0).

Lemma csr_value_nonneg s num old : csr_value s num = Some old -> 0 <= old.
Proof.
  unfold csr_value, fp_csr_value. pose proof (Z.mod_pos_bound (tp s) 256 ltac:(lia)).
  destruct (fp_csr num).
  - case_match; [done|]. intros [= <-]. repeat case_match; zdm.
  - destruct (counter s num); intros [= <-]. apply u64_range.
Qed.

Lemma csr_new_nonneg insn old src : 0 <= old -> 0 <= src -> 0 <= csr_new insn old src.
Proof.
  intros Ho Hs. unfold csr_new. repeat case_match; [done|by apply Z.lor_nonneg|].
  apply Z.land_nonneg. by left.
Qed.

Lemma csr_choice {A} insn old s me ms (f : bool * Z -> T A) :
  wf_hart s ->
  ((match GET_RM insn with
    | 1 => mret (true, reg s (rs1 insn))
    | 2 => mret (negb ((insn >>> 15) &&& 0x1f =? 0), old ||| reg s (rs1 insn))
    | 3 => mret (negb ((insn >>> 15) &&& 0x1f =? 0), old &&& Z.lnot (reg s (rs1 insn)))
    | 5 => mret (true, (insn >>> 15) &&& 0x1f)
    | 6 => mret (negb ((insn >>> 15) &&& 0x1f =? 0), old ||| ((insn >>> 15) &&& 0x1f))
    | 7 => mret (negb ((insn >>> 15) &&& 0x1f =? 0), old &&& Z.lnot ((insn >>> 15) &&& 0x1f))
    | _ => redirect_trap me ms
    end ≫= f) s)
  = if funct3 insn mod 4 =? 0 then redirect_trap me ms s
    else f (csr_writes insn, csr_new insn old (csr_source insn s)) s.
Proof.
  intros Hs. rewrite GET_RM_funct3, rs1_num_field. unfold csr_writes, csr_new, csr_source.
  pose proof (funct3_range insn). set (k := funct3 insn) in *. clearbody k.
  assert (k = 0 \/ k = 1 \/ k = 2 \/ k = 3 \/ k = 4 \/ k = 5 \/ k = 6 \/ k = 7) as Hk by lia.
  destruct_or! Hk; subst k; done.
Qed.

Section csr.

(** C26: reads and writes of the counters and of the floating-point control
    register are emulated as the manual defines them: the register gets the old
    value, the parts of fcsr get the new one, and only instructions that would
    write a counter, name another register, or use the floating-point ones
    while the unit is off, are left to the supervisor. *)
Theorem system_opcode_correct s mcause pc insn :
  wf_hart s -> is_uint 64 pc -> insn_at s pc insn -> opcode insn = 0x73 ->
  let next := set_csr_to MEPC (pc + 4) s in
  let num := funct12 insn in
  let illegal := redirect_trap pc (csrs s MSTATUS) next in
  illegal_insn_trap mcause pc s =
  match csr_value s num with
  | None => illegal
  | Some old =>
      if funct3 insn mod 4 =? 0 then illegal
      else if csr_writes insn then
        if fp_csr num then
          let new := csr_new insn old (csr_source insn s) in
          Done tt (set_reg (rd insn) old (with_tp (fcsr_written num new (tp s mod 256)) next))
        else illegal
      else Done tt (set_reg (rd insn) old next)
  end.
Proof.
  intros Hs Hpc Hin Hop next num illegal. pose proof (insn_at_range _ _ _ Hs Hin) as Hi.
  rewrite (illegal_insn_trap_run s mcause pc insn) by done. rewrite Hop.
  rewrite (handler_of_opcode insn 28 emulate_system_opcode) by (done || by rewrite Hop).
  change (0x73 mod 4 =? 3) with true. cbv iota. fold next.
  assert (wf_hart next) as Hn by by apply wf_set_csr.
  unfold emulate_system_opcode. cbv zeta. rewrite GET_RS1_bind by done.
  assert (insn >>> 20 = num) as ->.
  { unfold num, funct12. rewrite shiftr_div by lia. symmetry. apply Z.mod_small. unfold is_uint in Hi. zdm. }
  change (csrs s MSTATUS) with (csrs next MSTATUS).
  erewrite run_Done by apply emulate_read_csr_run.
  change (csr_value next num) with (csr_value s num).
  destruct (csr_value s num) as [old|] eqn:Ho; [|done].
  unfold truly_illegal_insn. rewrite csr_choice by done.
  destruct (funct3 insn mod 4 =? 0); [done|].
  change (csr_source insn next) with (csr_source insn s).
  destruct (csr_writes insn); [|unfold mbind, T_bind, mret, T_ret; by rewrite SET_RD_done].
  unfold mbind, T_bind. rewrite emulate_write_csr_run.
  - destruct (fp_csr num); [|done]. cbn. by rewrite SET_RD_done by by apply wf_with_tp.
  - apply csr_new_nonneg; [by eapply csr_value_nonneg|]. unfold csr_source.
    pose proof (reg_range s Hs (rs1 insn) (rs1_range insn)) as [? _]. pose proof (rs1_range insn).
    case_match; lia.
Qed.
End csr.

(** ** The theorems at concrete instructions *)

(** mulh x5, x6, x7 and csrrw x5, frm, x6. *)
Definition demo_mulh : Z := 0x027312B3.
Definition demo_frm : Z := 0x002312F3.
Definition demo_regs (n : nat) : Z := match n with 6%nat => 2 ^ 64 - 2 | 7%nat => 2 ^ 63 | _ => 0 end.

Lemma demo_regs_uint n : is_uint 64 (demo_regs n).
Proof. unfold is_uint. do 8 (destruct n as [|n]; [simpl; lia|]). simpl. lia. Qed.

Lemma mul_div_correct_witness :
  let s := demo_hart demo_mulh demo_regs in
  illegal_insn_trap 2 0x1000 s = Done tt (set_reg 5 1 (set_csr_to MEPC 0x1004 s)).
Proof.
  intros s. rewrite (mul_div_correct s 2 0x1000 demo_mulh).
  - vm_compute. reflexivity.
  - apply demo_wf, demo_regs_uint.
  - unfold is_uint. lia.
  - apply demo_insn_at. unfold is_uint, demo_mulh. lia.
  - left. reflexivity.
Defined.

(** The rounding mode of fcsr, 1, goes to the register; the low three bits of
    x6 replace it. *)
Lemma system_opcode_correct_witness :
  let s := demo_hart demo_frm demo_regs in
  illegal_insn_trap 2 0x1000 s = Done tt (set_reg 5 1 (with_tp 0xC1 (set_csr_to MEPC 0x1004 s))).
Proof.
  intros s. rewrite (system_opcode_correct s 2 0x1000 demo_frm).
  - vm_compute. reflexivity.
  - apply demo_wf, demo_regs_uint.
  - unfold is_uint. lia.
  - apply demo_insn_at. unfold is_uint, demo_frm. lia.
  - reflexivity.
Defined.
