(* ===== verification/EmulationSafe.v ===== *)
(** * The handlers are safe

    Whatever the instruction, a handler ends, keeps the state well-formed,
    changes at most the target register of the instruction among the registers
    of the interrupted program, and changes none of them when it hands the trap
    over; the only runs without a result are those whose arithmetic C leaves
    undefined.  A handler is a sequence of [silent] steps, which keep the
    registers, with at most one [final] step, which sets the target. *)

From S2P Require Import Prelude Machine Isa SoftFloat SoftFloatArith MulDiv Misaligned TrapSpec FpEmulation Emulation EmulationSpec.

(** ** Steps *)

Definition intact (s0 s : hart) : Prop := wf_hart s /\ regs s = regs s0 /\ hls s = hls s0.

Definition outcome_ok {A} (Q : A -> hart -> Prop) (R : hart -> Prop) (m : exec A) : Prop :=
  match m with Done a s => Q a s | Redirect s => R s | Stop e => e = UndefArith end.

Definition silent {A} (m : T A) : Prop :=
  forall s0 s, intact s0 s -> outcome_ok (fun _ s' => intact s0 s') (intact s0) (m s).

Definition keeps {A} (m : T A) : Prop :=
  forall s, wf_hart s ->
    match m s with Done _ s' => wf_hart s' /\ regs s' = regs s /\ hls s' = hls s | _ => False end.

Lemma keeps_write_csr c v : keeps (write_csr c v).
Proof. intros s Hs. split; [by apply wf_set_csr|done]. Qed.
Lemma keeps_fs_dirty : keeps SET_FS_DIRTY.
Proof. intros s Hs. split; [by apply wf_set_csr|done]. Qed.

Section target.
Context (r : Z) (Hr : 0 <= r < 32).

(** Only the integer or floating-point register [r] may differ. *)
Definition changed (s0 s : hart) : Prop :=
  wf_hart s /\ hls s = hls s0 /\
  forall i, 0 <= i < 64 -> i <> r -> i <> 32 + r -> regs s !z i = regs s0 !z i.

Definition final {A} (m : T A) : Prop :=
  forall s0 s, intact s0 s -> outcome_ok (fun _ s' => changed s0 s') (intact s0) (m s).

Lemma intact_changed s0 s : intact s0 s -> changed s0 s.
Proof. intros (Hw & Hg & Hh). split_and!; [done..|]. intros. by rewrite Hg. Qed.

Lemma silent_final {A} (m : T A) : silent m -> final m.
Proof.
  intros Hm s0 s Hs. specialize (Hm s0 s Hs). unfold outcome_ok in *.
  destruct (m s); [by apply intact_changed|done..].
Qed.

Lemma final_bind {A B} (m : T A) (f : A -> T B) : silent m -> (forall a, final (f a)) -> final (m ≫= f).
Proof.
  intros Hm Hf s0 s Hs. specialize (Hm s0 s Hs). unfold outcome_ok, mbind, T_bind in *.
  destruct (m s) as [a s'|s'|e]; [by apply Hf|done..].
Qed.

Lemma final_put_reg i v : i = r \/ i = 32 + r -> final (put_reg i v).
Proof.
  intros Hi s0 s (Hw & Hg & Hh). rewrite put_reg_done by (done || lia). simpl.
  split_and!; [apply wf_set_reg; [done|lia]|done|].
  intros j Hj H1 H2. simpl. rewrite nthz_insert by (rewrite ?(wf_len s Hw); lia).
  destruct (Z.eqb_spec i j); [lia|]. by rewrite Hg.
Qed.

(** What comes after the target is set. *)
Lemma final_then {A B} (m : T A) (f : A -> T B) : final m -> (forall a, keeps (f a)) -> final (m ≫= f).
Proof.
  intros Hm Hf s0 s Hs. specialize (Hm s0 s Hs). unfold outcome_ok, mbind, T_bind in *.
  destruct (m s) as [a s'|s'|e]; [|done..]. destruct Hm as (Hw & Hh & Hg).
  specialize (Hf a s' Hw). destruct (f a s') as [b t|t|e]; [|done..]. destruct Hf as (Hw' & Hg' & Hh').
  split_and!; [done|congruence|]. intros. rewrite Hg'. by apply Hg.
Qed.
End target.

Lemma silent_ret {A} (a : A) : silent (mret a).
Proof. by intros s0 s Hs. Qed.

Lemma silent_bind {A B} (m : T A) (f : A -> T B) : silent m -> (forall a, silent (f a)) -> silent (m ≫= f).
Proof.
  intros Hm Hf s0 s Hs. specialize (Hm s0 s Hs). unfold outcome_ok, mbind, T_bind in *.
  destruct (m s) as [a s'|s'|e]; [by apply Hf|done..].
Qed.

Lemma silent_asks {A} (f : hart -> A) : silent (asks f).
Proof. by intros s0 s Hs. Qed.
Lemma silent_with_tp t : silent (update (with_tp t)).
Proof. intros s0 s (Hw & Hg). split; [by apply wf_with_tp|done]. Qed.
Lemma silent_read_csr c : silent (read_csr c).
Proof. apply silent_asks. Qed.
Lemma silent_write_csr c v : silent (write_csr c v).
Proof. intros s0 s (Hw & Hg). split; [by apply wf_set_csr|done]. Qed.
Lemma silent_redirect {A} : silent (redirect (A := A)).
Proof. by intros s0 s Hs. Qed.
Lemma silent_undefined {A} : silent (stop (A := A) UndefArith).
Proof. by intros s0 s Hs. Qed.
Lemma silent_outcome {A} (m : outcome A) : (forall e, m = Fault e -> e = UndefArith) -> silent (of_outcome m).
Proof. intros Hm s0 s Hs. unfold of_outcome. destruct m; simpl; [done|by apply Hm]. Qed.
Lemma silent_get_reg i : 0 <= i < 64 -> silent (get_reg i).
Proof.
  intros Hi s0 s Hs. unfold get_reg, asks, of_outcome, mbind, T_bind.
  rewrite get_ok; [done|]. rewrite (wf_len s) by apply Hs. lia.
Qed.

Create HintDb trap discriminated.
#[export] Hint Resolve silent_ret silent_asks silent_with_tp silent_read_csr silent_write_csr silent_redirect
  silent_undefined : trap.

(** Takes a handler apart. *)
Ltac silent_step :=
  match goal with
  | |- forall _, _ => intro
  | |- silent (match ?x with _ => _ end) => destruct x
  | |- final _ (match ?x with _ => _ end) => destruct x
  | |- silent (let _ := _ in _) => cbv zeta
  | |- silent _ => solve [eauto with trap]
  | |- final _ _ => solve [eauto with trap]
  | |- silent (_ ≫= _) => apply silent_bind
  end.

Lemma silent_redirect_trap {A} epc ms : silent (redirect_trap (A := A) epc ms).
Proof. unfold redirect_trap. repeat silent_step. Qed.
Lemma silent_illegal {A} mc me ms insn : silent (truly_illegal_insn (A := A) mc me ms insn).
Proof. apply silent_redirect_trap. Qed.
#[export] Hint Resolve silent_redirect_trap silent_illegal : trap.

(** ** Memory *)

Lemma silent_access_fault {A} cause addr epc s0 s :
  cause = CAUSE_FAULT_LOAD \/ cause = CAUSE_FAULT_STORE -> is_uint 64 addr -> intact s0 s ->
  outcome_ok (fun _ s' => intact s0 s') (intact s0) (access_fault (A := A) cause addr epc (csrs s MSTATUS) s).
Proof.
  intros Hc Ha Hs. pose proof Hs as [Hw Hg]. rewrite access_fault_run by done. simpl.
  unfold page_faulted, handed_over. cbv zeta. split; [by repeat apply wf_set_csr|done].
Qed.

Lemma silent_load n addr epc : addr mod Z.of_nat n = 0 -> is_uint 64 addr -> silent (load_bytes n addr epc).
Proof.
  intros Hal Ha s0 s Hs. unfold load_bytes, read_csr, asks, mbind, T_bind.
  rewrite Hal. cbn [negb Z.eqb]. destruct (mem_read (mem s) addr n); [done|].
  apply silent_access_fault; [by left|done..].
Qed.

Lemma silent_store n addr v epc :
  addr mod Z.of_nat n = 0 -> is_uint 64 addr -> (n <= 8)%nat -> silent (store_bytes n addr v epc).
Proof.
  intros Hal Ha Hn s0 s Hs. unfold store_bytes, read_csr, asks, mbind, T_bind.
  rewrite Hal. cbn [negb Z.eqb id]. destruct (can_write s addr n).
  - destruct Hs as (Hw & Hg). split; [|done]. by apply wf_mem_write, to_bytes_byte.
  - apply silent_access_fault; [by right|done..].
Qed.

Lemma silent_load_loop n addr epc bytes :
  (n <= length bytes)%nat -> silent (load_loop n addr epc bytes).
Proof.
  revert bytes. induction n as [|n IH]; intros bytes Hn; cbn [load_loop]; [apply silent_ret|].
  apply silent_bind; [apply silent_load; [apply Z.mod_1_r|apply u64_range]|]. intros b.
  rewrite put_insert by (unfold lenz; lia). apply (IH (<[_ := b]> bytes)). rewrite length_insert. lia.
Qed.

Lemma silent_store_loop n i addr epc bytes :
  0 <= i -> i + Z.of_nat n <= lenz bytes -> silent (store_loop n i addr epc bytes).
Proof.
  revert i. induction n as [|n IH]; intros i Hi Hn; cbn [store_loop]; [apply silent_ret|].
  rewrite get_ok by lia. apply silent_bind; [by intros s0 s Hs|]. intros b.
  apply silent_bind; [apply silent_store; [apply Z.mod_1_r|apply u64_range|lia]|]. intros _. apply IH; lia.
Qed.

(** ** Registers *)

Lemma silent_GET_RS1 insn : silent (GET_RS1 insn).
Proof. unfold GET_RS1. rewrite GET_REG_field by lia. apply silent_get_reg. pose proof (field_range insn 15 5). lia. Qed.
Lemma silent_GET_RS2 insn : silent (GET_RS2 insn).
Proof. unfold GET_RS2. rewrite GET_REG_field by lia. apply silent_get_reg. pose proof (field_range insn 20 5). lia. Qed.
Lemma silent_GET_F64_REG insn pos : 3 <= pos -> silent (GET_F64_REG insn pos).
Proof.
  intros. unfold GET_F64_REG. rewrite fp_slot by done. apply silent_get_reg.
  pose proof (field_range insn pos 5). lia.
Qed.
Lemma silent_GET_F32_REG insn pos : 3 <= pos -> silent (GET_F32_REG insn pos).
Proof. intros. apply silent_bind; [by apply silent_GET_F64_REG|]. intros. apply silent_ret. Qed.

Lemma silent_raiseFlags flags : silent (Machine.softfloat_raiseFlags flags).
Proof. unfold Machine.softfloat_raiseFlags. repeat silent_step. Qed.
Lemma silent_roundingMode : silent softfloat_roundingMode.
Proof. unfold softfloat_roundingMode. repeat silent_step. Qed.
#[export] Hint Resolve silent_raiseFlags silent_roundingMode silent_GET_RS1 silent_GET_RS2 : trap.
Lemma silent_of_flagged {A} (m : flagged A) : silent (of_flagged m).
Proof. unfold of_flagged. repeat silent_step. Qed.
Lemma silent_GET_FCSR : silent GET_FCSR.
Proof. unfold GET_FCSR. repeat silent_step. Qed.
#[export] Hint Resolve silent_of_flagged silent_GET_FCSR : trap.
Lemma silent_SETUP mc me ms insn : silent (SETUP_STATIC_ROUNDING mc me ms insn).
Proof. unfold SETUP_STATIC_ROUNDING. repeat silent_step. Qed.

Section registers.
Context (insn : Z).

Lemma silent_F32_RS1 : silent (F32_RS1 insn).
Proof. apply silent_bind; [apply silent_GET_F32_REG; lia|intros; apply silent_ret]. Qed.
Lemma silent_F32_RS2 : silent (F32_RS2 insn).
Proof. apply silent_bind; [apply silent_GET_F32_REG; lia|intros; apply silent_ret]. Qed.
Lemma silent_F32_RS3 : silent (F32_RS3 insn).
Proof. apply silent_bind; [apply silent_GET_F32_REG; lia|intros; apply silent_ret]. Qed.
Lemma silent_GET_F32_RS1 : silent (GET_F32_RS1 insn).
Proof. apply silent_GET_F32_REG. lia. Qed.
Lemma silent_GET_F32_RS2 : silent (GET_F32_RS2 insn).
Proof. apply silent_GET_F32_REG. lia. Qed.
Lemma silent_GET_F64_RS1 : silent (GET_F64_RS1 insn).
Proof. apply silent_GET_F64_REG. lia. Qed.
Lemma silent_GET_F64_RS2 : silent (GET_F64_RS2 insn).
Proof. apply silent_GET_F64_REG. lia. Qed.
Lemma silent_GET_F64_RS3 : silent (GET_F64_RS3 insn).
Proof. apply silent_GET_F64_REG. lia. Qed.

Lemma final_SET_RD v : final (rd insn) (SET_RD insn v).
Proof.
  unfold SET_RD. rewrite GET_REG_field by lia. change ((insn / 2 ^ 7) mod 2 ^ 5) with (rd insn).
  apply final_put_reg; [apply rd_range|by left].
Qed.
Lemma final_SET_F64_RD v : final (rd insn) (SET_F64_RD insn v).
Proof.
  apply final_then; [|intros; apply keeps_fs_dirty].
  unfold SET_F64_REG. rewrite fp_slot by lia. apply final_put_reg; [apply rd_range|by right].
Qed.
Lemma final_SET_F32_RD v : final (rd insn) (SET_F32_RD insn v).
Proof.
  apply final_then; [|intros; apply keeps_fs_dirty].
  apply final_bind; [apply silent_GET_F64_REG; lia|]. intros old.
  unfold SET_F64_REG. rewrite fp_slot by lia. apply final_put_reg; [apply rd_range|by right].
Qed.
End registers.

#[export] Hint Resolve silent_SETUP silent_F32_RS1 silent_F32_RS2 silent_F32_RS3 silent_GET_F32_RS1
  silent_GET_F32_RS2 silent_GET_F64_RS1 silent_GET_F64_RS2 silent_GET_F64_RS3
  final_SET_RD final_SET_F64_RD final_SET_F32_RD : trap.

Lemma final_silent_hint {A} r (m : T A) : silent m -> final r m.
Proof. apply silent_final. Qed.

Lemma final_by_precision {A} r mc me ms insn (m1 m2 : T A) :
  final r m1 -> final r m2 -> final r (by_precision mc me ms insn m1 m2).
Proof.
  intros H1 H2. unfold by_precision. destruct (_ =? _); [done|]. destruct (_ =? _); [done|].
  apply silent_final, silent_illegal.
Qed.
Lemma silent_by_precision {A} mc me ms insn (m1 m2 : T A) :
  silent m1 -> silent m2 -> silent (by_precision mc me ms insn m1 m2).
Proof. intros H1 H2. unfold by_precision. repeat silent_step; auto. Qed.

(** Takes a handler with a target apart. *)
Ltac final_step :=
  match goal with
  | |- forall _, _ => intro
  | |- final _ (let _ := _ in _) => cbv zeta
  | |- silent (let _ := _ in _) => cbv zeta
  | |- final _ (by_precision _ _ _ _ _ _) => apply final_by_precision
  | |- silent (by_precision _ _ _ _ _ _) => apply silent_by_precision
  | |- final _ (match ?x with _ => _ end) => destruct x
  | |- silent (match ?x with _ => _ end) => destruct x
  | |- silent _ => solve [eauto 2 with trap]
  | |- final _ _ => solve [eauto 2 with trap]
  | |- final _ (truly_illegal_insn _ _ _ _) => apply silent_final, silent_illegal
  | |- final _ (mret _) => apply silent_final, silent_ret
  | |- final _ (_ ≫= _) => apply final_bind
  | |- silent (_ ≫= _) => apply silent_bind
  end.

Section handlers.
Context (mc me ms insn : Z).
#[local] Notation target h := (final (rd insn) (h mc me ms insn)).

Lemma final_fadd : target emulate_fadd.
Proof. unfold emulate_fadd, emulate_any_fadd. repeat final_step. Qed.
Lemma final_fsub : target emulate_fsub.
Proof. unfold emulate_fsub, emulate_any_fadd. repeat final_step. Qed.
Lemma final_fmul : target emulate_fmul.
Proof. unfold emulate_fmul. repeat final_step. Qed.
Lemma final_fdiv : target emulate_fdiv.
Proof. unfold emulate_fdiv. repeat final_step. Qed.
Lemma final_fsqrt : target emulate_fsqrt.
Proof. unfold emulate_fsqrt. repeat final_step. Qed.
Lemma final_fsgnj : target emulate_fsgnj.
Proof. unfold emulate_fsgnj. repeat final_step. Qed.
Lemma final_fmin : target emulate_fmin.
Proof. unfold emulate_fmin. repeat final_step. Qed.
Lemma final_fcmp : target emulate_fcmp.
Proof. unfold emulate_fcmp. repeat final_step. Qed.
Lemma final_fmv_if : target emulate_fmv_if.
Proof. unfold emulate_fmv_if. repeat final_step. Qed.
Lemma final_fmv_fi : target emulate_fmv_fi.
Proof. unfold emulate_fmv_fi. repeat final_step. Qed.
Lemma final_fcvt_ff : target emulate_fcvt_ff.
Proof. unfold emulate_fcvt_ff. repeat final_step. Qed.
Lemma silent_int_operand n v : silent (int_operand mc me ms insn n v).
Proof. unfold int_operand. repeat final_step. Qed.
#[local] Hint Resolve silent_int_operand : trap.
Lemma final_fcvt_fi : target emulate_fcvt_fi.
Proof. unfold emulate_fcvt_fi. repeat final_step. Qed.
Lemma silent_SET_FS_DIRTY : silent SET_FS_DIRTY.
Proof. unfold SET_FS_DIRTY, set_csr. repeat final_step. Qed.
#[local] Hint Resolve silent_SET_FS_DIRTY : trap.
Lemma final_fcvt_if : target emulate_fcvt_if.
Proof. unfold emulate_fcvt_if. repeat final_step. Qed.
End handlers.

(** ** Tables *)

Definition final_entry (f : emulation_func) : Prop :=
  forall mc me ms insn, final (rd insn) (f mc me ms insn).

Lemma final_illegal : final_entry truly_illegal_insn.
Proof. intros mc me ms insn. apply silent_final, silent_illegal. Qed.

Lemma final_table t offset :
  Forall final_entry t -> 0 <= offset / 4 < lenz t -> final_entry (table_entry t offset).
Proof.
  intros Ht Ho. unfold table_entry, lenz in *.
  destruct (lookup_lt_is_Some_2 t (Z.to_nat (offset / 4)) ltac:(lia)) as [f Hf]. rewrite Hf.
  by eapply Forall_lookup_1 in Ht.
Qed.

Lemma offset_range x k : 0 <= k -> 0 <= ((x >>> k) &&& 0x7c) / 4 < 32.
Proof.
  intros Hk. change 0x7c with (Z.ones 5 <<< 2). rewrite land_field by lia. change (2 ^ 2) with 4.
  rewrite Z.div_mul by lia. apply Z.mod_pos_bound. lia.
Qed.

Section tables.

Lemma fp_table_final : Forall final_entry fp_emulation_table.
Proof.
  unfold fp_emulation_table.
  repeat (apply Forall_cons_2 || apply Forall_nil_2);
    try match goal with |- final_entry truly_illegal_insn => apply final_illegal end; intros mc me ms insn.
  - apply final_fadd.
  - apply final_fsub.
  - apply final_fmul.
  - apply final_fdiv.
  - apply final_fsgnj.
  - apply final_fmin.
  - apply final_fcvt_ff.
  - apply final_fsqrt.
  - apply final_fcmp.
  - apply final_fcvt_if.
  - apply final_fcvt_fi.
  - apply final_fmv_if.
  - apply final_fmv_fi.
Qed.

Lemma final_fp : final_entry emulate_fp.
Proof.
  intros mc me ms insn. unfold emulate_fp. repeat final_step.
  apply final_table; [apply fp_table_final|apply offset_range; lia].
Qed.

Lemma final_fmadd : final_entry emulate_fmadd.
Proof. intros mc me ms insn. unfold emulate_fmadd. repeat final_step. Qed.

(** An access of the monitor at an aligned address. *)
Lemma silent_load_int32 addr epc : addr mod 4 = 0 -> is_uint 64 addr -> silent (load_int32_t addr epc).
Proof. intros Ha Hu. apply silent_bind; [apply silent_load; [exact Ha|exact Hu]|]. intros. apply silent_ret. Qed.

Lemma final_load_target insn len sext fp v :
  final (rd insn)
    (if negb fp then SET_RD insn (s64 (s64 v <<< sext) >>> sext)
     else if len =? 8 then SET_F64_RD insn v else SET_F32_RD insn v).
Proof. repeat final_step. Qed.

(** The misaligned handlers, where the instruction can be fetched. *)
Lemma misaligned_load_ok mc pc insn s0 s :
  is_uint 64 pc -> insn_at s pc insn -> intact s0 s ->
  outcome_ok (fun _ s' => changed (rd insn) s0 s') (intact s0) (misaligned_load_trap mc pc s).
Proof.
  intros Hpc Hin Hs. unfold misaligned_load_trap. rewrite (get_insn_bind s pc insn) by done.
  cbv beta iota. rewrite read_csr_bind, load_kind_of.
  destruct (load_of insn) as [[[len sext] fp]|] eqn:Hk; cbn [mbind option_bind]; [|by apply final_illegal].
  apply load_of_len in Hk as [Hlen _]. apply final_bind; [apply silent_load_loop|intros bytes|exact Hs].
  - change (length (zeros 8)) with 8%nat. lia.
  - cbv zeta. apply final_then; [apply final_load_target|intros; apply keeps_write_csr].
Qed.

Lemma misaligned_store_ok mc pc insn s0 s :
  is_uint 64 pc -> insn_at s pc insn -> intact s0 s ->
  outcome_ok (fun _ s' => intact s0 s') (intact s0) (misaligned_store_trap mc pc s).
Proof.
  intros Hpc Hin Hs. unfold misaligned_store_trap. rewrite (get_insn_bind s pc insn) by done.
  cbv beta iota. rewrite GET_RS2_bind by apply Hs.
  fold (store_choice insn (reg s (rs2 insn)) mc pc (csrs s MSTATUS)).
  pose proof (store_choice_run s insn mc pc (csrs s MSTATUS) (proj1 Hs)) as Hc.
  destruct (store_of insn) as [[len fp]|] eqn:Hk.
  - rewrite (run_Done _ _ _ _ _ Hc). cbv beta iota. rewrite read_csr_bind. apply store_of_len in Hk.
    apply silent_bind; [|intros; apply silent_write_csr|exact Hs].
    apply silent_store_loop; [lia|]. unfold lenz. rewrite length_to_bytes. lia.
  - rewrite redirect_trap_run in Hc. rewrite (run_Redirect _ _ _ _ Hc).
    pose proof (silent_redirect_trap (A := unit) pc (csrs s MSTATUS) s0 s Hs) as Hr.
    by rewrite redirect_trap_run in Hr.
Qed.

Lemma insn_at_same s s' pc insn : mem s' = mem s -> insn_at s pc insn -> insn_at s' pc insn.
Proof. unfold insn_at. by intros ->. Qed.
End tables.

(** ** The handler of illegal instructions *)

(** The floating-point loads and stores fetch the instruction again when the
    address is misaligned. *)
Section float_ldst.
Context (mc pc ms insn : Z) (Hpc : is_uint 64 pc).

Lemma float_load_ok s0 s :
  insn_at s pc insn -> intact s0 s ->
  outcome_ok (fun _ s' => changed (rd insn) s0 s') (intact s0) (emulate_float_load mc pc ms insn s).
Proof.
  intros Hin Hs. unfold emulate_float_load. rewrite GET_RS1_bind by apply Hs. cbv zeta.
  set (addr := u64 _). assert (is_uint 64 addr) by apply u64_range.
  destruct (_ =? _); [|destruct (_ =? _); [|by apply final_illegal]].
  - destruct (Z.eqb_spec (addr mod 4) 0) as [Ha|]; cbn [negb]; [|by apply misaligned_load_ok].
    by apply final_bind; [apply silent_load_int32|apply final_SET_F32_RD|].
  - destruct (Z.eqb_spec (addr mod 8) 0) as [Ha|]; cbn [negb]; [|by apply misaligned_load_ok].
    by apply final_bind; [apply silent_load|apply final_SET_F64_RD|].
Qed.

Lemma float_store_ok s0 s :
  insn_at s pc insn -> intact s0 s ->
  outcome_ok (fun _ s' => changed (rd insn) s0 s') (intact s0) (emulate_float_store mc pc ms insn s).
Proof.
  intros Hin Hs. unfold emulate_float_store. rewrite GET_RS1_bind by apply Hs. cbv zeta.
  set (addr := u64 _). assert (is_uint 64 addr) by apply u64_range.
  assert (forall m : exec unit, outcome_ok (fun _ s' => intact s0 s') (intact s0) m ->
            outcome_ok (fun _ s' => changed (rd insn) s0 s') (intact s0) m) as Hweak.
  { intros [] Hm; [by apply intact_changed|done..]. }
  destruct (_ =? _); [|destruct (_ =? _); [|by apply final_illegal]]; apply Hweak.
  - destruct (Z.eqb_spec (addr mod 4) 0) as [Ha|]; cbn [negb]; [|by apply (misaligned_store_ok _ _ insn)].
    by apply silent_bind; [apply silent_GET_F32_RS2|intros; apply silent_store; [exact Ha| |lia]|].
  - destruct (Z.eqb_spec (addr mod 8) 0) as [Ha|]; cbn [negb]; [|by apply (misaligned_store_ok _ _ insn)].
    by apply silent_bind; [apply silent_GET_F64_RS2|intros; apply silent_store; [exact Ha| |lia]|].
Qed.
End float_ldst.

Lemma silent_c_mul128 a b : silent (of_outcome (c_mul128 a b)).
Proof. apply silent_outcome. unfold c_mul128. intros e. by case_match; intros [=]. Qed.
Lemma silent_c_div w a b : silent (of_outcome (c_div w a b)).
Proof. apply silent_outcome. unfold c_div. intros e. by repeat case_match; intros [=]. Qed.
Lemma silent_c_rem w a b : silent (of_outcome (c_rem w a b)).
Proof. apply silent_outcome. unfold c_rem. intros e. by repeat case_match; intros [=]. Qed.
Lemma silent_c_divu a b : silent (of_outcome (c_divu a b)).
Proof. apply silent_outcome. unfold c_divu. intros e. by case_match; intros [=]. Qed.
Lemma silent_c_remu a b : silent (of_outcome (c_remu a b)).
Proof. apply silent_outcome. unfold c_remu. intros e. by case_match; intros [=]. Qed.
#[export] Hint Resolve silent_c_mul128 silent_c_div silent_c_rem silent_c_divu silent_c_remu : trap.

Lemma final_mul_div : final_entry emulate_mul_div.
Proof. intros mc me ms insn. unfold emulate_mul_div. repeat final_step. Qed.
Lemma final_mul_div32 : final_entry emulate_mul_div32.
Proof. intros mc me ms insn. unfold emulate_mul_div32. repeat final_step. Qed.

Lemma silent_read_emulated num ms : silent (emulate_read_csr num ms).
Proof. unfold emulate_read_csr, GET_FRM, GET_FFLAGS. repeat final_step. Qed.
Lemma silent_write_emulated num v ms : silent (emulate_write_csr num v ms).
Proof.
  unfold emulate_write_csr, SET_FRM, SET_FFLAGS, SET_FCSR, GET_FRM, GET_FFLAGS. repeat final_step.
Qed.
#[export] Hint Resolve silent_read_emulated silent_write_emulated : trap.

Lemma final_system : final_entry emulate_system_opcode.
Proof. intros mc me ms insn. unfold emulate_system_opcode. repeat final_step. Qed.

Section safe.

(** The table holds the floating-point loads and stores, and functions that are
    [final] from every state. *)
Definition table_kind (f : emulation_func) : Prop :=
  f = emulate_float_load \/ f = emulate_float_store \/ final_entry f.

Lemma illegal_insn_table_kinds : Forall table_kind illegal_insn_trap_table.
Proof.
  unfold illegal_insn_trap_table, table_kind.
  repeat (apply Forall_cons_2 || apply Forall_nil_2);
    match goal with
    | |- emulate_float_load = _ \/ _ => by left
    | |- emulate_float_store = _ \/ _ => right; by left
    | |- _ => right; right
    end;
    match goal with
    | |- final_entry truly_illegal_insn => exact final_illegal
    | |- final_entry emulate_mul_div => exact final_mul_div
    | |- final_entry emulate_mul_div32 => exact final_mul_div32
    | |- final_entry emulate_fmadd => exact final_fmadd
    | |- final_entry emulate_fp => exact final_fp
    | |- final_entry emulate_system_opcode => exact final_system
    end.
Qed.

Lemma handler_of_kind insn : table_kind (handler_of insn).
Proof.
  unfold handler_of, table_entry. rewrite table_offset. pose proof (opcode_range insn) as Ho.
  destruct (lookup_lt_is_Some_2 illegal_insn_trap_table (Z.to_nat (opcode insn / 4))) as [f Hf]; [simpl; zdm|].
  rewrite Hf. eapply (Forall_lookup_1 _ _ _ _ illegal_insn_table_kinds Hf).
Qed.

(** C28: whatever the instruction, the handlers of illegal instructions and of
    misaligned loads and stores are safe: a run that returns changes at most
    the target register of the instruction, one that hands the trap over
    changes no register, both leave a well-formed state and the hart-local
    storage alone, and only arithmetic that C leaves undefined has no result;
    no table is read out of its bounds and the monitor never stops. *)
Theorem handlers_safe s mcause pc insn :
  wf_hart s -> is_uint 64 pc -> insn_at s pc insn ->
  outcome_ok (fun _ s' => changed (rd insn) s s') (fun s' => wf_hart s' /\ regs s' = regs s /\ hls s' = hls s)
    (illegal_insn_trap mcause pc s) /\
  outcome_ok (fun _ s' => changed (rd insn) s s') (fun s' => wf_hart s' /\ regs s' = regs s /\ hls s' = hls s)
    (misaligned_load_trap mcause pc s) /\
  outcome_ok (fun _ s' => wf_hart s' /\ regs s' = regs s /\ hls s' = hls s)
    (fun s' => wf_hart s' /\ regs s' = regs s /\ hls s' = hls s) (misaligned_store_trap mcause pc s).
Proof.
  intros Hs Hpc Hin. assert (intact s s) as Hi by done.
  split_and!; [|by apply misaligned_load_ok|by eapply misaligned_store_ok].
  rewrite (illegal_insn_trap_run s mcause pc insn) by done.
  destruct (_ =? 3); [|by apply final_illegal].
  assert (intact s (set_csr_to MEPC (pc + 4) s)) as Hi' by (split; [by apply wf_set_csr|done]).
  destruct (handler_of_kind insn) as [-> | [-> | Hf]].
  - by apply float_load_ok.
  - by apply float_store_ok.
  - by apply Hf.
Qed.
End safe.


Lemma handlers_safe_witness :
  let s := demo_hart demo_mulh demo_regs in
  outcome_ok (fun _ s' => changed (rd demo_mulh) s s') (fun s' => wf_hart s' /\ regs s' = regs s /\ hls s' = hls s)
    (illegal_insn_trap 2 0x1000 s).
Proof.
  intros s.
  assert (wf_hart s) as Hs by apply demo_wf, demo_regs_uint.
  assert (is_uint 64 0x1000) as Hpc by (unfold is_uint; lia).
  assert (insn_at s 0x1000 demo_mulh) as Hin by (apply demo_insn_at; unfold is_uint, demo_mulh; lia).
  exact (proj1 (handlers_safe s 2 0x1000 demo_mulh Hs Hpc Hin)).
Defined.
