(* ===== verification/FpSpec.v ===== *)
(** * What the emulation of floating-point arithmetic does

    The instructions fadd, fsub, fmul and fdiv of both precisions, from the trap
    to the register: the dispatch through the two tables, the rounding mode, the
    operands, the operation of SoftFloatArith.v and the flags. *)

From S2P Require Import Prelude Machine Isa SoftFloat SoftFloatArith SoftFloatSpec SoftFloatFields SoftFloatAdd.
From S2P Require Import SoftFloatMul SoftFloatDiv TrapSpec FpEmulation Emulation EmulationSpec EmulationSafe.

(** ** The instructions *)

Inductive fp_op : Type := FAdd | FSub | FMul | FDiv.

Definition fp_op_of (insn : Z) : option fp_op := [FAdd; FSub; FMul; FDiv] !! Z.to_nat (funct7 insn / 4).

Definition fp_format (insn : Z) : option format := [binary32; binary64] !! Z.to_nat (funct7 insn mod 4).

(** What the manual says of the result: subtraction adds the operand with its
    sign changed. *)
Definition is_result (op : fp_op) (f : format) (rm a b : Z) (r : Z * Z) : Prop :=
  match op with
  | FAdd => is_sum f rm a b r
  | FSub => is_sum f rm a (b ^^^ sign_bit f) r
  | FMul => is_product f rm a b r
  | FDiv => is_quotient f rm a b r
  end.

(** The number of a format in a register: the low bits. *)
Definition foperand (f : format) (s : hart) (i : Z) : Z := freg s i mod (2 * sign_bit f).

(** The state after an operation: the number in the low bits of its register,
    the state of the floating-point unit dirty, the emulated fcsr in [t]. *)
Definition fp_written (f : format) (i v t : Z) (s : hart) : hart :=
  let s := with_tp t s in
  set_csr_to MSTATUS (csrs s MSTATUS ||| MSTATUS_FS)
    (set_reg (32 + i) (freg s i / (2 * sign_bit f) * (2 * sign_bit f) + v) s).

(** The rounding mode: of the instruction, or of fcsr. *)
Definition fp_rounding (s : hart) (insn : Z) : Z := if funct3 insn =? 7 then tp s mod 2 ^ 8 / 2 ^ 5 else funct3 insn.

(** ** Results are patterns of their format *)

Definition pattern (f : format) (r : Z * Z) : Prop := 0 <= r.1 < 2 * sign_bit f /\ 0 <= r.2 < 2 ^ 5.

Section patterns.
Context (f : format) (Hfb : 1 <= fb f) (Heb : 2 <= eb f).

Lemma inf_bits_range : 0 < inf_bits f < sign_bit f.
Proof using Hfb Heb.
  unfold inf_bits, sign_bit. pose proof (pow2_mono 2 (eb f) ltac:(lia)). pose proof (pow2_pos (fb f) ltac:(lia)).
  rewrite Z.pow_add_r by lia. nia.
Qed.

Lemma pattern_pack s m fl : 0 <= m < sign_bit f -> 0 <= fl < 2 ^ 5 -> pattern f (pack f s m, fl).
Proof. intros. unfold pattern, pack. cbn [fst snd]. destruct s; cbn [Z.b2z]; lia. Qed.

Lemma pattern_rounds rm s c r : rounds f rm s c r -> pattern f r.
Proof using Hfb Heb.
  intros (b & Hb & _ & _ & ->). unfold round_from. pose proof inf_bits_range. cbv zeta.
  set (e := match c (2 * fval f b) with Eq => true | _ => false end).
  set (up := goes_up rm s _ _). set (r := if e then b else b + Z.b2z up).
  assert (0 <= r) by (subst r; destruct e, up; cbn [Z.b2z]; lia).
  destruct (Z.leb_spec (inf_bits f) r).
  - apply pattern_pack; [destruct (negb _); cbn [Z.b2z]; lia|zcompute].
  - apply pattern_pack; [lia|]. destruct e, (b <? 2 ^ fb f); zcompute.
Qed.
End patterns.

Lemma flipped_range f b :
  1 <= fb f -> 2 <= eb f -> 0 <= b < 2 * sign_bit f -> 0 <= b ^^^ sign_bit f < 2 * sign_bit f.
Proof.
  intros Hf He. unfold sign_bit. intros Hb.
  rewrite lxor_pow2 by (try rewrite (Z.pow_add_r 2 (fb f + eb f) 1), Z.pow_1_r; lia).
  destruct (Z.ltb_spec b (2 ^ (fb f + eb f))); lia.
Qed.

Lemma pattern_result op f rm a b r :
  1 <= fb f -> 2 <= eb f -> 0 <= a < 2 * sign_bit f -> 0 <= b < 2 * sign_bit f ->
  is_result op f rm a b r -> pattern f r.
Proof.
  intros Hf He Ha Hb. pose proof (inf_bits_range f Hf He) as Hi.
  assert (Hn : forall us, pattern f (nan_result f us)).
  { intros us. unfold pattern, nan_result, default_nan. cbn [fst snd]. split; [lia|]. case_match; zcompute. }
  assert (Hv : pattern f (invalid_result f)) by (split; [unfold invalid_result, default_nan; cbn [fst]; lia|zcompute]).
  assert (H0 : forall s fl, 0 <= fl < 2 ^ 5 -> pattern f (pack f s 0, fl)) by (intros; apply pattern_pack; lia).
  assert (Hx : forall s fl, 0 <= fl < 2 ^ 5 -> pattern f (pack f s (inf_bits f), fl)) by (intros; apply pattern_pack; lia).
  assert (Hs : forall b, 0 <= b < 2 * sign_bit f -> is_sum f rm a b r -> pattern f r).
  { clear b Hb. intros b Hb. unfold is_sum.
    repeat case_match; intros Hr; try (subst r; first [apply Hn|apply Hv|apply H0; lia|by split; cbn [fst snd]; lia]).
    by apply pattern_rounds in Hr. }
  destruct op; cbn [is_result].
  - by apply Hs.
  - apply Hs. by apply flipped_range.
  - unfold is_product. repeat case_match; intros Hr; try (subst r; first [apply Hn|apply Hv|apply Hx; lia]).
    by apply pattern_rounds in Hr.
  - unfold is_quotient. repeat case_match; intros Hr; try (subst r; first [apply Hn|apply Hv|apply Hx; zcompute|apply H0; lia]).
    by apply pattern_rounds in Hr.
Qed.

(** ** Running the operations *)

Lemma u32_s32 x : u32 (s32 x) = u32 x.
Proof.
  unfold u32, s32, swrap. cbv zeta. destruct (_ <? _); [apply Z.mod_mod; lia|].
  rewrite Zminus_mod_idemp_l. replace (x - 2 ^ 32) with (x + -1 * 2 ^ 32) by lia. by apply Z_mod_plus_full.
Qed.

Lemma precision_funct7 insn : GET_PRECISION insn = funct7 insn mod 4.
Proof.
  unfold GET_PRECISION, funct7. change 3 with (Z.ones 2). rewrite Z.land_ones, shiftr_div by lia.
  change 4 with (2 ^ 2). by rewrite mod_pow2_mod by lia.
Qed.

Lemma rm_funct3 insn : GET_RM insn = funct3 insn.
Proof. unfold GET_RM, funct3. change 7 with (Z.ones 3). by rewrite Z.land_ones, shiftr_div by lia. Qed.

Lemma dynamic_rounding insn : ((insn &&& MASK_FUNCT3) =? MASK_FUNCT3) = (funct3 insn =? 7).
Proof.
  change MASK_FUNCT3 with (Z.ones 3 <<< 12) at 1. rewrite land_field by lia. fold (funct3 insn).
  change MASK_FUNCT3 with (7 * 2 ^ 12). apply Bool.eq_iff_eq_true. rewrite !Z.eqb_eq. lia.
Qed.

Section run.
Context (s : hart) (insn : Z) (Hs : wf_hart s).

Lemma of_flagged_bind {A B} (m : flagged A) (k : A -> T B) t :
  (of_flagged m ≫= k) t = k m.1 (with_tp (tp t ||| m.2) t).
Proof. done. Qed.

Lemma roundingMode_bind {B} (k : Z -> T B) t : (softfloat_roundingMode ≫= k) t = k (tp t >>> 13) t.
Proof. done. Qed.

Lemma F32_RS1_bind {A} (k : Z -> T A) : (F32_RS1 insn ≫= k) s = k (foperand binary32 s (rs1 insn)) s.
Proof using Hs.
  unfold F32_RS1, GET_F32_RS1. pose proof (GET_F32_REG_bind s insn Hs 15 (fun v => mret (u32 v)) ltac:(lia)) as E.
  unfold mbind at 1, T_bind at 1. rewrite E. unfold mret, T_ret. by rewrite u32_s32.
Qed.

Lemma F32_RS2_bind {A} (k : Z -> T A) : (F32_RS2 insn ≫= k) s = k (foperand binary32 s (rs2 insn)) s.
Proof using Hs.
  unfold F32_RS2, GET_F32_RS2. pose proof (GET_F32_REG_bind s insn Hs 20 (fun v => mret (u32 v)) ltac:(lia)) as E.
  unfold mbind at 1, T_bind at 1. rewrite E. unfold mret, T_ret. by rewrite u32_s32.
Qed.

Lemma freg_range i : 0 <= i < 32 -> is_uint 64 (freg s i).
Proof using Hs. intros. apply (wf_regs s Hs). lia. Qed.

Lemma GET_F64_RS1_bind {A} (k : Z -> T A) : (GET_F64_RS1 insn ≫= k) s = k (foperand binary64 s (rs1 insn)) s.
Proof using Hs.
  unfold GET_F64_RS1. rewrite GET_F64_REG_bind by (done || lia). f_equal. symmetry. apply Z.mod_small.
  apply freg_range, rs1_range.
Qed.

Lemma GET_F64_RS2_bind {A} (k : Z -> T A) : (GET_F64_RS2 insn ≫= k) s = k (foperand binary64 s (rs2 insn)) s.
Proof using Hs.
  unfold GET_F64_RS2. rewrite GET_F64_REG_bind by (done || lia). f_equal. symmetry. apply Z.mod_small.
  apply freg_range, rs2_range.
Qed.

(** A binary operation in single and in double precision. *)
Lemma single_run (op : Z -> Z -> Z -> flagged Z) :
  let r := op (tp s >>> 13) (foperand binary32 s (rs1 insn)) (foperand binary32 s (rs2 insn)) in
  pattern binary32 r ->
  (rs1 ← F32_RS1 insn; rs2 ← F32_RS2 insn; rm ← softfloat_roundingMode;
   v ← of_flagged (op rm rs1 rs2); SET_F32_RD insn v) s =
  Done tt (fp_written binary32 (rd insn) r.1 (tp s ||| r.2) s).
Proof using Hs.
  intros r [Hv _]. rewrite F32_RS1_bind, F32_RS2_bind. rewrite roundingMode_bind, of_flagged_bind. fold r.
  rewrite SET_F32_RD_done by auto with hart. f_equal. unfold fs_dirty, set_freg, fp_written, low_half.
  assert (Hu : u32 r.1 = r.1) by (apply Z.mod_small; exact Hv). rewrite Hu. done.
Qed.

Lemma double_run (op : Z -> Z -> Z -> flagged Z) :
  let r := op (tp s >>> 13) (foperand binary64 s (rs1 insn)) (foperand binary64 s (rs2 insn)) in
  (rs1 ← GET_F64_RS1 insn; rs2 ← GET_F64_RS2 insn; rm ← softfloat_roundingMode;
   v ← of_flagged (op rm rs1 rs2); SET_F64_RD insn v) s =
  Done tt (fp_written binary64 (rd insn) r.1 (tp s ||| r.2) s).
Proof using Hs.
  intros r. rewrite GET_F64_RS1_bind, GET_F64_RS2_bind. rewrite roundingMode_bind, of_flagged_bind. fold r.
  rewrite SET_F64_RD_done by auto with hart. f_equal. unfold fs_dirty, set_freg, fp_written.
  pose proof (freg_range (rd insn) (rd_range insn)) as Hr. change (2 * sign_bit binary64) with (2 ^ 64).
  change (freg (with_tp (tp s ||| r.2) s)) with (freg s). rewrite Z.div_small by done. done.
Qed.

Lemma foperand_range f i : 1 <= fb f -> 1 <= eb f -> 0 <= foperand f s i < 2 * sign_bit f.
Proof using Type.
  intros. apply Z.mod_pos_bound. unfold sign_bit. pose proof (pow2_pos (fb f + eb f) ltac:(lia)). lia.
Qed.

Definition emulation_of (op : fp_op) : emulation_func :=
  match op with FAdd => emulate_fadd | FSub => emulate_fsub | FMul => emulate_fmul | FDiv => emulate_fdiv end.

(** The operation of the library that an instruction calls. *)
Definition single_op (op : fp_op) (rm a b : Z) : flagged Z :=
  match op with
  | FAdd => f32_add rm a (b ^^^ u32 0) | FSub => f32_add rm a (b ^^^ u32 (- 2 ^ 31))
  | FMul => f32_mul rm a b | FDiv => f32_div rm a b
  end.
Definition double_op (op : fp_op) (rm a b : Z) : flagged Z :=
  match op with
  | FAdd => f64_add rm a (b ^^^ u64 (0 <<< 32)) | FSub => f64_add rm a (b ^^^ u64 (- 2 ^ 31 <<< 32))
  | FMul => f64_mul rm a b | FDiv => f64_div rm a b
  end.

Lemma single_op_result op rm a b :
  is_uint 32 a -> is_uint 32 b -> is_result op binary32 rm a b (single_op op rm a b).
Proof using Type.
  intros Ha Hb. destruct op; cbn [is_result single_op].
  - change (u32 0) with 0. rewrite Z.lxor_0_r. by apply f32_add_sum.
  - change (u32 (- 2 ^ 31)) with (sign_bit binary32). apply f32_add_sum; [done|].
    apply (flipped_range binary32); (cbn; lia) || exact Hb.
  - by apply f32_mul_product.
  - by apply f32_div_quotient.
Qed.

Lemma double_op_result op rm a b :
  is_uint 64 a -> is_uint 64 b -> is_result op binary64 rm a b (double_op op rm a b).
Proof using Type.
  intros Ha Hb. destruct op; cbn [is_result double_op].
  - change (u64 (0 <<< 32)) with 0. rewrite Z.lxor_0_r. by apply f64_add_sum.
  - change (u64 (- 2 ^ 31 <<< 32)) with (sign_bit binary64). apply f64_add_sum; [done|].
    apply (flipped_range binary64); (cbn; lia) || exact Hb.
  - by apply f64_mul_product.
  - by apply f64_div_quotient.
Qed.

Lemma emulation_run op f mc me ms :
  fp_format insn = Some f -> exists r,
  is_result op f (tp s >>> 13) (foperand f s (rs1 insn)) (foperand f s (rs2 insn)) r /\ pattern f r /\
  emulation_of op mc me ms insn s = Done tt (fp_written f (rd insn) r.1 (tp s ||| r.2) s).
Proof using Hs.
  intros Hf. assert (Hp : GET_PRECISION insn = funct7 insn mod 4) by apply precision_funct7.
  pose proof (Z.mod_pos_bound (funct7 insn) 4 ltac:(lia)) as Hr. unfold fp_format in Hf.
  assert (Hc : funct7 insn mod 4 = 0 /\ f = binary32 \/ funct7 insn mod 4 = 1 /\ f = binary64).
  { destruct (Z.to_nat (funct7 insn mod 4)) as [|[|n]] eqn:E; simplify_eq/=; [left|right]; split; lia || done. }
  destruct Hc as [[Hc ->]|[Hc ->]]; eexists; split.
  - apply (single_op_result op); apply (foperand_range binary32); cbn; lia.
  - assert (Hpat : pattern binary32 (single_op op (tp s >>> 13) (foperand binary32 s (rs1 insn)) (foperand binary32 s (rs2 insn)))).
    { eapply (pattern_result op binary32); [cbn; lia..| | |apply single_op_result]; apply (foperand_range binary32); cbn; lia. }
    split; [exact Hpat|]. rewrite <- (single_run (single_op op) Hpat).
    destruct op; unfold emulation_of, emulate_fadd, emulate_fsub, emulate_any_fadd, emulate_fmul, emulate_fdiv, by_precision;
      by rewrite Hp, Hc.
  - apply (double_op_result op); apply (foperand_range binary64); cbn; lia.
  - assert (Hpat : pattern binary64 (double_op op (tp s >>> 13) (foperand binary64 s (rs1 insn)) (foperand binary64 s (rs2 insn)))).
    { eapply (pattern_result op binary64); [cbn; lia..| | |apply double_op_result]; apply (foperand_range binary64); cbn; lia. }
    split; [exact Hpat|]. rewrite <- (double_run (double_op op)).
    destruct op; unfold emulation_of, emulate_fadd, emulate_fsub, emulate_any_fadd, emulate_fmul, emulate_fdiv, by_precision;
      by rewrite Hp, Hc.
Qed.

(** The rounding mode goes above bit 13 of tp, and the emulated fcsr stays below. *)
Lemma setup_run mc me ms :
  funct3 insn <= 4 \/ funct3 insn = 7 -> exists t, t mod 2 ^ 8 = tp s mod 2 ^ 8 /\ t >>> 13 = fp_rounding s insn /\
  SETUP_STATIC_ROUNDING mc me ms insn s = Done tt (with_tp t s).
Proof using Type.
  intros Hf. pose proof (funct3_range insn). unfold SETUP_STATIC_ROUNDING, asks, update, mbind, T_bind.
  rewrite dynamic_rounding, rm_funct3. change 0xFF with (Z.ones 8). rewrite Z.land_ones by lia.
  pose proof (Z.mod_pos_bound (tp s) (2 ^ 8) ltac:(lia)) as Ht. unfold fp_rounding. cbv beta iota zeta.
  destruct (Z.eqb_spec (funct3 insn) 7) as [H7|H7].
  - eexists; split; [|split; [|reflexivity]]; rewrite lor_disjoint_add' by lia; [zdm|]. rewrite shiftr_div by lia. zdm.
  - rewrite (proj2 (Z.ltb_ge 4 _)) by lia.
    eexists; split; [|split; [|reflexivity]]; rewrite lor_disjoint_add' by lia; [zdm|]. rewrite shiftr_div by lia. zdm.
Qed.

Lemma setup_illegal mc me ms :
  funct3 insn = 5 \/ funct3 insn = 6 -> SETUP_STATIC_ROUNDING mc me ms insn s = redirect_trap me ms s.
Proof using Type.
  intros Hf. unfold SETUP_STATIC_ROUNDING, asks, mbind, T_bind. cbv zeta.
  by rewrite dynamic_rounding, rm_funct3, (proj2 (Z.eqb_neq _ _)), (proj2 (Z.ltb_lt 4 _)) by lia.
Qed.
End run.

(** ** The whole handler *)

Lemma fp_table_entry insn op : is_uint 32 insn -> fp_op_of insn = Some op ->
  table_entry fp_emulation_table ((insn >>> 25) &&& 0x7c) = emulation_of op.
Proof.
  intros Hi Hop. unfold table_entry.
  assert (Ho : ((insn >>> 25) &&& 0x7c) / 4 = funct7 insn / 4).
  { change 0x7c with (Z.ones 5 <<< 2). rewrite land_field, shiftr_div by lia. change (2 ^ 2) with 4.
    rewrite Z.div_mul by lia. unfold funct7. zdm. }
  rewrite Ho. unfold fp_op_of in Hop. destruct (Z.to_nat (funct7 insn / 4)) as [|[|[|[|n]]]]; by simplify_eq/=.
Qed.

Lemma emulation_illegal insn op mc me ms s :
  fp_format insn = None -> emulation_of op mc me ms insn s = redirect_trap me ms s.
Proof.
  intros Hf. pose proof (precision_funct7 insn) as Hp. pose proof (Z.mod_pos_bound (funct7 insn) 4 ltac:(lia)).
  apply lookup_ge_None in Hf. cbn in Hf.
  destruct op; unfold emulation_of, emulate_fadd, emulate_fsub, emulate_any_fadd, emulate_fmul, emulate_fdiv,
    by_precision; rewrite Hp, !(proj2 (Z.eqb_neq (funct7 insn mod 4) _)) by (unfold PRECISION_S, PRECISION_D; lia); done.
Qed.

(** C27: fadd, fsub, fmul and fdiv of both precisions are emulated: the operands are those of the registers, the
    result is the correctly rounded one in the rounding mode of the instruction or else of fcsr, it goes to the
    target register (whose upper half stays for single precision) with the state marked dirty, its flags are
    added to those of the emulated fcsr, and the program goes on after the instruction.  When the unit is off, or
    the rounding mode or the precision is reserved, the supervisor gets the trap. *)
Theorem fp_arithmetic_correct s mcause pc insn op :
  wf_hart s -> is_uint 64 pc -> insn_at s pc insn -> opcode insn = 0x53 -> fp_op_of insn = Some op ->
  let next := set_csr_to MEPC (pc + 4) s in
  let trap := redirect_trap pc (csrs s MSTATUS) in
  if (csrs s MSTATUS &&& MSTATUS_FS =? 0) || (funct3 insn =? 5) || (funct3 insn =? 6)
  then illegal_insn_trap mcause pc s = trap next
  else match fp_format insn with
       | None => exists t, illegal_insn_trap mcause pc s = trap (with_tp t next)
       | Some f => exists v fl t,
           is_result op f (fp_rounding s insn) (foperand f s (rs1 insn)) (foperand f s (rs2 insn)) (v, fl) /\
           pattern f (v, fl) /\ t mod 2 ^ 8 = tp s mod 2 ^ 8 ||| fl /\
           illegal_insn_trap mcause pc s = Done tt (fp_written f (rd insn) v t next)
       end.
Proof.
  intros Hs Hpc Hin Hop Hf next trap. pose proof (insn_at_range _ _ _ Hs Hin) as Hi.
  rewrite (illegal_insn_trap_run s mcause pc insn) by done. rewrite Hop. change (0x53 mod 4 =? 3) with true.
  cbv iota. rewrite (handler_of_opcode insn 20 emulate_fp) by (done || by rewrite Hop). fold next.
  assert (wf_hart next) as Hn by by apply wf_set_csr. pose proof (funct3_range insn). unfold emulate_fp.
  destruct (csrs s MSTATUS &&& MSTATUS_FS =? 0); [done|]. cbn [orb].
  destruct ((funct3 insn =? 5) || (funct3 insn =? 6)) eqn:H56.
  { unfold mbind, T_bind. rewrite setup_illegal by (rewrite orb_true_iff, !Z.eqb_eq in H56; lia).
    by rewrite !redirect_trap_run. }
  rewrite orb_false_iff, !Z.eqb_neq in H56.
  destruct (setup_run next insn mcause pc (csrs s MSTATUS) ltac:(lia)) as (t & Ht & Hrm & Hset).
  rewrite (run_Done _ _ _ _ _ Hset), (fp_table_entry insn op) by done.
  destruct (fp_format insn) as [f|] eqn:Hfmt; [|exists t; by apply emulation_illegal].
  destruct (emulation_run (with_tp t next) insn (wf_with_tp _ _ Hn) op f mcause pc (csrs s MSTATUS) Hfmt)
    as ([v fl] & Hr & Hpat & ->). cbn [fst snd] in *. pose proof Hpat as [_ Hfl]. cbn [snd] in Hfl.
  change (tp (with_tp t next)) with t in *. rewrite Hrm in Hr.
  exists v, fl, (t ||| fl). split; [exact Hr|]. split; [exact Hpat|]. split; [|reflexivity].
  rewrite <- !land_ones_pow2, Z.land_lor_distr_l, !land_ones_pow2, Ht by lia. f_equal. apply Z.mod_small. lia.
Qed.

(** fdiv.s f5, f6, f7 of 1 by 0 in the mode of fcsr: infinity, and the flag of division by zero joins that of
    an inexact result. *)
Definition demo_fdiv : Z := 0x187372D3.
Definition demo_fregs (n : nat) : Z := if (n =? 38)%nat then 0x123456783F800000 else 0.

Lemma fp_arithmetic_correct_witness :
  let s := demo_hart demo_fdiv demo_fregs in
  exists t, t mod 2 ^ 8 = 0x29 /\
  illegal_insn_trap 2 0x1000 s = Done tt (fp_written binary32 5 0x7F800000 t (set_csr_to MEPC 0x1004 s)).
Proof.
  intros s.
  assert (wf_hart s) as Hs by (apply demo_wf; intros n; unfold is_uint, demo_fregs; destruct (n =? 38)%nat; lia).
  assert (is_uint 64 0x1000) as Hpc by (unfold is_uint; lia).
  assert (insn_at s 0x1000 demo_fdiv) as Hi by (apply demo_insn_at; unfold is_uint, demo_fdiv; lia).
  destruct (fp_arithmetic_correct s 2 0x1000 demo_fdiv FDiv Hs Hpc Hi eq_refl eq_refl)
    as (v & fl & t & Hr & _ & Ht & Hrun).
  assert ((v, fl) = (0x7F800000, 8)) as [= -> ->] by (vm_compute in Hr; exact Hr).
  exists t. split; [exact Ht|exact Hrun].
Defined.
