(* ===== verification/Ipi.v ===== *)
(** * Interrupts between harts: send_ipi and software_interrupt of mtrap.c

    A hart posts an event in the other's hart-local storage (an atomic or) and
    rings its software interrupt when the event was not already posted; the
    receiver clears the interrupt, takes the posted events (an atomic swap) and
    handles them.  send_ipi_many waits until the receivers have taken the event
    and meanwhile handles its own.  The steps of the harts interleave. *)

From stdpp Require Import relations.
From S2P Require Import Prelude.

(** ** Harts *)

Definition IPI_SOFT : Z := 0x1.
Definition IPI_FENCE_I : Z := 0x2.
Definition IPI_SFENCE_VM : Z := 0x4.

(** What a hart is doing in the monitor: nothing; sending [ev] to the harts of
    [todo] and then waiting for those of [wait]; about to ring [r]; waiting. *)
Inductive activity : Type :=
  | Idle
  | Sending (ev : Z) (todo wait : list nat)
  | Ringing (ev : Z) (r : nat) (todo wait : list nat)
  | Waiting (ev : Z) (wait : list nat).

(** Where software_interrupt is: not running; the interrupt bit cleared; the
    events taken. *)
Inductive handling : Type := NoIntr | Cleared | Taken (events : Z).

(** [owed]: a software interrupt has been sent that the supervisor has not been
    shown yet; no code depends on it. *)
Record node : Type := MkNode {
  mipi_pending : Z;
  msip : bool;
  sipi_pending : bool;
  ssip : bool;
  act : activity;
  intr : handling;
  owed : bool
}.

Definition with_act (a : activity) (n : node) : node :=
  MkNode (mipi_pending n) (msip n) (sipi_pending n) (ssip n) a (intr n) (owed n).

(** [atomic_or(&mipi_pending, event)] *)
Definition post (ev : Z) (n : node) : node :=
  MkNode (mipi_pending n ||| ev) (msip n) (sipi_pending n) (ssip n) (act n) (intr n)
    (owed n || (ev =? IPI_SOFT)).

(** [*ipi = 1] *)
Definition ring (n : node) : node :=
  MkNode (mipi_pending n) true (sipi_pending n) (ssip n) (act n) (intr n) (owed n).

(** The three parts of software_interrupt. *)
Definition clear_msip (n : node) : node :=
  MkNode (mipi_pending n) false (sipi_pending n) (ssip n) (act n) Cleared (owed n).
Definition take_events (n : node) : node :=
  MkNode 0 (msip n) (sipi_pending n) (ssip n) (act n) (Taken (mipi_pending n)) (owed n).
Definition handle_events (events : Z) (n : node) : node :=
  if negb (events &&& IPI_SOFT =? 0)
  then MkNode (mipi_pending n) (msip n) true true (act n) NoIntr false
  else MkNode (mipi_pending n) (msip n) (sipi_pending n) (ssip n) (act n) NoIntr (owed n).

(** [mcall_clear_ipi], with no character waiting on the console. *)
Definition clear_ipi (n : node) : node :=
  MkNode (mipi_pending n) (msip n) false false (act n) (intr n) (owed n).

(** After [atomic_or]: whether the event was already posted decides. *)
Definition after_post (ev : Z) (r : nat) (old : Z) (todo wait : list nat) : activity :=
  if old &&& ev =? 0 then Ringing ev r todo wait else Sending ev todo wait.

(** ** Steps *)

(** The harts of a mask, from the highest on. *)
Definition targets (n : nat) (mask : Z) : list nat :=
  filter (fun i => Z.testbit mask (Z.of_nat i) = true) (reverse (seq 0 n)).

(** A step of hart [i] inside the monitor. *)
Inductive internal : list node -> list node -> Prop :=
  | step_post l i n r m ev todo wait :
      l !! i = Some n -> intr n = NoIntr -> act n = Sending ev (r :: todo) wait -> l !! r = Some m ->
      internal l (alter (with_act (after_post ev r (mipi_pending m) todo wait)) i (alter (post ev) r l))
  | step_ring l i n r ev todo wait :
      l !! i = Some n -> intr n = NoIntr -> act n = Ringing ev r todo wait ->
      internal l (alter (with_act (Sending ev todo wait)) i (alter ring r l))
  | step_sent l i n ev wait :
      l !! i = Some n -> intr n = NoIntr -> act n = Sending ev [] wait ->
      internal l (alter (with_act (Waiting ev wait)) i l)
  | step_taken l i n r m ev wait :
      l !! i = Some n -> intr n = NoIntr -> act n = Waiting ev (r :: wait) -> l !! r = Some m ->
      mipi_pending m &&& ev = 0 ->
      internal l (alter (with_act (Waiting ev wait)) i l)
  | step_poll l i n r m ev wait :
      l !! i = Some n -> intr n = NoIntr -> act n = Waiting ev (r :: wait) -> l !! r = Some m ->
      mipi_pending m &&& ev <> 0 ->
      internal l (alter clear_msip i l)
  | step_return l i n ev :
      l !! i = Some n -> intr n = NoIntr -> act n = Waiting ev [] ->
      internal l (alter (with_act Idle) i l)
  | step_interrupt l i n :
      l !! i = Some n -> intr n = NoIntr -> act n = Idle -> msip n = true ->
      internal l (alter clear_msip i l)
  | step_swap l i n :
      l !! i = Some n -> intr n = Cleared ->
      internal l (alter take_events i l)
  | step_handle l i n events :
      l !! i = Some n -> intr n = Taken events ->
      internal l (alter (handle_events events) i l).

(** A call of the supervisor: an interrupt for one hart, an event for the harts
    of a mask, or the acknowledgement of an interrupt. *)
Inductive call : list node -> list node -> Prop :=
  | call_send_ipi l i n r :
      l !! i = Some n -> intr n = NoIntr -> act n = Idle -> (r < length l)%nat ->
      call l (alter (with_act (Sending IPI_SOFT [r] [])) i l)
  | call_send_ipi_many l i n ev mask :
      l !! i = Some n -> intr n = NoIntr -> act n = Idle -> ev = IPI_FENCE_I \/ ev = IPI_SFENCE_VM ->
      call l (alter (with_act (Sending ev (targets (length l) mask) (targets (length l) mask))) i l)
  | call_clear_ipi l i n :
      l !! i = Some n -> intr n = NoIntr -> act n = Idle ->
      call l (alter clear_ipi i l).

Definition initial (n : nat) : list node := replicate n (MkNode 0 false false false Idle NoIntr false).

Definition step (l l' : list node) : Prop := internal l l' \/ call l l'.
Definition reachable (n : nat) (l : list node) : Prop := rtc step (initial n) l.

(** ** What holds in every reachable state *)

Definition rings (a : activity) : option nat := match a with Ringing _ r _ _ => Some r | _ => None end.
Definition mentions (a : activity) : list nat :=
  match a with
  | Idle => []
  | Sending _ todo wait => todo ++ wait
  | Ringing _ r todo wait => r :: todo ++ wait
  | Waiting _ wait => wait
  end.

Definition ringing (l : list node) (h : nat) : Prop :=
  exists k n, l !! k = Some n /\ rings (act n) = Some h.

(** A posted event is on its way: the interrupt is pending, or is about to be
    rung, or the handler is about to take the event; a software interrupt that
    is owed is posted or taken; and every hart named exists. *)
Record inv (l : list node) : Prop := {
  inv_posted h n : l !! h = Some n -> mipi_pending n <> 0 ->
    msip n = true \/ intr n = Cleared \/ ringing l h;
  inv_owed h n : l !! h = Some n -> owed n = true ->
    mipi_pending n &&& IPI_SOFT <> 0 \/ exists p, intr n = Taken p /\ p &&& IPI_SOFT <> 0;
  inv_named h n : l !! h = Some n -> Forall (fun r => (r < length l)%nat) (mentions (act n))
}.

(** ** Preservation *)

Lemma alter_inv (f : node -> node) (i h : nat) (l : list node) n :
  alter f i l !! h = Some n -> exists n0, l !! h = Some n0 /\ n = if decide (i = h) then f n0 else n0.
Proof.
  destruct (decide (i = h)) as [->|]; intros H.
  - rewrite list_lookup_alter_eq in H. destruct (l !! h) as [n0|]; [|done]. injection H as <-. eauto.
  - rewrite list_lookup_alter_ne in H by done. eauto.
Qed.

Lemma alter_fwd (f : node -> node) (i h : nat) (l : list node) n :
  l !! h = Some n -> alter f i l !! h = Some (if decide (i = h) then f n else n).
Proof.
  intros H. destruct (decide (i = h)) as [->|].
  - by rewrite list_lookup_alter_eq, H.
  - by rewrite list_lookup_alter_ne.
Qed.

(** A change of one hart that keeps what the invariant asks of it: a hart may
    stop ringing another only when the other's interrupt is pending. *)
Record keeps_inv (f : node -> node) (i : nat) (l : list node) (n : node) : Prop := {
  ki_posted : mipi_pending (f n) <> 0 ->
    msip (f n) = true \/ intr (f n) = Cleared \/
    (mipi_pending n <> 0 /\ msip (f n) = msip n /\ intr (f n) = intr n) \/ ringing (alter f i l) i;
  ki_owed : owed (f n) = true ->
    mipi_pending (f n) &&& IPI_SOFT <> 0 \/ exists p, intr (f n) = Taken p /\ p &&& IPI_SOFT <> 0;
  ki_named : Forall (fun r => (r < length l)%nat) (mentions (act (f n)));
  ki_rings h m : rings (act n) = Some h -> alter f i l !! h = Some m ->
    rings (act (f n)) = Some h \/ msip m = true
}.

Lemma inv_alter f i l : inv l -> (forall n, l !! i = Some n -> keeps_inv f i l n) -> inv (alter f i l).
Proof.
  intros Hl Hf.
  assert (forall h m, alter f i l !! h = Some m -> ringing l h -> msip m = true \/ ringing (alter f i l) h) as Hring.
  { intros h m Hm (k & n & Hk & Hr). destruct (decide (i = k)) as [->|].
    - destruct (ki_rings _ _ _ _ (Hf n Hk) h m Hr Hm) as [Hr'|]; [|by left].
      right. exists k, (f n). split; [|done]. by rewrite (alter_fwd f k k l n Hk), decide_True.
    - right. exists k, n. split; [|done]. by rewrite (alter_fwd f i k l n Hk), decide_False. }
  split; intros h n Hn; pose proof Hn as Hn'; apply alter_inv in Hn as (n0 & Hn0 & ->).
  - intros Hp. destruct (decide (i = h)) as [->|].
    + destruct (ki_posted _ _ _ _ (Hf n0 Hn0) Hp) as [?|[?|[(Hp0 & E1 & E2)|?]]]; [tauto..| |tauto].
      rewrite E1, E2. destruct (inv_posted l Hl h n0 Hn0 Hp0) as [?|[?|Hr]]; [tauto..|].
      destruct (Hring h _ Hn' Hr) as [?|?]; [left; congruence|tauto].
    + destruct (inv_posted l Hl h n0 Hn0 Hp) as [?|[?|Hr]]; [tauto..|].
      destruct (Hring h _ Hn' Hr) as [?|?]; tauto.
  - intros Ho. destruct (decide (i = h)) as [->|]; [by apply (ki_owed _ _ _ _ (Hf n0 Hn0))|by apply (inv_owed l Hl h)].
  - rewrite length_alter.
    destruct (decide (i = h)) as [->|]; [by apply (ki_named _ _ _ _ (Hf n0 Hn0))|by apply (inv_named l Hl h)].
Qed.

Lemma alter_same (f g : node -> node) (i r : nat) (l : list node) :
  (forall n, f (g n) = g (f n)) -> alter f i (alter g r l) = alter g r (alter f i l).
Proof.
  intros H. destruct (decide (i = r)) as [->|]; [|by apply list_alter_alter_ne].
  rewrite !list_alter_alter_eq. apply list_alter_ext; [|done]. intros. simpl. apply H.
Qed.

Lemma targets_bound n mask : Forall (fun r => (r < n)%nat) (targets n mask).
Proof.
  apply Forall_forall. intros r Hr. apply list_elem_of_filter in Hr as [_ Hr].
  apply elem_of_reverse, elem_of_seq in Hr. lia.
Qed.

(** Changes that touch neither the events nor the interrupt. *)
Lemma keeps_with_act a i l n :
  inv l -> l !! i = Some n -> Forall (fun r => (r < length l)%nat) (mentions a) ->
  (forall h m, rings (act n) = Some h -> alter (with_act a) i l !! h = Some m -> rings a = Some h \/ msip m = true) ->
  keeps_inv (with_act a) i l n.
Proof.
  intros Hl Hi Ha Hr. split; [|exact (inv_owed l Hl i n Hi)|done|done].
  intros Hp. right; right; left. done.
Qed.

Lemma land_lor_left x ev : x &&& IPI_SOFT <> 0 -> (x ||| ev) &&& IPI_SOFT <> 0.
Proof. intros H. rewrite Z.land_lor_distr_l. intros E. by apply Z.lor_eq_0_iff in E as [E _]. Qed.

(** A change of what a hart does, to something that names the same harts. *)
Lemma inv_with_act a i l n :
  inv l -> l !! i = Some n -> (forall r, r ∈ mentions a -> r ∈ mentions (act n)) ->
  (forall h m, rings (act n) = Some h -> alter (with_act a) i l !! h = Some m -> rings a = Some h \/ msip m = true) ->
  inv (alter (with_act a) i l).
Proof.
  intros Hl Hi Ha Hr. apply inv_alter; [done|]. intros n' E. rewrite Hi in E. injection E as <-.
  apply keeps_with_act; [done..| |done]. pose proof (inv_named l Hl i n Hi) as Hf.
  rewrite Forall_forall in Hf |- *. intros r Hin. apply Hf, Ha, Hin.
Qed.

Lemma inv_post ev r l m :
  inv l -> l !! r = Some m -> (mipi_pending m = 0 -> ringing (alter (post ev) r l) r) -> inv (alter (post ev) r l).
Proof.
  intros Hl Hr Hring. apply inv_alter; [done|]. intros n E. rewrite Hr in E. injection E as <-. split; simpl.
  - intros _. destruct (decide (mipi_pending m = 0)) as [E0|]; [|by right; right; left]. right; right; right. auto.
  - rewrite orb_true_iff. intros [Ho|Ho].
    + destruct (inv_owed l Hl r m Hr Ho) as [?|?]; [|by right]. left. by apply land_lor_left.
    + apply Z.eqb_eq in Ho as ->. left. rewrite Z.land_lor_distr_l. intros E.
      by apply Z.lor_eq_0_iff in E as [_ E].
  - by apply (inv_named l Hl r).
  - by left.
Qed.

Lemma inv_ring r l : inv l -> inv (alter ring r l).
Proof.
  intros Hl. apply inv_alter; [done|]. intros n Hn. split; simpl.
  - by left.
  - exact (inv_owed l Hl r n Hn).
  - exact (inv_named l Hl r n Hn).
  - by left.
Qed.

Lemma inv_handling f i l n :
  inv l -> l !! i = Some n -> act (f n) = act n ->
  (mipi_pending (f n) <> 0 -> msip (f n) = true \/ intr (f n) = Cleared \/
    (mipi_pending n <> 0 /\ msip (f n) = msip n /\ intr (f n) = intr n) \/ ringing (alter f i l) i) ->
  (owed (f n) = true ->
    mipi_pending (f n) &&& IPI_SOFT <> 0 \/ exists p, intr (f n) = Taken p /\ p &&& IPI_SOFT <> 0) ->
  inv (alter f i l).
Proof.
  intros Hl Hi Ha Hp Ho. apply inv_alter; [done|]. intros n' E. rewrite Hi in E. injection E as <-.
  split; [done|done|rewrite Ha; by apply (inv_named l Hl i)|rewrite Ha; by left].
Qed.

Lemma ringing_handling f i l h :
  (forall n, act (f n) = act n) -> ringing l h -> ringing (alter f i l) h.
Proof.
  intros Ha (k & n & Hk & Hr). exists k. eexists. split; [by apply alter_fwd|].
  case_decide; by rewrite ?Ha.
Qed.

Lemma internal_inv l l' : inv l -> internal l l' -> inv l'.
Proof.
  intros Hl Hs. revert Hl. destruct Hs as [l0 i n r m ev todo wait Hi Hn Ha Hm|l0 i n r ev todo wait Hi Hn Ha|l0 i n ev wait Hi Hn Ha
    |l0 i n r m ev wait Hi Hn Ha Hm Hz|l0 i n r m ev wait Hi Hn Ha Hm Hz|l0 i n ev Hi Hn Ha|l0 i n Hi Hn Ha Hb
    |l0 i n Hi Hn|l0 i n events Hi Hn]; intros Hl.
  - rewrite alter_same by done.
    assert (inv (alter (with_act (after_post ev r (mipi_pending m) todo wait)) i l0)) as Hl1.
    { apply (inv_with_act _ i l0 n); [done|done| |by rewrite Ha].
      rewrite Ha. unfold after_post. intros q. case_match; simpl; set_solver. }
    eapply inv_post; [done|by apply alter_fwd|]. intros E0. exists i. eexists.
    split; [apply alter_fwd; by apply alter_fwd|]. rewrite (decide_True (P := i = i)) by done.
    assert (mipi_pending m = 0) as E1 by (by destruct (decide (i = r))).
    unfold after_post. rewrite E1. by destruct (decide (r = i)).
  - assert (inv (alter ring r l0)) as Hl1 by by apply inv_ring.
    apply (inv_with_act _ i _ (if decide (r = i) then ring n else n)); [done|by apply alter_fwd|..].
    + intros q. assert (act (if decide (r = i) then ring n else n) = act n) as -> by by case_decide.
      rewrite Ha. simpl. set_solver.
    + intros h q. assert (act (if decide (r = i) then ring n else n) = act n) as -> by by case_decide.
      rewrite Ha. intros [= <-] Hq. right. rewrite alter_same in Hq by done.
      apply alter_inv in Hq as (q0 & _ & ->). by rewrite decide_True.
  - apply (inv_with_act _ i l0 n); [done|done|by rewrite Ha|by rewrite Ha].
  - apply (inv_with_act _ i l0 n); [done|done|rewrite Ha; simpl; set_solver|by rewrite Ha].
  - apply (inv_handling _ i l0 n); [done|done|done|by right; left|]. intros Ho.
    destruct (inv_owed l0 Hl i n Hi Ho) as [?|(p & Hp & _)]; [by left|congruence].
  - apply (inv_with_act _ i l0 n); [done|done|rewrite Ha; simpl; set_solver|by rewrite Ha].
  - apply (inv_handling _ i l0 n); [done|done|done|by right; left|]. intros Ho.
    destruct (inv_owed l0 Hl i n Hi Ho) as [?|(p & Hp & _)]; [by left|congruence].
  - apply (inv_handling _ i l0 n); [done|done|done|done|]. intros Ho. right. exists (mipi_pending n).
    split; [done|]. destruct (inv_owed l0 Hl i n Hi Ho) as [?|(p & Hp & _)]; [done|congruence].
  - assert (forall k, act (handle_events events k) = act k) as Hact by (intros k; unfold handle_events; by case_match).
    apply (inv_handling _ i l0 n); [done|done|apply Hact|..].
    + assert (mipi_pending (handle_events events n) = mipi_pending n) as -> by (unfold handle_events; by case_match).
      assert (msip (handle_events events n) = msip n) as -> by (unfold handle_events; by case_match).
      intros Hp. destruct (inv_posted l0 Hl i n Hi Hp) as [?|[?|?]]; [by left|congruence|].
      right; right; right. by apply ringing_handling.
    + unfold handle_events. destruct (Z.eqb_spec (events &&& IPI_SOFT) 0) as [E|E]; simpl; [|done].
      intros Ho. destruct (inv_owed l0 Hl i n Hi Ho) as [?|(p & Hp & Hps)]; [by left|].
      rewrite Hn in Hp. by injection Hp as <-.
Qed.

Lemma call_inv l l' : inv l -> call l l' -> inv l'.
Proof.
  intros Hl Hs. revert Hl.
  destruct Hs as [l0 i n r Hi Hn Ha Hr|l0 i n ev mask Hi Hn Ha Hev|l0 i n Hi Hn Ha]; intros Hl.
  - apply inv_alter; [done|]. intros n' E. rewrite Hi in E. injection E as <-.
    apply keeps_with_act; [done|done|simpl; by constructor|by rewrite Ha].
  - apply inv_alter; [done|]. intros n' E. rewrite Hi in E. injection E as <-.
    apply keeps_with_act; [done|done| |by rewrite Ha].
    simpl. apply Forall_app. split; apply targets_bound.
  - apply (inv_handling _ i l0 n); [done|done|done|by right; right; left|exact (inv_owed l0 Hl i n Hi)].
Qed.

Lemma initial_inv n : inv (initial n).
Proof.
  split; intros h m Hm; apply lookup_replicate in Hm as [-> _]; simpl; done.
Qed.

Lemma ipi_reachable_inv n l : reachable n l -> inv l.
Proof.
  intros Hr. unfold reachable in Hr. pose proof (initial_inv n) as H0. revert H0.
  induction Hr as [|l l1 l2 Hs _ IH]; intros H0; [done|]. apply IH.
  destruct Hs as [Hs|Hs]; [by eapply internal_inv|by eapply call_inv].
Qed.

(** ** Quiescence *)

Definition quiet_node (n : node) : Prop :=
  act n = Idle /\ intr n = NoIntr /\ mipi_pending n = 0 /\ msip n = false /\ owed n = false.
Definition quiet (l : list node) : Prop := Forall quiet_node l.

#[export] Instance activity_eq_dec : EqDecision activity.
Proof. solve_decision. Defined.
#[export] Instance handling_eq_dec : EqDecision handling.
Proof. solve_decision. Defined.

(** The work that is left: each step of the schedule below takes some away. *)
Definition act_weight (a : activity) : nat :=
  match a with
  | Idle => 0
  | Waiting _ wait => 1 + length wait
  | Sending _ todo wait => 2 + length wait + 10 * length todo
  | Ringing _ _ todo wait => 6 + length wait + 10 * length todo
  end.
Definition intr_weight (h : handling) : nat := match h with NoIntr => 0 | Taken _ => 1 | Cleared => 2 end.
Definition weight (n : node) : nat :=
  act_weight (act n) + intr_weight (intr n) + (if decide (mipi_pending n = 0) then 0 else 4) + (if msip n then 3 else 0).
Definition work (l : list node) : nat := sum_list_with weight l.

Lemma work_alter f i (l : list node) n :
  l !! i = Some n -> (work (alter f i l) + weight n = work l + weight (f n))%nat.
Proof.
  unfold work. revert i. induction l as [|m l IH]; intros [|i] Hi; try done; simpl in *.
  - injection Hi as ->. lia.
  - specialize (IH i Hi). change (list_alter f i l) with (alter f i l). lia.
Qed.

Lemma work_less f i (l : list node) n :
  l !! i = Some n -> (weight (f n) < weight n)%nat -> (work (alter f i l) < work l)%nat.
Proof. intros Hi Hw. pose proof (work_alter f i l n Hi). lia. Qed.

(** The first part of [weight]: a change of activity alone. *)
Lemma work_with_act a i (l : list node) n :
  l !! i = Some n -> (act_weight a < act_weight (act n))%nat -> (work (alter (with_act a) i l) < work l)%nat.
Proof. intros Hi Ha. eapply work_less; [done|]. unfold weight. simpl. lia. Qed.

Lemma handle_weight events n : intr n = Taken events -> (weight (handle_events events n) < weight n)%nat.
Proof. intros Hn. unfold weight, handle_events. rewrite Hn. destruct (negb _); simpl; lia. Qed.

Lemma swap_weight n : intr n = Cleared -> (weight (take_events n) < weight n)%nat.
Proof. intros Hn. unfold weight. rewrite Hn. simpl. case_decide; lia. Qed.

Lemma clear_weight n : intr n = NoIntr -> msip n = true -> (weight (clear_msip n) < weight n)%nat.
Proof. intros Hn Hm. unfold weight. rewrite Hn, Hm. simpl. lia. Qed.

Lemma post_weight ev m : (weight (post ev m) <= weight m + 4)%nat.
Proof. unfold weight. simpl. repeat case_decide; lia. Qed.

Lemma ring_weight m : (weight (ring m) <= weight m + 3)%nat.
Proof. unfold weight. simpl. destruct (msip m); lia. Qed.

Lemma act_weight_alter f g i r (l : list node) n m k :
  l !! i = Some n -> l !! r = Some m -> (forall x, act (g x) = act x) -> (weight (g m) <= weight m + k)%nat ->
  (forall x, act x = act n -> (weight (f x) + k < weight x)%nat) ->
  (work (alter f i (alter g r l)) < work l)%nat.
Proof.
  intros Hi Hr Hg Hk Hf. pose proof (work_alter g r l m Hr) as E1.
  pose proof (alter_fwd g r i l n Hi) as Hi'. pose proof (work_alter f i _ _ Hi') as E2.
  assert (act (if decide (r = i) then g n else n) = act n) as Ha by (case_decide; [apply Hg|done]).
  specialize (Hf _ Ha). lia.
Qed.

(** A step that takes work away, unless all is quiet. *)
Definition progress (l : list node) : Prop := exists l', internal l l' /\ (work l' < work l)%nat.

Lemma progress_handling l i n : l !! i = Some n -> intr n <> NoIntr -> progress l.
Proof.
  intros Hi Hn. destruct (intr n) as [| |events] eqn:E; [done|..].
  - eexists. split; [by eapply step_swap|]. by eapply work_less, swap_weight.
  - eexists. split; [by eapply step_handle|]. by eapply work_less, handle_weight.
Qed.

Lemma progress_sending l i n ev todo wait :
  inv l -> l !! i = Some n -> intr n = NoIntr -> act n = Sending ev todo wait -> progress l.
Proof.
  intros Hl Hi Hn Ha. pose proof (inv_named l Hl i n Hi) as Hf. rewrite Ha in Hf. destruct todo as [|r todo].
  - eexists. split; [by apply (step_sent l i n ev wait)|]. eapply work_with_act; [done|]. rewrite Ha. simpl. lia.
  - apply Forall_cons in Hf as [Hr _]. apply lookup_lt_is_Some in Hr as [m Hm].
    eexists. split; [by apply (step_post l i n r m ev todo wait)|].
    eapply (act_weight_alter _ _ _ _ _ _ _ 4); [done|done|done|apply post_weight|].
    intros x Hx. unfold weight. simpl. rewrite Hx, Ha. unfold after_post. case_match; simpl; lia.
Qed.

Lemma progress_ringing l i n ev r todo wait :
  inv l -> l !! i = Some n -> intr n = NoIntr -> act n = Ringing ev r todo wait -> progress l.
Proof.
  intros Hl Hi Hn Ha. pose proof (inv_named l Hl i n Hi) as Hf. rewrite Ha in Hf.
  apply Forall_cons in Hf as [Hr _]. apply lookup_lt_is_Some in Hr as [m Hm].
  eexists. split; [by apply (step_ring l i n r ev todo wait)|].
  eapply (act_weight_alter _ _ _ _ _ _ _ 3); [done|done|done|apply ring_weight|].
  intros x Hx. unfold weight. simpl. rewrite Hx, Ha. simpl. lia.
Qed.

Lemma progress_waiting l i n ev wait :
  inv l -> l !! i = Some n -> intr n = NoIntr -> act n = Waiting ev wait ->
  msip n = true \/ (forall h m, l !! h = Some m -> mipi_pending m = 0) -> progress l.
Proof.
  intros Hl Hi Hn Ha Hm. pose proof (inv_named l Hl i n Hi) as Hf. rewrite Ha in Hf. destruct wait as [|r wait].
  - eexists. split; [by apply (step_return l i n ev)|]. eapply work_with_act; [done|]. rewrite Ha. simpl. lia.
  - apply Forall_cons in Hf as [Hr _]. apply lookup_lt_is_Some in Hr as [m Hr].
    destruct (decide (mipi_pending m &&& ev = 0)) as [Hz|Hz].
    + eexists. split; [by apply (step_taken l i n r m ev wait)|]. eapply work_with_act; [done|]. rewrite Ha. simpl. lia.
    + destruct Hm as [Hm|Hm]; [|by rewrite (Hm r m Hr), Z.land_0_l in Hz].
      eexists. split; [by apply (step_poll l i n r m ev wait)|]. by eapply work_less, clear_weight.
Qed.

(** A hart with a property, or none. *)
Lemma find_hart (P : node -> Prop) `{forall n, Decision (P n)} (l : list node) :
  (exists (i : nat) n, l !! i = Some n /\ P n) \/ forall (i : nat) n, l !! i = Some n -> ~ P n.
Proof.
  destruct (decide (Exists P l)) as [He|He].
  - left. apply Exists_exists in He as (n & Hin & Hn). apply list_elem_of_lookup in Hin as [i Hi]. eauto.
  - right. intros i n Hi Hn. apply He, Exists_exists. exists n. split; [by eapply list_elem_of_lookup_2|done].
Qed.

Lemma quiet_or_progress l : inv l -> quiet l \/ progress l.
Proof.
  intros Hl.
  destruct (find_hart (fun n => intr n <> NoIntr) l) as [(i & n & Hi & Hn)|Hintr];
    [right; by eapply progress_handling|].
  assert (forall i n, l !! i = Some n -> intr n = NoIntr) as Hno.
  { intros i n Hi. specialize (Hintr i n Hi). by destruct (decide (intr n = NoIntr)). }
  destruct (find_hart (fun n => rings (act n) <> None) l) as [(i & n & Hi & Hn)|Hring].
  { right. destruct (act n) eqn:Ha; try done. eapply progress_ringing; eauto. }
  assert (forall h, ~ ringing l h) as Hnr.
  { intros h (k & n & Hk & Hr). apply (Hring k n Hk). congruence. }
  assert (forall i n, l !! i = Some n -> msip n = true -> progress l) as Hms.
  { intros i n Hi Hm. destruct (act n) eqn:Ha.
    - eexists. split; [by eapply step_interrupt; eauto|]. eapply work_less, clear_weight; eauto.
    - eapply progress_sending; eauto.
    - eapply progress_ringing; eauto.
    - eapply progress_waiting; eauto. }
  destruct (find_hart (fun n => msip n = true) l) as [(i & n & Hi & Hn)|Hmsip]; [right; by eapply Hms|].
  assert (forall h m, l !! h = Some m -> mipi_pending m = 0) as Hz.
  { intros h m Hm. destruct (decide (mipi_pending m = 0)) as [|Hp]; [done|].
    destruct (inv_posted l Hl h m Hm Hp) as [H|[H|H]];
      [by apply (Hmsip h m) in H|by rewrite (Hno h m Hm) in H|by apply Hnr in H]. }
  destruct (find_hart (fun n => act n <> Idle) l) as [(i & n & Hi & Hn)|Hidle].
  - right. destruct (act n) eqn:Ha; [done|..].
    + eapply progress_sending; eauto.
    + eapply progress_ringing; eauto.
    + eapply progress_waiting; eauto.
  - left. apply Forall_lookup_2. intros i n Hi. split_and!; [|eauto|eauto|..].
    + destruct (decide (act n = Idle)); [done|]. by apply (Hidle i n) in Hi.
    + specialize (Hmsip i n Hi). by destruct (msip n).
    + destruct (owed n) eqn:Ho; [|done]. exfalso.
      destruct (inv_owed l Hl i n Hi Ho) as [H|(p & H & _)]; [by rewrite (Hz i n Hi), Z.land_0_l in H|].
      by rewrite (Hno i n Hi) in H.
Qed.


