(* ===== verification/ConfigString.v ===== *)
(** * The configuration string: machine/configstring.h, configstring.c

    The hardware describes itself in a string of nested [key value;] pairs that
    the monitor searches for the memory, the clock and the harts.  A
    [const char *] into the string is the part of the string that it points to,
    up to and including the final 0; reading behind that is [OutOfBounds]. *)

From stdpp Require Import gmap.
From S2P Require Import Prelude Str.

(** ** Scanning *)

(** [*str] *)
Definition deref (str : list Z) : outcome Z :=
  match str with c :: _ => Ret c | [] => Fault OutOfBounds end.
(** [*(str + n)] *)
Definition deref_at (str : list Z) (n : Z) : outcome Z := get str n.
(** [end - start] for pointers into one string. *)
Definition distance (start end_ : list Z) : Z := lenz start - lenz end_.

Fixpoint skip_whitespace (str : list Z) : outcome (list Z) :=
  match str with
  | c :: str' => if negb (c =? 0) && (c <=? 32) then skip_whitespace str' else Ret str
  | [] => Fault OutOfBounds
  end.

(** Behind the next quotation mark, or at the final 0. *)
Fixpoint skip_string (str : list Z) : outcome (list Z) :=
  match str with
  | c :: str' => if c =? 0 then Ret str else if c =? 34 then Ret str' else skip_string str'
  | [] => Fault OutOfBounds
  end.

Definition key_char (c : Z) : bool := (35 <=? c) && (c <=? 122) && negb (c =? 59).

Fixpoint skip_key (str : list Z) : outcome (list Z) :=
  match str with
  | c :: str' => if key_char c then skip_key str' else Ret str
  | [] => Fault OutOfBounds
  end.

(** ** The search *)

(** [query_result]; [None] is the null pointer. *)
Record query_result : Type := MkResult { start : option (list Z); end_ : option (list Z) }.

(** [while (k[ksize] && k[ksize] != '{') ksize++] *)
Fixpoint key_size (k : list Z) : outcome nat :=
  match k with
  | c :: k' => if (c =? 0) || (c =? 123) then Ret O else n ← key_size k'; Ret (S n)
  | [] => Fault OutOfBounds
  end.

(** The loop that compares the key with the first [n] characters of [k]. *)
Fixpoint same_key (n : nat) (key k : list Z) : outcome bool :=
  match n with
  | O => Ret true
  | S n =>
      x ← deref key; y ← deref k;
      b ← same_key n (tail key) (tail k);
      Ret ((x =? y) && b)
  end.

(** The outer loop of query_config_string, from [str] on, with the end of the
    last value in [res_end], and its inner loop over the parts of a value, which
    returns the result of the function or goes on with the [;] at [str]. *)
Fixpoint query_entries (fuel : nat) (str k : list Z) (res_end : option (list Z)) : outcome query_result :=
  match fuel with
  | O => Fault Blocked
  | S fuel =>
      ksize ← key_size k;
      c ← deref (drop ksize k);
      let last := c =? 0 in
      key_start ← skip_whitespace str;
      key_end ← skip_key key_start;
      same ← (if distance key_start key_end =? Z.of_nat ksize then same_key ksize key_start k else Ret false);
      value_start ← skip_whitespace key_end;
      r ← query_value fuel value_start (if (same : bool) && negb last then drop (S ksize) k else [0]) res_end;
      match r with
      | inl res => Ret res
      | inr str =>
          if same && last then Ret (MkResult (Some value_start) (Some str))
          else
            next ← skip_whitespace (tail str);
            c ← deref next;
            if c =? 125 then Ret (MkResult None (Some next))
            else query_entries fuel next k (Some str)
      end
  end
with query_value (fuel : nat) (str search_key : list Z) (res_end : option (list Z)) :
    outcome (query_result + list Z) :=
  match fuel with
  | O => Fault Blocked
  | S fuel =>
      c ← deref str;
      if c =? 59 then Ret (inr str)
      else if c =? 0 then Ret (inl (MkResult None res_end))
      else if c =? 34 then
        str ← skip_string (tail str);
        str ← skip_whitespace str;
        query_value fuel str search_key res_end
      else if c =? 123 then
        inner_res ← query_entries fuel (tail str) search_key None;
        match start inner_res with
        | Some _ => Ret (inl inner_res)
        | None =>
            match end_ inner_res with
            | None => Fault NullDeref
            | Some e =>
                str ← skip_whitespace (tail e);
                query_value fuel str search_key res_end
            end
        end
      else
        str ← skip_key str;
        str ← skip_whitespace str;
        query_value fuel str search_key res_end
  end.

(** Every second call consumes a character. *)
Definition query_config_string (str k : list Z) : outcome query_result :=
  query_entries (2 * length str + 2) str k None.

(** ** Values *)

Definition is_hex (ch : Z) : bool :=
  ((48 <=? ch) && (ch <=? 57)) || ((97 <=? ch) && (ch <=? 102)) || ((65 <=? ch) && (ch <=? 70)).

Definition parse_hex (ch : Z) : Z :=
  if (48 <=? ch) && (ch <=? 57) then ch - 48
  else if (97 <=? ch) && (ch <=? 102) then ch - 97 + 10
  else ch - 65 + 10.

(** The value of one character of a quoted string at [p], and how many
    characters of the string it takes. *)
Definition parse_char (p : list Z) : outcome (Z * nat) :=
  ch ← deref p;
  escape ← (if ch =? 92 then
              c1 ← deref_at p 1;
              if c1 =? 120 then c2 ← deref_at p 2; Ret (is_hex c2) else Ret false
            else Ret false);
  if (escape : bool) then
    c2 ← deref_at p 2;
    c3 ← deref_at p 3;
    if is_hex c3 then Ret (u8 ((parse_hex c2 <<< 4) + parse_hex c3), 4%nat) else Ret (u8 (parse_hex c2), 3%nat)
  else Ret (ch, 1%nat).

(** The loops of parse_string, which write from [i] on. *)
Fixpoint parse_quoted (fuel : nat) (p end_ buf : list Z) (i : Z) : outcome (list Z * Z) :=
  match fuel with
  | O => Fault Blocked
  | S fuel =>
      if 0 <? distance p end_ then
        c ← deref p;
        if c =? 34 then Ret (buf, i)
        else
          '(ch, n) ← parse_char p;
          buf ← put buf i ch;
          parse_quoted fuel (drop n p) end_ buf (i + 1)
      else Ret (buf, i)
  end.

Fixpoint parse_word (p end_ buf : list Z) (i : Z) : outcome (list Z * Z) :=
  match p with
  | c :: p' =>
      if (0 <? distance p end_) && (32 <? c) then buf ← put buf i c; parse_word p' end_ buf (i + 1)
      else Ret (buf, i)
  | [] => Ret (buf, i)
  end.

Definition parse_string (start end_ buf : list Z) : outcome (list Z) :=
  '(buf, i) ← (if 0 <? distance start end_ then
                 c ← deref start;
                 if c =? 34 then parse_quoted (S (length start)) (tail start) end_ buf 0
                 else parse_word start end_ buf 0
               else Ret (buf, 0));
  put buf i 0.

(** [char name[end - start + 1]; parse_string(res, name)]: two null pointers give
    the empty string, one is dereferenced. *)
Definition get_string (res : query_result) : outcome (list Z) :=
  match start res, end_ res with
  | Some s, Some e => parse_string s e (zeros (distance s e + 1))
  | None, None => Ret [0]
  | _, _ => Fault NullDeref
  end.

Fixpoint __get_uint_hex (s : list Z) (res : Z) : outcome Z :=
  match s with
  | [] => Fault OutOfBounds
  | c :: s =>
      if c =? 0 then Ret res
      else if is_hex c then __get_uint_hex s (u64 (u64 (res <<< 4) + parse_hex c))
      else if negb (c =? 95) then Ret res
      else __get_uint_hex s res
  end.

Fixpoint __get_uint_dec (s : list Z) (res : Z) : outcome Z :=
  match s with
  | [] => Fault OutOfBounds
  | c :: s =>
      if c =? 0 then Ret res
      else if (48 <=? c) && (c <=? 57) then __get_uint_dec s (u64 (u64 (res * 10) + (c - 48)))
      else Ret res
  end.

Definition __get_uint (s : list Z) : outcome Z :=
  c ← deref s;
  hex ← (if c =? 48 then c1 ← deref_at s 1; Ret (c1 =? 120) else Ret false);
  if (hex : bool) then __get_uint_hex (drop 2 s) 0 else __get_uint_dec s 0.

Definition get_uint (res : query_result) : outcome Z := s ← get_string res; __get_uint s.

Definition get_sint (res : query_result) : outcome Z :=
  s ← get_string res;
  c ← deref s;
  if c =? 45 then x ← __get_uint (tail s); Ret (s64 (u64 (- x))) else x ← __get_uint s; Ret (s64 x).

(** ** What the monitor learns from it: configstring.c *)

(** The addresses of a hart's two registers in its hart-local storage. *)
Record hart_info : Type := MkHart { ipi : Z; timecmp : Z }.

(** The global variables; [harts] is the hart-local storage by hart id. *)
Record platform : Type := MkPlatform {
  mem_base : Z;
  mem_size : Z;
  mtime : Z;
  num_harts : Z;
  harts : gmap Z hart_info
}.

Definition MAX_HARTS : Z := 8.

(** [OTHER_HLS(id)->ipi = x] and [->timecmp = x], and [hls_init(id)]. *)
Definition set_hart (id : Z) (f : hart_info -> hart_info) (g : platform) : platform :=
  MkPlatform (mem_base g) (mem_size g) (mtime g) (num_harts g) (alter f id (harts g)).
Definition hls_init (id : Z) (g : platform) : platform :=
  MkPlatform (mem_base g) (mem_size g) (mtime g) (num_harts g) (<[id := MkHart 0 0]> (harts g)).

(** The literals "ram{0{addr" and "ram{0{size", "rtc{addr", "core{%d{%d{ipi" and
    "core{%d{%d{timecmp". *)
Definition key_addr : list Z := [97; 100; 100; 114].
Definition key_size_ : list Z := [115; 105; 122; 101].
Definition key_ram : list Z := [114; 97; 109].
Definition key_rtc : list Z := [114; 116; 99].
Definition key_core : list Z := [99; 111; 114; 101].
Definition key_ipi : list Z := [105; 112; 105].
Definition key_timecmp : list Z := [116; 105; 109; 101; 99; 109; 112].
Definition hart_format (key : list Z) : list Z := key_core ++ [123; 37; 100; 123; 37; 100; 123] ++ key.

Definition query_mem (config_string : list Z) (g : platform) : outcome platform :=
  res ← query_config_string config_string (key_ram ++ [123; 48; 123] ++ key_addr ++ [0]);
  _ ← c_assert (if start res then true else false);
  base ← get_uint res;
  res ← query_config_string config_string (key_ram ++ [123; 48; 123] ++ key_size_ ++ [0]);
  size ← get_uint res;
  Ret (MkPlatform base size (mtime g) (num_harts g) (harts g)).

Definition query_rtc (config_string : list Z) (g : platform) : outcome platform :=
  res ← query_config_string config_string (key_rtc ++ [123] ++ key_addr ++ [0]);
  _ ← c_assert (if start res then true else false);
  t ← get_uint res;
  Ret (MkPlatform (mem_base g) (mem_size g) t (num_harts g) (harts g)).

(** [char buf[32]; snprintf(buf, sizeof buf, "core{%d{%d{<key>", core, hart);
    query_config_string(config_string, buf)] *)
Definition query_hart (config_string key : list Z) (core hart : Z) : outcome query_result :=
  '(_, buf) ← snprintf (zeros 32) 32 (hart_format key) [AInt core; AInt hart];
  query_config_string config_string buf.

(** The inner loop of query_harts returns the [hart] it stops at. *)
Fixpoint hart_loop (fuel : nat) (config_string : list Z) (core hart : Z) (g : platform) :
    outcome (Z * platform) :=
  match fuel with
  | O => Fault Blocked
  | S fuel =>
      res ← query_hart config_string key_ipi core hart;
      match start res with
      | None => Ret (hart, g)
      | Some _ =>
          let id := num_harts g in
          let g := hls_init id g in
          a ← get_uint res;
          let g := set_hart id (fun h => MkHart a (timecmp h)) g in
          res ← query_hart config_string key_timecmp core hart;
          _ ← c_assert (if start res then true else false);
          t ← get_uint res;
          let g := set_hart id (fun h => MkHart (ipi h) t) g in
          hart_loop fuel config_string core (hart + 1)
            (MkPlatform (mem_base g) (mem_size g) (mtime g) (u64 (num_harts g + 1)) (harts g))
      end
  end.

Fixpoint core_loop (fuel harts_fuel : nat) (config_string : list Z) (core : Z) (g : platform) :
    outcome platform :=
  match fuel with
  | O => Fault Blocked
  | S fuel =>
      '(hart, g) ← hart_loop harts_fuel config_string core 0 g;
      if hart =? 0 then Ret g else core_loop fuel harts_fuel config_string (core + 1) g
  end.

Definition query_harts (fuel : nat) (config_string : list Z) (g : platform) : outcome platform :=
  g ← core_loop fuel fuel config_string 0 g;
  _ ← c_assert (negb (num_harts g =? 0));
  _ ← c_assert (num_harts g <=? MAX_HARTS);
  Ret g.

(** [config_string] is what the address in the boot ROM points to. *)
Definition parse_config_string (fuel : nat) (config_string : list Z) (g : platform) : outcome platform :=
  g ← query_mem config_string g;
  g ← query_rtc config_string g;
  query_harts fuel config_string g.
