(* ===== verification/ConfigSpec.v ===== *)
(** * What the configuration string means

    The grammar of the string, as trees with the white space written out, and
    the value a path has in a tree.  query_config_string finds that value. *)

From stdpp Require Import gmap.
From S2P Require Import Prelude Str StrSpec ConfigString.

(** ** Trees *)

(** A value is a sequence of words, quoted strings and blocks, a block a
    non-empty sequence of entries; every part carries the white space after it,
    an entry that before and after its key, a block that before its end. *)
Inductive value : Type :=
  | VEnd
  | VWord (w ws : list Z) (v : value)
  | VQuoted (q ws : list Z) (v : value)
  | VBlock (es : entries) (wc ws : list Z) (v : value)
with entries : Type :=
  | ELast (w1 key w2 : list Z) (v : value)
  | EMore (w1 key w2 : list Z) (v : value) (es : entries).

Scheme value_mut := Induction for value Sort Prop
  with entries_mut := Induction for entries Sort Prop.
Combined Scheme config_ind from value_mut, entries_mut.

Fixpoint value_text (v : value) : list Z :=
  match v with
  | VEnd => []
  | VWord w ws v => w ++ ws ++ value_text v
  | VQuoted q ws v => 34 :: q ++ 34 :: ws ++ value_text v
  | VBlock es wc ws v => 123 :: entries_text es ++ wc ++ 125 :: ws ++ value_text v
  end
with entries_text (es : entries) : list Z :=
  match es with
  | ELast w1 key w2 v => w1 ++ key ++ w2 ++ value_text v ++ [59]
  | EMore w1 key w2 v es => w1 ++ key ++ w2 ++ value_text v ++ 59 :: entries_text es
  end.

(** The characters of each part.  A word is not followed by another word, nor a
    key by a word, without white space in between. *)
Definition blank (l : list Z) : Prop := Forall (fun c => 0 < c <= 32) l.
Definition word (l : list Z) : Prop := l <> [] /\ Forall (fun c => key_char c = true) l.
Definition apart (ws : list Z) (v : value) : Prop :=
  match v with VWord _ _ _ => ws <> [] | _ => True end.

Fixpoint wf_value (v : value) : Prop :=
  match v with
  | VEnd => True
  | VWord w ws v => word w /\ blank ws /\ apart ws v /\ wf_value v
  | VQuoted q ws v => Forall (fun c => c <> 0 /\ c <> 34) q /\ blank ws /\ wf_value v
  | VBlock es wc ws v => wf_entries es /\ blank wc /\ blank ws /\ wf_value v
  end
with wf_entries (es : entries) : Prop :=
  match es with
  | ELast w1 key w2 v => blank w1 /\ word key /\ blank w2 /\ apart w2 v /\ wf_value v
  | EMore w1 key w2 v es => (blank w1 /\ word key /\ blank w2 /\ apart w2 v /\ wf_value v) /\ wf_entries es
  end.

(** ** Paths *)

(** Keys from the outermost in; the empty search key is the path of one empty
    key.  [after] is what follows the final 0 in memory. *)
Definition path : Type := list (list Z).

Fixpoint path_text (p : path) (after : list Z) : list Z :=
  match p with
  | [] => []
  | [k] => k ++ 0 :: after
  | k :: p => k ++ 123 :: path_text p after
  end.

Definition path_ok (p : path) : Prop := p <> [] /\ Forall (Forall (fun c => c <> 0 /\ c <> 123)) p.

(** The value of a path: that of the first entry, in the order of the text, that
    the path leads to. *)
Fixpoint lookup_value (p : path) (v : value) : option value :=
  match v with
  | VEnd => None
  | VWord _ _ v | VQuoted _ _ v => lookup_value p v
  | VBlock es _ _ v => match lookup_entries p es with Some r => Some r | None => lookup_value p v end
  end
with lookup_entries (p : path) (es : entries) : option value :=
  let below key v :=
    match p with
    | [] => None
    | [k] => if decide (key = k) then Some v else None
    | k :: p => if decide (key = k) then lookup_value p v else None
    end in
  match es with
  | ELast _ key _ v => below key v
  | EMore _ key _ v es => match below key v with Some r => Some r | None => lookup_entries p es end
  end.

(** ** Scanning *)

Definition solid (str : list Z) : Prop := match str with c :: _ => c = 0 \/ 32 < c | [] => False end.
Definition no_key (str : list Z) : Prop := match str with c :: _ => key_char c = false | [] => False end.

Lemma skip_whitespace_blank ws rest : blank ws -> solid rest -> skip_whitespace (ws ++ rest) = Ret rest.
Proof.
  induction 1 as [|c ws Hc _ IH]; intros Hs; simpl.
  - destruct rest as [|c rest]; [done|]. simpl in *.
    destruct (Z.eqb_spec c 0); [done|]. simpl. by destruct (Z.leb_spec c 32); [lia|].
  - destruct (Z.eqb_spec c 0); [lia|]. destruct (Z.leb_spec c 32); [|lia]. by apply IH.
Qed.

Lemma skip_key_word w rest :
  Forall (fun c => key_char c = true) w -> no_key rest -> skip_key (w ++ rest) = Ret rest.
Proof.
  induction 1 as [|c w Hc _ IH]; intros Hs; simpl.
  - destruct rest as [|c rest]; [done|]. simpl in *. by rewrite Hs.
  - rewrite Hc. by apply IH.
Qed.

Lemma skip_string_quoted q rest :
  Forall (fun c => c <> 0 /\ c <> 34) q -> skip_string (q ++ 34 :: rest) = Ret rest.
Proof.
  induction 1 as [|c q [Hc Hc'] _ IH]; simpl; [done|].
  destruct (Z.eqb_spec c 0); [done|]. by destruct (Z.eqb_spec c 34).
Qed.

Lemma key_char_solid c : key_char c = true -> 32 < c /\ c <> 59 /\ c <> 0 /\ c <> 34 /\ c <> 123.
Proof.
  unfold key_char. rewrite !andb_true_iff, !Z.leb_le, negb_true_iff, Z.eqb_neq. lia.
Qed.

Lemma word_cons w : word w -> exists c w', w = c :: w' /\ key_char c = true.
Proof. intros [Hn Hw]. destruct Hw as [|c w' Hc]; [done|eauto]. Qed.

Lemma solid_word w rest : word w -> solid (w ++ rest).
Proof.
  intros Hw. destruct (word_cons w Hw) as (c & w' & -> & Hc). apply key_char_solid in Hc. simpl. lia.
Qed.

Lemma solid_value v rest : wf_value v -> solid (value_text v ++ 59 :: rest).
Proof.
  destruct v; simpl; intros Hv; try lia. rewrite <- app_assoc. apply solid_word, Hv.
Qed.

Lemma no_key_blank ws rest : blank ws -> no_key rest \/ ws <> [] -> no_key (ws ++ rest).
Proof.
  intros [|c ws' Hc]; simpl; [by intros [?|?]|]. intros _. unfold key_char.
  by destruct (Z.leb_spec 35 c); [lia|].
Qed.

(** White space before a value stops a key. *)
Lemma no_key_value ws v rest : blank ws -> apart ws v -> no_key (ws ++ value_text v ++ 59 :: rest).
Proof. intros Hb Ha. apply no_key_blank; [done|]. destruct v; simpl in *; auto. Qed.

(** ** Matching a key *)

Lemma path_text_cons k p after :
  path_text (k :: p) after = k ++ match p with [] => 0 :: after | _ => 123 :: path_text p after end.
Proof. by destruct p. Qed.

(** The character that ends the first key of a path: 0 in its last key. *)
Definition path_end (p : path) : Z := match p with [_] => 0 | _ => 123 end.

Lemma path_text_end k p after :
  exists rest, path_text (k :: p) after = k ++ path_end (k :: p) :: rest /\
    (p <> [] -> rest = path_text p after).
Proof. rewrite path_text_cons. destruct p; simpl; eexists; split; done. Qed.

Lemma key_size_spec k c rest :
  Forall (fun c => c <> 0 /\ c <> 123) k -> c = 0 \/ c = 123 -> key_size (k ++ c :: rest) = Ret (length k).
Proof.
  intros Hk Hc. induction Hk as [|x k [Hx Hx'] _ IH]; simpl.
  - by destruct Hc as [-> | ->].
  - destruct (Z.eqb_spec x 0), (Z.eqb_spec x 123); try done. simpl in *. by rewrite IH.
Qed.

Lemma same_key_spec key k r1 r2 :
  length key = length k ->
  same_key (length k) (key ++ r1) (k ++ r2) = Ret (bool_decide (key = k)).
Proof.
  revert key. induction k as [|y k IH]; intros [|x key] Hl; try done. injection Hl as Hl. simpl.
  rewrite IH, bind_ret by done. f_equal.
  destruct (Z.eqb_spec x y) as [->|Hne]; simpl; [|symmetry; apply bool_decide_eq_false; congruence].
  apply bool_decide_ext. split; [by intros ->|by intros [=]].
Qed.

(** The two tests of the key together. *)
Lemma match_spec key k r1 r2 :
  (if distance (key ++ r1) r1 =? Z.of_nat (length k)
   then same_key (length k) (key ++ r1) (k ++ r2) else Ret false) = Ret (bool_decide (key = k)).
Proof.
  unfold distance. rewrite lenz_app. unfold lenz.
  destruct (Z.eqb_spec (Z.of_nat (length key) + Z.of_nat (length r1) - Z.of_nat (length r1)) (Z.of_nat (length k))) as [Hl|Hl].
  - apply same_key_spec. lia.
  - symmetry. f_equal. apply bool_decide_eq_false. intros ->. lia.
Qed.

Lemma path_ok_tail k p : path_ok (k :: p) -> p <> [] -> path_ok p.
Proof. intros [_ Hp] Hn. split; [done|]. by inversion Hp. Qed.

Lemma path_ok_none : path_ok [[]].
Proof. split; [done|]. by repeat constructor. Qed.

(** A search for the empty key finds nothing. *)
Lemma lookup_none :
  (forall v, wf_value v -> lookup_value [[]] v = None) /\
  (forall es, wf_entries es -> lookup_entries [[]] es = None).
Proof.
  apply config_ind; simpl.
  - done.
  - intros w ws v IH Hw. apply IH, Hw.
  - intros q ws v IH Hw. apply IH, Hw.
  - intros es IHes wc ws v IH Hw. rewrite IHes by apply Hw. apply IH, Hw.
  - intros w1 key w2 v IH (_ & [Hk _] & _). by rewrite decide_False.
  - intros w1 key w2 v IH es IHes [(_ & [Hk _] & _) Hes]. rewrite decide_False by done. by apply IHes.
Qed.

(** ** The search *)

(** What the caller gets for a value: from its start to its [;]. *)
Definition found (v : value) (res : query_result) : Prop :=
  exists rest, start res = Some (value_text v ++ 59 :: rest) /\ end_ res = Some (59 :: rest).

(** What one entry contributes. *)
Definition below (p : path) (key : list Z) (v : value) : option value :=
  match p with
  | [] => None
  | [k] => if decide (key = k) then Some v else None
  | k :: p => if decide (key = k) then lookup_value p v else None
  end.

Lemma lookup_last p w1 key w2 v : lookup_entries p (ELast w1 key w2 v) = below p key v.
Proof. done. Qed.
Lemma lookup_more p w1 key w2 v es :
  lookup_entries p (EMore w1 key w2 v es) =
  match below p key v with Some r => Some r | None => lookup_entries p es end.
Proof. done. Qed.

Definition value_ok (v : value) : Prop :=
  forall fuel rest p after re, path_ok p -> wf_value v -> (2 * length (value_text v) + 1 <= fuel)%nat ->
  match lookup_value p v with
  | Some r => exists res,
      query_value fuel (value_text v ++ 59 :: rest) (path_text p after) re = Ret (inl res) /\ found r res
  | None => query_value fuel (value_text v ++ 59 :: rest) (path_text p after) re = Ret (inr (59 :: rest))
  end.

(** Inside a block ([t] is the closing brace) or at the end of the string. *)
Definition entries_ok (es : entries) : Prop :=
  forall fuel wc t rest p after re, path_ok p -> wf_entries es -> blank wc -> t = 0 \/ t = 125 ->
  (2 * length (entries_text es) + 2 <= fuel)%nat ->
  match lookup_entries p es with
  | Some r => exists res,
      query_entries fuel (entries_text es ++ wc ++ t :: rest) (path_text p after) re = Ret res /\ found r res
  | None => exists e,
      query_entries fuel (entries_text es ++ wc ++ t :: rest) (path_text p after) re = Ret (MkResult None e) /\
      (t = 125 -> e = Some (125 :: rest))
  end.

Definition wf_entry (w1 key w2 : list Z) (v : value) : Prop :=
  blank w1 /\ word key /\ blank w2 /\ apart w2 v /\ wf_value v.

Lemma drop_key {A} (k : list A) c rest : drop (S (length k)) (k ++ c :: rest) = rest.
Proof. by induction k. Qed.

(** The code up to the value of an entry. *)
Lemma query_entry_start fuel w1 key w2 v next k p after re :
  wf_entry w1 key w2 v -> path_ok (k :: p) ->
  query_entries (S fuel) (w1 ++ key ++ w2 ++ value_text v ++ 59 :: next) (path_text (k :: p) after) re =
  (let same := bool_decide (key = k) in
   let last := path_end (k :: p) =? 0 in
   let value_start := value_text v ++ 59 :: next in
   r ← query_value fuel value_start
         (if same && negb last then path_text p after else [0]) re;
   match r with
   | inl res => Ret res
   | inr str =>
       if same && last then Ret (MkResult (Some value_start) (Some str))
       else
         next ← skip_whitespace (tail str);
         c ← deref next;
         if c =? 125 then Ret (MkResult None (Some next))
         else query_entries fuel next (path_text (k :: p) after) (Some str)
   end).
Proof.
  intros (Hw1 & Hkey & Hw2 & Hap & Hv) [_ Hp]. apply Forall_cons in Hp as [Hk _].
  destruct (path_text_end k p after) as (rest & Ht & Hrest).
  assert (Hend : path_end (k :: p) = 0 \/ path_end (k :: p) = 123) by (destruct p; auto).
  cbn [query_entries]. rewrite Ht, key_size_spec, bind_ret, drop_app_length by done.
  cbn [deref]. rewrite bind_ret, (skip_whitespace_blank w1) by (done || by apply solid_word). rewrite bind_ret.
  rewrite skip_key_word by (apply Hkey || by apply no_key_value). rewrite bind_ret, match_spec, bind_ret.
  rewrite skip_whitespace_blank by (done || by apply solid_value). rewrite bind_ret.
  cbv zeta. do 2 f_equal.
  rewrite drop_key. destruct (bool_decide (key = k)), (Z.eqb_spec (path_end (k :: p)) 0) as [He|He]; try done.
  rewrite Hrest; [done|]. by intros ->.
Qed.

(** An entry: its value is what the path leads to, or the search goes on. *)
Lemma query_entry fuel w1 key w2 v next p after re :
  wf_entry w1 key w2 v -> value_ok v -> path_ok p -> (2 * length (value_text v) + 1 <= fuel)%nat ->
  match below p key v with
  | Some r => exists res,
      query_entries (S fuel) (w1 ++ key ++ w2 ++ value_text v ++ 59 :: next) (path_text p after) re = Ret res /\
      found r res
  | None =>
      query_entries (S fuel) (w1 ++ key ++ w2 ++ value_text v ++ 59 :: next) (path_text p after) re =
      (next' ← skip_whitespace next;
       c ← deref next';
       if c =? 125 then Ret (MkResult None (Some next'))
       else query_entries fuel next' (path_text p after) (Some (59 :: next)))
  end.
Proof.
  intros Hw Hv Hp Hf. destruct p as [|k p]; [by destruct Hp|].
  rewrite query_entry_start by done. destruct Hw as (_ & _ & _ & _ & Hwv). cbv zeta.
  pose proof (Hv fuel next [[]] [] re path_ok_none Hwv Hf) as Hn.
  rewrite (proj1 lookup_none) in Hn by done. change (path_text [[]] []) with [0] in Hn.
  assert (Hb : below (k :: p) key v =
    if bool_decide (key = k) then match p with [] => Some v | _ => lookup_value p v end else None).
  { unfold below. destruct p, (decide (key = k)); by case_bool_decide. }
  rewrite Hb. destruct (bool_decide (key = k)); cbn [andb].
  - destruct p as [|k' p].
    + cbn [path_end]. zbool. cbn [negb]. rewrite Hn, bind_ret. eexists. split; [done|]. by exists next.
    + cbn [path_end]. zbool. cbn [negb].
      specialize (Hv fuel next (k' :: p) after re (path_ok_tail k _ Hp ltac:(done)) Hwv Hf).
      destruct (lookup_value (k' :: p) v) as [r|].
      * destruct Hv as (res & -> & Hr). by exists res.
      * by rewrite Hv.
  - by rewrite Hn.
Qed.

Lemma length_word w : word w -> (1 <= length w)%nat.
Proof. intros [Hw _]. destruct w; simpl; [done|lia]. Qed.

(** The end of the string in place of an entry. *)
Lemma query_entries_end fuel rest p after re :
  path_ok p -> (2 <= fuel)%nat -> query_entries fuel (0 :: rest) (path_text p after) re = Ret (MkResult None re).
Proof.
  intros Hp Hf. destruct p as [|k p]; [by destruct Hp|]. destruct Hp as [_ Hp]. apply Forall_cons in Hp as [Hk _].
  destruct (path_text_end k p after) as (r & Ht & _). destruct fuel as [|[|fuel]]; [lia..|].
  rewrite Ht. cbn [query_entries]. rewrite key_size_spec, bind_ret, drop_app_length by (destruct p; auto).
  cbn [deref]. rewrite bind_ret. cbn. pose proof (match_spec [] k (0 :: rest) (path_end (k :: p) :: r)) as Hm.
  simpl app in Hm. change (distance (0 :: rest) (0 :: rest)) with (lenz (0 :: rest) - lenz (0 :: rest)) in *.
  rewrite Hm. by rewrite bind_ret.
Qed.

Lemma entries_solid es rest : wf_entries es -> exists str, solid str /\
  skip_whitespace (entries_text es ++ rest) = Ret str /\
  forall fuel k re, query_entries fuel (entries_text es ++ rest) k re = query_entries fuel str k re.
Proof.
  assert (H : forall w1 key r, blank w1 -> word key -> exists str, solid str /\
    skip_whitespace (w1 ++ key ++ r) = Ret str /\
    forall fuel k re, query_entries fuel (w1 ++ key ++ r) k re = query_entries fuel str k re).
  { intros w1 key r Hw Hk. exists (key ++ r). pose proof (solid_word key r Hk).
    rewrite (skip_whitespace_blank w1) by done. split; [done|]. split; [done|].
    intros [|fuel] k re; [done|]. cbn [query_entries]. rewrite (skip_whitespace_blank w1) by done.
    pose proof (skip_whitespace_blank [] (key ++ r) ltac:(constructor) ltac:(done)) as Hs. cbn [app] in Hs.
    by rewrite Hs. }
  destruct es as [w1 key w2 v|w1 key w2 v es]; simpl; rewrite <- !app_assoc.
  - intros (Hw & Hk & _). by apply H.
  - intros [(Hw & Hk & _) _]. by apply H.
Qed.

(** No entry starts with a closing brace. *)
Lemma entries_no_brace es rest str :
  wf_entries es -> skip_whitespace (entries_text es ++ rest) = Ret str -> exists c s, str = c :: s /\ c <> 125.
Proof.
  assert (H : forall w1 key r, blank w1 -> word key -> skip_whitespace (w1 ++ key ++ r) = Ret str ->
    exists c s, str = c :: s /\ c <> 125).
  { intros w1 key r Hw Hk. rewrite skip_whitespace_blank by (done || by apply solid_word). intros [= <-].
    destruct (word_cons key Hk) as (c & k' & -> & Hc). simpl. exists c, (k' ++ r). split; [done|].
    intros ->. done. }
  destruct es as [w1 key w2 v|w1 key w2 v es]; simpl; rewrite <- !app_assoc.
  - intros (Hw & Hk & _). by apply H.
  - intros [(Hw & Hk & _) _]. by apply H.
Qed.

Lemma word_ok w ws v : value_ok v -> value_ok (VWord w ws v).
Proof.
  intros IH [|fuel] rest p after re Hp (Hw & Hws & Hap & Hv) Hf; [simpl in Hf; lia|].
  pose proof (length_word w Hw). cbn [value_text] in *. rewrite !length_app in Hf.
  specialize (IH fuel rest p after re Hp Hv ltac:(lia)). cbn [lookup_value]. rewrite <- !app_assoc.
  replace (query_value (S fuel) (w ++ ws ++ value_text v ++ 59 :: rest) (path_text p after) re)
    with (query_value fuel (value_text v ++ 59 :: rest) (path_text p after) re); [done|].
  destruct (word_cons w Hw) as (c & w' & -> & Hc). cbn [query_value app deref]. rewrite bind_ret.
  pose proof (key_char_solid c Hc) as (_ & H1 & H2 & H3 & H4). apply Z.eqb_neq in H1, H2, H3, H4.
  rewrite H1, H2, H3, H4. change (c :: w' ++ ?r) with ((c :: w') ++ r).
  rewrite skip_key_word by (apply Hw || by apply no_key_value). rewrite bind_ret.
  by rewrite skip_whitespace_blank by (done || by apply solid_value).
Qed.

Lemma quoted_ok q ws v : value_ok v -> value_ok (VQuoted q ws v).
Proof.
  intros IH [|fuel] rest p after re Hp (Hq & Hws & Hv) Hf; [simpl in Hf; lia|].
  cbn [value_text length] in *. rewrite length_app in Hf. cbn [length] in Hf. rewrite length_app in Hf.
  specialize (IH fuel rest p after re Hp Hv ltac:(lia)). cbn [lookup_value].
  cbn [query_value app deref tail]. rewrite bind_ret. zbool. rewrite <- !app_assoc. cbn [app].
  rewrite skip_string_quoted, bind_ret, <- app_assoc by done.
  by rewrite skip_whitespace_blank by (done || by apply solid_value).
Qed.

Lemma block_ok es wc ws v : entries_ok es -> value_ok v -> value_ok (VBlock es wc ws v).
Proof.
  intros IHes IH [|fuel] rest p after re Hp (Hes & Hwc & Hws & Hv) Hf; [simpl in Hf; lia|].
  cbn [value_text length] in *. rewrite !length_app in Hf. cbn [length] in Hf. rewrite length_app in Hf.
  specialize (IH fuel rest p after re Hp Hv ltac:(lia)).
  specialize (IHes fuel wc 125 (ws ++ value_text v ++ 59 :: rest) p after None Hp Hes Hwc
    ltac:(auto) ltac:(lia)).
  cbn [lookup_value]. cbn [query_value app deref tail]. rewrite bind_ret. zbool.
  rewrite <- !app_assoc. cbn [app]. rewrite <- app_assoc.
  destruct (lookup_entries p es) as [r|].
  - destruct IHes as (res & -> & Hr). rewrite bind_ret. destruct Hr as (r' & Hs & He). rewrite Hs.
    exists res. split; [done|]. by exists r'.
  - destruct IHes as (e & -> & He). rewrite bind_ret. cbn [start end_]. rewrite He by done. cbn [tail].
    by rewrite skip_whitespace_blank by (done || by apply solid_value).
Qed.

Lemma last_ok w1 key w2 v : value_ok v -> entries_ok (ELast w1 key w2 v).
Proof.
  intros IH fuel wc t rest p after re Hp Hw Hwc Ht Hf. rewrite lookup_last.
  cbn [entries_text] in *. rewrite !length_app in Hf. destruct Hw as (H1 & H2 & H3).
  pose proof (length_word key H2). destruct fuel as [|fuel]; [lia|].
  rewrite <- !app_assoc. cbn [app]. cbn [length] in Hf.
  pose proof (query_entry fuel w1 key w2 v (wc ++ t :: rest) p after re (conj H1 (conj H2 H3)) IH Hp
    ltac:(lia)) as Hq.
  destruct (below p key v) as [r|]; [done|].
  rewrite Hq, skip_whitespace_blank, bind_ret by (done || (simpl; lia)). cbn [deref]. rewrite bind_ret.
  destruct Ht as [-> | ->]; zbool; [rewrite query_entries_end by (done || lia)|]; by eexists.
Qed.

Lemma more_ok w1 key w2 v es : value_ok v -> entries_ok es -> entries_ok (EMore w1 key w2 v es).
Proof.
  intros IH IHes fuel wc t rest p after re Hp [Hw Hes] Hwc Ht Hf. rewrite lookup_more.
  cbn [entries_text] in *. rewrite !length_app in Hf. cbn [length] in Hf.
  pose proof Hw as (_ & Hkey & _). pose proof (length_word key Hkey). destruct fuel as [|fuel]; [lia|].
  rewrite <- !app_assoc. cbn [app].
  pose proof (query_entry fuel w1 key w2 v (entries_text es ++ wc ++ t :: rest) p after re Hw IH Hp
    ltac:(lia)) as Hq.
  destruct (below p key v) as [r|]; [done|].
  destruct (entries_solid es (wc ++ t :: rest) Hes) as (str & Hs & Hk & Hqe).
  destruct (entries_no_brace es _ str Hes Hk) as (c & s & Hstr & Hc). apply Z.eqb_neq in Hc.
  rewrite Hq, Hk, bind_ret, Hstr. cbn [deref]. rewrite bind_ret, Hc, <- Hstr, <- Hqe.
  apply IHes; (done || lia).
Qed.

Lemma search_correct : (forall v, value_ok v) /\ (forall es, entries_ok es).
Proof.
  apply config_ind.
  - intros [|fuel] rest p after re _ _ Hf; [simpl in Hf; lia|]. done.
  - apply word_ok.
  - apply quoted_ok.
  - intros es IHes wc ws v IH. by apply block_ok.
  - apply last_ok.
  - intros w1 key w2 v IH es IHes. by apply more_ok.
Qed.

(** The text of a configuration string: entries, white space and the final 0. *)
Definition config_text (es : entries) (wc : list Z) : list Z := entries_text es ++ wc ++ [0].

(** A query that the search answers. *)
Definition answers (es : entries) (p : path) (res : query_result) : Prop :=
  match lookup_entries p es with Some v => found v res | None => start res = None end.

Lemma query_spec es wc p after :
  wf_entries es -> blank wc -> path_ok p ->
  exists res, query_config_string (config_text es wc) (path_text p after) = Ret res /\ answers es p res.
Proof.
  intros Hes Hwc Hp. unfold query_config_string, config_text, answers.
  pose proof (proj2 search_correct es (2 * length (entries_text es ++ wc ++ [0%Z]) + 2)%nat
    wc 0 [] p after None Hp Hes Hwc ltac:(auto) ltac:(rewrite !length_app; lia)) as H.
  destruct (lookup_entries p es) as [r|]; [done|]. destruct H as (e & -> & _). by eexists.
Qed.

(** ** Numbers *)

Definition is_digit (c : Z) : bool := (48 <=? c) && (c <=? 57).

(** The number that digits denote, most significant first; hexadecimal numbers
    may hold underscores. *)
Definition dec_value (ds : list Z) : Z := fold_left (fun x c => x * 10 + (c - 48)) ds 0.
Definition hex_value (ds : list Z) : Z :=
  fold_left (fun x c => if is_hex c then x * 16 + parse_hex c else x) ds 0.

Definition numeral (w : list Z) : option Z :=
  match w with
  | 48 :: 120 :: ds => if forallb (fun c => is_hex c || (c =? 95)) ds then Some (hex_value ds) else None
  | _ => if forallb is_digit w then Some (dec_value w) else None
  end.

(** The number at the start of a value. *)
Definition value_number (v : value) : option Z :=
  match v with
  | VWord w _ VEnd => numeral w
  | VWord w (_ :: _) _ => numeral w
  | _ => None
  end.

Lemma u64_digit x b k : u64 (u64 (u64 x * b) + k) = u64 (x * b + k).
Proof.
  unfold u64. rewrite Zplus_mod_idemp_l, <- Zplus_mod_idemp_l, Zmult_mod_idemp_l. apply Zplus_mod_idemp_l.
Qed.

Lemma get_uint_dec_spec ds rest x :
  forallb is_digit ds = true ->
  __get_uint_dec (ds ++ 0 :: rest) (u64 x) = Ret (u64 (fold_left (fun x c => x * 10 + (c - 48)) ds x)).
Proof.
  revert x. induction ds as [|d ds IH]; intros x Hds; [done|].
  cbn [forallb] in Hds. apply andb_true_iff in Hds as [Hd Hds]. unfold is_digit in Hd.
  cbn [app __get_uint_dec fold_left]. destruct (Z.eqb_spec d 0) as [->|]; [done|].
  rewrite Hd, u64_digit. by apply IH.
Qed.

Lemma get_uint_hex_spec ds rest x :
  forallb (fun c => is_hex c || (c =? 95)) ds = true ->
  __get_uint_hex (ds ++ 0 :: rest) (u64 x) =
  Ret (u64 (fold_left (fun x c => if is_hex c then x * 16 + parse_hex c else x) ds x)).
Proof.
  revert x. induction ds as [|d ds IH]; intros x Hds; [done|].
  cbn [forallb] in Hds. apply andb_true_iff in Hds as [Hd Hds].
  cbn [app __get_uint_hex fold_left]. destruct (Z.eqb_spec d 0) as [->|]; [done|].
  destruct (is_hex d).
  - rewrite shiftl_mul by done. change (2 ^ 4) with 16. rewrite u64_digit. by apply IH.
  - simpl in Hd. rewrite Hd. by apply IH.
Qed.

Lemma get_uint_numeral w x rest : numeral w = Some x -> __get_uint (w ++ 0 :: rest) = Ret (u64 x).
Proof.
  assert (Hdec : forall w', forallb is_digit w' = true -> x = dec_value w' ->
    __get_uint_dec (w' ++ 0 :: rest) 0 = Ret (u64 x)).
  { intros w' Hw ->. by apply (get_uint_dec_spec w' rest 0). }
  unfold numeral, __get_uint. intros Hn.
  destruct w as [|c w]; [injection Hn as <-; done|]. cbn [app deref].
  rewrite bind_ret. destruct (Z.eqb_spec c 48) as [->|Hc].
  - assert (Hg : deref_at (48 :: w ++ 0 :: rest) 1 = Ret ((w ++ 0 :: rest) !z 0)).
    { unfold deref_at. rewrite get_ok, nthz_cons by (rewrite ?lenz_cons, ?lenz_app, ?lenz_cons;
        pose proof (lenz_nonneg w); pose proof (lenz_nonneg rest); lia). done. }
    rewrite Hg, !bind_ret. destruct w as [|c1 w].
    + cbn. injection Hn as <-. done.
    + change ((c1 :: w) ++ 0 :: rest) with (c1 :: w ++ 0 :: rest) at 1.
      rewrite nthz_cons by lia. zbool. destruct (Z.eqb_spec c1 120) as [->|Hc1].
      * cbn [app drop]. destruct (forallb _ w) eqn:Hw in Hn; [|done]. injection Hn as <-.
        by apply (get_uint_hex_spec w rest 0).
      * assert (Hn' : (if forallb is_digit (48 :: c1 :: w) then Some (dec_value (48 :: c1 :: w)) else None) = Some x).
        { rewrite <- Hn. repeat case_match; congruence. }
        destruct (forallb is_digit (48 :: c1 :: w)) eqn:Hd; [|done]. injection Hn' as Hn'.
        by apply (Hdec (48 :: c1 :: w)).
  - assert (Hn' : (if forallb is_digit (c :: w) then Some (dec_value (c :: w)) else None) = Some x).
    { rewrite <- Hn. repeat case_match; congruence. }
    destruct (forallb is_digit (c :: w)) eqn:Hd; [|done]. injection Hn' as Hn'.
    rewrite bind_ret. by apply (Hdec (c :: w)).
Qed.

(** ** From the value to its number *)

Lemma put_at_end_of pre x post c i : i = lenz pre -> put (pre ++ x :: post) i c = Ret (pre ++ c :: post).
Proof.
  intros ->. pose proof (lenz_nonneg pre). pose proof (lenz_nonneg post).
  rewrite put_insert by (rewrite lenz_app, lenz_cons; lia). f_equal. unfold lenz. rewrite Nat2Z.id.
  rewrite insert_app_r_alt by lia. by rewrite Nat.sub_diag.
Qed.

Lemma zeros_succ n : zeros (Z.of_nat (S n)) = 0 :: zeros (Z.of_nat n).
Proof. unfold zeros. by rewrite !Nat2Z.id. Qed.

(** A word is copied up to white space or the end of the value. *)
Lemma parse_word_spec w rest e pre m :
  Forall (fun c => 32 < c) w -> (length w <= m)%nat ->
  rest = e \/ (exists c rest', rest = c :: rest' /\ c <= 32) ->
  (length e <= length rest)%nat ->
  parse_word (w ++ rest) e (pre ++ zeros (Z.of_nat m)) (lenz pre) =
  Ret (pre ++ w ++ zeros (Z.of_nat (m - length w)), lenz pre + lenz w).
Proof.
  intros Hw Hm Hr He. revert pre m Hm. induction Hw as [|c w Hc _ IH]; intros pre m Hm.
  - rewrite Nat.sub_0_r, lenz_nil, Z.add_0_r. simpl app. destruct Hr as [-> | (c & rest' & -> & Hc)].
    + destruct e as [|c e]; [done|]. cbn [parse_word]. unfold distance. by rewrite Z.sub_diag.
    + cbn [parse_word]. destruct (Z.ltb_spec 32 c); [lia|]. by rewrite andb_false_r.
  - cbn [app parse_word]. assert (Hd : (0 <? distance (c :: w ++ rest) e) = true).
    { apply Z.ltb_lt. unfold distance, lenz. simpl length. rewrite length_app. lia. }
    rewrite Hd. destruct (Z.ltb_spec 32 c); [|lia]. simpl in Hm. destruct m as [|m]; [lia|]. cbn [andb].
    rewrite zeros_succ, put_at_end_of, bind_ret by done.
    rewrite cons_middle, app_assoc.
    replace (lenz pre + 1) with (lenz (pre ++ [c])) by (rewrite lenz_app; done).
    rewrite IH by lia. rewrite lenz_app, lenz_cons, <- app_assoc. cbn [length Nat.sub app].
    do 2 f_equal. rewrite lenz_cons, lenz_nil. lia.
Qed.

Lemma value_number_shape v x rest :
  wf_value v -> value_number v = Some x -> exists w r,
    value_text v ++ 59 :: rest = w ++ r /\ numeral w = Some x /\ word w /\
    (r = 59 :: rest \/ exists c r', r = c :: r' /\ c <= 32) /\ (length (59%Z :: rest) <= length r)%nat.
Proof.
  destruct v as [|w ws v| |]; try done. intros (Hw & Hws & _ & _) Hx. cbn [value_text].
  exists w, (ws ++ value_text v ++ 59 :: rest). rewrite <- !app_assoc. split; [done|].
  assert (Hn : numeral w = Some x) by (destruct v, ws; done).
  split; [done|]. split; [done|]. split; [|rewrite !length_app; lia].
  destruct Hws as [|c ws Hc]; [|right; eexists _, _; split; [done|lia]].
  left. by destruct v.
Qed.

Lemma get_uint_spec v x res :
  wf_value v -> value_number v = Some x -> found v res -> get_uint res = Ret (u64 x).
Proof.
  intros Hv Hx (rest & Hs & He). destruct (value_number_shape v x rest Hv Hx) as (w & r & Ht & Hn & Hw & Hr & Hl).
  unfold get_uint, get_string. rewrite Hs, He, Ht. unfold parse_string.
  destruct (word_cons w Hw) as (c & w' & Hwc & Hc). apply key_char_solid in Hc as Hc'.
  assert (Hd : distance (w ++ r) (59 :: rest) + 1 = Z.of_nat (length w + length r - length rest)).
  { unfold distance, lenz. rewrite length_app. simpl length in *. lia. }
  assert (Hpos : (0 <? distance (w ++ r) (59 :: rest)) = true).
  { apply Z.ltb_lt. subst w. simpl length in *. lia. }
  rewrite Hd, Hpos. replace (deref (w ++ r)) with (Ret c) by (by rewrite Hwc). rewrite bind_ret.
  destruct (Z.eqb_spec c 34); [lia|].
  pose proof (parse_word_spec w r (59 :: rest) [] (length w + length r - length rest)) as Hp.
  simpl app in Hp. change (lenz []) with 0 in Hp. simpl length in *. rewrite Hp; try done; try lia.
  - rewrite bind_ret. replace (length w + length r - length rest - length w)%nat
      with (S (length r - length rest - 1)) by lia.
    rewrite zeros_succ, put_at_end_of, bind_ret by lia. by apply get_uint_numeral.
  - eapply Forall_impl; [apply Hw|]. intros a Ha. by apply key_char_solid.
Qed.

(** ** The queries of configstring.c *)

Lemma decimal_digits x :
  0 <= x < 10 ^ 8 -> Forall (fun c => c <> 0 /\ c <> 123) (decimal x) /\ lenz (decimal x) <= 8.
Proof.
  intros Hx. unfold decimal. destruct (Z.ltb_spec x 0); [lia|]. split.
  - assert (H0 : 0 <= x) by lia. clear. generalize (Z.to_nat (count_digits 20 x 1)) as k. intros k.
    revert x. induction k as [|k IH]; intros x; cbn [last_digits]; [constructor|].
    apply Forall_app. split; [apply IH|]. constructor; [|constructor]. zdm.
  - rewrite lenz_last_digits. pose proof (count_digits_pos 20 x 1).
    pose proof (count_digits_bound 20 x 1 7 ltac:(simpl; lia)). lia.
Qed.

Definition hart_path (core hart : Z) (key : list Z) : path := [key_core; decimal core; decimal hart; key].

(** A buffer that holds a text and its final 0. *)
Lemma terminated_text out r :
  lenz r < lenz out -> (forall i, 0 <= i < lenz r -> out !z i = r !z i) -> out !z lenz r = 0 ->
  out = r ++ 0 :: drop (Z.to_nat (lenz r + 1)) out.
Proof.
  intros Hl Hr H0. pose proof (lenz_nonneg r). apply listz_eq.
  - rewrite lenz_app, lenz_cons, lenz_drop by lia. lia.
  - intros i Hi. rewrite nthz_app by lia. destruct (Z.ltb_spec i (lenz r)); [apply Hr; lia|].
    rewrite nthz_cons by lia. destruct (Z.eqb_spec (i - lenz r) 0); [by replace i with (lenz r) by lia|].
    rewrite nthz_drop by lia. f_equal. lia.
Qed.

(** The text that snprintf writes for a hart is the text of its path. *)
Lemma hart_text core hart key :
  0 <= core < 10 ^ 8 -> 0 <= hart < 10 ^ 8 -> key = key_ipi \/ key = key_timecmp ->
  exists n after, snprintf (zeros 32) 32 (hart_format key) [AInt core; AInt hart] =
    Ret (n, path_text (hart_path core hart key) after).
Proof.
  intros Hc Hh Hk.
  set (r := key_core ++ 123 :: decimal core ++ 123 :: decimal hart ++ 123 :: key).
  assert (Hr : render (hart_format key) false false [AInt core; AInt hart] = Some r).
  { assert (Hlt : forall x, 0 <= x < 10 ^ 8 -> (- x <? 2 ^ 63) = true) by (intros x Hx; apply Z.ltb_lt; lia).
    destruct Hk as [-> | ->]; cbn; rewrite s32_small, Hlt by (done || lia); cbn;
      rewrite s32_small, Hlt by (done || lia); done. }
  assert (Hl : lenz r < 31).
  { unfold r. rewrite !lenz_app, !lenz_cons, !lenz_app, !lenz_cons, !lenz_app, !lenz_cons.
    pose proof (proj2 (decimal_digits core Hc)). pose proof (proj2 (decimal_digits hart Hh)).
    assert (lenz key <= 7) by (destruct Hk as [-> | ->]; done). change (lenz key_core) with 4. lia. }
  pose proof (lenz_nonneg r).
  destruct (vsnprintf_spec (zeros 32) 32 (hart_format key) [AInt core; AInt hart] r) as (out & Ho & Hlo & Hi);
    [by rewrite lenz_zeros|done|lia|lia|].
  exists (lenz r), (drop (Z.to_nat (lenz r + 1)) out). unfold snprintf. rewrite Ho. do 2 f_equal.
  assert (Ht : forall a, path_text (hart_path core hart key) a = r ++ 0 :: a).
  { intros a. unfold r, hart_path. cbn [path_text]. repeat (rewrite <- app_assoc; cbn [app]). done. }
  rewrite Ht. clear Ht Hr.
  rewrite lenz_zeros in Hlo by lia. apply terminated_text; [lia|..].
  - intros i Hir. rewrite Hi by lia. by destruct (Z.ltb_spec i (lenz r)), (Z.ltb_spec (i + 1) 32); try lia.
  - rewrite Hi, Z.ltb_irrefl, Z.min_l, Z.eqb_refl by lia. done.
Qed.

Lemma hart_path_ok core hart key :
  0 <= core < 10 ^ 8 -> 0 <= hart < 10 ^ 8 -> key = key_ipi \/ key = key_timecmp ->
  path_ok (hart_path core hart key).
Proof.
  intros Hc Hh Hk. split; [done|]. repeat constructor; try done; try by apply decimal_digits.
  destruct Hk as [-> | ->]; by repeat constructor.
Qed.

Section parse.
Context (es : entries) (wc : list Z) (Hes : wf_entries es) (Hwc : blank wc).

Lemma query_hart_spec core hart key :
  0 <= core < 10 ^ 8 -> 0 <= hart < 10 ^ 8 -> key = key_ipi \/ key = key_timecmp ->
  exists res, query_hart (config_text es wc) key core hart = Ret res /\ answers es (hart_path core hart key) res.
Proof.
  intros Hc Hh Hk. destruct (hart_text core hart key Hc Hh Hk) as (n & after & Hs).
  unfold query_hart. rewrite Hs, bind_ret. apply query_spec; [done..|]. by apply hart_path_ok.
Qed.

(** The number that a path leads to. *)
Definition number_at (p : path) (x : Z) : Prop :=
  exists v, lookup_entries p es = Some v /\ wf_value v /\ value_number v = Some x.

Lemma answers_number p x res :
  number_at p x -> answers es p res -> start res <> None /\ get_uint res = Ret (u64 x).
Proof.
  intros (v & Hl & Hv & Hx) Ha. unfold answers in Ha. rewrite Hl in Ha.
  split; [|by eapply get_uint_spec]. by destruct Ha as (rest & -> & _).
Qed.

(** What the string says about the harts of a core: a pair of addresses for each,
    and nothing for the number after the last. *)
Definition core_described (core : Z) (hs : list (Z * Z)) : Prop :=
  (forall h i t, hs !! h = Some (i, t) ->
     number_at (hart_path core (Z.of_nat h) key_ipi) i /\
     number_at (hart_path core (Z.of_nat h) key_timecmp) t) /\
  lookup_entries (hart_path core (Z.of_nat (length hs)) key_ipi) es = None.

(** The hart-local storage after hart [id] and those that follow it. *)
Fixpoint add_harts (id : Z) (hs : list (Z * Z)) (m : gmap Z hart_info) : gmap Z hart_info :=
  match hs with
  | [] => m
  | (i, t) :: hs => add_harts (id + 1) hs (<[id := MkHart (u64 i) (u64 t)]> m)
  end.

Definition with_harts (hs : list (Z * Z)) (g : platform) : platform :=
  MkPlatform (mem_base g) (mem_size g) (mtime g) (num_harts g + lenz hs)
    (add_harts (num_harts g) hs (harts g)).

Lemma with_harts_cons i t hs g :
  with_harts ((i, t) :: hs) g =
  with_harts hs (MkPlatform (mem_base g) (mem_size g) (mtime g) (num_harts g + 1)
                   (<[num_harts g := MkHart (u64 i) (u64 t)]> (harts g))).
Proof. unfold with_harts. cbn. f_equal. rewrite lenz_cons. lia. Qed.

Lemma add_harts_app id hs1 hs2 m :
  add_harts id (hs1 ++ hs2) m = add_harts (id + lenz hs1) hs2 (add_harts id hs1 m).
Proof.
  revert id m. induction hs1 as [|[i t] hs1 IH]; intros id m; cbn [app add_harts].
  - by rewrite lenz_nil, Z.add_0_r.
  - rewrite IH, lenz_cons. f_equal. lia.
Qed.

Lemma with_harts_app hs1 hs2 g : with_harts hs2 (with_harts hs1 g) = with_harts (hs1 ++ hs2) g.
Proof. unfold with_harts. cbn. rewrite add_harts_app, lenz_app. f_equal. lia. Qed.

Lemma hart_loop_spec core k hs fuel g :
  0 <= core < 10 ^ 8 -> core_described core hs -> (k <= length hs)%nat -> lenz hs < 10 ^ 8 ->
  (length hs - k < fuel)%nat -> 0 <= num_harts g -> num_harts g + (lenz hs - Z.of_nat k) < 2 ^ 63 ->
  hart_loop fuel (config_text es wc) core (Z.of_nat k) g = Ret (lenz hs, with_harts (drop k hs) g).
Proof.
  intros Hc [Hhs Hend] Hk Hl. revert fuel k Hk g.
  induction fuel as [|fuel IH]; intros k Hk g Hf Hg Hb; [lia|]. cbn [hart_loop].
  destruct (query_hart_spec core (Z.of_nat k) key_ipi Hc ltac:(unfold lenz in Hl; lia) ltac:(auto)) as (res & Hq & Ha).
  rewrite Hq, bind_ret. destruct (decide (k = length hs)) as [->|Hne].
  - unfold answers in Ha. rewrite Hend in Ha. rewrite Ha, drop_all. unfold with_harts.
    rewrite lenz_nil, Z.add_0_r. by destruct g.
  - destruct (lookup_lt_is_Some_2 hs k ltac:(lia)) as [[i t] Hi]. destruct (Hhs k i t Hi) as [Hni Hnt].
    destruct (answers_number _ _ _ Hni Ha) as [Hs Hu]. destruct (start res); [|done].
    rewrite Hu, bind_ret.
    destruct (query_hart_spec core (Z.of_nat k) key_timecmp Hc ltac:(unfold lenz in Hl; lia) ltac:(auto)) as (res' & Hq' & Ha').
    destruct (answers_number _ _ _ Hnt Ha') as [Hs' Hu']. rewrite Hq', bind_ret.
    destruct (start res'); [|done]. simpl c_assert. rewrite bind_ret, Hu', bind_ret.
    rewrite (drop_S _ _ _ Hi), with_harts_cons. cbn.
    replace (Z.of_nat k + 1) with (Z.of_nat (S k)) by lia.
    rewrite !alter_insert_eq, u64_small by (unfold lenz in *; lia). cbn. apply IH; cbn; unfold lenz in *; lia.
Qed.

Lemma core_loop_spec k cores fuel hf g :
  (forall c hs, cores !! c = Some hs -> core_described (Z.of_nat c) hs /\ hs <> []) ->
  core_described (lenz cores) [] -> (k <= length cores)%nat -> (length cores - k < fuel)%nat ->
  lenz cores < 10 ^ 8 -> Forall (fun hs => lenz hs < 10 ^ 8 /\ (length hs < hf)%nat) cores -> (0 < hf)%nat ->
  0 <= num_harts g -> num_harts g + lenz (concat (drop k cores)) < 2 ^ 63 ->
  core_loop fuel hf (config_text es wc) (Z.of_nat k) g = Ret (with_harts (concat (drop k cores)) g).
Proof.
  intros Hcs Hend Hk Hf Hl Hall Hhf. revert k Hk Hf g.
  induction fuel as [|fuel IH]; intros k Hk Hf g Hg Hn; [lia|]. cbn [core_loop].
  destruct (decide (k = length cores)) as [->|Hne].
  - rewrite drop_all in *. cbn [concat] in *. rewrite lenz_nil in Hn. pose proof (lenz_nonneg cores).
    change (Z.of_nat (length cores)) with (lenz cores).
    by rewrite (hart_loop_spec (lenz cores) 0 []) by (done || (cbn; lia)).
  - destruct (lookup_lt_is_Some_2 cores k ltac:(lia)) as [hs Hhs]. destruct (Hcs k hs Hhs) as [Hd Hne'].
    rewrite Forall_lookup in Hall. destruct (Hall k hs Hhs) as [Hlh Hfh].
    rewrite (drop_S _ _ _ Hhs) in Hn |- *. cbn [concat] in *. rewrite lenz_app in Hn.
    pose proof (lenz_nonneg (concat (drop (S k) cores))). pose proof (lenz_nonneg hs).
    rewrite (hart_loop_spec (Z.of_nat k) 0 hs) by (done || (unfold lenz in *; lia)). rewrite bind_ret.
    destruct (Z.eqb_spec (lenz hs) 0) as [Hz|_]; [by destruct hs|].
    replace (Z.of_nat k + 1) with (Z.of_nat (S k)) by lia.
    change (drop 0 hs) with hs. rewrite IH by (cbn [with_harts num_harts]; lia). by rewrite with_harts_app.
Qed.

Lemma concat_bounds (cores : list (list (Z * Z))) :
  Forall (fun hs => hs <> []) cores ->
  lenz cores <= lenz (concat cores) /\ Forall (fun hs => lenz hs <= lenz (concat cores)) cores.
Proof.
  induction 1 as [|hs cores Hh _ [IH1 IH2]]; [done|]. cbn [concat]. rewrite lenz_app, lenz_cons.
  pose proof (lenz_nonneg hs). pose proof (lenz_nonneg (concat cores)).
  assert (1 <= lenz hs) by (destruct hs; [done|]; rewrite lenz_cons; pose proof (lenz_nonneg hs); lia).
  split; [lia|]. constructor; [lia|]. eapply Forall_impl; [exact IH2|]. intros x Hx. simpl in Hx. lia.
Qed.

Lemma parse_spec (base size clock : Z) (cores : list (list (Z * Z))) fuel g :
  number_at [key_ram; decimal 0; key_addr] base -> number_at [key_ram; decimal 0; key_size_] size ->
  number_at [key_rtc; key_addr] clock ->
  (forall c hs, cores !! c = Some hs -> core_described (Z.of_nat c) hs /\ hs <> []) ->
  core_described (lenz cores) [] ->
  num_harts g = 0 -> lenz (concat cores) < 10 ^ 8 -> lenz (concat cores) + 1 < Z.of_nat fuel ->
  let n := lenz (concat cores) in
  parse_config_string fuel (config_text es wc) g =
  if (n =? 0) || (MAX_HARTS <? n) then Fault AssertFail
  else Ret (MkPlatform (u64 base) (u64 size) (u64 clock) n (add_harts 0 (concat cores) (harts g))).
Proof.
  intros Hb Hs Ht Hcs Hend Hg Hl Hf n. unfold parse_config_string, query_mem, query_rtc.
  assert (Hq : forall p x, path_ok p -> number_at p x -> exists res,
    query_config_string (config_text es wc) (path_text p []) = Ret res /\ start res <> None /\ get_uint res = Ret (u64 x)).
  { intros p x Hp Hx. destruct (query_spec es wc p [] Hes Hwc Hp) as (res & Hr & Ha).
    exists res. split; [done|]. by apply (answers_number p x res). }
  assert (Hok : path_ok [key_ram; decimal 0; key_addr] /\ path_ok [key_ram; decimal 0; key_size_] /\
    path_ok [key_rtc; key_addr]).
  { split_and!; (split; [done|]); by repeat constructor. }
  destruct Hok as (H1 & H2 & H3).
  destruct (Hq _ _ H1 Hb) as (r1 & Hr1 & Hs1 & Hu1), (Hq _ _ H2 Hs) as (r2 & Hr2 & Hs2 & Hu2),
    (Hq _ _ H3 Ht) as (r3 & Hr3 & Hs3 & Hu3).
  change (path_text [key_ram; decimal 0; key_addr] []) with (key_ram ++ [123; 48; 123] ++ key_addr ++ [0]) in Hr1.
  change (path_text [key_ram; decimal 0; key_size_] []) with (key_ram ++ [123; 48; 123] ++ key_size_ ++ [0]) in Hr2.
  change (path_text [key_rtc; key_addr] []) with (key_rtc ++ [123] ++ key_addr ++ [0]) in Hr3.
  rewrite Hr1, bind_ret. destruct (start r1); [|done]. simpl c_assert. rewrite bind_ret, Hu1, bind_ret.
  rewrite Hr2, bind_ret, Hu2, !bind_ret. rewrite Hr3, bind_ret. destruct (start r3); [|done].
  simpl c_assert. rewrite bind_ret, Hu3, !bind_ret. unfold query_harts.
  destruct (concat_bounds cores) as [Hlc Hlh]; [apply Forall_lookup; intros c hs Hc; by apply (Hcs c)|].
  assert (Hn : lenz (concat cores) = n) by done. clearbody n.
  pose proof (lenz_nonneg (concat cores)).
  rewrite (core_loop_spec 0 cores); try (done || lia).
  - rewrite bind_ret. unfold with_harts. cbn [num_harts mem_base mem_size mtime harts drop]. rewrite Hg.
    change (drop 0 cores) with cores. rewrite Hn, Z.add_0_l. destruct (Z.eqb_spec n 0); [done|]. cbn [negb c_assert]. rewrite bind_ret.
    destruct (Z.leb_spec n MAX_HARTS), (Z.ltb_spec MAX_HARTS n); try lia; done.
  - unfold lenz in *. lia.
  - eapply Forall_impl; [exact Hlh|]. intros x Hx. simpl in Hx. unfold lenz in *. lia.
  - cbn. lia.
  - change (drop 0 cores) with cores. cbn [num_harts]. lia.
Qed.

End parse.

(** ** Where the search does not end *)

(** No character is consumed at a closing brace. *)
Lemma brace_hangs fuel rest k re : query_value fuel (125 :: rest) k re = Fault Blocked.
Proof. induction fuel as [|fuel IH]; [done|]. cbn. apply IH. Qed.

Lemma empty_block_hangs fuel rest p after re :
  path_ok p -> query_entries fuel (125 :: rest) (path_text p after) re = Fault Blocked.
Proof.
  intros [Hn Hp]. destruct p as [|k p]; [done|]. apply Forall_cons in Hp as [Hk _].
  destruct (path_text_end k p after) as (r & Ht & _). destruct fuel as [|fuel]; [done|].
  rewrite Ht. cbn [query_entries]. rewrite key_size_spec, bind_ret, drop_app_length by (destruct p; auto).
  cbn [deref]. rewrite bind_ret. change (skip_whitespace (125 :: rest)) with (Ret (125 :: rest)). rewrite bind_ret.
  change (skip_key (125 :: rest)) with (Ret (125 :: rest)). rewrite bind_ret.
  pose proof (match_spec [] k (125 :: rest) (path_end (k :: p) :: r)) as Hm. cbn [app] in Hm.
  rewrite Hm, bind_ret. change (skip_whitespace (125 :: rest)) with (Ret (125 :: rest)). rewrite bind_ret.
  by rewrite brace_hangs.
Qed.

(** ** The theorems *)

(** C30: [query_config_string] finds in every configuration string of the grammar
    the value of every path, that is the value of the first entry in the order
    of the text that the path leads to, and null when there is none; from the
    result [get_uint] reads the number of the value, decimal or hexadecimal,
    modulo 2^64.  On an empty block, which the grammar excludes, the search does
    not end. *)
Theorem query_config_string_correct es wc p after :
  wf_entries es -> blank wc -> path_ok p ->
  (exists res, query_config_string (config_text es wc) (path_text p after) = Ret res /\
     match lookup_entries p es with
     | Some v => found v res /\ forall x, wf_value v -> value_number v = Some x -> get_uint res = Ret (u64 x)
     | None => start res = None
     end) /\
  (forall fuel rest re, query_entries fuel (125 :: rest) (path_text p after) re = Fault Blocked).
Proof.
  intros Hes Hwc Hp. split; [|intros; by apply empty_block_hangs].
  destruct (query_spec es wc p after Hes Hwc Hp) as (res & Hr & Ha). exists res. split; [done|].
  unfold answers in Ha. destruct (lookup_entries p es) as [v|]; [|done]. split; [done|].
  intros x Hv Hx. by apply (get_uint_spec v x res).
Qed.

(** C31: [parse_config_string] reads what the string says: the base and the size
    of the memory, the address of the clock, and for every hart, in the order of
    the cores, the addresses of its two registers into the hart-local storage of
    the next hart id.  It stops with an assertion when there is no hart or more
    than [MAX_HARTS], the latter only after storing all of them. *)
Theorem parse_config_string_correct es wc base size clock (cores : list (list (Z * Z))) fuel g :
  wf_entries es -> blank wc ->
  number_at es [key_ram; decimal 0; key_addr] base -> number_at es [key_ram; decimal 0; key_size_] size ->
  number_at es [key_rtc; key_addr] clock ->
  (forall c hs, cores !! c = Some hs -> core_described es (Z.of_nat c) hs /\ hs <> []) ->
  core_described es (lenz cores) [] ->
  num_harts g = 0 -> lenz (concat cores) < 10 ^ 8 -> lenz (concat cores) + 1 < Z.of_nat fuel ->
  let n := lenz (concat cores) in
  parse_config_string fuel (config_text es wc) g =
  if (n =? 0) || (MAX_HARTS <? n) then Fault AssertFail
  else Ret (MkPlatform (u64 base) (u64 size) (u64 clock) n (add_harts 0 (concat cores) (harts g))).
Proof. intros. by apply parse_spec. Qed.

(** A machine with one core of two harts:
    ram { 0 { addr 0x80; size 4096; }; }; rtc { addr 64; };
    core { 0 { 0 { ipi 1; timecmp 2; }; 1 { ipi 3; timecmp 4; }; }; }; *)
Definition demo_pair (k1 w1 k2 w2 : list Z) : entries :=
  EMore [] k1 [32] (VWord w1 [] VEnd) (ELast [32] k2 [32] (VWord w2 [] VEnd)).
Definition demo_block (es : entries) : value := VBlock es [32] [] VEnd.
Definition demo_config : entries :=
  EMore [] key_ram [32]
    (demo_block (ELast [32] [48] [32] (demo_block (demo_pair key_addr [48; 120; 56; 48] key_size_ [52; 48; 57; 54]))))
  (EMore [10] key_rtc [32] (demo_block (ELast [32] key_addr [32] (VWord [54; 52] [] VEnd)))
  (ELast [10] key_core [32]
    (demo_block (ELast [32] [48] [32]
      (demo_block (EMore [32] [48] [32] (demo_block (demo_pair key_ipi [49] key_timecmp [50]))
                  (ELast [32] [49] [32] (demo_block (demo_pair key_ipi [51] key_timecmp [52]))))))))).

Lemma demo_config_wf : wf_entries demo_config.
Proof. repeat (split || constructor); done. Qed.

Lemma query_config_string_correct_witness :
  exists res, query_config_string (config_text demo_config [10]) (path_text [key_ram; [48]; key_addr] [])  = Ret res /\
    get_uint res = Ret 0x80.
Proof.
  destruct (query_config_string_correct demo_config [10] [key_ram; [48]; key_addr] []) as [(res & Hr & Ha) _].
  - apply demo_config_wf.
  - by repeat constructor.
  - split; [done|]. by repeat constructor.
  - exists res. split; [exact Hr|]. cbn in Ha. destruct Ha as [_ Ha]. apply (Ha 0x80); [|done]. by repeat constructor.
Defined.

Lemma parse_config_string_correct_witness :
  parse_config_string 10 (config_text demo_config [10]) (MkPlatform 0 0 0 0 ∅) =
  Ret (MkPlatform 0x80 4096 64 2 (add_harts 0 [(1, 2); (3, 4)] ∅)).
Proof.
  apply (parse_config_string_correct demo_config [10] 0x80 4096 64 [[(1, 2); (3, 4)]] 10).
  - apply demo_config_wf.
  - by repeat constructor.
  - eexists. split; [reflexivity|]. split; [by repeat constructor|done].
  - eexists. split; [reflexivity|]. split; [by repeat constructor|done].
  - eexists. split; [reflexivity|]. split; [by repeat constructor|done].
  - intros [|c] hs Hc; [|done]. injection Hc as <-. split; [|done]. split; [|done].
    intros [|[|h]] i t Hh; [| |done]; injection Hh as <- <-;
      (split; (eexists; split; [reflexivity|]; split; [by repeat constructor|done])).
  - split; [|done]. intros h i t Hh. done.
  - done.
  - done.
  - done.
Defined.
