(* ===== verification/Boot.v ===== *)
(** * Start of the kernel: bbl/kernel_elf.c, bbl/bbl.c, machine/minit.c

    Loading the kernel from its ELF image, the page tables it starts with, and
    the registers of a hart that enters it.  The memory is the list of the bytes
    from [mem_base] on; addresses are physical ones, as machine mode uses them. *)

From S2P Require Import Prelude Str Machine.

(** ** Memory *)

(** The global variables of the boot loader that this code uses, the memory and
    the page table register. *)
Record kernel_elf_info : Type := MkInfo {
  entry : Z;
  first_user_vaddr : Z;
  first_vaddr_after_user : Z;
  load_offset : Z
}.

Record boot : Type := MkBoot {
  ram : list Z;
  mem_base : Z;
  mem_size : Z;
  first_free_paddr : Z;
  info : kernel_elf_info;
  root_page_table : Z;
  sptbr : Z
}.

Definition set_ram (r : list Z) (g : boot) : boot :=
  MkBoot r (mem_base g) (mem_size g) (first_free_paddr g) (info g) (root_page_table g) (sptbr g).
Definition set_free (p : Z) (g : boot) : boot :=
  MkBoot (ram g) (mem_base g) (mem_size g) p (info g) (root_page_table g) (sptbr g).
Definition set_size (n : Z) (g : boot) : boot :=
  MkBoot (ram g) (mem_base g) n (first_free_paddr g) (info g) (root_page_table g) (sptbr g).
Definition set_kernel (i : kernel_elf_info) (g : boot) : boot :=
  MkBoot (ram g) (mem_base g) (mem_size g) (first_free_paddr g) i (root_page_table g) (sptbr g).
Definition set_root (t : Z) (g : boot) : boot :=
  MkBoot (ram g) (mem_base g) (mem_size g) (first_free_paddr g) (info g) t (t >>> 12).

(** Access to the memory by address. *)
Definition read_uint (g : boot) (a n : Z) : outcome Z :=
  bs ← load (ram g) (a - mem_base g) n; Ret (bytes_word bs).
Definition write_word (g : boot) (a v : Z) : outcome boot :=
  r ← store (ram g) (a - mem_base g) (word_bytes 8 v); Ret (set_ram r g).
Definition do_memcpy (g : boot) (dest src n : Z) : outcome boot :=
  r ← memcpy (ram g) (dest - mem_base g) (src - mem_base g) n; Ret (set_ram r g).
Definition do_memset (g : boot) (dest byte n : Z) : outcome boot :=
  r ← memset (ram g) (dest - mem_base g) byte n; Ret (set_ram r g).

(** [for (; i < i + n; i++) body] *)
Fixpoint for_loop {A} (n : nat) (i : Z) (body : Z -> A -> outcome A) (a : A) : outcome A :=
  match n with O => Ret a | S n => a ← body i a; for_loop n (i + 1) body a end.

(** ** Sizes: encoding.h, vm.h, bits.h *)

Definition RISCV_PGSHIFT : Z := 12.
Definition RISCV_PGSIZE : Z := 4096.
Definition RISCV_PGLEVEL_BITS : Z := 9.
Definition MEGAPAGE_SIZE : Z := 2097152.
Definition GIGAPAGE_SIZE : Z := 1073741824.

Definition ROUNDUP (a b : Z) : Z := u64 ((u64 (a - 1) / b + 1) * b).
Definition ROUNDDOWN (a b : Z) : Z := a / b * b.

Definition PTE_V : Z := 0x1.
Definition PTE_R : Z := 0x2.
Definition PTE_W : Z := 0x4.
Definition PTE_X : Z := 0x8.
Definition PTE_G : Z := 0x20.
Definition PTE_PPN_SHIFT : Z := 10.

Definition pte_create (ppn type : Z) : Z := u64 (ppn <<< PTE_PPN_SHIFT) ||| PTE_V ||| type.
Definition ptd_create (ppn : Z) : Z := pte_create ppn PTE_V.

(** ** The ELF image: elf.h *)

Definition PT_LOAD : Z := 1.
Definition SIZEOF_EHDR : Z := 64.
Definition SIZEOF_PHDR : Z := 56.

(** The fields of Elf64_Phdr that are used. *)
Record phdr : Type := MkPhdr { p_type : Z; p_offset : Z; p_vaddr : Z; p_filesz : Z; p_memsz : Z }.

(** [ph[i]] *)
Definition read_phdr (g : boot) (ph i : Z) : outcome phdr :=
  let a := u64 (ph + i * SIZEOF_PHDR) in
  type ← read_uint g a 4;
  offset ← read_uint g (a + 8) 8;
  vaddr ← read_uint g (a + 16) 8;
  filesz ← read_uint g (a + 32) 8;
  memsz ← read_uint g (a + 40) 8;
  Ret (MkPhdr type offset vaddr filesz memsz).

Definition e_ident (g : boot) (eh i : Z) : outcome Z := read_uint g (eh + i) 1.
Definition e_entry (g : boot) (eh : Z) : outcome Z := read_uint g (eh + 24) 8.
Definition e_phoff (g : boot) (eh : Z) : outcome Z := read_uint g (eh + 32) 8.
Definition e_phnum (g : boot) (eh : Z) : outcome Z := read_uint g (eh + 56) 2.

(** [p_type == PT_LOAD && p_memsz] *)
Definition loadable (p : phdr) : bool := (p_type p =? PT_LOAD) && negb (p_memsz p =? 0).

(** ** load_kernel_elf *)

Definition min_step (g : boot) (ph i min_vaddr : Z) : outcome Z :=
  p ← read_phdr g ph i;
  Ret (if loadable p && (p_vaddr p <? min_vaddr) then p_vaddr p else min_vaddr).

(** The body of the second loop; it stops with the message of the label fail. *)
Definition load_step (blob size bias ph i : Z) (s : Z * boot) : outcome (Z * boot) :=
  let '(max_vaddr, g) := s in
  p ← read_phdr g ph i;
  if loadable p then
    let prepad := p_vaddr p mod RISCV_PGSIZE in
    let vaddr := u64 (p_vaddr p + bias) in
    let max_vaddr := if max_vaddr <? u64 (vaddr + p_memsz p) then u64 (vaddr + p_memsz p) else max_vaddr in
    if size <? u64 (p_offset p + p_filesz p) then Fault Die else
    g ← do_memcpy g vaddr (u64 (blob + p_offset p)) (p_filesz p);
    g ← do_memset g (u64 (vaddr - prepad)) 0 prepad;
    g ← do_memset g (u64 (vaddr + p_filesz p)) 0 (u64 (p_memsz p - p_filesz p));
    Ret (max_vaddr, g)
  else Ret (max_vaddr, g).

Fixpoint load_loop (n : nat) (blob size bias ph : Z) (s : Z * boot) : outcome (Z * boot) :=
  match n with
  | O => Ret s
  | S i => s ← load_step blob size bias ph (Z.of_nat i) s; load_loop i blob size bias ph s
  end.

Definition load_kernel_elf (blob size : Z) (g : boot) : outcome boot :=
  let eh := blob in
  if size <? SIZEOF_EHDR then Fault Die else
  i0 ← e_ident g eh 0; i1 ← e_ident g eh 1; i2 ← e_ident g eh 2; i3 ← e_ident g eh 3;
  if negb ((i0 =? 0x7f) && (i1 =? 69) && (i2 =? 76) && (i3 =? 70)) then Fault Die else
  class ← e_ident g eh 4;
  if negb (class =? 2) then Fault Die else
  phnum ← e_phnum g eh;
  phoff ← e_phoff g eh;
  let phdr_size := phnum * SIZEOF_EHDR in
  let ph := u64 (blob + phoff) in
  if size <? u64 (phoff + phdr_size) then Fault Die else
  let g := set_free (ROUNDUP (first_free_paddr g) MEGAPAGE_SIZE) g in
  min_vaddr ← for_loop (Z.to_nat phnum) 0 (min_step g ph) (2 ^ 64 - 1);
  let min_vaddr := ROUNDDOWN min_vaddr MEGAPAGE_SIZE in
  let bias := u64 (first_free_paddr g - min_vaddr) in
  '(max_vaddr, g) ← load_loop (Z.to_nat phnum) blob size bias ph (0, g);
  entry ← e_entry g eh;
  Ret (set_kernel (MkInfo entry min_vaddr (ROUNDUP (u64 (max_vaddr - bias)) RISCV_PGSIZE) bias) g).

(** ** supervisor_vm_init *)

Definition MIN (a b : Z) : Z := if a <? b then a else b.

(** The loop that maps the memory from [paddr] on; it ends at the latest when
    [paddr] has gone through the addresses below the end of the memory. *)
Fixpoint map_loop (fuel : nat) (middle_pt vaddr paddr : Z) (g : boot) : outcome boot :=
  if paddr <? u64 (mem_base g + mem_size g) then
    match fuel with
    | O => Fault Blocked
    | S fuel =>
        let l2_shift := RISCV_PGLEVEL_BITS + RISCV_PGSHIFT in
        let l2_idx := (first_user_vaddr (info g) >>> l2_shift) &&& 511 in
        let l2_idx := l2_idx + (u64 (vaddr - first_user_vaddr (info g)) >>> l2_shift) in
        g ← write_word g (u64 (middle_pt + 8 * l2_idx))
              (pte_create (paddr >>> RISCV_PGSHIFT) (((PTE_G ||| PTE_R) ||| PTE_W) ||| PTE_X));
        map_loop fuel middle_pt (u64 (vaddr + MEGAPAGE_SIZE)) (u64 (paddr + MEGAPAGE_SIZE)) g
    end
  else Ret g.

Definition supervisor_vm_init (_sbi_end : Z) (g : boot) : outcome boot :=
  let highest_va := u64 (mem_base g - first_free_paddr g) in
  let g := set_size (MIN (mem_size g) (u64 (highest_va - first_user_vaddr (info g))) &&& u64 (- MEGAPAGE_SIZE)) g in
  let sbi_pt := u64 (first_vaddr_after_user (info g) + load_offset (info g)) in
  g ← do_memset g sbi_pt 0 RISCV_PGSIZE;
  let middle_pt := u64 (sbi_pt + RISCV_PGSIZE) in
  let num_middle_pts := u64 (- first_user_vaddr (info g) - 1) / GIGAPAGE_SIZE + 1 in
  let root_pt := u64 (middle_pt + num_middle_pts * RISCV_PGSIZE) in
  g ← do_memset g middle_pt 0 (u64 ((num_middle_pts + 1) * RISCV_PGSIZE));
  g ← for_loop (Z.to_nat num_middle_pts) 0 (fun i g =>
        write_word g (u64 (root_pt + 8 * u64 (512 - num_middle_pts + i)))
          (ptd_create (u64 ((middle_pt >>> RISCV_PGSHIFT) + i)))) g;
  let vaddr := first_user_vaddr (info g) in
  g ← map_loop (Z.to_nat (u64 (mem_base g + mem_size g) / MEGAPAGE_SIZE + 1)) middle_pt vaddr
        (u64 (vaddr + load_offset (info g))) g;
  let num_sbi_pages := u64 (_sbi_end - mem_base g - 1) / RISCV_PGSIZE + 1 in
  _ ← c_assert (num_sbi_pages <=? 512);
  g ← for_loop (Z.to_nat num_sbi_pages) 0 (fun i g =>
        let idx := 512 - num_sbi_pages + i in
        write_word g (u64 (sbi_pt + 8 * idx))
          (pte_create (mem_base g / RISCV_PGSIZE + i) ((PTE_G ||| PTE_R) ||| PTE_X))) g;
  let sbi_pte := u64 (middle_pt + 8 * ((num_middle_pts <<< RISCV_PGLEVEL_BITS) - 1)) in
  old ← read_uint g sbi_pte 8;
  _ ← c_assert (old =? 0);
  g ← write_word g sbi_pte (ptd_create (sbi_pt >>> RISCV_PGSHIFT));
  Ret (set_root root_pt g).

(** ** minit.c *)

Definition MSTATUS_VM_CHOICE : Z := 9.
Definition MIP_SSIP : Z := 0x2.
Definition MIP_STIP : Z := 0x20.
Definition MIP_MTIP : Z := 0x80.

(** [assert] in the monitor. *)
Definition t_assert (b : bool) : T unit := if b then mret tt else stop AssertFail.

Definition mstatus_init : T unit :=
  let ms := INSERT_FIELD 0 MSTATUS_VM MSTATUS_VM_CHOICE in
  let ms := INSERT_FIELD ms MSTATUS_FS 1 in
  write_csr MSTATUS ms;;
  ms ← read_csr MSTATUS;
  t_assert (EXTRACT_FIELD ms MSTATUS_VM =? MSTATUS_VM_CHOICE);;
  write_csr RTC2_CMP (-1);;
  write_csr MIP 0;;
  write_csr MCAUSE 0;;
  write_csr MUCOUNTEREN (-1);;
  write_csr MSCOUNTEREN (-1);;
  write_csr MIE (Z.lnot MIP_MTIP).

(** Bits of the causes 0, 1, 3, 5, 7 and 8. *)
Definition delegated : Z := (((((1 <<< 0) ||| (1 <<< 1)) ||| (1 <<< 3)) ||| (1 <<< 5)) ||| (1 <<< 7)) ||| (1 <<< 8).

Definition delegate_traps : T unit :=
  let interrupts := MIP_SSIP ||| MIP_STIP in
  write_csr MIDELEG interrupts;;
  write_csr MEDELEG delegated;;
  i ← read_csr MIDELEG;
  t_assert (i =? interrupts);;
  e ← read_csr MEDELEG;
  t_assert (e =? delegated).

(** [supports_extension('D')] reads bit 3 of misa. *)
Definition fp_init : T unit :=
  ms ← read_csr MSTATUS;
  t_assert (negb (ms &&& MSTATUS_FS =? 0));;
  isa ← read_csr MISA;
  if negb (isa &&& (1 <<< 3) =? 0) then stop Die else mret tt.

Definition hart_init : T unit := mstatus_init;; fp_init;; delegate_traps.

(** [_end] is the end of the boot loader in memory. *)
Definition sbi_top_paddr (_end : Z) : Z := ROUNDUP _end RISCV_PGSIZE.

Definition memory_init (_end num_harts : Z) (g : boot) : boot :=
  set_free (u64 (sbi_top_paddr _end + num_harts * RISCV_PGSIZE))
    (set_size (mem_size g / MEGAPAGE_SIZE * MEGAPAGE_SIZE) g).

Definition MENTRY_FRAME_SIZE : Z := 32 * 8 + 8 * 32 + 64.

(** [mret] goes to mepc in the mode of the field MPP of mstatus; the result is
    that address and that mode, and the argument and stack pointer it gets. *)
Definition enter_supervisor_mode (root_page_table fn stack stack_top : Z) : T (Z * Z * Z) :=
  mstatus ← read_csr MSTATUS;
  let mstatus := INSERT_FIELD mstatus MSTATUS_MPP PRV_S in
  let mstatus := INSERT_FIELD mstatus MSTATUS_MPIE 0 in
  write_csr MSTATUS mstatus;;
  write_csr MSCRATCH (stack_top - MENTRY_FRAME_SIZE);;
  write_csr MEPC fn;;
  write_csr SPTBR (root_page_table >>> RISCV_PGSHIFT);;
  pc ← read_csr MEPC;
  ms ← read_csr MSTATUS;
  mret (pc, EXTRACT_FIELD ms MSTATUS_MPP, stack).

(** ** sbi_impl.c *)

(** The result and the block of memory that [p] is set to. *)
Definition __sbi_query_memory (id : Z) (g : boot) : Z * option (Z * Z) :=
  if id =? 0 then (0, Some (first_free_paddr g, u64 (mem_size g + mem_base g - first_free_paddr g)))
  else (u64 (-1), None).

Definition LOW_IRQ_OK (n : Z) : bool := (n =? 1) || (n =? 5).

Definition __sbi_mask_interrupt (which : Z) : T Z :=
  if negb (LOW_IRQ_OK which) then mret (u64 (-1)) else clear_csr SIE (1 <<< which);; mret 0.
Definition __sbi_unmask_interrupt (which : Z) : T Z :=
  if negb (LOW_IRQ_OK which) then mret (u64 (-1)) else set_csr SIE (1 <<< which);; mret 0.

(** ** boot_loader *)

(** The payload lies at [_payload_start]; the hart enters the kernel. *)
Definition boot_loader (_payload_start payload_size _sbi_end stack_top : Z) (g : boot) (s : hart) :
    outcome (boot * exec (Z * Z * Z)) :=
  g ← load_kernel_elf _payload_start payload_size g;
  g ← supervisor_vm_init _sbi_end g;
  Ret (g, enter_supervisor_mode (root_page_table g) (entry (info g)) 0 stack_top s).
