(* ===== verification/BootTables.v ===== *)
(** * The page tables of the kernel: supervisor_vm_init of bbl/bbl.c

    The tables that the boot loader builds translate exactly the addresses of
    the kernel's memory and of the pages of the supervisor binary interface. *)

From S2P Require Import Prelude Str StrSpec Machine Boot.

(** ** Words in memory *)

Definition bytes_from (l : list Z) (i n : Z) : list Z := nthz l <$> seqZ i n.

Lemma load_bytes_from l i n :
  0 <= i -> 0 <= n -> i + n <= lenz l -> load l i n = Ret (bytes_from l i n).
Proof.
  intros Hi Hn Hl. destruct (load_spec l i n Hi Hn Hl) as (d & Hd & Hld & Hdi). rewrite Hd. f_equal.
  unfold bytes_from. apply listz_eq; [by rewrite lenz_seqZ|]. intros j Hj. rewrite Hdi, nthz_seqZ by lia. done.
Qed.

Lemma bytes_from_ext l l' i n :
  (forall j, i <= j < i + n -> l !z j = l' !z j) -> bytes_from l i n = bytes_from l' i n.
Proof. intros H. apply map_ext_in. intros j Hj. apply list_elem_of_In, elem_of_seqZ in Hj. apply H. lia. Qed.

Lemma bytes_from_list w : bytes_from w 0 (lenz w) = w.
Proof.
  unfold bytes_from. pose proof (lenz_nonneg w). apply listz_eq; [by rewrite lenz_seqZ|].
  intros j Hj. rewrite lenz_seqZ in Hj by done. by rewrite nthz_seqZ by lia.
Qed.

(** A list that holds another one at an index. *)
Lemma bytes_from_shift l w i : (forall j, 0 <= j < lenz w -> l !z (i + j) = w !z j) -> bytes_from l i (lenz w) = w.
Proof.
  intros H. rewrite <- (bytes_from_list w) at 2. pose proof (lenz_nonneg w). unfold bytes_from.
  apply listz_eq; [by rewrite !lenz_seqZ|]. intros j Hj. rewrite lenz_seqZ in Hj by done.
  rewrite !nthz_seqZ by lia. by apply H.
Qed.

(** The word at index [i], and bytes outside a range that stay the same. *)
Definition word_at (l : list Z) (i : Z) : Z := bytes_word (bytes_from l i 8).

Definition framed (l l' : list Z) (d n : Z) : Prop :=
  lenz l' = lenz l /\ forall i, 0 <= i -> i < d \/ d + n <= i -> l' !z i = l !z i.

Lemma patched_framed l l' d n f : patched l l' d n f -> framed l l' d n.
Proof.
  intros [Hl H]. split; [done|]. intros i Hi Ho. rewrite H by done.
  destruct (Z.leb_spec d i), (Z.ltb_spec i (d + n)); try done. lia.
Qed.

Lemma framed_refl l d n : framed l l d n.
Proof. by split. Qed.

Lemma framed_trans l l1 l2 d n d1 n1 :
  framed l l1 d1 n1 -> framed l1 l2 d n -> d <= d1 -> d1 + n1 <= d + n -> framed l l2 d n.
Proof.
  intros [Hl1 H1] [Hl2 H2] Hd Hn. split; [congruence|]. intros i Hi Ho. rewrite H2, H1 by lia. done.
Qed.

Lemma framed_wider l l' d n d' n' : framed l l' d n -> d' <= d -> d + n <= d' + n' -> framed l l' d' n'.
Proof. intros [Hl H] Hd Hn. split; [done|]. intros i Hi Ho. apply H; lia. Qed.

Lemma word_at_framed l l' d n i : framed l l' d n -> 0 <= i -> i + 8 <= d \/ d + n <= i -> word_at l' i = word_at l i.
Proof. intros [_ H] Hi Ho. unfold word_at. f_equal. apply bytes_from_ext. intros j Hj. apply H; lia. Qed.

Lemma word_at_zeros l l' d n i :
  patched l l' d n (fun _ => u8 0) -> 0 <= i -> d <= i -> i + 8 <= d + n -> word_at l' i = 0.
Proof.
  intros [_ H] Hi Hd Hn. unfold word_at. change 8 with (lenz (zeros 8)). rewrite (bytes_from_shift _ (zeros 8)); [done|].
  change (lenz (zeros 8)) with 8. intros j Hj. rewrite H, nthz_zeros by lia.
  by destruct (Z.leb_spec d (i + j)), (Z.ltb_spec (i + j) (d + n)); try lia.
Qed.

Lemma bytes_word_bytes n v : 0 <= v < 256 ^ Z.of_nat n -> bytes_word (word_bytes n v) = v.
Proof.
  revert v. induction n as [|n IH]; intros v Hv; cbn [word_bytes bytes_word]; [simpl in Hv; lia|].
  replace (Z.of_nat (S n)) with (Z.succ (Z.of_nat n)) in Hv by lia. rewrite Z.pow_succ_r in Hv by lia.
  rewrite IH by zdm. zdm.
Qed.

Lemma word_at_written l l' d v :
  patched l l' d 8 (nthz (word_bytes 8 v)) -> 0 <= d -> is_uint 64 v -> word_at l' d = v.
Proof.
  intros [_ H] Hd Hv. unfold word_at. change 8 with (lenz (word_bytes 8 v)) at 1. rewrite (bytes_from_shift _ (word_bytes 8 v)).
  - by apply bytes_word_bytes.
  - change (lenz (word_bytes 8 v)) with 8. intros j Hj. rewrite H by lia.
    destruct (Z.leb_spec d (d + j)), (Z.ltb_spec (d + j) (d + 8)); try lia. cbn [andb]. f_equal. lia.
Qed.

(** ** Access by address *)

Definition in_ram (g : boot) (a n : Z) : Prop := mem_base g <= a /\ a + n <= mem_base g + lenz (ram g).

Lemma read_uint_spec g a n : in_ram g a n -> 0 <= n -> read_uint g a n = Ret (bytes_word (bytes_from (ram g) (a - mem_base g) n)).
Proof. intros [H1 H2] Hn. unfold read_uint. by rewrite load_bytes_from by lia. Qed.

Lemma ram_write_word_spec g a v :
  in_ram g a 8 -> exists r, write_word g a v = Ret (set_ram r g) /\
    patched (ram g) r (a - mem_base g) 8 (nthz (word_bytes 8 v)).
Proof.
  intros [H1 H2]. destruct (store_patched (ram g) (a - mem_base g) (word_bytes 8 v)) as (r & Hs & Hp);
    [lia|change (lenz (word_bytes 8 v)) with 8; lia|].
  exists r. unfold write_word. by rewrite Hs.
Qed.

Lemma do_memset_spec g a byte n :
  in_ram g a n -> 0 <= n -> exists r, do_memset g a byte n = Ret (set_ram r g) /\
    patched (ram g) r (a - mem_base g) n (fun _ => u8 byte).
Proof.
  intros [H1 H2] Hn. destruct (memset_spec (ram g) (a - mem_base g) byte n) as (r & Hs & Hp); [lia..|].
  exists r. unfold do_memset. by rewrite Hs.
Qed.

(** What a change of the memory or of its size leaves alone. *)
Lemma mem_base_ram r g : mem_base (set_ram r g) = mem_base g.
Proof. done. Qed.
Lemma mem_size_ram r g : mem_size (set_ram r g) = mem_size g.
Proof. done. Qed.
Lemma info_ram r g : info (set_ram r g) = info g.
Proof. done. Qed.
Lemma mem_base_size n g : mem_base (set_size n g) = mem_base g.
Proof. done. Qed.
Lemma mem_size_size n g : mem_size (set_size n g) = n.
Proof. done. Qed.
Lemma info_size n g : info (set_size n g) = info g.
Proof. done. Qed.
Lemma set_ram_ram r r' g : set_ram r (set_ram r' g) = set_ram r g.
Proof. done. Qed.
Create Rewrite HintDb boot.
#[export] Hint Rewrite mem_base_ram mem_size_ram info_ram mem_base_size mem_size_size info_size set_ram_ram : boot.

(** A loop that fills words [a + 8 i]. *)
Lemma fill_spec n i0 a (f : Z -> Z) body g :
  (forall i r, i0 <= i < i0 + Z.of_nat n -> body i (set_ram r g) = write_word (set_ram r g) (a + 8 * i) (f i)) ->
  in_ram g (a + 8 * i0) (8 * Z.of_nat n) -> (forall i, i0 <= i < i0 + Z.of_nat n -> is_uint 64 (f i)) ->
  exists r, for_loop n i0 body g = Ret (set_ram r g) /\
    framed (ram g) r (a + 8 * i0 - mem_base g) (8 * Z.of_nat n) /\
    forall i, i0 <= i < i0 + Z.of_nat n -> word_at r (a + 8 * i - mem_base g) = f i.
Proof.
  revert i0 g. induction n as [|n IH]; intros i0 g Hb Hin Hf.
  - exists (ram g). split; [by destruct g|]. split; [apply framed_refl|]. intros i Hi. lia.
  - cbn [for_loop]. destruct Hin as [Hin1 Hin2].
    pose proof (Hb i0 (ram g) ltac:(lia)) as Hb0.
    replace (set_ram (ram g) g) with g in Hb0 by (by destruct g). rewrite Hb0.
    destruct (ram_write_word_spec g (a + 8 * i0) (f i0)) as (r & Hr & Hp); [split; lia|].
    rewrite Hr, bind_ret. pose proof Hp as [Hl _].
    destruct (IH (i0 + 1) (set_ram r g)) as (r' & Hr' & Hfr & Hw).
    + intros i r' Hi. apply Hb. lia.
    + split; cbn; lia.
    + intros i Hi. apply Hf. lia.
    + exists r'. split; [done|]. cbn in Hfr, Hw. split.
      * eapply framed_trans; [exact (patched_framed _ _ _ _ _ Hp)| |lia|lia].
        eapply framed_wider; [exact Hfr|lia|lia].
      * intros i Hi. destruct (decide (i = i0)) as [->|].
        -- erewrite word_at_framed by (exact Hfr || lia). by eapply word_at_written; [exact Hp|lia|apply Hf; lia].
        -- apply Hw. lia.
Qed.

(** ** Page tables

    The translation of addresses as the instruction-set manual defines it for
    Sv39: the address must be the sign extension of its 39 bits; the result is
    the physical address and the permissions. *)

Fixpoint walk (g : boot) (level : nat) (a va : Z) : option (Z * Z) :=
  let size := 2 ^ (12 + 9 * Z.of_nat level) in
  let pte := word_at (ram g) (a + 8 * ((va / size) mod 512) - mem_base g) in
  let ppn := (pte / 2 ^ 10) mod 2 ^ 44 in
  let flags := pte mod 2 ^ 10 in
  if flags &&& PTE_V =? 0 then None
  else if flags &&& (PTE_R ||| PTE_W ||| PTE_X) =? 0 then
    match level with O => None | S level => walk g level (ppn * 2 ^ 12) va end
  else if (flags &&& PTE_R =? 0) && negb (flags &&& PTE_W =? 0) then None
  else if (ppn * 2 ^ 12) mod size =? 0 then Some (ppn * 2 ^ 12 + va mod size, flags)
  else None.

Definition translate (g : boot) (va : Z) : option (Z * Z) :=
  if (va <? 2 ^ 38) || (2 ^ 64 - 2 ^ 38 <=? va) then walk g 2 (sptbr g * 2 ^ 12) va else None.

Lemma pte_fields ppn type :
  0 <= ppn < 2 ^ 44 -> 0 <= type < 2 ^ 10 ->
  is_uint 64 (pte_create ppn type) /\ (pte_create ppn type / 2 ^ 10) mod 2 ^ 44 = ppn /\
  pte_create ppn type mod 2 ^ 10 = 1 ||| type.
Proof.
  intros Hp Ht. unfold pte_create, PTE_V, PTE_PPN_SHIFT. rewrite <- Z.lor_assoc.
  assert (Hl : 0 <= 1 ||| type < 2 ^ 10).
  { split; [apply Z.lor_nonneg; lia|]. destruct (Z.eqb_spec (1 ||| type) 0); [lia|].
    apply Z.log2_lt_pow2; [assert (0 <= 1 ||| type) by (apply Z.lor_nonneg; lia); lia|].
    rewrite Z.log2_lor by lia. apply Z.max_lub_lt; [done|].
    destruct (Z.eq_dec type 0) as [->|]; [done|]. apply Z.log2_lt_pow2; lia. }
  rewrite u64_small by (rewrite shiftl_mul by lia; lia).
  rewrite lor_disjoint_add by lia. unfold is_uint. split; [lia|]. split; zdm.
Qed.

(** What [supervisor_vm_init] relies on: megapages, a kernel in the upper half of
    the address space, room below the top for what lies below the kernel in
    memory, and memory for the tables behind the kernel. *)
Definition num_middle_pts (g : boot) : Z := (2 ^ 64 - first_user_vaddr (info g) - 1) / 2 ^ 30 + 1.
Definition tables (g : boot) : Z := u64 (first_vaddr_after_user (info g) + load_offset (info g)).

Record vm_ok (g : boot) (sbi_end : Z) : Prop := {
  vm_user : 2 ^ 64 - 2 ^ 38 <= first_user_vaddr (info g) < 2 ^ 64 /\ first_user_vaddr (info g) mod 2 ^ 21 = 0;
  vm_free : first_free_paddr g mod 2 ^ 21 = 0 /\ mem_base g mod 2 ^ 21 = 0 /\
            0 <= mem_base g < first_free_paddr g;
  vm_offset : u64 (first_user_vaddr (info g) + load_offset (info g)) = first_free_paddr g;
  vm_top : first_user_vaddr (info g) + (first_free_paddr g - mem_base g) <= 2 ^ 64;
  vm_sbi : mem_base g < sbi_end <= mem_base g + 2 ^ 21;
  vm_size : 0 <= mem_size g /\ mem_base g + mem_size g < 2 ^ 56 /\ mem_base g + lenz (ram g) < 2 ^ 56;
  vm_tables : tables g mod 2 ^ 12 = 0 /\ in_ram g (tables g) ((2 + num_middle_pts g) * 2 ^ 12)
}.

(** The size of the memory that is left, the size of the memory that is mapped
    for the kernel, and the pages of the binary interface. *)
Definition usable (g : boot) : Z :=
  Z.min (mem_size g) (2 ^ 64 - (first_free_paddr g - mem_base g) - first_user_vaddr (info g)) / 2 ^ 21 * 2 ^ 21.
Definition mapped (g : boot) : Z := Z.max 0 (mem_base g + usable g - first_free_paddr g).
Definition sbi_pages (g : boot) (sbi_end : Z) : Z := (sbi_end - mem_base g - 1) / 2 ^ 12 + 1.

Definition kernel_flags : Z := 0x2f.
Definition sbi_flags : Z := 0x2b.

Definition page_map (g : boot) (sbi_end va : Z) : option (Z * Z) :=
  let user := first_user_vaddr (info g) in
  let top := 2 ^ 64 - sbi_pages g sbi_end * 2 ^ 12 in
  if (user <=? va) && (va <? user + mapped g) then Some (va - user + first_free_paddr g, kernel_flags)
  else if (top <=? va) && (va <? 2 ^ 64) then Some (va - top + mem_base g, sbi_flags)
  else None.

(** ** The tables that are built *)

(** The entries, by index: of the table of the binary interface, of the tables
    in the middle (in a row), and of the root. *)
Definition sbi_entry (g : boot) (sbi_end i : Z) : Z :=
  let n := sbi_pages g sbi_end in
  if 512 - n <=? i then pte_create (mem_base g / 2 ^ 12 + (i - (512 - n))) 0x2a else 0.
Definition middle_entry (g : boot) (j : Z) : Z :=
  let s := (first_user_vaddr (info g) / 2 ^ 21) mod 512 in
  if (s <=? j) && (j <? s + mapped g / 2 ^ 21)
  then pte_create (first_free_paddr g / 2 ^ 12 + (j - s) * 512) 0x2e
  else if j =? 512 * num_middle_pts g - 1 then ptd_create (tables g / 2 ^ 12) else 0.
Definition root_entry (g : boot) (i : Z) : Z :=
  let n := num_middle_pts g in
  if 512 - n <=? i then ptd_create (tables g / 2 ^ 12 + 1 + (i - (512 - n))) else 0.

Lemma land_mega x : 0 <= x < 2 ^ 64 -> x &&& u64 (- MEGAPAGE_SIZE) = x / 2 ^ 21 * 2 ^ 21.
Proof.
  intros Hx. change (u64 (- MEGAPAGE_SIZE)) with (Z.ones 43 <<< 21). rewrite land_field by lia.
  rewrite (Z.mod_small (x / 2 ^ 21)) by zdm. done.
Qed.

(** One step of the translation, by the kind of the entry. *)
Section walking.
Context (h : boot) (level : nat) (a va : Z).
#[local] Notation size := (2 ^ (12 + 9 * Z.of_nat level)).
#[local] Notation pte := (word_at (ram h) (a + 8 * ((va / size) mod 512) - mem_base h)).

Lemma walk_none : pte = 0 -> walk h level a va = None.
Proof. intros Hp. destruct level; cbn [walk]; by rewrite Hp. Qed.

Lemma walk_leaf ppn type :
  pte = pte_create ppn type -> type = 0x2a \/ type = 0x2e -> 0 <= ppn < 2 ^ 44 -> (ppn * 2 ^ 12) mod size = 0 ->
  walk h level a va = Some (ppn * 2 ^ 12 + va mod size, type + 1).
Proof.
  intros Hp Ht Hn Hs. destruct (pte_fields ppn type Hn) as (_ & H1 & H2); [destruct Ht as [-> | ->]; done|].
  destruct level as [|l]; cbn [walk]; rewrite Hp, H1, H2; destruct Ht as [-> | ->]; zbool;
    cbn [Z.lor Z.land negb andb]; by rewrite Hs.
Qed.
End walking.

Lemma walk_table h level a va ppn :
  word_at (ram h) (a + 8 * ((va / 2 ^ (12 + 9 * Z.of_nat (S level))) mod 512) - mem_base h) = ptd_create ppn ->
  0 <= ppn < 2 ^ 44 -> walk h (S level) a va = walk h level (ppn * 2 ^ 12) va.
Proof.
  intros Hp Hn. destruct (pte_fields ppn PTE_V Hn) as (_ & H1 & H2); [done|].
  cbn [walk]. rewrite Hp. unfold ptd_create. rewrite H1, H2. done.
Qed.

Section vm.
Context (g : boot) (sbi_end : Z) (Hok : vm_ok g sbi_end).

Lemma vm_usable :
  MIN (mem_size g) (u64 (u64 (mem_base g - first_free_paddr g) - first_user_vaddr (info g)))
    &&& u64 (- MEGAPAGE_SIZE) = usable g.
Proof.
  destruct Hok as [[Hu _] (_ & _ & Hf) _ Ht _ (Hs & Hs' & _) _].
  replace (u64 (mem_base g - first_free_paddr g)) with (2 ^ 64 - (first_free_paddr g - mem_base g))
    by (unfold u64; apply (Zmod_unique _ _ (-1)); lia).
  rewrite u64_small by lia. unfold MIN, usable.
  rewrite land_mega by (destruct (Z.ltb_spec (mem_size g) (2 ^ 64 - (first_free_paddr g - mem_base g) - first_user_vaddr (info g))); lia).
  destruct (Z.ltb_spec (mem_size g) (2 ^ 64 - (first_free_paddr g - mem_base g) - first_user_vaddr (info g)));
    [by rewrite Z.min_l by lia|by rewrite Z.min_r by lia].
Qed.

(** The kernel's first megapage within its table, and the number of megapages. *)
Definition slot : Z := (first_user_vaddr (info g) / 2 ^ 21) mod 512.
Definition megapages : Z := mapped g / 2 ^ 21.

Lemma vm_slots :
  1 <= num_middle_pts g <= 256 /\ 0 <= slot < 512 /\
  512 * num_middle_pts g = slot + (2 ^ 43 - first_user_vaddr (info g) / 2 ^ 21) /\
  first_user_vaddr (info g) = first_user_vaddr (info g) / 2 ^ 21 * 2 ^ 21.
Proof.
  destruct Hok as [[Hu Hm] _ _ _ _ _ _]. unfold num_middle_pts, slot. clear Hok.
  generalize dependent (first_user_vaddr (info g)). intros u Hu Hm. split_and!; zdm.
Qed.

Lemma vm_mapped :
  mapped g = megapages * 2 ^ 21 /\ 0 <= megapages /\ slot + megapages < 512 * num_middle_pts g /\
  first_free_paddr g + mapped g < 2 ^ 57 /\ (0 < megapages -> first_free_paddr g + mapped g < 2 ^ 56).
Proof.
  destruct vm_slots as (_ & Hs & Hn & Hu). unfold megapages, mapped, usable.
  destruct Hok as [[Hub _] (Hp & Hb & Hf) _ Ht _ (Hs1 & Hs2 & _) _]. clear Hok.
  set (m := Z.min _ _). assert (Hm : m <= mem_size g /\ m <= 2 ^ 64 - (first_free_paddr g - mem_base g) - first_user_vaddr (info g)) by lia.
  clearbody m. rewrite Hn. clear Hn. revert Hs Hu Hub Hp Hb Hf Ht Hs1 Hs2 Hm.
  generalize slot (first_user_vaddr (info g)) (first_free_paddr g) (mem_base g) (mem_size g).
  clear. intros s u p b z Hs Hu Hub Hp Hb Hf Ht Hs1 Hs2 Hm.
  assert (He : exists e, Z.max 0 (b + m / 2 ^ 21 * 2 ^ 21 - p) = e * 2 ^ 21 /\ 0 <= e).
  { destruct (Z.leb_spec (b + m / 2 ^ 21 * 2 ^ 21 - p) 0); [exists 0; lia|].
    exists ((b + m / 2 ^ 21 * 2 ^ 21 - p) / 2 ^ 21). zdm. }
  destruct He as (e & He & He0). rewrite He, Z.div_mul by lia.
  assert (Hm' : m / 2 ^ 21 * 2 ^ 21 <= m) by zdm. assert (Hd : 2 ^ 21 <= p - b) by zdm.
  split_and!; [lia..| |lia|lia]. assert (u / 2 ^ 21 < 2 ^ 43) by zdm. destruct (Z.eq_dec e 0); [lia|].
  assert (u / 2 ^ 21 * 2 ^ 21 <= u) by zdm. lia.
Qed.

(** The loop over the addresses is the loop over the megapages. *)
Lemma map_loop_for k j fuel mid p h :
  first_user_vaddr (info h) = first_user_vaddr (info g) -> 0 <= mid -> 0 <= p -> p mod 2 ^ 21 = 0 -> 0 <= j ->
  (forall i, j <= i < j + Z.of_nat k -> p + i * 2 ^ 21 < u64 (mem_base h + mem_size h)) ->
  u64 (mem_base h + mem_size h) <= p + (j + Z.of_nat k) * 2 ^ 21 ->
  p + (j + Z.of_nat k) * 2 ^ 21 < 2 ^ 64 -> first_user_vaddr (info g) + (j + Z.of_nat k) * 2 ^ 21 < 2 ^ 64 ->
  mid + 8 * (slot + j + Z.of_nat k) < 2 ^ 64 -> (k <= fuel)%nat ->
  map_loop fuel mid (first_user_vaddr (info g) + j * 2 ^ 21) (p + j * 2 ^ 21) h =
  for_loop k j (fun i g' => write_word g' (mid + 8 * slot + 8 * i) (pte_create (p / 2 ^ 12 + i * 512) 0x2e)) h.
Proof.
  intros Hi Hm Hp Hpm. revert j fuel h Hi. induction k as [|k IH]; intros j fuel h Hi Hj Hlt Hge Hpb Hub Hmb Hf.
  - assert (Hge' : (p + j * 2 ^ 21 <? u64 (mem_base h + mem_size h)) = false) by (apply Z.ltb_ge; lia).
    destruct fuel; cbn [map_loop]; by rewrite Hge'.
  - destruct fuel as [|fuel]; [lia|]. cbn [map_loop for_loop].
    assert (Hlt' : (p + j * 2 ^ 21 <? u64 (mem_base h + mem_size h)) = true) by (apply Z.ltb_lt, Hlt; lia).
    rewrite Hlt', Hi. change (RISCV_PGLEVEL_BITS + RISCV_PGSHIFT) with 21. destruct vm_slots as (_ & Hs & _ & Hu). pose proof (proj1 (vm_user _ _ Hok)) as Hu0.
    assert (Hl2 : ((first_user_vaddr (info g) >>> 21) &&& 511) = slot).
    { change 511 with (2 ^ 9 - 1). by rewrite shiftr_div, land_pow2_mask by done. }
    assert (Hj2 : u64 (first_user_vaddr (info g) + j * 2 ^ 21 - first_user_vaddr (info g))
                    >>> 21 = j).
    { replace (first_user_vaddr (info g) + j * 2 ^ 21 - first_user_vaddr (info g)) with (j * 2 ^ 21) by lia.
      rewrite u64_small, shiftr_div by lia. by rewrite Z.div_mul by lia. }
    rewrite Hl2, Hj2. rewrite (u64_small (mid + _)) by lia.
    replace (mid + 8 * (slot + j)) with (mid + 8 * slot + 8 * j) by lia.
    replace ((p + j * 2 ^ 21) >>> RISCV_PGSHIFT) with (p / 2 ^ 12 + j * 512)
      by (rewrite shiftr_div by done; unfold RISCV_PGSHIFT; zdm).
    change (((PTE_G ||| PTE_R) ||| PTE_W) ||| PTE_X) with 0x2e.
    destruct (write_word h (mid + 8 * slot + 8 * j) (pte_create (p / 2 ^ 12 + j * 512) 46)) as [h'|e] eqn:Hw; [|done].
    rewrite !bind_ret. rewrite !u64_small by (unfold MEGAPAGE_SIZE; lia).
    replace (first_user_vaddr (info g) + j * 2 ^ 21 + MEGAPAGE_SIZE) with (first_user_vaddr (info g) + (j + 1) * 2 ^ 21)
      by (unfold MEGAPAGE_SIZE; lia).
    replace (p + j * 2 ^ 21 + MEGAPAGE_SIZE) with (p + (j + 1) * 2 ^ 21) by (unfold MEGAPAGE_SIZE; lia).
    apply bind_Ret_inv in Hw as (r & _ & [= <-]). apply IH; cbn; try (done || lia).
    intros i Hi'. apply Hlt. lia.
Qed.

#[local] Notation base := (mem_base g).
#[local] Notation num := (num_middle_pts g).
#[local] Notation nsbi := (sbi_pages g sbi_end).
#[local] Notation tbl := (tables g).
#[local] Notation mid := (tables g + 2 ^ 12).
#[local] Notation root := (tables g + 2 ^ 12 + num_middle_pts g * 2 ^ 12).

(** The stages of the construction: the memory with the tables cleared, then with
    the entries of the root, of the kernel, of the binary interface, and last
    the entry that links the latter. *)
Definition stages (r2 r3 r4 r5 r6 : list Z) : Prop :=
  framed (ram g) r2 (tbl - base) ((2 + num) * 2 ^ 12) /\
  (forall i, 0 <= i -> 8 * i + 8 <= (2 + num) * 2 ^ 12 -> word_at r2 (tbl + 8 * i - base) = 0) /\
  framed r2 r3 (root + 8 * (512 - num) - base) (8 * num) /\
  (forall i, 0 <= i < num -> word_at r3 (root + 8 * (512 - num) + 8 * i - base) = ptd_create (tbl / 2 ^ 12 + 1 + i)) /\
  framed r3 r4 (mid + 8 * slot - base) (8 * megapages) /\
  (forall i, 0 <= i < megapages ->
     word_at r4 (mid + 8 * slot + 8 * i - base) = pte_create (first_free_paddr g / 2 ^ 12 + i * 512) 0x2e) /\
  framed r4 r5 (tbl + 8 * (512 - nsbi) - base) (8 * nsbi) /\
  (forall i, 0 <= i < nsbi -> word_at r5 (tbl + 8 * (512 - nsbi) + 8 * i - base) = pte_create (base / 2 ^ 12 + i) 0x2a) /\
  patched r5 r6 (mid + 8 * (512 * num - 1) - base) 8 (nthz (word_bytes 8 (ptd_create (tbl / 2 ^ 12)))).

Lemma vm_layout :
  1 <= num <= 256 /\ 1 <= nsbi <= 512 /\ base <= tbl /\ tbl + (2 + num) * 2 ^ 12 <= base + lenz (ram g) /\
  base + lenz (ram g) < 2 ^ 56 /\ 0 <= base /\ tbl mod 2 ^ 12 = 0.
Proof.
  destruct vm_slots as (Hn & _). destruct Hok as [_ (_ & _ & Hb & _) _ _ Hs (_ & _ & Hr) (HSm & HS1 & HS2)].
  split; [done|]. split; [|split_and!; lia].
  unfold sbi_pages. revert Hs. clear. generalize base. intros b Hs. zdm.
Qed.

Lemma pages_of_sbi : u64 (sbi_end - base - 1) / 2 ^ 12 + 1 = nsbi.
Proof.
  destruct Hok as [_ _ _ _ Hs _ _]. by rewrite u64_small by lia.
Qed.

Lemma pages_of_middle : u64 (- first_user_vaddr (info g) - 1) / GIGAPAGE_SIZE + 1 = num.
Proof.
  destruct Hok as [[Hu _] _ _ _ _ _ _]. unfold num_middle_pts. f_equal. f_equal.
  unfold u64. symmetry. apply (Zmod_unique _ _ (-1)); lia.
Qed.

Lemma in_tables (r : list Z) a k :
  lenz r = lenz (ram g) -> tbl <= a -> a + k <= tbl + (2 + num) * 2 ^ 12 ->
  base <= a /\ a + k <= base + lenz r.
Proof. intros -> Ha Hk. destruct vm_layout as (_ & _ & H1 & H2 & _). lia. Qed.

(** The three loops, from any state with the memory of [g]. *)
Lemma root_loop h :
  mem_base h = base -> lenz (ram h) = lenz (ram g) ->
  exists r, for_loop (Z.to_nat num) 0 (fun i g0 =>
      write_word g0 (u64 (root + 8 * u64 (512 - num + i))) (ptd_create (u64 ((mid >>> RISCV_PGSHIFT) + i)))) h =
    Ret (set_ram r h) /\ framed (ram h) r (root + 8 * (512 - num) - base) (8 * num) /\
    (forall i, 0 <= i < num -> word_at r (root + 8 * (512 - num) + 8 * i - base) = ptd_create (tbl / 2 ^ 12 + 1 + i)).
Proof.
  intros Hb Hl. destruct vm_layout as (Hnum & _ & Hb1 & Hr & Hr' & Hb0 & Hal).
  destruct (fill_spec (Z.to_nat num) 0 (root + 8 * (512 - num)) (fun i => ptd_create (tbl / 2 ^ 12 + 1 + i))
    (fun i g0 => write_word g0 (u64 (root + 8 * u64 (512 - num + i))) (ptd_create (u64 ((mid >>> RISCV_PGSHIFT) + i)))) h)
    as (r & Hf & Hfr & Hw).
  - intros i r Hi. rewrite (u64_small (512 - num + i)), shiftr_div by (done || lia). unfold RISCV_PGSHIFT.
    replace (mid / 2 ^ 12) with (tbl / 2 ^ 12 + 1) by zdm. rewrite !u64_small by zdm. f_equal; lia.
  - unfold in_ram. rewrite Hb, Hl. lia.
  - intros i Hi. apply pte_fields; [zdm|done].
  - exists r. rewrite Hb, Z2Nat.id in * by lia. split; [done|]. rewrite Z.mul_0_r, Z.add_0_r in Hfr. done.
Qed.

Lemma kernel_loop h :
  mem_base h = base -> lenz (ram h) = lenz (ram g) -> mem_size h = usable g -> info h = info g ->
  exists r, map_loop (Z.to_nat (u64 (mem_base h + mem_size h) / MEGAPAGE_SIZE + 1)) mid
      (first_user_vaddr (info h)) (u64 (first_user_vaddr (info h) + load_offset (info h))) h = Ret (set_ram r h) /\
    framed (ram h) r (mid + 8 * slot - base) (8 * megapages) /\
    (forall i, 0 <= i < megapages ->
       word_at r (mid + 8 * slot + 8 * i - base) = pte_create (first_free_paddr g / 2 ^ 12 + i * 512) 0x2e).
Proof.
  intros Hb Hl Hsz Hinf. rewrite Hb, Hinf, Hsz.
  destruct vm_layout as (Hnum & _ & Hb1 & Hr & Hr' & Hb0 & Hal).
  destruct vm_slots as (_ & Hs & Hnu & Hu). destruct vm_mapped as (Hm & Hm0 & Hsm & Hpm & Hpm').
  destruct Hok as [[Hub _] (Hp & Hbm & Hf) Hoff Ht _ (Hs1 & Hs2 & _) _]. rewrite Hoff.
  assert (Hus : 0 <= base + usable g < 2 ^ 56 /\ mapped g = Z.max 0 (base + usable g - first_free_paddr g)).
  { split; [|done]. unfold usable. zdm. }
  destruct Hus as [Hus Hmd]. rewrite Hmd in Hm, Hpm. clear Hmd Hpm'. rewrite u64_small by lia.
  pose proof (map_loop_for (Z.to_nat megapages) 0 (Z.to_nat ((base + usable g) / MEGAPAGE_SIZE + 1)) mid
    (first_free_paddr g) h) as Hmap.
  rewrite Hb, Hsz, (u64_small (base + usable g)) in Hmap by lia.
  rewrite !Z2Nat.id, !Z.mul_0_l, !Z.add_0_r in Hmap by done. rewrite Hmap;
    [|by rewrite Hinf|lia..|unfold MEGAPAGE_SIZE; zdm].
  destruct (fill_spec (Z.to_nat megapages) 0 (mid + 8 * slot) (fun i => pte_create (first_free_paddr g / 2 ^ 12 + i * 512) 0x2e)
    (fun i g' => write_word g' (mid + 8 * slot + 8 * i) (pte_create (first_free_paddr g / 2 ^ 12 + i * 512) 0x2e)) h)
    as (r & Hfl & Hfr & Hw).
  - done.
  - unfold in_ram. rewrite Hb, Hl, Z2Nat.id by done. lia.
  - intros i Hi. apply pte_fields; [|done]. assert (first_free_paddr g + megapages * 2 ^ 21 < 2 ^ 56) by lia. zdm.
  - exists r. rewrite Hb, Z2Nat.id in * by lia. split; [done|]. rewrite Z.mul_0_r, Z.add_0_r in Hfr. done.
Qed.

Lemma sbi_loop h :
  mem_base h = base -> lenz (ram h) = lenz (ram g) ->
  exists r, for_loop (Z.to_nat nsbi) 0 (fun i g0 =>
      write_word g0 (u64 (tbl + 8 * (512 - nsbi + i)))
        (pte_create (mem_base g0 / 2 ^ 12 + i) ((PTE_G ||| PTE_R) ||| PTE_X))) h = Ret (set_ram r h) /\
    framed (ram h) r (tbl + 8 * (512 - nsbi) - base) (8 * nsbi) /\
    (forall i, 0 <= i < nsbi -> word_at r (tbl + 8 * (512 - nsbi) + 8 * i - base) = pte_create (base / 2 ^ 12 + i) 0x2a).
Proof.
  intros Hb Hl. destruct vm_layout as (Hnum & Hn & Hb1 & Hr & Hr' & Hb0 & Hal).
  destruct (fill_spec (Z.to_nat nsbi) 0 (tbl + 8 * (512 - nsbi)) (fun i => pte_create (base / 2 ^ 12 + i) 0x2a)
    (fun i g0 => write_word g0 (u64 (tbl + 8 * (512 - nsbi + i)))
        (pte_create (mem_base g0 / 2 ^ 12 + i) ((PTE_G ||| PTE_R) ||| PTE_X))) h) as (r & Hf & Hfr & Hw).
  - intros i r Hi. rewrite mem_base_ram, Hb, u64_small by lia. f_equal. lia.
  - unfold in_ram. rewrite Hb, Hl. lia.
  - intros i Hi. apply pte_fields; [|done]. destruct (vm_free _ _ Hok) as (_ & Hbm & _). zdm.
  - exists r. rewrite Hb, Z2Nat.id in * by lia. split; [done|]. rewrite Z.mul_0_r, Z.add_0_r in Hfr. done.
Qed.

(** The tables are cleared in two parts. *)
Lemma cleared r1 r2 :
  patched (ram g) r1 (tbl - base) (2 ^ 12) (fun _ => u8 0) ->
  patched r1 r2 (mid - base) ((num + 1) * 2 ^ 12) (fun _ => u8 0) ->
  framed (ram g) r2 (tbl - base) ((2 + num) * 2 ^ 12) /\
  (forall i, 0 <= i -> 8 * i + 8 <= (2 + num) * 2 ^ 12 -> word_at r2 (tbl + 8 * i - base) = 0).
Proof.
  intros H1 H2. destruct vm_layout as (Hnum & _ & Hb & _). split.
  - eapply framed_trans; [exact (patched_framed _ _ _ _ _ H1)| |lia|lia].
    eapply framed_wider; [exact (patched_framed _ _ _ _ _ H2)|lia|lia].
  - intros i Hi Hle. destruct (Z.ltb_spec i 512).
    + erewrite word_at_framed by (exact (patched_framed _ _ _ _ _ H2) || lia).
      eapply word_at_zeros; [exact H1|lia..].
    + eapply word_at_zeros; [exact H2|lia..].
Qed.

(** The last entry in the middle is free until the end. *)
Lemma last_entry_free r2 r3 r4 r5 :
  (forall i, 0 <= i -> 8 * i + 8 <= (2 + num) * 2 ^ 12 -> word_at r2 (tbl + 8 * i - base) = 0) ->
  framed r2 r3 (root + 8 * (512 - num) - base) (8 * num) -> framed r3 r4 (mid + 8 * slot - base) (8 * megapages) ->
  framed r4 r5 (tbl + 8 * (512 - nsbi) - base) (8 * nsbi) ->
  word_at r5 (mid + 8 * (512 * num - 1) - base) = 0.
Proof.
  intros H2 H3 H4 H5. destruct vm_layout as (Hnum & Hn & Hb & _). destruct vm_mapped as (_ & Hm0 & Hsm & _).
  destruct vm_slots as (_ & Hs & _).
  rewrite (word_at_framed _ _ _ _ _ H5), (word_at_framed _ _ _ _ _ H4), (word_at_framed _ _ _ _ _ H3) by lia.
  replace (mid + 8 * (512 * num - 1) - base) with (tbl + 8 * (512 * num + 511) - base) by lia. apply H2; lia.
Qed.

Lemma vm_stages :
  exists r2 r3 r4 r5 r6, stages r2 r3 r4 r5 r6 /\
    supervisor_vm_init sbi_end g = Ret (set_root root (set_size (usable g) (set_ram r6 g))).
Proof.
  destruct vm_layout as (Hnum & Hn & Hb & Hr & Hr' & Hb0 & Hal).
  destruct vm_slots as (_ & Hs & Hnu & Hu). destruct vm_mapped as (Hm & Hm0 & Hsm & Hpm & Hpm').
  unfold supervisor_vm_init. cbv zeta. rewrite vm_usable.
  change (u64 (first_vaddr_after_user (info (set_size _ g)) + load_offset (info (set_size _ g)))) with tbl.
  set (g1 := set_size (usable g) g).
  rewrite (u64_small (tbl + RISCV_PGSIZE)) by (unfold RISCV_PGSIZE; lia). change RISCV_PGSIZE with (2 ^ 12).
  destruct (do_memset_spec g1 tbl 0 (2 ^ 12)) as (r1 & Hr1 & Hp1); [apply in_tables; cbn; lia|lia|].
  rewrite Hr1, bind_ret. pose proof Hp1 as [Hl1 _]. cbn in Hl1. autorewrite with boot.
  change (info g1) with (info g). rewrite pages_of_middle.
  rewrite (u64_small (mid + num * 2 ^ 12)) by lia. rewrite (u64_small ((num + 1) * 2 ^ 12)) by lia.
  destruct (do_memset_spec (set_ram r1 g1) mid 0 ((num + 1) * 2 ^ 12)) as (r2 & Hr2 & Hp2);
    [apply in_tables; cbn; lia|lia|].
  rewrite Hr2, bind_ret. autorewrite with boot. pose proof Hp2 as [Hl2 _]. cbn in Hl2.
  destruct (root_loop (set_ram r2 g1)) as (r3 & Hr3 & Hf3 & Hw3); [done|cbn; congruence|].
  rewrite Hr3, bind_ret. autorewrite with boot. pose proof (proj1 Hf3) as Hl3. cbn in Hl3.
  destruct (kernel_loop (set_ram r3 g1)) as (r4 & Hr4 & Hf4 & Hw4); [done|cbn; congruence|done|done|].
  autorewrite with boot in Hr4. rewrite Hr4, bind_ret. autorewrite with boot.
  pose proof (proj1 Hf4) as Hl4. cbn in Hl4. change (mem_base g1) with base. rewrite pages_of_sbi.
  rewrite c_assert_true by lia. rewrite bind_ret.
  destruct (sbi_loop (set_ram r4 g1)) as (r5 & Hr5 & Hf5 & Hw5); [done|cbn; congruence|].
  rewrite Hr5, bind_ret. autorewrite with boot. pose proof (proj1 Hf5) as Hl5. cbn in Hl5.
  change (RISCV_PGLEVEL_BITS) with 9. rewrite shiftl_mul by lia. replace (num * 2 ^ 9) with (512 * num) by lia.
  rewrite (u64_small (mid + 8 * (512 * num - 1))) by lia.
  destruct (cleared r1 r2 Hp1 Hp2) as [Hc1 Hc2].
  rewrite read_uint_spec, bind_ret by (lia || (apply in_tables; cbn; lia)).
  change (bytes_word (bytes_from (ram (set_ram r5 g1)) (mid + 8 * (512 * num - 1) - mem_base (set_ram r5 g1)) 8))
    with (word_at r5 (mid + 8 * (512 * num - 1) - base)).
  rewrite (last_entry_free r2 r3 r4 r5) by done. cbn [c_assert Z.eqb]. rewrite bind_ret.
  destruct (ram_write_word_spec (set_ram r5 g1) (mid + 8 * (512 * num - 1)) (ptd_create (tbl >>> RISCV_PGSHIFT)))
    as (r6 & Hr6 & Hp6); [apply in_tables; cbn; lia|].
  rewrite Hr6, bind_ret. exists r2, r3, r4, r5, r6. split; [|done].
  rewrite shiftr_div in Hp6 by done. split_and!; done.
Qed.

(** ** The entries in the end *)

Lemma pte_uint ppn type : 0 <= ppn < 2 ^ 44 -> 0 <= type < 2 ^ 10 -> is_uint 64 (pte_create ppn type).
Proof. intros Hp Ht. by apply pte_fields. Qed.

Section entries.
Context (r2 r3 r4 r5 r6 : list Z) (Hst : stages r2 r3 r4 r5 r6).

Lemma sbi_entries i : 0 <= i < 512 -> word_at r6 (tbl + 8 * i - base) = sbi_entry g sbi_end i.
Proof.
  intros Hi. destruct Hst as (_ & H2 & H3 & _ & H4 & _ & H5 & Hw5 & H6).
  destruct vm_layout as (Hnum & Hn & Hb & _). destruct vm_slots as (_ & Hs & _). destruct vm_mapped as (_ & Hm0 & Hsm & _).
  rewrite (word_at_framed _ _ _ _ _ (patched_framed _ _ _ _ _ H6)) by lia. unfold sbi_entry. cbv zeta.
  destruct (Z.leb_spec (512 - nsbi) i).
  - rewrite <- Hw5 by lia. f_equal. lia.
  - rewrite (word_at_framed _ _ _ _ _ H5), (word_at_framed _ _ _ _ _ H4), (word_at_framed _ _ _ _ _ H3) by lia.
    apply H2; lia.
Qed.

Lemma middle_entries j : 0 <= j < 512 * num -> word_at r6 (mid + 8 * j - base) = middle_entry g j.
Proof.
  intros Hj. destruct Hst as (_ & H2 & H3 & _ & H4 & Hw4 & H5 & _ & H6).
  destruct vm_layout as (Hnum & Hn & Hb & Hr & Hr' & Hb0 & _). destruct vm_slots as (_ & Hs & _).
  destruct vm_mapped as (_ & Hm0 & Hsm & _). unfold middle_entry. cbv zeta. fold slot megapages.
  destruct (Z.eqb_spec j (512 * num - 1)) as [->|Hne].
  - destruct (Z.leb_spec slot (512 * num - 1)), (Z.ltb_spec (512 * num - 1) (slot + megapages)); try lia; cbn [andb];
      (eapply word_at_written; [exact H6|lia|apply pte_uint; [zdm|done]]).
  - rewrite (word_at_framed _ _ _ _ _ (patched_framed _ _ _ _ _ H6)), (word_at_framed _ _ _ _ _ H5) by lia.
    destruct (Z.leb_spec slot j), (Z.ltb_spec j (slot + megapages)); cbn [andb];
      [rewrite <- Hw4 by lia; f_equal; lia|..];
      rewrite (word_at_framed _ _ _ _ _ H4), (word_at_framed _ _ _ _ _ H3) by lia;
      (replace (mid + 8 * j - base) with (tbl + 8 * (j + 512) - base) by lia); apply H2; lia.
Qed.

Lemma root_entries i : 0 <= i < 512 -> word_at r6 (root + 8 * i - base) = root_entry g i.
Proof.
  intros Hi. destruct Hst as (_ & H2 & H3 & Hw3 & H4 & _ & H5 & _ & H6).
  destruct vm_layout as (Hnum & Hn & Hb & _). destruct vm_slots as (_ & Hs & _). destruct vm_mapped as (_ & Hm0 & Hsm & _).
  rewrite (word_at_framed _ _ _ _ _ (patched_framed _ _ _ _ _ H6)), (word_at_framed _ _ _ _ _ H5),
    (word_at_framed _ _ _ _ _ H4) by lia. unfold root_entry. cbv zeta.
  destruct (Z.leb_spec (512 - num) i).
  - rewrite <- Hw3 by lia. f_equal. lia.
  - rewrite (word_at_framed _ _ _ _ _ H3) by lia.
    replace (root + 8 * i - base) with (tbl + 8 * (i + 512 + 512 * num) - base) by lia. apply H2; lia.
Qed.
End entries.

(** ** The translation *)

Section translation.
Context (r2 r3 r4 r5 r6 : list Z) (Hst : stages r2 r3 r4 r5 r6) (va : Z) (Hva : 0 <= va < 2 ^ 64).
#[local] Notation final := (set_root root (set_size (usable g) (set_ram r6 g))).
#[local] Notation top := (2 ^ 64 - nsbi * 2 ^ 12).

(** The table of the binary interface, for the last megapage. *)
Lemma walk_sbi :
  2 ^ 64 - 2 ^ 21 <= va ->
  walk final 0 tbl va = if top <=? va then Some (va - top + base, sbi_flags) else None.
Proof.
  intros Hv. destruct vm_layout as (Hnum & Hn & Hb & Hr & Hr' & Hb0 & Hal).
  destruct Hok as [_ (_ & Hbm & _) _ _ _ _ _].
  set (i := (va / 2 ^ 12) mod 512). assert (Hi : va / 2 ^ 12 = 2 ^ 52 - 512 + i /\ 0 <= i < 512) by (unfold i; zdm).
  destruct Hi as [Hi Hi0].
  pose proof (sbi_entries r2 r3 r4 r5 r6 Hst i Hi0) as He. unfold sbi_entry in He. cbv zeta in He.
  destruct (Z.leb_spec top va), (Z.leb_spec (512 - nsbi) i); try zdm.
  - rewrite (walk_leaf final 0 tbl va _ _ He) by (auto || (cbn; zdm)). cbn. f_equal. f_equal. zdm.
  - by rewrite (walk_none final 0 tbl va He).
Qed.

(** Behind the kernel's memory, or before it. *)
Lemma walk_rest j :
  va / 2 ^ 21 = 2 ^ 43 - 512 * num + j ->
  word_at r6 (mid + 2 ^ 12 * (j / 512) + 8 * ((va / 2 ^ (12 + 9 * Z.of_nat 1)) mod 512) - mem_base final) =
    (if j =? 512 * num - 1 then ptd_create (tbl / 2 ^ 12) else 0) ->
  walk final 1 (mid + 2 ^ 12 * (j / 512)) va =
  if (top <=? va) && (va <? 2 ^ 64) then Some (va - top + base, sbi_flags) else None.
Proof.
  intros Hj He. destruct vm_layout as (Hnum & Hn & Hb & Hr & Hr' & Hb0 & Hal).
  destruct (Z.ltb_spec va (2 ^ 64)); [|lia]. rewrite andb_true_r.
  destruct (Z.eqb_spec j (512 * num - 1)).
  - rewrite (walk_table final 0 _ va _ He) by zdm. replace (tbl / 2 ^ 12 * 2 ^ 12) with tbl by zdm.
    apply walk_sbi. zdm.
  - rewrite (walk_none final 1 _ va He). destruct (Z.leb_spec top va); [|done]. zdm.
Qed.

(** The tables in the middle, by the index of the megapage in them. *)
Lemma walk_middle j :
  va / 2 ^ 21 = 2 ^ 43 - 512 * num + j -> 0 <= j < 512 * num ->
  walk final 1 (mid + 2 ^ 12 * (j / 512)) va = page_map g sbi_end va.
Proof.
  intros Hj Hj0. destruct vm_layout as (Hnum & Hn & Hb & Hr & Hr' & Hb0 & Hal).
  destruct vm_slots as (_ & Hs & Hnu & Hu). destruct vm_mapped as (Hm & Hm0 & Hsm & Hpm & Hpm').
  destruct Hok as [[Hub _] (Hp & Hbm & Hf) _ _ _ _ _].
  pose proof (middle_entries r2 r3 r4 r5 r6 Hst j Hj0) as He. unfold middle_entry in He. cbv zeta in He.
  fold slot megapages in He.
  assert (Ha : mid + 2 ^ 12 * (j / 512) + 8 * ((va / 2 ^ (12 + 9 * Z.of_nat 1)) mod 512) - mem_base final = mid + 8 * j - base).
  { change (mem_base final) with base. change (2 ^ (12 + 9 * Z.of_nat 1)) with (2 ^ 21). rewrite Hj. zdm. }
  change (ram final) with r6 in *. rewrite <- Ha in He. unfold page_map. cbv zeta.
  assert (Hva2 : va = (first_user_vaddr (info g) / 2 ^ 21 - slot + j) * 2 ^ 21 + va mod 2 ^ 21 /\ 0 <= va mod 2 ^ 21 < 2 ^ 21) by zdm.
  destruct Hva2 as [Hva2 Hlow].
  destruct (Z.leb_spec slot j), (Z.ltb_spec j (slot + megapages)),
    (Z.leb_spec (first_user_vaddr (info g)) va), (Z.ltb_spec va (first_user_vaddr (info g) + mapped g)); try lia; cbn [andb] in He |- *.
  - rewrite (walk_leaf final 1 _ va _ _ He); [|by right|zdm|cbn; zdm]. cbn. f_equal. f_equal. zdm.
  - by apply walk_rest.
  - by apply walk_rest.
Qed.

Lemma translate_spec : translate final va = page_map g sbi_end va.
Proof.
  destruct vm_layout as (Hnum & Hn & Hb & Hr & Hr' & Hb0 & Hal). destruct vm_slots as (_ & Hs & Hnu & Hu).
  destruct Hok as [[Hub _] _ _ _ _ _ _].
  assert (Hout : va < 2 ^ 64 - num * 2 ^ 30 -> page_map g sbi_end va = None).
  { intros Hlt. unfold page_map. cbv zeta. destruct (Z.leb_spec (first_user_vaddr (info g)) va), (Z.leb_spec top va); done || lia. }
  unfold translate. replace (sptbr final * 2 ^ 12) with root by (cbn [sptbr set_root]; rewrite shiftr_div by done; zdm).
  destruct ((va <? 2 ^ 38) || (2 ^ 64 - 2 ^ 38 <=? va)) eqn:Hc; [|rewrite Hout by lia; done].
  set (i := (va / 2 ^ 30) mod 512). assert (Hi0 : 0 <= i < 512) by (unfold i; zdm).
  pose proof (root_entries r2 r3 r4 r5 r6 Hst i Hi0) as He. unfold root_entry in He. cbv zeta in He.
  destruct (Z.leb_spec (512 - num) i) as [Hle|Hlt].
  - assert (Hv : 2 ^ 64 - num * 2 ^ 30 <= va /\ va / 2 ^ 30 = 2 ^ 34 - 512 + i) by (unfold i in *; zdm).
    rewrite (walk_table final 1 root va _ He) by zdm.
    replace ((tbl / 2 ^ 12 + 1 + (i - (512 - num))) * 2 ^ 12)
      with (mid + 2 ^ 12 * ((va / 2 ^ 21 - (2 ^ 43 - 512 * num)) / 512)) by zdm.
    apply walk_middle; zdm.
  - rewrite (walk_none final 2 root va He), Hout; [done|]. unfold i in *. zdm.
Qed.
End translation.

Lemma stages_framed r2 r3 r4 r5 r6 :
  stages r2 r3 r4 r5 r6 -> framed (ram g) r6 (tbl - base) ((2 + num) * 2 ^ 12).
Proof.
  intros (H1 & _ & H3 & _ & H4 & _ & H5 & _ & H6). destruct vm_layout as (Hnum & Hn & Hb & _).
  destruct vm_slots as (_ & Hs & _). destruct vm_mapped as (_ & Hm0 & Hsm & _).
  assert (Hw : forall l l' d k, framed l l' d k -> tbl - base <= d -> d + k <= tbl - base + (2 + num) * 2 ^ 12 ->
    framed (ram g) l (tbl - base) ((2 + num) * 2 ^ 12) -> framed (ram g) l' (tbl - base) ((2 + num) * 2 ^ 12)).
  { intros l l' d k Hf Hd Hk Hl. eapply framed_trans; [exact Hl| |lia|lia]. eapply framed_wider; [exact Hf|lia|lia]. }
  eapply Hw; [exact (patched_framed _ _ _ _ _ H6)|lia|lia|]. eapply Hw; [exact H5|lia|lia|].
  eapply Hw; [exact H4|lia|lia|]. eapply Hw; [exact H3|lia|lia|done].
Qed.
End vm.

(** C32: [supervisor_vm_init] builds page tables that translate, of all addresses,
    exactly those of the kernel's memory, to the memory from the first free
    megapage on, readable, writable and executable, and those of the pages of
    the binary interface at the top, to the start of the boot loader, readable
    and executable; nothing of the memory changes but the tables. *)
Theorem supervisor_vm_init_correct g sbi_end :
  vm_ok g sbi_end ->
  exists g', supervisor_vm_init sbi_end g = Ret g' /\
    (forall va, 0 <= va < 2 ^ 64 -> translate g' va = page_map g sbi_end va) /\
    framed (ram g) (ram g') (tables g - mem_base g) ((2 + num_middle_pts g) * 2 ^ 12) /\
    mem_base g' = mem_base g /\ mem_size g' = usable g /\ sptbr g' = root_page_table g' >>> 12.
Proof.
  intros Hok. destruct (vm_stages g sbi_end Hok) as (r2 & r3 & r4 & r5 & r6 & Hst & Hv).
  eexists. split; [exact Hv|]. split; [intros va Hva; by eapply translate_spec|].
  split; [by eapply stages_framed|done].
Qed.

(** Eight megabytes from 2^31 on, a kernel at the last gigabyte of the address
    space of which one page is in use, and a binary interface of two pages. *)
Definition demo_boot : boot :=
  MkBoot (zeros (2 ^ 23)) (2 ^ 31) (2 ^ 23) (2 ^ 31 + 2 ^ 21)
    (MkInfo 0 (2 ^ 64 - 2 ^ 30) (2 ^ 64 - 2 ^ 30 + 2 ^ 12) (2 ^ 31 + 2 ^ 21 + 2 ^ 30)) 0 0.

Lemma supervisor_vm_init_correct_witness :
  exists g', supervisor_vm_init (2 ^ 31 + 2 ^ 13) demo_boot = Ret g' /\
    translate g' (2 ^ 64 - 2 ^ 30 + 5) = Some (2 ^ 31 + 2 ^ 21 + 5, kernel_flags) /\
    translate g' (2 ^ 64 - 1) = Some (2 ^ 31 + 2 ^ 13 - 1, sbi_flags) /\ translate g' 0 = None.
Proof.
  destruct (supervisor_vm_init_correct demo_boot (2 ^ 31 + 2 ^ 13)) as (g' & Hg & Ht & _).
  - assert (Hl : lenz (ram demo_boot) = 2 ^ 23) by (apply lenz_zeros; lia).
    split; unfold in_ram; rewrite ?Hl; vm_compute; intuition congruence.
  - exists g'. split; [exact Hg|]. split_and!; (rewrite Ht by lia; vm_compute; reflexivity).
Defined.
