(* ===== verification/BootElf.v ===== *)
(** * Loading the kernel: bbl/kernel_elf.c

    Every loadable segment of the image is copied to its place, followed by
    zeros, and nothing else of the memory below or above the kernel changes. *)

From S2P Require Import Prelude Str StrSpec Machine Isa Boot BootTables.

(** ** The image *)

Definition lowest (phs : list phdr) : Z :=
  foldr (fun p m => if loadable p then Z.min (p_vaddr p) m else m) (2 ^ 64 - 1) phs.
Definition highest (phs : list phdr) : Z :=
  foldr (fun p m => if loadable p then Z.max (p_vaddr p + p_memsz p) m else m) 0 phs.

(** The lowest megapage of the kernel, the first free one of the memory, and the
    physical address of a virtual one. *)
Definition lo (phs : list phdr) : Z := ROUNDDOWN (lowest phs) MEGAPAGE_SIZE.
Definition free (g : boot) : Z := ROUNDUP (first_free_paddr g) MEGAPAGE_SIZE.
Definition phys (g : boot) (phs : list phdr) (va : Z) : Z := free g + (va - lo phs).

(** A segment that lies within the image, and whose place lies within memory. *)
Record segment_ok (g : boot) (size : Z) (phs : list phdr) (p : phdr) : Prop := {
  seg_file : 0 <= p_offset p /\ 0 <= p_filesz p <= p_memsz p /\ p_offset p + p_filesz p <= size;
  seg_place : 0 <= p_vaddr p /\ p_vaddr p + p_memsz p < 2 ^ 64 /\
              phys g phs (p_vaddr p + p_memsz p) <= mem_base g + lenz (ram g)
}.

Record image_ok (g : boot) (blob size entry : Z) (phs : list phdr) : Prop := {
  img_ident : e_ident g blob 0 = Ret 0x7f /\ e_ident g blob 1 = Ret 69 /\ e_ident g blob 2 = Ret 76 /\
              e_ident g blob 3 = Ret 70 /\ e_ident g blob 4 = Ret 2;
  img_entry : e_entry g blob = Ret entry;
  img_phdrs : exists phoff, e_phoff g blob = Ret phoff /\ 0 <= phoff /\ phoff + lenz phs * SIZEOF_EHDR <= size /\
              forall i p, phs !! i = Some p -> read_phdr g (blob + phoff) (Z.of_nat i) = Ret p;
  img_phnum : e_phnum g blob = Ret (lenz phs);
  img_size : SIZEOF_EHDR <= size /\ in_ram g blob size /\ blob + size <= free g;
  img_memory : 0 <= mem_base g /\ mem_base g + lenz (ram g) < 2 ^ 56 /\ 0 < first_free_paddr g < 2 ^ 56 /\
               Forall is_byte (ram g);
  img_loads : exists p, p ∈ phs /\ loadable p = true;
  img_segments : forall p, p ∈ phs -> loadable p = true -> segment_ok g size phs p;
  img_sorted : forall i j p q, (i < j)%nat -> phs !! i = Some p -> phs !! j = Some q ->
               loadable p = true -> loadable q = true -> p_vaddr p + p_memsz p <= p_vaddr q
}.

(** ** Reading the image while the kernel is copied *)

Lemma load_framed l l' d n i k : framed l l' d n -> i + k <= d -> load l' i k = load l i k.
Proof.
  intros [Hl H] Hk. unfold load. rewrite Hl.
  destruct ((0 <=? i) && (0 <=? k) && (i + k <=? lenz l)) eqn:Hc; [|done]. f_equal.
  apply listz_eq; rewrite !lenz_take, !lenz_drop by lia; [lia|]. intros j Hj.
  rewrite !nthz_take, !nthz_drop by lia. apply H; lia.
Qed.

Lemma read_uint_framed g r a k d n :
  framed (ram g) r (d - mem_base g) n -> a + k <= d -> read_uint (set_ram r g) a k = read_uint g a k.
Proof.
  intros Hf Hk. unfold read_uint. change (ram (set_ram r g)) with r. change (mem_base (set_ram r g)) with (mem_base g).
  by rewrite (load_framed (ram g) r _ _ _ _ Hf) by lia.
Qed.

Lemma read_phdr_framed g r ph i d n :
  framed (ram g) r (d - mem_base g) n -> u64 (ph + i * SIZEOF_PHDR) + SIZEOF_PHDR <= d ->
  read_phdr (set_ram r g) ph i = read_phdr g ph i.
Proof.
  intros Hf Hd. unfold read_phdr. unfold SIZEOF_PHDR in *. cbv zeta.
  by rewrite !(read_uint_framed g r _ _ d n Hf) by lia.
Qed.

(** ** One segment *)

(** What a segment leaves in memory: the bytes of the image, then zeros. *)
Definition placed (g : boot) (blob : Z) (phs : list phdr) (p : phdr) (r : list Z) : Prop :=
  forall k, 0 <= k < p_memsz p ->
  r !z (phys g phs (p_vaddr p) + k - mem_base g) =
  if k <? p_filesz p then ram g !z (blob + p_offset p + k - mem_base g) else 0.

Lemma do_memcpy_spec g dest src n :
  Forall is_byte (ram g) -> in_ram g dest n -> in_ram g src n -> 0 <= n -> dest + n <= src \/ src + n <= dest ->
  exists r, do_memcpy g dest src n = Ret (set_ram r g) /\
    patched (ram g) r (dest - mem_base g) n (fun j => ram g !z (src - mem_base g + j)).
Proof.
  intros Hb [H1 H2] [H3 H4] Hn Ho.
  destruct (memcpy_spec (ram g) (dest - mem_base g) (src - mem_base g) n) as (r & Hr & Hp); try (done || lia).
  exists r. unfold do_memcpy. by rewrite Hr.
Qed.

Section load.
Context (g : boot) (blob size entry : Z) (phs : list phdr) (Hok : image_ok g blob size entry phs).
#[local] Notation base := (mem_base g).
#[local] Notation bias := (u64 (free g - lo phs)).

(** The memory after some segments have been copied. *)
Definition loading (r : list Z) : Prop :=
  framed (ram g) r (free g - base) (base + lenz (ram g) - free g) /\ Forall is_byte r.

Lemma lowest_le p : p ∈ phs -> loadable p = true -> lowest phs <= p_vaddr p.
Proof.
  clear. intros Hp Hl. induction Hp as [p l|p q l _ IH]; simpl.
  - rewrite Hl. lia.
  - destruct (loadable q); [|by apply IH]. specialize (IH Hl). lia.
Qed.

Lemma free_spec : first_free_paddr g <= free g < first_free_paddr g + 2 ^ 21 /\ free g mod 2 ^ 21 = 0.
Proof.
  destruct (img_memory _ _ _ _ _ Hok) as (_ & _ & Hf & _). unfold free, ROUNDUP, MEGAPAGE_SIZE.
  rewrite (u64_small (first_free_paddr g - 1)) by lia. rewrite u64_small by zdm. zdm.
Qed.

Lemma lo_spec : 0 <= lo phs <= lowest phs /\ lo phs mod 2 ^ 21 = 0 /\ 0 <= lowest phs < 2 ^ 64.
Proof.
  assert (H : 0 <= lowest phs < 2 ^ 64).
  { assert (Hs : forall p, p ∈ phs -> loadable p = true -> 0 <= p_vaddr p < 2 ^ 64).
    { intros p Hp Hl. destruct (img_segments _ _ _ _ _ Hok p Hp Hl) as [_ (H1 & H2 & _)].
      destruct (img_segments _ _ _ _ _ Hok p Hp Hl) as [(_ & H3 & _) _]. lia. }
    clear Hok. induction phs as [|p l IH]; simpl; [lia|].
    assert (Hl : 0 <= lowest l < 2 ^ 64) by (apply IH; intros q Hq; apply Hs; by right).
    destruct (loadable p) eqn:Hp; [|done]. specialize (Hs p ltac:(by left) Hp). lia. }
  unfold lo, ROUNDDOWN, MEGAPAGE_SIZE. split; [|split; [|done]]; zdm.
Qed.

Lemma bias_phys va : lo phs <= va -> phys g phs va < 2 ^ 64 -> 0 <= phys g phs va /\ u64 (va + bias) = phys g phs va.
Proof.
  intros Hva Hp. destruct free_spec as [Hf _]. destruct (img_memory _ _ _ _ _ Hok) as (_ & _ & Hf' & _).
  unfold phys in *. split; [lia|]. unfold u64. rewrite Zplus_mod_idemp_r.
  replace (va + (free g - lo phs)) with (free g + (va - lo phs)) by lia. apply Z.mod_small. lia.
Qed.

(** Where a segment lies. *)
Lemma segment_bounds p :
  p ∈ phs -> loadable p = true ->
  let pa := phys g phs (p_vaddr p) in
  free g <= pa - p_vaddr p mod 2 ^ 12 /\ pa + p_memsz p <= base + lenz (ram g) /\
  0 < p_memsz p /\ lo phs <= p_vaddr p /\ base <= free g.
Proof.
  intros Hp Hl. cbv zeta. pose proof (lowest_le p Hp Hl). destruct lo_spec as (H1 & H2 & _). destruct free_spec as [H3 H4].
  destruct (img_segments _ _ _ _ _ Hok p Hp Hl) as [(Hs1 & Hs2 & Hs3) (Hp1 & Hp2 & Hp3)].
  destruct (img_size _ _ _ _ _ Hok) as (Hz & [Hi1 Hi2] & Hi3). unfold SIZEOF_EHDR in Hz.
  assert (Hm : 0 < p_memsz p).
  { unfold loadable in Hl. apply andb_true_iff in Hl as [_ Hl]. apply negb_true_iff, Z.eqb_neq in Hl. lia. }
  unfold phys in *. split_and!; [|lia..]. zdm.
Qed.

Lemma loading_patched r r' a n f :
  loading r -> patched r r' (a - base) n f -> free g <= a -> a + n <= base + lenz (ram g) -> 0 <= n ->
  (forall j, 0 <= j < n -> is_byte (f j)) -> loading r'.
Proof.
  intros [Hf Hb] Hp Ha Hn Hn0 Hby. split.
  - eapply framed_trans; [exact Hf| |lia|lia]. eapply framed_wider; [exact (patched_framed _ _ _ _ _ Hp)|lia|lia].
  - by eapply patched_bytes.
Qed.

#[local] Notation g1 := (set_free (free g) g).

(** The three writes for a segment. *)
Lemma segment_copied p r :
  loading r -> p ∈ phs -> loadable p = true ->
  let pa := phys g phs (p_vaddr p) in let prepad := p_vaddr p mod 2 ^ 12 in
  exists r1 r2 r3,
    do_memcpy (set_ram r g1) pa (blob + p_offset p) (p_filesz p) = Ret (set_ram r1 g1) /\
    do_memset (set_ram r1 g1) (pa - prepad) 0 prepad = Ret (set_ram r2 g1) /\
    do_memset (set_ram r2 g1) (pa + p_filesz p) 0 (p_memsz p - p_filesz p) = Ret (set_ram r3 g1) /\
    loading r3 /\ placed g blob phs p r3 /\ framed r r3 (pa - prepad - base) (prepad + p_memsz p).
Proof.
  intros Hr Hp Hl pa prepad. destruct (segment_bounds p Hp Hl) as (Hb1 & Hb2 & Hb3 & _ & Hb5). fold pa prepad in Hb1, Hb2.
  destruct (img_segments _ _ _ _ _ Hok p Hp Hl) as [(Hs1 & Hs2 & Hs3) _].
  destruct (img_size _ _ _ _ _ Hok) as (_ & [Hi1 Hi2] & Hi3).
  assert (Hpp : 0 <= prepad < 2 ^ 12) by (apply Z.mod_pos_bound; lia).
  pose proof (proj1 (proj1 Hr)) as Hlen.
  destruct (do_memcpy_spec (set_ram r g1) pa (blob + p_offset p) (p_filesz p)) as (r1 & H1 & Hp1);
    [apply Hr|split; cbn; lia|split; cbn; lia|lia|lia|]. cbn in Hp1. pose proof (proj1 Hp1) as Hl1.
  destruct (do_memset_spec (set_ram r1 g1) (pa - prepad) 0 prepad) as (r2 & H2 & Hp2);
    [split; cbn; lia|lia|]. cbn in Hp2. pose proof (proj1 Hp2) as Hl2.
  destruct (do_memset_spec (set_ram r2 g1) (pa + p_filesz p) 0 (p_memsz p - p_filesz p)) as (r3 & H3 & Hp3);
    [split; cbn; lia|lia|]. cbn in Hp3.
  exists r1, r2, r3. split; [exact H1|]. split; [exact H2|]. split; [exact H3|].
  assert (Hz : forall j : Z, is_byte (u8 0)) by done.
  assert (Hg1 : loading r1).
  { eapply loading_patched; [exact Hr|exact Hp1|lia|lia|lia|]. intros j Hj. apply Forall_nthz_iff; [apply Hr|lia]. }
  assert (Hg2 : loading r2) by (eapply loading_patched; [exact Hg1|exact Hp2|lia|lia|lia|done]).
  split; [eapply loading_patched; [exact Hg2|exact Hp3|lia|lia|lia|done]|]. split.
  - intros k Hk. fold pa. rewrite (proj2 Hp3), (proj2 Hp2), (proj2 Hp1) by lia.
    destruct (Z.leb_spec (pa + p_filesz p - base) (pa + k - base)),
      (Z.ltb_spec (pa + k - base) (pa + p_filesz p - base + (p_memsz p - p_filesz p))),
      (Z.leb_spec (pa - prepad - base) (pa + k - base)), (Z.ltb_spec (pa + k - base) (pa - prepad - base + prepad)),
      (Z.leb_spec (pa - base) (pa + k - base)), (Z.ltb_spec (pa + k - base) (pa - base + p_filesz p)),
      (Z.ltb_spec k (p_filesz p)); try lia; cbn [andb]; try done.
    rewrite (proj2 (proj1 Hr)) by lia. f_equal. lia.
  - eapply framed_trans; [exact (patched_framed _ _ _ _ _ Hp1)| |lia|lia].
    eapply (framed_trans _ _ _ (pa - prepad - base) (prepad + p_memsz p)); [exact (patched_framed _ _ _ _ _ Hp2)| |lia|lia].
    eapply framed_wider; [exact (patched_framed _ _ _ _ _ Hp3)|lia|lia].
Qed.

Lemma load_step_spec p i ph max r :
  loading r -> p ∈ phs -> loadable p = true -> read_phdr (set_ram r g1) ph i = Ret p -> 0 <= max ->
  let pa := phys g phs (p_vaddr p) in
  exists r', load_step blob size bias ph i (max, set_ram r g1) = Ret (Z.max (pa + p_memsz p) max, set_ram r' g1) /\
    loading r' /\ placed g blob phs p r' /\
    framed r r' (pa - p_vaddr p mod 2 ^ 12 - base) (p_vaddr p mod 2 ^ 12 + p_memsz p).
Proof.
  intros Hr Hp Hl Hrd Hmax pa. destruct (segment_bounds p Hp Hl) as (Hb1 & Hb2 & Hb3 & Hb4 & Hb5). fold pa in Hb1, Hb2.
  destruct (img_segments _ _ _ _ _ Hok p Hp Hl) as [(Hs1 & Hs2 & Hs3) _].
  destruct (img_size _ _ _ _ _ Hok) as (_ & [Hi1 Hi2] & Hi3).
  destruct (img_memory _ _ _ _ _ Hok) as (Hm1 & Hm2 & _).
  assert (Hpp : 0 <= p_vaddr p mod 2 ^ 12 < 2 ^ 12) by (apply Z.mod_pos_bound; lia).
  destruct (bias_phys (p_vaddr p) Hb4 ltac:(fold pa; lia)) as [Hpa Hu]. fold pa in Hpa, Hu.
  destruct (segment_copied p r Hr Hp Hl) as (r1 & r2 & r3 & H1 & H2 & H3 & H4 & H5 & H6). fold pa in H1, H2, H3, H6.
  exists r3. split; [|done]. unfold load_step. rewrite Hrd, bind_ret, Hl. cbv zeta. change RISCV_PGSIZE with (2 ^ 12).
  rewrite Hu, !(u64_small (pa + p_memsz p)) by lia. rewrite (u64_small (p_offset p + p_filesz p)) by lia.
  destruct (Z.ltb_spec size (p_offset p + p_filesz p)); [lia|]. rewrite (u64_small (blob + p_offset p)) by lia.
  rewrite H1, bind_ret.
  rewrite (u64_small (pa - p_vaddr p mod 2 ^ 12)), (u64_small (pa + p_filesz p)), (u64_small (p_memsz p - p_filesz p)) by lia.
  rewrite H2, bind_ret, H3, bind_ret.
  do 2 f_equal. destruct (Z.ltb_spec max (pa + p_memsz p)); lia.
Qed.

(** ** The loops *)

(** The end of the last segment from index [i] on, as a physical address. *)
Definition last_end (ps : list phdr) : Z :=
  foldr (fun p m => if loadable p then Z.max (phys g phs (p_vaddr p) + p_memsz p) m else m) 0 ps.

Lemma last_end_nonneg ps : 0 <= last_end ps.
Proof. induction ps as [|p ps IH]; simpl; [lia|]. destruct (loadable p); lia. Qed.

(** The segments from index [n] on are in place. *)
Definition placed_from (n : nat) (r : list Z) : Prop :=
  forall i p, (n <= i)%nat -> phs !! i = Some p -> loadable p = true -> placed g blob phs p r.

Lemma placed_framed p r r' d k :
  framed r r' d k -> p ∈ phs -> loadable p = true ->
  d + k <= phys g phs (p_vaddr p) - base -> placed g blob phs p r -> placed g blob phs p r'.
Proof.
  intros [_ Hf] Hp Hl Hd Hpl j Hj. destruct (segment_bounds p Hp Hl) as (Hb1 & Hb2 & Hb3 & Hb4 & Hb5).
  assert (0 <= p_vaddr p mod 2 ^ 12) by (apply Z.mod_pos_bound; lia).
  rewrite Hf by lia. by apply Hpl.
Qed.

Lemma load_loop_spec phoff n r :
  e_phoff g blob = Ret phoff -> 0 <= phoff -> phoff + lenz phs * SIZEOF_EHDR <= size ->
  (forall i p, phs !! i = Some p -> read_phdr g (blob + phoff) (Z.of_nat i) = Ret p) ->
  (n <= length phs)%nat -> loading r -> placed_from n r ->
  exists r', load_loop n blob size bias (blob + phoff) (last_end (drop n phs), set_ram r g1) =
    Ret (last_end phs, set_ram r' g1) /\ loading r' /\ placed_from 0 r'.
Proof.
  intros Hoff Hoff0 Hsz Hrd. revert r. induction n as [|n IH]; intros r Hn Hr Hpl; [by exists r|].
  destruct (lookup_lt_is_Some_2 phs n ltac:(lia)) as [p Hp]. cbn [load_loop].
  assert (Hin : p ∈ phs) by by eapply list_elem_of_lookup_2.
  destruct (img_size _ _ _ _ _ Hok) as (_ & [Hi1 Hi2] & Hi3). destruct (img_memory _ _ _ _ _ Hok) as (Hm1 & Hm2 & _).
  assert (Hrd' : read_phdr (set_ram r g1) (blob + phoff) (Z.of_nat n) = Ret p).
  { change (set_ram r g1) with (set_free (free g) (set_ram r g)).
    change (read_phdr (set_ram r g) (blob + phoff) (Z.of_nat n) = Ret p).
    rewrite (read_phdr_framed g r _ _ (free g) (base + lenz (ram g) - free g)); [by apply Hrd|apply Hr|].
    unfold lenz, SIZEOF_PHDR, SIZEOF_EHDR in *. rewrite u64_small by lia. lia. }
  rewrite (drop_S _ _ _ Hp) in IH. cbn [last_end foldr] in IH.
  destruct (loadable p) eqn:Hl.
  - destruct (load_step_spec p (Z.of_nat n) (blob + phoff) (last_end (drop (S n) phs)) r Hr Hin Hl Hrd'
      (last_end_nonneg _)) as (r' & Hs & Hr' & Hp' & Hf').
    rewrite Hs, bind_ret. apply IH; [lia|done|]. intros i q Hi Hq Hlq.
    destruct (decide (i = n)) as [->|]; [by replace q with p by congruence|].
    assert (Hqin : q ∈ phs) by by eapply list_elem_of_lookup_2.
    eapply placed_framed; [exact Hf'|done|done| |eapply Hpl; [|done..]; lia].
    pose proof (img_sorted _ _ _ _ _ Hok n i p q ltac:(lia) Hp Hq Hl Hlq). unfold phys. lia.
  - unfold load_step. rewrite Hrd', bind_ret, Hl, bind_ret. apply IH; [lia|done|].
    intros i q Hi Hq Hlq. destruct (decide (i = n)) as [->|]; [congruence|]. eapply Hpl; [|done..]. lia.
Qed.

Lemma min_loop_spec phoff k m :
  (forall i p, phs !! i = Some p -> read_phdr g (blob + phoff) (Z.of_nat i) = Ret p) ->
  (k <= length phs)%nat ->
  for_loop (length phs - k) (Z.of_nat k) (min_step g1 (blob + phoff)) m =
  Ret (foldl (fun m p => if loadable p && (p_vaddr p <? m) then p_vaddr p else m) m (drop k phs)).
Proof.
  intros Hrd. remember (length phs - k)%nat as j eqn:Hj. revert k m Hj.
  induction j as [|j IH]; intros k m Hj Hk; [by rewrite drop_ge by lia|].
  destruct (lookup_lt_is_Some_2 phs k ltac:(lia)) as [p Hp]. cbn [for_loop]. rewrite (drop_S _ _ _ Hp). cbn [foldl].
  assert (Hs : min_step g1 (blob + phoff) (Z.of_nat k) m = Ret (if loadable p && (p_vaddr p <? m) then p_vaddr p else m)).
  { unfold min_step. change (read_phdr g1) with (read_phdr g). by rewrite (Hrd k p Hp). }
  rewrite Hs, bind_ret. replace (Z.of_nat k + 1) with (Z.of_nat (S k)) by lia. apply IH; lia.
Qed.

Lemma foldl_lowest m : foldl (fun m p => if loadable p && (p_vaddr p <? m) then p_vaddr p else m) m phs =
  foldr (fun p m => if loadable p then Z.min (p_vaddr p) m else m) m phs.
Proof.
  clear. revert m. induction phs as [|p l IH]; intros m; [done|]. cbn [foldl foldr]. rewrite IH. clear IH.
  destruct (loadable p); cbn [andb]; [|done].
  assert (H : forall a b, foldr (fun p m => if loadable p then Z.min (p_vaddr p) m else m) (Z.min a b) l =
    Z.min a (foldr (fun p m => if loadable p then Z.min (p_vaddr p) m else m) b l)).
  { intros a b. induction l as [|q l IH]; [done|]. cbn [foldr]. rewrite IH. destruct (loadable q); lia. }
  rewrite <- H. f_equal. destruct (Z.ltb_spec (p_vaddr p) m); lia.
Qed.

Lemma last_end_highest l :
  (forall p, p ∈ l -> p ∈ phs) ->
  if existsb loadable l then last_end l = phys g phs (highest l) /\ 0 <= highest l < 2 ^ 64
  else last_end l = 0 /\ highest l = 0.
Proof.
  induction l as [|p l IH]; intros Hl; [done|].
  specialize (IH (fun q Hq => Hl q ltac:(by right))). cbn [existsb last_end highest foldr].
  destruct (loadable p) eqn:Hp; [|done]. cbn [orb].
  destruct (segment_bounds p (Hl p ltac:(by left)) Hp) as (Hb1 & Hb2 & Hb3 & Hb4 & Hb5).
  destruct (img_segments _ _ _ _ _ Hok p (Hl p ltac:(by left)) Hp) as [_ (Hp1 & Hp2 & _)].
  destruct free_spec as [Hf _]. destruct (img_memory _ _ _ _ _ Hok) as (_ & _ & Hf' & _).
  fold (last_end l) (highest l).
  destruct (existsb loadable l); destruct IH as [-> IH]; [|rewrite IH]; unfold phys in *; lia.
Qed.

Lemma load_spec_kernel :
  exists r, load_kernel_elf blob size g =
    Ret (set_kernel (MkInfo entry (lo phs) (ROUNDUP (highest phs) RISCV_PGSIZE) bias) (set_ram r g1)) /\
    loading r /\ forall p, p ∈ phs -> loadable p = true -> placed g blob phs p r.
Proof.
  destruct (img_ident _ _ _ _ _ Hok) as (H0 & H1 & H2 & H3 & H4).
  destruct (img_phdrs _ _ _ _ _ Hok) as (phoff & Hoff & Hoff0 & Hsz & Hrd).
  destruct (img_size _ _ _ _ _ Hok) as (Hz & [Hi1 Hi2] & Hi3).
  destruct (img_memory _ _ _ _ _ Hok) as (Hm1 & Hm2 & Hm3 & Hm4).
  assert (Hr0 : loading (ram g)) by (split; [apply framed_refl|done]).
  unfold load_kernel_elf. cbv zeta. destruct (Z.ltb_spec size SIZEOF_EHDR); [lia|].
  rewrite H0, H1, H2, H3, !bind_ret. cbn [Z.eqb Pos.eqb andb negb]. rewrite H4, bind_ret. cbn [Z.eqb Pos.eqb negb].
  rewrite (img_phnum _ _ _ _ _ Hok), Hoff, !bind_ret.
  pose proof (lenz_nonneg phs). unfold SIZEOF_EHDR in *.
  rewrite (u64_small (phoff + lenz phs * 64)), (u64_small (blob + phoff)) by lia.
  destruct (Z.ltb_spec size (phoff + lenz phs * 64)); [lia|]. fold (free g).
  pose proof (min_loop_spec phoff 0 (2 ^ 64 - 1) Hrd ltac:(lia)) as Hmin. rewrite Nat.sub_0_r in Hmin.
  replace (Z.to_nat (lenz phs)) with (length phs) by (unfold lenz; lia). change (Z.of_nat 0) with 0 in Hmin. rewrite Hmin, bind_ret. clear Hmin.
  change (drop 0 phs) with phs. rewrite foldl_lowest. fold (lowest phs) (lo phs).
  change (first_free_paddr g1) with (free g).
  destruct (load_loop_spec phoff (length phs) (ram g) Hoff Hoff0 Hsz Hrd ltac:(lia) Hr0) as (r & Hl & Hr & Hpl).
  { intros i p Hi Hp. apply lookup_lt_Some in Hp. lia. }
  rewrite drop_all in Hl. change (last_end [], set_ram (ram g) g1) with (0, set_ram (ram g) g1) in Hl.
  replace (set_ram (ram g) g1) with g1 in Hl by (by destruct g). rewrite Hl, bind_ret.
  assert (He : e_entry (set_ram r g1) blob = Ret entry).
  { unfold e_entry. change (read_uint (set_ram r g1)) with (read_uint (set_ram r g)).
    rewrite (read_uint_framed g r _ _ _ _ (proj1 Hr)) by lia. apply Hok. }
  rewrite He, bind_ret. exists r. split; [|split; [done|]].
  - pose proof (last_end_highest phs (fun p Hp => Hp)) as Hh. destruct (img_loads _ _ _ _ _ Hok) as (p & Hp & Hlp).
    assert (Hex : existsb loadable phs = true) by (apply existsb_exists; exists p; by rewrite <- list_elem_of_In).
    rewrite Hex in Hh. destruct Hh as [-> Hh]. do 4 f_equal. unfold u64, phys. rewrite Zminus_mod_idemp_r.
    replace (free g + (highest phs - lo phs) - (free g - lo phs)) with (highest phs) by lia. by apply Z.mod_small.
  - intros p Hp Hlp. apply list_elem_of_lookup_1 in Hp as [i Hi]. by apply (Hpl i p); [lia|..].
Qed.
End load.

(** ** From the image to the running kernel *)

(** What the platform must offer for a kernel whose segments are [phs]: it lies
    at the top of the address space, and there is memory for it, for what is
    mapped with it, and for the page tables behind it. *)
Definition first_table (g : boot) (phs : list phdr) : Z := phys g phs (ROUNDUP (highest phs) RISCV_PGSIZE).
Definition middle_tables (phs : list phdr) : Z := (2 ^ 64 - lo phs - 1) / 2 ^ 30 + 1.
Definition kernel_memory (g : boot) (phs : list phdr) : Z :=
  Z.min (mem_size g) (2 ^ 64 - (free g - mem_base g) - lo phs) / 2 ^ 21 * 2 ^ 21 + mem_base g - free g.

Record platform_ok (g : boot) (sbi_end : Z) (phs : list phdr) : Prop := {
  plat_upper : 2 ^ 64 - 2 ^ 38 <= lo phs /\ highest phs <= 2 ^ 64 - 2 ^ 21;
  plat_base : mem_base g mod 2 ^ 21 = 0 /\ mem_base g < free g;
  plat_below : lo phs + (free g - mem_base g) <= 2 ^ 64;
  plat_sbi : mem_base g < sbi_end <= mem_base g + 2 ^ 21;
  plat_size : 0 <= mem_size g /\ mem_base g + mem_size g < 2 ^ 56;
  plat_tables : first_table g phs + (2 + middle_tables phs) * 2 ^ 12 <= mem_base g + lenz (ram g);
  plat_kernel : highest phs - lo phs <= kernel_memory g phs
}.

Section booting.
Context (g : boot) (blob size entry : Z) (phs : list phdr) (Hok : image_ok g blob size entry phs).
Context (sbi_end : Z) (Hplat : platform_ok g sbi_end phs).

(** The state between the two parts of the boot loader. *)
Definition kernel_loaded (r : list Z) : boot :=
  set_kernel (MkInfo entry (lo phs) (ROUNDUP (highest phs) RISCV_PGSIZE) (u64 (free g - lo phs)))
    (set_ram r (set_free (free g) g)).

Lemma highest_ge p : p ∈ phs -> loadable p = true -> p_vaddr p + p_memsz p <= highest phs.
Proof.
  clear. intros Hp Hl. induction Hp as [p l|p q l _ IH]; simpl.
  - rewrite Hl. lia.
  - destruct (loadable q); [|by apply IH]. specialize (IH Hl). lia.
Qed.

Lemma highest_rounded :
  lo phs <= highest phs /\ highest phs <= ROUNDUP (highest phs) RISCV_PGSIZE < 2 ^ 64 /\
  ROUNDUP (highest phs) RISCV_PGSIZE mod 2 ^ 12 = 0.
Proof.
  destruct (img_loads _ _ _ _ _ Hok) as (p & Hp & Hl). pose proof (highest_ge p Hp Hl).
  destruct (segment_bounds g blob size entry phs Hok p Hp Hl) as (_ & _ & H1 & H2 & _).
  destruct (lo_spec g blob size entry phs Hok) as (H3 & _). destruct (plat_upper _ _ _ Hplat) as [_ H4].
  unfold ROUNDUP, RISCV_PGSIZE. rewrite (u64_small (highest phs - 1)) by lia. rewrite u64_small by zdm. zdm.
Qed.

Lemma loaded_tables r : lenz r = lenz (ram g) -> tables (kernel_loaded r) = first_table g phs.
Proof.
  intros Hr. destruct highest_rounded as (Hh1 & Hh2 & Hh3). destruct Hplat as [_ _ _ _ _ Ht _].
  destruct (lo_spec g blob size entry phs Hok) as (Hl1 & Hl2 & Hl3). destruct (img_memory _ _ _ _ _ Hok) as (Hm1 & Hm2 & _).
  assert (1 <= middle_tables phs) by (unfold middle_tables; pose proof (plat_upper _ _ _ Hplat); zdm).
  destruct (bias_phys g blob size entry phs Hok (ROUNDUP (highest phs) RISCV_PGSIZE)) as [_ Hbp];
    [lia|unfold first_table in Ht; lia|]. exact Hbp.
Qed.

Lemma vm_ok_loaded r : lenz r = lenz (ram g) -> vm_ok (kernel_loaded r) sbi_end.
Proof.
  intros Hr. destruct highest_rounded as (Hh1 & Hh2 & Hh3). destruct (free_spec g blob size entry phs Hok) as [Hf1 Hf2].
  destruct (lo_spec g blob size entry phs Hok) as (Hl1 & Hl2 & Hl3).
  destruct (img_memory _ _ _ _ _ Hok) as (Hm1 & Hm2 & Hm3 & _). destruct Hplat as [Hu Hb Hbl Hs Hz Ht _].
  pose proof (loaded_tables r Hr) as Htb.
  split; rewrite ?Htb; cbn; try done.
  - lia.
  - lia.
  - unfold u64. rewrite Zplus_mod_idemp_r. replace (lo phs + (free g - lo phs)) with (free g) by lia. apply Z.mod_small. lia.
  - rewrite Hr. lia.
  - change (num_middle_pts (kernel_loaded r)) with (middle_tables phs). unfold in_ram. cbn. rewrite Hr.
    unfold first_table, phys in *. split; [zdm|]. lia.
Qed.

(** The address of a byte of a segment, through the page tables. *)
Lemma page_map_segment r p k :
  lenz r = lenz (ram g) -> p ∈ phs -> loadable p = true -> 0 <= k < p_memsz p ->
  page_map (kernel_loaded r) sbi_end (p_vaddr p + k) = Some (phys g phs (p_vaddr p) + k, kernel_flags).
Proof.
  intros Hr Hp Hl Hk. pose proof (highest_ge p Hp Hl).
  destruct (segment_bounds g blob size entry phs Hok p Hp Hl) as (_ & _ & H1 & H2 & _).
  pose proof (plat_kernel _ _ _ Hplat) as Hmem.
  assert (Hm : highest phs - lo phs <= mapped (kernel_loaded r)).
  { unfold mapped, usable. cbn. unfold kernel_memory in Hmem. lia. }
  unfold page_map. cbn [info kernel_loaded set_kernel first_user_vaddr first_free_paddr set_ram set_free].
  destruct (Z.leb_spec (lo phs) (p_vaddr p + k)), (Z.ltb_spec (p_vaddr p + k) (lo phs + mapped (kernel_loaded r))); try lia.
  cbn [andb]. do 2 f_equal. unfold phys. lia.
Qed.

(** The page tables lie behind every segment. *)
Lemma placed_after r r' p :
  framed r r' (first_table g phs - mem_base g) ((2 + middle_tables phs) * 2 ^ 12) ->
  p ∈ phs -> loadable p = true -> placed g blob phs p r -> placed g blob phs p r'.
Proof.
  intros [_ Hf] Hp Hl Hpl k Hk. pose proof (highest_ge p Hp Hl). destruct highest_rounded as (_ & Hh & _).
  destruct (segment_bounds g blob size entry phs Hok p Hp Hl) as (H1 & _ & _ & _ & H5).
  assert (0 <= p_vaddr p mod 2 ^ 12) by (apply Z.mod_pos_bound; lia).
  rewrite Hf; [by apply Hpl|lia|]. left. unfold first_table, phys. lia.
Qed.

Lemma boot_spec stack_top s :
  exists g' r', boot_loader blob size sbi_end stack_top g s =
      Ret (g', enter_supervisor_mode (root_page_table g') entry 0 stack_top s) /\
    (forall va, 0 <= va < 2 ^ 64 -> translate g' va = page_map (kernel_loaded r') sbi_end va) /\
    lenz r' = lenz (ram g) /\
    (forall p, p ∈ phs -> loadable p = true -> placed g blob phs p (ram g')) /\
    mem_base g' = mem_base g /\ sptbr g' = root_page_table g' >>> 12.
Proof.
  destruct (load_spec_kernel g blob size entry phs Hok) as (r & Hld & Hr & Hpl). pose proof (proj1 (proj1 Hr)) as Hlen.
  pose proof (vm_ok_loaded r Hlen) as Hvm.
  destruct (vm_stages (kernel_loaded r) sbi_end Hvm) as (r2 & r3 & r4 & r5 & r6 & Hst & Hvi).
  unfold boot_loader. rewrite Hld, bind_ret. fold (kernel_loaded r). rewrite Hvi, bind_ret.
  eexists _, r. split; [reflexivity|]. split; [intros va Hva; by eapply translate_spec|]. split; [done|].
  split; [|done]. intros p Hp Hl. cbn [ram set_root set_size set_ram].
  apply (placed_after r); [|done|done|by apply Hpl].
  rewrite <- (loaded_tables r Hlen). exact (stages_framed _ _ Hvm _ _ _ _ _ Hst).
Qed.
End booting.

(** The state of a hart that enters the kernel. *)
Definition entered_mstatus (ms : Z) : Z := INSERT_FIELD (INSERT_FIELD ms MSTATUS_MPP PRV_S) MSTATUS_MPIE 0.
Definition entered (root fn stack_top : Z) (s : hart) : hart :=
  let s := set_csr_to MSTATUS (entered_mstatus (csrs s MSTATUS)) s in
  let s := set_csr_to MSCRATCH (stack_top - MENTRY_FRAME_SIZE) s in
  set_csr_to SPTBR (root >>> 12) (set_csr_to MEPC fn s).

Lemma entered_bits ms n :
  0 <= n -> Z.testbit (entered_mstatus ms) n =
  if n =? 7 then false else if n =? 11 then true else if n =? 12 then false else Z.testbit ms n.
Proof.
  intros Hn. unfold entered_mstatus.
  rewrite (INSERT_FIELD_bits _ 7 1), (INSERT_FIELD_bits _ 11 2) by (done || unfold is_uint, PRV_S; lia).
  destruct (Z.eqb_spec n 7) as [->|]; [done|].
  destruct (Z.leb_spec 7 n), (Z.ltb_spec n (7 + 1)); try lia; cbn [andb];
    destruct (Z.eqb_spec n 11) as [->|]; try done; destruct (Z.eqb_spec n 12) as [->|]; try done;
    destruct (Z.leb_spec 11 n), (Z.ltb_spec n (11 + 2)); try lia; done.
Qed.

Lemma entered_mode ms : EXTRACT_FIELD (entered_mstatus ms) MSTATUS_MPP = PRV_S.
Proof.
  rewrite (EXTRACT_FIELD_eq _ 11 2) by done. apply Z.bits_inj'. intros n Hn. unfold PRV_S.
  destruct (decide (n < 2)).
  - rewrite Z.mod_pow2_bits_low, Z.div_pow2_bits, entered_bits by lia.
    assert (Hc : n = 0 \/ n = 1) by lia. by destruct Hc as [-> | ->].
  - rewrite Z.mod_pow2_bits_high by lia. symmetry. apply (testbit_high 1 1); lia.
Qed.

(** The kernel starts in supervisor mode with interrupts off. *)
Lemma enter_spec root fn stack_top s :
  wf_hart s -> is_uint 64 fn ->
  enter_supervisor_mode root fn 0 stack_top s = Done (fn, PRV_S, 0) (entered root fn stack_top s).
Proof.
  intros Hs Hf.
  change (enter_supervisor_mode root fn 0 stack_top s) with
    (Done (csrs (entered root fn stack_top s) MEPC,
           EXTRACT_FIELD (csrs (entered root fn stack_top s) MSTATUS) MSTATUS_MPP, 0) (entered root fn stack_top s)).
  unfold entered. cbv zeta. rewrite (set_csr_to_ne SPTBR), set_csr_to_eq by done.
  rewrite !set_csr_to_ne by done. rewrite set_csr_to_eq, entered_mode; [done|].
  unfold entered_mstatus. do 2 apply is_uint_insert_field. apply (wf_csrs s Hs).
Qed.

(** C33: after the boot loader has run, the hart enters the kernel at its entry
    point, in supervisor mode with interrupts off; and through the page tables
    it then uses every byte of every segment is found at its virtual address:
    the byte of the image, or 0 behind the bytes that the image has. *)
Theorem boot_loader_correct g blob size entry phs sbi_end stack_top s :
  image_ok g blob size entry phs -> platform_ok g sbi_end phs -> wf_hart s -> is_uint 64 entry ->
  exists g', boot_loader blob size sbi_end stack_top g s =
      Ret (g', Done (entry, PRV_S, 0) (entered (root_page_table g') entry stack_top s)) /\
    csrs (entered (root_page_table g') entry stack_top s) SPTBR = u64 (sptbr g') /\
    (forall n, 0 <= n -> Z.testbit (entered_mstatus (csrs s MSTATUS)) n =
       if n =? 7 then false else if n =? 11 then true else if n =? 12 then false else Z.testbit (csrs s MSTATUS) n) /\
    (forall p k, p ∈ phs -> loadable p = true -> 0 <= k < p_memsz p ->
       exists pa, translate g' (p_vaddr p + k) = Some (pa, kernel_flags) /\
         ram g' !z (pa - mem_base g') =
           if k <? p_filesz p then ram g !z (blob + p_offset p + k - mem_base g) else 0).
Proof.
  intros Hi Hp Hs He. destruct (boot_spec g blob size entry phs Hi sbi_end Hp stack_top s) as (g' & r & Hb & Ht & Hr & Hpl & Hm & Hsp).
  exists g'. rewrite Hb, enter_spec by done. split; [done|]. split.
  - unfold entered. cbv zeta. simpl. rewrite fn_lookup_insert. by rewrite Hsp.
  - split; [intros; by apply entered_bits|]. intros p k Hin Hl Hk. exists (phys g phs (p_vaddr p) + k).
    destruct (img_segments _ _ _ _ _ Hi p Hin Hl) as [_ (Hv1 & Hv2 & _)].
    rewrite Ht, (page_map_segment g blob size entry phs Hi sbi_end Hp r p k Hr Hin Hl Hk) by lia.
    split; [done|]. rewrite Hm. by apply Hpl.
Qed.

(** An image of one segment of four bytes that takes sixteen bytes of memory, at
    the last gigabyte of the address space, in eight megabytes of memory. *)
Definition demo_header : list Z :=
  [0x7f; 69; 76; 70; 2] ++ zeros 19 ++ word_bytes 8 (2 ^ 64 - 2 ^ 30 + 4) ++ word_bytes 8 64 ++ zeros 16 ++ [1; 0] ++ zeros 6.
Definition demo_phdr : phdr := MkPhdr 1 120 (2 ^ 64 - 2 ^ 30) 4 16.
Definition demo_image : list Z :=
  demo_header ++ [1; 0; 0; 0; 0; 0; 0; 0] ++ word_bytes 8 120 ++ word_bytes 8 (2 ^ 64 - 2 ^ 30) ++ zeros 8 ++
  word_bytes 8 4 ++ word_bytes 8 16 ++ zeros 8 ++ [11; 22; 33; 44] ++ zeros 4.
Definition demo_with (r : list Z) : boot := MkBoot r (2 ^ 31) (2 ^ 23) (2 ^ 31 + 2 ^ 12) (MkInfo 0 0 0 0) 0 0.
Definition demo_state : boot := demo_with (demo_image ++ zeros (2 ^ 23 - 128)).

Lemma load_app_l l1 l2 i k : i + k <= lenz l1 -> load (l1 ++ l2) i k = load l1 i k.
Proof.
  intros H. unfold load. rewrite lenz_app. pose proof (lenz_nonneg l2).
  destruct (Z.leb_spec 0 i), (Z.leb_spec 0 k), (Z.leb_spec (i + k) (lenz l1)), (Z.leb_spec (i + k) (lenz l1 + lenz l2));
    try lia; try done. cbn [andb]. f_equal. unfold lenz in *.
  rewrite drop_app_le, take_app_le by (rewrite ?length_drop; lia). done.
Qed.

Lemma demo_read a k : a + k <= 2 ^ 31 + 128 -> read_uint demo_state a k = read_uint (demo_with demo_image) a k.
Proof.
  intros H. unfold read_uint. change (ram demo_state) with (demo_image ++ zeros (2 ^ 23 - 128)).
  change (mem_base demo_state) with (2 ^ 31).
  rewrite load_app_l; [done|]. change (lenz demo_image) with 128. lia.
Qed.

(** The numbers of the state, without its memory. *)
Lemma demo_numbers :
  mem_base demo_state = 2 ^ 31 /\ mem_size demo_state = 2 ^ 23 /\ first_free_paddr demo_state = 2 ^ 31 + 2 ^ 12 /\
  free demo_state = 2 ^ 31 + 2 ^ 21 /\ lo [demo_phdr] = 2 ^ 64 - 2 ^ 30 /\ highest [demo_phdr] = 2 ^ 64 - 2 ^ 30 + 16.
Proof. split_and!; reflexivity. Qed.

Lemma demo_length : lenz (ram demo_state) = 2 ^ 23.
Proof.
  change (ram demo_state) with (demo_image ++ zeros (2 ^ 23 - 128)). rewrite lenz_app, lenz_zeros by lia.
  by change (lenz demo_image) with 128.
Qed.

Lemma demo_image_ok : image_ok demo_state (2 ^ 31) 128 (2 ^ 64 - 2 ^ 30 + 4) [demo_phdr].
Proof.
  assert (Hin : forall p, p ∈ [demo_phdr] -> p = demo_phdr) by set_solver.
  destruct demo_numbers as (Hb & Hz & Hf & Hfr & Hlo & Hhi). split.
  - unfold e_ident. rewrite !demo_read by lia. by vm_compute.
  - unfold e_entry. rewrite demo_read by lia. by vm_compute.
  - exists 64. split; [unfold e_phoff; rewrite demo_read by lia; by vm_compute|]. split; [lia|]. split; [done|].
    intros [|i] p Hp; [|done]. injection Hp as <-. unfold read_phdr. cbv zeta.
    rewrite !demo_read by (vm_compute; discriminate). by vm_compute.
  - unfold e_phnum. rewrite demo_read by lia. by vm_compute.
  - unfold in_ram, SIZEOF_EHDR. rewrite demo_length, Hb, Hfr. lia.
  - rewrite demo_length, Hb, Hf. split_and!; try lia.
    change (ram demo_state) with (demo_image ++ zeros (2 ^ 23 - 128)). apply Forall_app. split.
    + repeat constructor; vm_compute; congruence.
    + apply Forall_replicate. done.
  - exists demo_phdr. split; [by left|done].
  - intros p Hp _. rewrite (Hin p Hp). split; cbn [p_offset p_filesz p_memsz p_vaddr demo_phdr]; [lia|].
    unfold phys. rewrite demo_length, Hb, Hfr, Hlo. lia.
  - intros [|i] [|j] p q Hlt Hp Hq; done || lia.
Qed.

Lemma boot_loader_correct_witness :
  exists g' s', boot_loader (2 ^ 31) 128 (2 ^ 31 + 2 ^ 13) 0 demo_state (demo_hart 0 (fun _ => 0)) =
      Ret (g', Done (2 ^ 64 - 2 ^ 30 + 4, PRV_S, 0) s') /\
    exists pa, translate g' (2 ^ 64 - 2 ^ 30 + 3) = Some (pa, kernel_flags) /\ ram g' !z (pa - mem_base g') = 44.
Proof.
  assert (H3 : 0 <= 3 < p_memsz demo_phdr) by done.
  destruct (boot_loader_correct demo_state (2 ^ 31) 128 (2 ^ 64 - 2 ^ 30 + 4) [demo_phdr] (2 ^ 31 + 2 ^ 13) 0 (demo_hart 0 (fun _ => 0)))
    as (g' & Hb & _ & _ & Hk).
  - apply demo_image_ok.
  - destruct demo_numbers as (Hb & Hz & Hf & Hfr & Hlo & Hhi).
    assert (Hup : ROUNDUP (2 ^ 64 - 2 ^ 30 + 16) RISCV_PGSIZE = 2 ^ 64 - 2 ^ 30 + 2 ^ 12) by reflexivity.
    split; unfold first_table, middle_tables, kernel_memory, phys; rewrite ?demo_length, ?Hb, ?Hz, ?Hfr, ?Hlo, ?Hhi, ?Hup; zdm.
  - by apply demo_wf.
  - done.
  - exists g'. eexists. split; [exact Hb|].
    destruct (Hk demo_phdr 3 (list_elem_of_here _ _) eq_refl H3) as (pa & Ht & Hr). exists pa. split; [exact Ht|].
    rewrite Hr. change (2 ^ 31 + p_offset demo_phdr + 3 - mem_base demo_state) with 123.
    change (ram demo_state) with (demo_image ++ zeros (2 ^ 23 - 128)). rewrite nthz_app by lia.
    change (lenz demo_image) with 128. reflexivity.
Defined.
