(* ===== verification/Pk.v ===== *)
(** * The proxy kernel: its state, and calls to the host

    The kernel of fpga/bootloader/pk runs one user program and passes its system
    calls to a host.  Its state: the table of file descriptors and of open files
    (file.c), the page tables and the mapped regions (mmap.c), the memory, and
    the calls the host has been given.  One hart runs it, so that the atomic
    operations are ordinary ones; a lock that is taken twice never comes free. *)

From stdpp Require Export gmap.
From S2P Require Export Prelude State.

(** ** Data *)

(** [kfd] is the descriptor the host gave. *)
Record file_t : Type := MkFile { kfd : Z; refcnt : Z }.

(** A mapped region; its file is an index into [files]. *)
Record vmr_t : Type := MkVmr {
  vmr_addr : Z;
  vmr_length : Z;
  vmr_file : option nat;
  vmr_offset : Z;
  vmr_refcnt : Z;
  vmr_prot : Z
}.

(** The fields of [current] that mmap.c uses. *)
Record elf_info : Type := MkElf { brk_min : Z; brk : Z; brk_max : Z; mmap_max : Z; stack_top : Z }.

(** A call that is passed to the host: its number and its arguments. *)
Record fcall : Type := MkCall { call_nr : Z; call_args : list Z }.

(** The pages of the kernel that are in use, by their addresses, as 512 words
    each; of the page with the regions only the address matters, its contents
    are [vmrs].  [pmem] is the rest of the physical memory, as bytes.  [calls]
    has the latest call first. *)
Record pk : Type := MkPk {
  fds : list (option nat);
  files : list file_t;
  calls : list fcall;
  pages : gmap Z (list Z);
  pmem : Z -> Z;
  vm_lock : bool;
  vmrs : option (Z * list vmr_t);
  first_free_page : Z;
  next_free_page : Z;
  free_pages : Z;
  root_page_table : Z;
  first_free_paddr : Z;
  mem_size : Z;
  DRAM_BASE : Z;
  have_vm : bool;
  current : elf_info
}.

Definition with_fds (x : list (option nat)) (s : pk) : pk :=
  MkPk x (files s) (calls s) (pages s) (pmem s) (vm_lock s) (vmrs s) (first_free_page s) (next_free_page s)
    (free_pages s) (root_page_table s) (first_free_paddr s) (mem_size s) (DRAM_BASE s) (have_vm s) (current s).
Definition with_files (x : list file_t) (s : pk) : pk :=
  MkPk (fds s) x (calls s) (pages s) (pmem s) (vm_lock s) (vmrs s) (first_free_page s) (next_free_page s)
    (free_pages s) (root_page_table s) (first_free_paddr s) (mem_size s) (DRAM_BASE s) (have_vm s) (current s).
Definition with_calls (x : list fcall) (m : Z -> Z) (s : pk) : pk :=
  MkPk (fds s) (files s) x (pages s) m (vm_lock s) (vmrs s) (first_free_page s) (next_free_page s)
    (free_pages s) (root_page_table s) (first_free_paddr s) (mem_size s) (DRAM_BASE s) (have_vm s) (current s).
Definition with_pages (x : gmap Z (list Z)) (s : pk) : pk :=
  MkPk (fds s) (files s) (calls s) x (pmem s) (vm_lock s) (vmrs s) (first_free_page s) (next_free_page s)
    (free_pages s) (root_page_table s) (first_free_paddr s) (mem_size s) (DRAM_BASE s) (have_vm s) (current s).
Definition with_pmem (x : Z -> Z) (s : pk) : pk := with_calls (calls s) x s.
Definition with_vm_lock (x : bool) (s : pk) : pk :=
  MkPk (fds s) (files s) (calls s) (pages s) (pmem s) x (vmrs s) (first_free_page s) (next_free_page s)
    (free_pages s) (root_page_table s) (first_free_paddr s) (mem_size s) (DRAM_BASE s) (have_vm s) (current s).
Definition with_vmrs (x : option (Z * list vmr_t)) (s : pk) : pk :=
  MkPk (fds s) (files s) (calls s) (pages s) (pmem s) (vm_lock s) x (first_free_page s) (next_free_page s)
    (free_pages s) (root_page_table s) (first_free_paddr s) (mem_size s) (DRAM_BASE s) (have_vm s) (current s).
Definition with_next_free (x : Z) (s : pk) : pk :=
  MkPk (fds s) (files s) (calls s) (pages s) (pmem s) (vm_lock s) (vmrs s) (first_free_page s) x
    (free_pages s) (root_page_table s) (first_free_paddr s) (mem_size s) (DRAM_BASE s) (have_vm s) (current s).
Definition with_free (first free paddr : Z) (s : pk) : pk :=
  MkPk (fds s) (files s) (calls s) (pages s) (pmem s) (vm_lock s) (vmrs s) first (next_free_page s)
    free (root_page_table s) paddr (mem_size s) (DRAM_BASE s) (have_vm s) (current s).
Definition with_root (x : Z) (s : pk) : pk :=
  MkPk (fds s) (files s) (calls s) (pages s) (pmem s) (vm_lock s) (vmrs s) (first_free_page s) (next_free_page s)
    (free_pages s) x (first_free_paddr s) (mem_size s) (DRAM_BASE s) (have_vm s) (current s).
Definition with_current (x : elf_info) (s : pk) : pk :=
  MkPk (fds s) (files s) (calls s) (pages s) (pmem s) (vm_lock s) (vmrs s) (first_free_page s) (next_free_page s)
    (free_pages s) (root_page_table s) (first_free_paddr s) (mem_size s) (DRAM_BASE s) (have_vm s) x.

(** A failed [kassert] stops the kernel. *)
Definition kassert (b : bool) : M pk unit := m_assert b.

Lemma gets_bind {A B} (f : pk -> A) (k : A -> M pk B) s : (gets f ≫= k) s = k (f s) s.
Proof. done. Qed.
Lemma modify_bind {B} (f : pk -> pk) (k : unit -> M pk B) s : (modify f ≫= k) s = k tt (f s).
Proof. done. Qed.
Lemma ret_bind {A B} (a : A) (k : A -> M pk B) s : (mret a ≫= k) s = k a s.
Proof. done. Qed.

Lemma bind_bind {A B C} (m : M pk A) (f : A -> M pk B) (g : B -> M pk C) s :
  ((m ≫= f) ≫= g) s = (m ≫= fun a => f a ≫= g) s.
Proof. unfold mbind, M_bind. by destruct (m s) as [[a s']|e]. Qed.

(** ** The host *)

Definition SYS_close : Z := 57.

(** What the host answers to the latest of the calls it has been given, and the
    bytes it writes to the memory for it: physical addresses with the bytes that
    go there.  It writes nothing when it closes a file. *)
Class Host : Type := {
  answer : list fcall -> Z;
  writes : list fcall -> list (Z * list Z);
  close_writes args cs : writes (MkCall SYS_close args :: cs) = []
}.

(** The bytes from an address on. *)
Definition store_at (a : Z) (bs : list Z) (m : Z -> Z) : Z -> Z :=
  fun x => if (a <=? x) && (x <? a + lenz bs) then bs !z (x - a) else m x.

Definition frontend_syscall {host : Host} (n : Z) (args : list Z) : M pk Z := fun s =>
  let cs := MkCall n args :: calls s in
  Ret (s64 (answer cs), with_calls cs (foldl (fun m w => store_at w.1 w.2 m) (pmem s) (writes cs)) s).

Definition va2pa (va : Z) : M pk Z :=
  s ← gets id;
  mret (if DRAM_BASE s <=? va then va else u64 (va + first_free_paddr s)).

(** Calls that only ask to close files. *)
Definition closes (cs cs' : list fcall) : Prop := exists k, cs' = k ++ cs /\ Forall (fun c => call_nr c = SYS_close) k.

#[global] Instance closes_preorder : PreOrder closes.
Proof.
  split; [intros cs; by exists []|]. intros c1 c2 c3 (k & -> & Hk) (k' & -> & Hk'). exists (k' ++ k). split; [by rewrite app_assoc|by apply Forall_app].
Qed.

(** What giving up the last reference to a file may ask. *)
Definition closes_of (file : option nat) (cs cs' : list fcall) : Prop :=
  match file with Some _ => closes cs cs' | None => cs' = cs end.

Lemma closes_of_closes file cs cs' : closes_of file cs cs' -> closes cs cs'.
Proof. destruct file; [done|]. by intros ->. Qed.

(** ** Counting *)

Section count.
Context {A : Type} (P : A -> Prop) `{!forall x, Decision (P x)}.

Definition countz (l : list A) : Z := lenz (filter P l).

Lemma countz_nonneg l : 0 <= countz l <= lenz l.
Proof. unfold countz, lenz. pose proof (length_filter P l). lia. Qed.

Lemma countz_cons x l : countz (x :: l) = Z.b2z (bool_decide (P x)) + countz l.
Proof. unfold countz. rewrite filter_cons. case_decide; case_bool_decide; rewrite ?lenz_cons; cbn; tauto || lia. Qed.

Lemma countz_insert l i x y :
  l !! i = Some x -> countz (<[i := y]> l) = countz l - Z.b2z (bool_decide (P x)) + Z.b2z (bool_decide (P y)).
Proof.
  intros Hi. unfold countz. rewrite <- (take_drop_middle l i x Hi) at 2.
  assert (i < length l)%nat by (by eapply lookup_lt_Some). rewrite insert_take_drop by done.
  rewrite !filter_app, !filter_cons, !lenz_app. repeat case_decide; repeat case_bool_decide; rewrite ?lenz_cons; cbn; tauto || lia.
Qed.

Lemma countz_pos l i x : l !! i = Some x -> P x -> 0 < countz l.
Proof.
  intros Hi HP. unfold countz. apply list_elem_of_lookup_2 in Hi.
  destruct (filter P l) eqn:E; [|rewrite lenz_cons; pose proof (lenz_nonneg l0); lia].
  assert (x ∈ filter P l) as Hx by by apply list_elem_of_filter. rewrite E in Hx. by apply not_elem_of_nil in Hx.
Qed.

Lemma countz_all l : Forall P l -> countz l = lenz l.
Proof.
  induction 1 as [|x l Hx _ IH]; [done|]. by rewrite countz_cons, lenz_cons, IH, bool_decide_eq_true_2.
Qed.

Lemma countz_none l : (forall i x, l !! i = Some x -> ~ P x) -> countz l = 0.
Proof.
  intros Hl. unfold countz. destruct (filter P l) as [|x l'] eqn:E; [done|exfalso].
  assert (x ∈ filter P l) as Hx by (rewrite E; by left). apply list_elem_of_filter in Hx as [HP Hx].
  apply list_elem_of_lookup_1 in Hx as [i Hi]. by apply (Hl i x).
Qed.
End count.

(** ** Locks *)

Definition spinlock_lock : M pk unit :=
  l ← gets vm_lock;
  if l : bool then fault_with Blocked else modify (with_vm_lock true).
Definition spinlock_unlock : M pk unit := modify (with_vm_lock false).

(** ** Numbers of system calls, errors and flags *)

Definition SYS_openat : Z := 56.
Definition SYS_fstat : Z := 80.
Definition SYS_fcntl : Z := 25.
Definition SYS_ftruncate : Z := 46.
Definition SYS_lseek : Z := 62.
Definition SYS_read : Z := 63.
Definition SYS_pread : Z := 67.
Definition SYS_write : Z := 64.
Definition SYS_pwrite : Z := 68.
Definition AT_FDCWD : Z := - 100.
Definition EBADF : Z := 9.
Definition EACCES : Z := 13.
Definition ENOSYS : Z := 38.

(** ** A concrete kernel

    A host that gives descriptor 5 to every open and answers 0 to all else, and
    a kernel before its first initialisation. *)

Definition demo_host : Host := {|
  answer cs := match cs with c :: _ => if call_nr c =? SYS_openat then 5 else 0 | [] => 0 end;
  writes _ := [];
  close_writes _ _ := eq_refl
|}.

Definition demo_pk : pk :=
  MkPk (replicate 128 None) (replicate 128 (MkFile (-1) 0)) [] ∅ (fun _ => 0) false None 0 0 0 0 0x80100000
    0x8000000 0x80000000 true (MkElf 0 0 0 0 0).
