(* ===== verification/PkFile.v ===== *)
(** * Files of the proxy kernel: pk/file.c, and their system calls in pk/syscall.c

    A file is shared by the descriptors and the mapped regions that refer to it,
    and counts them.  A count of 0 is a free file; 1 never lasts. *)

From S2P Require Import Prelude State Pk.

Section files.
Context {host : Host}.

Definition MAX_FDS : nat := 128.
Definition MAX_FILES : nat := 128.

(** ** Access to the tables *)

Definition read_file (f : nat) : M pk file_t :=
  s ← gets id;
  match files s !! f with Some x => mret x | None => fault_with OutOfBounds end.
Definition write_file (f : nat) (x : file_t) : M pk unit := modify (fun s => with_files (<[f := x]> (files s)) s).
Definition set_refcnt (f : nat) (n : Z) : M pk unit := x ← read_file f; write_file f (MkFile (kfd x) (u32 n)).
Definition set_kfd (f : nat) (n : Z) : M pk unit := x ← read_file f; write_file f (MkFile (s32 n) (refcnt x)).

(** ** References *)

Definition file_incref (f : nat) : M pk unit :=
  x ← read_file f;
  set_refcnt f (refcnt x + 1);;
  kassert (0 <? refcnt x).

Definition file_decref (f : nat) : M pk unit :=
  x ← read_file f;
  set_refcnt f (refcnt x - 1);;
  if refcnt x =? 2 then
    x ← read_file f;
    set_refcnt f 0;;
    frontend_syscall SYS_close [kfd x; 0; 0; 0; 0; 0; 0];;
    mret tt
  else mret tt.

(** The first file that is free. *)
Definition file_get_free : M pk (option nat) :=
  s ← gets id;
  match list_find (fun x => refcnt x = 0) (files s) with
  | Some (f, _) => set_refcnt f 2;; mret (Some f)
  | None => mret None
  end.

Definition file_dup (f : nat) : M pk Z :=
  s ← gets id;
  match list_find (fun d => d = None) (fds s) with
  | Some (i, _) => modify (fun s => with_fds (<[i := Some f]> (fds s)) s);; file_incref f;; mret (Z.of_nat i)
  | None => mret (-1)
  end.

(** One of the three descriptors of [file_init]; without a free file it writes
    through a null pointer. *)
Definition init_fd (i : Z) : M pk unit :=
  f ← file_get_free;
  match f with
  | Some f => set_kfd f i;; file_dup f;; mret tt
  | None => fault_with NullDeref
  end.
Definition file_init : M pk unit := init_fd 0;; init_fd 1;; init_fd 2.

(** The file of a descriptor, with a reference of the caller's own. *)
Definition file_get (fd : Z) : M pk (option nat) :=
  if (fd <? 0) || (Z.of_nat MAX_FDS <=? fd) then mret None
  else
    s ← gets id;
    match fds s !! Z.to_nat fd with
    | Some (Some f) =>
        x ← read_file f;
        if refcnt x =? 0 then mret None else set_refcnt f (refcnt x + 1);; mret (Some f)
    | Some None => mret None
    | None => fault_with OutOfBounds
    end.

(** A name is given with its address and the size of its text with the final 0. *)
Definition file_openat (dirfd fn fn_size flags mode : Z) : M pk (nat + Z) :=
  f ← file_get_free;
  match f with
  | None => mret (inr (- ENOMEM))
  | Some f =>
      pa ← va2pa fn;
      ret ← frontend_syscall SYS_openat [dirfd; pa; fn_size; flags; mode; 0; 0];
      if 0 <=? ret then set_kfd f ret;; mret (inl f)
      else file_decref f;; mret (inr ret)
  end.

Definition fd_close (fd : Z) : M pk Z :=
  f ← file_get fd;
  match f with
  | None => mret (-1)
  | Some f =>
      s ← gets id;
      let old := default None (fds s !! Z.to_nat fd) in
      (if decide (old = Some f) then modify (fun s => with_fds (<[Z.to_nat fd := None]> (fds s)) s) else mret tt);;
      file_decref f;;
      if decide (old = Some f) then file_decref f;; mret 0 else mret (-1)
  end.

(** ** System calls *)

(** [result] of the file of a descriptor, or -EBADF. *)
Definition with_file (fd : Z) (k : nat -> M pk Z) : M pk Z :=
  f ← file_get fd;
  match f with
  | Some f => r ← k f; file_decref f;; mret r
  | None => mret (- EBADF)
  end.

Definition at_kfd (dirfd : Z) : M pk Z :=
  if dirfd =? AT_FDCWD then mret AT_FDCWD
  else
    f ← file_get dirfd;
    match f with
    | None => mret (-1)
    | Some f => x ← read_file f; mret (kfd x)
    end.

(** An answer of the host below -4096 is taken for the pointer to a file. *)
Definition sys_openat (dirfd name name_size flags mode : Z) : M pk Z :=
  k ← at_kfd dirfd;
  if negb (k =? -1) then
    file ← file_openat k name name_size flags mode;
    match file with
    | inr err => if - 4096 <=? err then mret (s32 err) else fault_with OutOfBounds
    | inl f =>
        fd ← file_dup f;
        if fd <? 0 then file_decref f;; mret (- ENOMEM) else mret fd
    end
  else mret (- EBADF).

Definition sys_close (fd : Z) : M pk Z :=
  ret ← fd_close fd;
  if ret <? 0 then mret (- EBADF) else mret ret.

Definition sys_dup (fd : Z) : M pk Z := with_file fd file_dup.

(** The calls that only pass a file's descriptor to the host. *)
Definition host_call (n : Z) (args : list Z) (f : nat) : M pk Z :=
  x ← read_file f; frontend_syscall n (kfd x :: args).
Definition sys_ftruncate (fd len : Z) : M pk Z := r ← with_file fd (host_call SYS_ftruncate [len; 0; 0; 0; 0; 0]); mret (s32 r).
Definition sys_lseek (fd ptr dir : Z) : M pk Z := with_file fd (host_call SYS_lseek [ptr; dir; 0; 0; 0; 0]).
Definition sys_fcntl (fd cmd arg : Z) : M pk Z := r ← with_file fd (host_call SYS_fcntl [cmd; arg; 0; 0; 0; 0]); mret (s32 r).

(** The system calls of a program that concern its descriptors. *)
Inductive file_call : Type :=
  | OpenAt (dirfd name name_size flags mode : Z)
  | Close (fd : Z)
  | Dup (fd : Z)
  | Truncate (fd len : Z)
  | Lseek (fd ptr dir : Z)
  | Fcntl (fd cmd arg : Z).

Definition run_call (c : file_call) : M pk Z :=
  match c with
  | OpenAt d n z f m => sys_openat d n z f m
  | Close fd => sys_close fd
  | Dup fd => sys_dup fd
  | Truncate fd len => sys_ftruncate fd len
  | Lseek fd p d => sys_lseek fd p d
  | Fcntl fd c a => sys_fcntl fd c a
  end.

Definition is_open (c : file_call) : bool := match c with OpenAt _ _ _ _ _ => true | _ => false end.

Fixpoint run_calls (cs : list file_call) : M pk (list Z) :=
  match cs with
  | [] => mret []
  | c :: cs => r ← run_call c; rs ← run_calls cs; mret (r :: rs)
  end.
End files.

(** ** The table of files *)

Definition fd_refs (f : nat) (s : pk) : Z := countz (fun d => d = Some f) (fds s).
Definition in_use (s : pk) : Z := countz (fun x => refcnt x <> 0) (files s).

(** A file in use has [b] references more than descriptors and other holders
    refer to it, and never fewer than two; [n] bounds the references that have
    been lost.  With 1 for [b] the last holder frees the file; the opens of a
    program give it 2. *)
Definition counted (b n : Z) (held : nat -> Z) (s : pk) (f : nat) (x : file_t) : Prop :=
  if decide (refcnt x = 0) then fd_refs f s = 0 /\ held f = 0
  else b + fd_refs f s + held f <= refcnt x <= 2 + fd_refs f s + held f + n /\ 2 <= refcnt x.

Record files_ok (b n : Z) (held : nat -> Z) (s : pk) : Prop := {
  ok_fds : length (fds s) = MAX_FDS;
  ok_files : length (files s) = MAX_FILES;
  ok_fd : forall i f, fds s !! i = Some (Some f) -> (f < MAX_FILES)%nat;
  ok_held : forall f, 0 <= held f <= 2 ^ 30;
  ok_count : forall f x, files s !! f = Some x -> counted b n held s f x
}.

(** The descriptor of the host for a file, which only opening it changes. *)
Definition file_kfd (s : pk) (f : nat) : Z := kfd (default (MkFile 0 0) (files s !! f)).
Definition same_kfds (s s' : pk) : Prop := forall f, file_kfd s' f = file_kfd s f.

Lemma same_kfds_set s f x y : files s !! f = Some x -> kfd y = kfd x -> same_kfds s (with_files (<[f := y]> (files s)) s).
Proof.
  intros Hx Hy g. unfold file_kfd. cbn. destruct (decide (g = f)) as [->|Hne].
  - rewrite list_lookup_insert_eq by (by eapply lookup_lt_Some). by rewrite Hx.
  - by rewrite list_lookup_insert_ne.
Qed.

Definition hold (f : nat) (d : Z) (held : nat -> Z) : nat -> Z := fun g => if decide (g = f) then held g + d else held g.

(** ** The operations keep the count *)

Section invariant.
Context {host : Host} (b n : Z) (Hb : 1 <= b <= 2) (Hn : 0 <= n <= 2 ^ 30).

Lemma fd_refs_range f s : length (fds s) = MAX_FDS -> 0 <= fd_refs f s <= 128.
Proof.
  intros Hl. pose proof (countz_nonneg (fun d => d = Some f) (fds s)).
  assert (lenz (fds s) = 128) by (unfold lenz; by rewrite Hl). unfold fd_refs. lia.
Qed.

Lemma file_lookup held s f : files_ok b n held s -> (f < MAX_FILES)%nat -> exists x, files s !! f = Some x.
Proof. intros Hs Hf. apply lookup_lt_is_Some. by rewrite (ok_files _ _ _ _ Hs). Qed.

(** A descriptor's file is in use. *)
Lemma fd_in_use held s i f :
  files_ok b n held s -> fds s !! i = Some (Some f) -> exists x, files s !! f = Some x /\ refcnt x <> 0.
Proof.
  intros Hs Hi. destruct (file_lookup held s f Hs) as [x Hx]; [by eapply ok_fd|]. exists x. split; [done|].
  intros H0. pose proof (ok_count _ _ _ _ Hs f x Hx) as Hc. unfold counted in Hc. rewrite decide_True in Hc by done.
  pose proof (countz_pos (fun d => d = Some f) (fds s) i (Some f) Hi eq_refl). unfold fd_refs in Hc. lia.
Qed.

Lemma refcnt_range held s f x : files_ok b n held s -> files s !! f = Some x -> 0 <= refcnt x < 2 ^ 32 - 1.
Proof.
  intros Hs Hx. pose proof (ok_count _ _ _ _ Hs f x Hx) as Hc. unfold counted in Hc.
  pose proof (fd_refs_range f s (ok_fds _ _ _ _ Hs)). pose proof (ok_held _ _ _ _ Hs f).
  destruct (decide _); [|lia]. lia.
Qed.

(** A new count for one file, with the holders that account for it. *)
Lemma files_ok_set held held' s f x y :
  files_ok b n held s -> files s !! f = Some x -> (forall g, g <> f -> held' g = held g) -> 0 <= held' f <= 2 ^ 30 ->
  counted b n held' s f y -> files_ok b n held' (with_files (<[f := y]> (files s)) s).
Proof.
  intros Hs Hx Hh Hf Hy. split; cbn.
  - apply Hs.
  - rewrite length_insert. apply Hs.
  - apply Hs.
  - intros g. destruct (decide (g = f)) as [->|]; [done|]. rewrite Hh by done. by apply (ok_held _ _ _ _ Hs).
  - intros g z Hg. destruct (decide (g = f)) as [->|Hne].
    + rewrite list_lookup_insert_eq in Hg by (by eapply lookup_lt_Some). by simplify_eq.
    + rewrite list_lookup_insert_ne in Hg by done. pose proof (ok_count _ _ _ _ Hs g z Hg) as Hc.
      unfold counted in *. rewrite Hh by done. exact Hc.
Qed.

Lemma in_use_set s f x y :
  files s !! f = Some x -> refcnt x <> 0 -> refcnt y <> 0 -> in_use (with_files (<[f := y]> (files s)) s) = in_use s.
Proof.
  intros Hx H1 H2. unfold in_use. cbn. rewrite (countz_insert _ _ _ x) by done.
  rewrite !bool_decide_eq_true_2 by done. cbn. lia.
Qed.

Lemma files_ok_calls held s c m : files_ok b n held s -> files_ok b n held (with_calls c m s).
Proof. intros []. by split. Qed.

(** What dropping references leaves alone: the host may be asked to close files. *)
Definition dropped (s s' : pk) : Prop :=
  (exists fs cs, s' = with_calls cs (pmem s) (with_files fs s) /\ closes (calls s) cs) /\ same_kfds s s'.

#[local] Instance dropped_preorder : PreOrder dropped.
Proof.
  split; [intros s; split; [by exists (files s), (calls s); destruct s|done]|].
  intros s1 s2 s3 [(f & c & -> & Hc) Hk] [(f' & c' & -> & Hc') Hk']. split; [exists f', c'; split; [done|by etrans]|].
  intros g. by rewrite (Hk' g), (Hk g).
Qed.

(** ** Taking and dropping references *)

Lemma set_refcnt_run s f x v :
  files s !! f = Some x -> set_refcnt f v s = Ret (tt, with_files (<[f := MkFile (kfd x) (u32 v)]> (files s)) s).
Proof. intros Hx. unfold set_refcnt, read_file, write_file, mbind, M_bind, gets, id. by rewrite Hx. Qed.

Lemma read_file_run s f x : files s !! f = Some x -> read_file f s = Ret (x, s).
Proof. intros Hx. unfold read_file, mbind, M_bind, gets, id. by rewrite Hx. Qed.

Lemma file_incref_run s f x :
  files s !! f = Some x -> 0 < refcnt x ->
  file_incref f s = Ret (tt, with_files (<[f := MkFile (kfd x) (u32 (refcnt x + 1))]> (files s)) s).
Proof.
  intros Hx Hp. unfold file_incref. rewrite (run_bind _ _ _ _ _ (read_file_run s f x Hx)).
  rewrite (run_bind _ _ _ _ _ (set_refcnt_run s f x _ Hx)). unfold kassert, m_assert, lift.
  by rewrite (proj2 (Z.ltb_lt 0 _)).
Qed.

(** One more holder: the state, and that the count is kept. *)
Lemma take_ref held s f x :
  files_ok b n held s -> files s !! f = Some x -> refcnt x <> 0 -> held f < 2 ^ 30 ->
  let s' := with_files (<[f := MkFile (kfd x) (u32 (refcnt x + 1))]> (files s)) s in
  files_ok b n (hold f 1 held) s' /\ in_use s' = in_use s.
Proof.
  intros Hs Hx H0 Hh. pose proof (refcnt_range held s f x Hs Hx). pose proof (ok_held _ _ _ _ Hs f).
  rewrite u32_small by lia. split; [|apply (in_use_set s f x); cbn; done || lia].
  apply (files_ok_set held _ s f x); [done..| | |].
  - intros g Hg. unfold hold. by rewrite decide_False.
  - unfold hold. rewrite decide_True by done. lia.
  - pose proof (ok_count _ _ _ _ Hs f x Hx) as Hc. unfold counted, hold in *. cbn.
    rewrite decide_False in Hc by done. rewrite !(decide_True (P := f = f)) by done. rewrite decide_False by lia. change (fd_refs f (with_files _ s)) with (fd_refs f s). lia.
Qed.

(** The last reference but one goes: the file is free, and the host is asked to close it. *)
Lemma decref_two_run s f x : files s !! f = Some x -> refcnt x = 2 ->
  file_decref f s = Ret (tt, with_calls (MkCall SYS_close [kfd x; 0; 0; 0; 0; 0; 0] :: calls s) (pmem s) (with_files (<[f := MkFile (kfd x) 0]> (files s)) s)).
Proof.
  intros Hx H2. unfold file_decref. rewrite (run_bind _ _ _ _ _ (read_file_run s f x Hx)).
  rewrite (run_bind _ _ _ _ _ (set_refcnt_run s f x _ Hx)), H2. change (2 =? 2) with true. cbv iota.
  set (y := MkFile (kfd x) (u32 (2 - 1))). set (s1 := with_files _ s).
  assert (Hlt : (f < length (files s))%nat) by (by eapply lookup_lt_Some).
  assert (Hy : files s1 !! f = Some y) by (cbn; by rewrite list_lookup_insert_eq).
  rewrite (run_bind _ _ _ _ _ (read_file_run s1 f y Hy)), (run_bind _ _ _ _ _ (set_refcnt_run s1 f y 0 Hy)).
  unfold frontend_syscall, mbind, M_bind. cbv zeta. rewrite close_writes. cbn [files with_files s1]. by rewrite list_insert_insert_eq.
Qed.

Lemma decref_free held held' s f x :
  files_ok b n held s -> files s !! f = Some x -> refcnt x = 2 -> fd_refs f s = 0 -> held' f = 0 -> (forall g, g <> f -> held' g = held g) ->
  exists s', file_decref f s = Ret (tt, s') /\ files_ok b n held' s' /\ in_use s' = in_use s - 1 /\ dropped s s'.
Proof.
  intros Hs Hx H2 Hr Hh Hg. eexists. split; [by apply decref_two_run|]. split; [|split].
  - apply files_ok_calls, (files_ok_set held held' s f x); [done..|lia|]. unfold counted. cbn [refcnt].
    rewrite decide_True by done. by change (fd_refs f (with_files _ s)) with (fd_refs f s).
  - unfold in_use. cbn. rewrite (countz_insert _ _ _ x) by done.
    rewrite bool_decide_eq_true_2 by lia. rewrite bool_decide_eq_false_2 by (intros Hn0; by apply Hn0). cbn. lia.
  - split; [|by apply (same_kfds_set s f x)]. eexists _, _. split; [reflexivity|]. eexists [_]. split; [reflexivity|by constructor].
Qed.

(** A holder gives its reference back. *)
Lemma decref_held held s f :
  files_ok b n held s -> (f < MAX_FILES)%nat -> 0 < held f ->
  exists s', file_decref f s = Ret (tt, s') /\ files_ok b n (hold f (-1) held) s' /\ dropped s s' /\
    (b = 2 -> in_use s' = in_use s /\ calls s' = calls s).
Proof.
  intros Hs Hf Hh. destruct (file_lookup held s f Hs Hf) as [x Hx].
  pose proof (refcnt_range held s f x Hs Hx). pose proof (ok_held _ _ _ _ Hs f).
  pose proof (ok_count _ _ _ _ Hs f x Hx) as Hc. unfold counted in Hc. pose proof (fd_refs_range f s (ok_fds _ _ _ _ Hs)).
  destruct (decide (refcnt x = 0)) as [|Hnz]; [lia|]. destruct (Z.eq_dec (refcnt x) 2) as [H2|H2].
  - destruct (decref_free held (hold f (-1) held) s f x Hs Hx H2) as (s' & Hr & Hs' & _ & Hd); [lia|unfold hold; rewrite decide_True by done; lia|
      intros g Hg; unfold hold; by rewrite decide_False|]. exists s'. split; [done|]. split; [done|]. split; [done|]. lia.
  - unfold file_decref. rewrite (run_bind _ _ _ _ _ (read_file_run s f x Hx)).
    rewrite (run_bind _ _ _ _ _ (set_refcnt_run s f x _ Hx)), (proj2 (Z.eqb_neq (refcnt x) 2)) by lia.
    eexists; split; [reflexivity|]. rewrite u32_small by lia. split; [|split; [split; [|by apply (same_kfds_set s f x)]|]].
    + apply (files_ok_set held _ s f x); [done..| | |].
      * intros g Hg. unfold hold. by rewrite decide_False.
      * unfold hold. rewrite decide_True by done. lia.
      * unfold counted, hold. cbn. rewrite !(decide_True (P := f = f)) by done. rewrite decide_False by lia.
        change (fd_refs f (with_files _ s)) with (fd_refs f s). lia.
    + eexists _, _. split; [reflexivity|reflexivity].
    + intros _. split; [apply (in_use_set s f x); cbn; done || lia|done].
Qed.

Lemma file_get_run held s fd :
  files_ok b n held s -> (forall f, held f < 2 ^ 30) ->
  (exists s', file_get fd s = Ret (None, s') /\ s' = s) \/
  (exists f s', file_get fd s = Ret (Some f, s') /\ fds s !! Z.to_nat fd = Some (Some f) /\ 0 <= fd < 128 /\
     (f < MAX_FILES)%nat /\ files_ok b n (hold f 1 held) s' /\ in_use s' = in_use s /\ calls s' = calls s /\ fds s' = fds s).
Proof.
  intros Hs Hh. unfold file_get. change (Z.of_nat MAX_FDS) with 128.
  destruct (Z.ltb_spec fd 0); [left; eauto|]. destruct (Z.leb_spec 128 fd); [left; eauto|]. cbn [orb].
  rewrite gets_bind. unfold id.
  assert (is_Some (fds s !! Z.to_nat fd)) as [[f|] Hfd]
    by (apply lookup_lt_is_Some; rewrite (ok_fds _ _ _ _ Hs); unfold MAX_FDS; lia); rewrite Hfd; [|left; eauto].
  right. destruct (fd_in_use held s _ f Hs Hfd) as (x & Hx & Hnz). exists f.
  rewrite (run_bind _ _ _ _ _ (read_file_run s f x Hx)), (proj2 (Z.eqb_neq _ _)) by done.
  rewrite (run_bind _ _ _ _ _ (set_refcnt_run s f x _ Hx)). eexists; split; [reflexivity|].
  destruct (take_ref held s f x Hs Hx Hnz (Hh f)) as [? ?].
  split; [done|]. split; [lia|]. split; [by eapply ok_fd|]. done.
Qed.

Lemma files_ok_ext held held' s : (forall f, held f = held' f) -> files_ok b n held s -> files_ok b n held' s.
Proof.
  intros Hh Hs. destruct Hs. split; try done; [intros f; rewrite <- Hh; apply ok_held0|].
  intros f x Hx. pose proof (ok_count0 f x Hx) as Hc. unfold counted in *. by rewrite <- Hh.
Qed.

Lemma fd_refs_insert s i d d' g : fds s !! i = Some d ->
  fd_refs g (with_fds (<[i := d']> (fds s)) s) =
  fd_refs g s - Z.b2z (bool_decide (d = Some g)) + Z.b2z (bool_decide (d' = Some g)).
Proof. intros Hi. unfold fd_refs. cbn. by rewrite (countz_insert _ _ _ d). Qed.

(** A descriptor that goes, its reference going to a holder. *)
Lemma drop_fd held s i f :
  files_ok b n held s -> fds s !! i = Some (Some f) -> held f < 2 ^ 30 ->
  files_ok b n (hold f 1 held) (with_fds (<[i := None]> (fds s)) s).
Proof.
  intros Hs Hi Hh. split; cbn.
  - rewrite length_insert. apply Hs.
  - apply Hs.
  - intros j g Hj. destruct (decide (j = i)) as [->|].
    + rewrite list_lookup_insert_eq in Hj by (by eapply lookup_lt_Some). done.
    + rewrite list_lookup_insert_ne in Hj by done. by eapply ok_fd.
  - intros g. pose proof (ok_held _ _ _ _ Hs g). unfold hold. destruct (decide (g = f)) as [->|]; lia.
  - intros g x Hx. pose proof (ok_count _ _ _ _ Hs g x Hx) as Hc. unfold counted, hold in *.
    rewrite (fd_refs_insert s i (Some f) None g Hi), (bool_decide_eq_false_2 (None = _)) by done. cbn [Z.b2z].
    destruct (fd_in_use held s i f Hs Hi) as (y & Hy & Hnz).
    destruct (decide (g = f)) as [->|Hne].
    + simplify_eq. rewrite bool_decide_eq_true_2 by done. rewrite decide_False in * by done. cbn [Z.b2z]. lia.
    + rewrite bool_decide_eq_false_2 by congruence. cbn [Z.b2z]. case_decide; lia.
Qed.

(** A descriptor more. *)
Lemma file_dup_run held s f x :
  files_ok b n held s -> files s !! f = Some x -> refcnt x <> 0 ->
  (file_dup f s = Ret (-1, s) /\ forall i d, fds s !! i = Some d -> d <> None) \/
  (exists i s', file_dup f s = Ret (Z.of_nat i, s') /\ (i < MAX_FDS)%nat /\ files_ok b n held s' /\
     in_use s' = in_use s /\ calls s' = calls s).
Proof.
  intros Hs Hx Hnz. unfold file_dup. rewrite gets_bind. unfold id.
  destruct (list_find _ (fds s)) as [[i d]|] eqn:Hfind.
  2:{ left. split; [done|]. apply list_find_None in Hfind. intros i d Hi. by eapply Forall_lookup_1 in Hfind. }
  apply list_find_Some in Hfind as (Hi & -> & _). right. rewrite modify_bind.
  pose proof (refcnt_range held s f x Hs Hx). set (s1 := with_fds _ s). assert (Hx1 : files s1 !! f = Some x) by done.
  rewrite (run_bind _ _ _ _ _ (file_incref_run s1 f x Hx1 ltac:(lia))).
  exists i. eexists. split; [reflexivity|]. rewrite u32_small by lia.
  assert (Hlt : (i < length (fds s))%nat) by (by eapply lookup_lt_Some).
  split; [by rewrite <- (ok_fds _ _ _ _ Hs)|]. split; [|split; [apply (in_use_set s1 f x); cbn; done || lia|done]].
  assert (Hf : (f < MAX_FILES)%nat) by (rewrite <- (ok_files _ _ _ _ Hs); by eapply lookup_lt_Some).
  split; cbn.
  - rewrite length_insert. apply Hs.
  - rewrite length_insert. apply Hs.
  - intros j g Hj. destruct (decide (j = i)) as [->|].
    + rewrite list_lookup_insert_eq in Hj by done. by simplify_eq.
    + rewrite list_lookup_insert_ne in Hj by done. by eapply ok_fd.
  - apply Hs.
  - intros g y Hg. unfold counted.
    change (fd_refs g (with_files _ s1)) with (fd_refs g (with_fds (<[i := Some f]> (fds s)) s)).
    rewrite (fd_refs_insert s i None (Some f) g Hi), (bool_decide_eq_false_2 (None = _)) by done. cbn [Z.b2z].
    destruct (decide (g = f)) as [->|Hne].
    + rewrite list_lookup_insert_eq in Hg by (by eapply lookup_lt_Some). simplify_eq. cbn.
      pose proof (ok_count _ _ _ _ Hs f x Hx) as Hc. unfold counted in Hc. rewrite decide_False in Hc by done.
      rewrite bool_decide_eq_true_2, decide_False by (done || lia). cbn [Z.b2z]. lia.
    + rewrite list_lookup_insert_ne in Hg by done. rewrite bool_decide_eq_false_2 by congruence. cbn [Z.b2z].
      pose proof (ok_count _ _ _ _ Hs g y Hg) as Hc. unfold counted in Hc. case_decide; lia.
Qed.

(** ** The system calls *)

(** A call on a file in use does not change how many are, nor what the host is
    asked to close, as long as there are two references more than holders. *)
Definition closed (s : pk) : Z := countz (fun c => call_nr c = SYS_close) (calls s).

Definition same_use (s s' : pk) : Prop := b = 2 -> in_use s' = in_use s /\ closed s' = closed s.
Definition quiet (held : nat -> Z) (s s' : pk) : Prop := files_ok b n held s' /\ same_use s s'.

Lemma same_use_trans s1 s2 s3 : same_use s1 s2 -> same_use s2 s3 -> same_use s1 s3.
Proof. intros H1 H2 Hb2. destruct (H1 Hb2), (H2 Hb2). split; congruence. Qed.
Lemma same_use_calls s s' : (b = 2 -> in_use s' = in_use s /\ calls s' = calls s) -> same_use s s'.
Proof. intros H Hb2. destruct (H Hb2) as [Hu Hc]. split; [done|]. unfold closed. by rewrite Hc. Qed.

Lemma frontend_quiet held s k args : files_ok b n held s -> k <> SYS_close ->
  exists r s', frontend_syscall k args s = Ret (r, s') /\ quiet held s s' /\ fds s' = fds s /\ files s' = files s.
Proof.
  intros Hs Hk. unfold frontend_syscall. cbv zeta. eexists _, _. split; [reflexivity|].
  split; [|done]. split; [by apply files_ok_calls|]. split; [done|]. unfold closed. cbn [calls with_calls].
  by rewrite countz_cons, bool_decide_eq_false_2.
Qed.

Lemma with_file_run held s fd (k : nat -> M pk Z) :
  files_ok b n held s -> (forall f, held f < 2 ^ 30) ->
  (forall f s1, (f < MAX_FILES)%nat -> files_ok b n (hold f 1 held) s1 ->
     exists r s2, k f s1 = Ret (r, s2) /\ quiet (hold f 1 held) s1 s2) ->
  exists r s', with_file fd k s = Ret (r, s') /\ quiet held s s'.
Proof.
  intros Hs Hh Hk. unfold with_file.
  destruct (file_get_run held s fd Hs Hh) as [(s' & Hg & ->)|(f & s1 & Hg & _ & _ & Hf & Hs1 & Hu1 & Hc1 & _)];
    rewrite (run_bind _ _ _ _ _ Hg); [eexists _, _; by split|].
  destruct (Hk f s1 Hf Hs1) as (r & s2 & Hr & Hs2 & Hu2). rewrite (run_bind _ _ _ _ _ Hr).
  destruct (decref_held (hold f 1 held) s2 f Hs2 Hf) as (s3 & Hd & Hs3 & _ & Hu3).
  { unfold hold. rewrite decide_True by done. pose proof (ok_held _ _ _ _ Hs f). lia. }
  rewrite (run_bind _ _ _ _ _ Hd). eexists _, _. split; [reflexivity|].
  split; [revert Hs3; apply files_ok_ext; intros g; unfold hold; case_decide; lia|].
  apply (same_use_trans s s1); [by apply same_use_calls|]. apply (same_use_trans s1 s2); [done|by apply same_use_calls].
Qed.

Lemma host_call_run held s f k args : files_ok b n held s -> (f < MAX_FILES)%nat -> k <> SYS_close ->
  exists r s', host_call k args f s = Ret (r, s') /\ quiet held s s'.
Proof.
  intros Hs Hf Hk. destruct (file_lookup held s f Hs Hf) as [x Hx]. unfold host_call.
  rewrite (run_bind _ _ _ _ _ (read_file_run s f x Hx)).
  destruct (frontend_quiet held s k (kfd x :: args) Hs Hk) as (r & s' & Hr & Hq & _). eauto.
Qed.

Lemma sys_close_run held s fd : files_ok b n held s -> (forall f, held f < 2 ^ 30 - 1) ->
  exists r s', sys_close fd s = Ret (r, s') /\ quiet held s s'.
Proof.
  intros Hs Hh. unfold sys_close, fd_close. assert (Hh' : forall f, held f < 2 ^ 30) by (intros g; specialize (Hh g); lia).
  destruct (file_get_run held s fd Hs Hh') as [(s' & Hg & ->)|(f & s1 & Hg & Hfd & Hr & Hf & Hs1 & Hu1 & Hc1 & Hd1)].
  { eexists _, _. split; [|done]. unfold mbind, M_bind. rewrite Hg. reflexivity. }
  rewrite <- Hd1 in Hfd. assert (Hhf : hold f 1 held f < 2 ^ 30) by (unfold hold; rewrite decide_True by done; specialize (Hh f); lia).
  pose proof (drop_fd _ s1 _ f Hs1 Hfd Hhf) as Hs2. set (s2 := with_fds _ s1) in *.
  assert (Hpos : forall d, 0 < d -> 0 < hold f d (hold f 1 held) f).
  { intros d Hd. unfold hold. rewrite !decide_True by done. pose proof (ok_held _ _ _ _ Hs f). lia. }
  destruct (decref_held _ s2 f Hs2 Hf (Hpos 1 ltac:(lia))) as (s3 & H3 & Hs3 & _ & Hu3).
  assert (Hs3' : files_ok b n (hold f 1 held) s3).
  { revert Hs3. apply files_ok_ext. intros g. unfold hold. case_decide; lia. }
  destruct (decref_held _ s3 f Hs3' Hf) as (s4 & H4 & Hs4 & _ & Hu4).
  { unfold hold. rewrite decide_True by done. pose proof (ok_held _ _ _ _ Hs f). lia. }
  exists 0, s4. split.
  - unfold mbind, M_bind. rewrite Hg. unfold gets, modify, id. rewrite Hfd. cbn [default]. rewrite !decide_True by done.
    fold s2. by rewrite H3, H4.
  - split; [revert Hs4; apply files_ok_ext; intros g; unfold hold; case_decide; lia|].
    apply (same_use_trans s s2); [by apply same_use_calls|]. apply (same_use_trans s2 s3); by apply same_use_calls.
Qed.

Lemma held_in_use held s f : files_ok b n held s -> (f < MAX_FILES)%nat -> 0 < held f ->
  exists x, files s !! f = Some x /\ refcnt x <> 0.
Proof.
  intros Hs Hf Hh. destruct (file_lookup held s f Hs Hf) as [x Hx]. exists x. split; [done|]. intros H0.
  pose proof (ok_count _ _ _ _ Hs f x Hx) as Hc. unfold counted in Hc. rewrite decide_True in Hc by done. lia.
Qed.

Lemma sys_dup_run held s fd : files_ok b n held s -> (forall f, held f < 2 ^ 30) ->
  exists r s', sys_dup fd s = Ret (r, s') /\ quiet held s s'.
Proof.
  intros Hs Hh. apply with_file_run; [done..|]. intros f s1 Hf Hs1.
  destruct (held_in_use _ s1 f Hs1 Hf) as (x & Hx & Hnz).
  { unfold hold. rewrite decide_True by done. pose proof (ok_held _ _ _ _ Hs f). lia. }
  destruct (file_dup_run _ s1 f x Hs1 Hx Hnz) as [[Hd _]|(i & s2 & Hd & _ & Hs2 & Hu & Hc)].
  - eexists _, _. by split.
  - eexists _, _. split; [exact Hd|]. split; [done|]. split; [done|]. unfold closed. by rewrite Hc.
Qed.

(** The free file that an open takes, and its release when the host refuses. *)
Lemma get_free_run held s : files_ok b n held s ->
  (file_get_free s = Ret (None, s) /\ in_use s = 128) \/
  (exists f x s', file_get_free s = Ret (Some f, s') /\ files s' !! f = Some x /\ refcnt x = 2 /\
     fd_refs f s' = 0 /\ held f = 0 /\ files_ok b n held s' /\ in_use s' = in_use s + 1 /\ calls s' = calls s /\ fds s' = fds s).
Proof.
  intros Hs. unfold file_get_free. rewrite gets_bind. unfold id.
  destruct (list_find _ (files s)) as [[f x]|] eqn:Hfind.
  - apply list_find_Some in Hfind as (Hx & H0 & _). right. rewrite (run_bind _ _ _ _ _ (set_refcnt_run s f x 2 Hx)).
    pose proof (ok_count _ _ _ _ Hs f x Hx) as Hc. unfold counted in Hc. rewrite decide_True in Hc by done. destruct Hc as [Hr Hh].
    eexists f, _, _. split; [reflexivity|]. cbn. assert (Hlt : (f < length (files s))%nat) by (by eapply lookup_lt_Some).
    rewrite list_lookup_insert_eq by done. split; [done|]. split; [done|]. split; [done|]. split; [done|].
    split; [|split; [|done]].
    + apply (files_ok_set held held s f x); [done..|by apply (ok_held _ _ _ _ Hs)|]. unfold counted. cbn [refcnt].
      change (u32 2) with 2. rewrite decide_False by done. change (fd_refs f (with_files _ s)) with (fd_refs f s). lia.
    + unfold in_use. cbn. rewrite (countz_insert _ _ _ x) by done. rewrite bool_decide_eq_false_2 by (intros Hn0; by apply Hn0).
      rewrite bool_decide_eq_true_2 by done. cbn. lia.
  - left. split; [done|]. apply list_find_None in Hfind. unfold in_use. rewrite countz_all by exact Hfind.
    unfold lenz. by rewrite (ok_files _ _ _ _ Hs).
Qed.

End invariant.

(** ** Opening *)

Section opening.
Context {host : Host} (b n : Z) (Hb : 1 <= b <= 2) (Hn : 0 <= n < 2 ^ 30).
Context (Hans : forall cs, - 4096 <= s64 (answer cs)).

Lemma files_ok_lost held s f : files_ok b n (hold f 1 held) s -> 0 <= held f -> files_ok b (n + 1) held s.
Proof.
  intros Hs Hh. destruct Hs as [H1 H2 H3 H4 H5]. split; [done..| |].
  - intros g. specialize (H4 g). unfold hold in H4. case_decide; [subst|]; lia.
  - intros g x Hx. specialize (H5 g x Hx). unfold counted, hold in *. repeat case_decide; subst; lia.
Qed.

Lemma files_ok_more m held s : m <= n -> files_ok b m held s -> files_ok b n held s.
Proof.
  intros Hm Hs. destruct Hs. split; [done..|]. intros f x Hx. specialize (ok_count0 f x Hx). unfold counted in *.
  case_decide; lia.
Qed.

(** Each call with the descriptor of a directory loses a reference. *)
Lemma at_kfd_run held s fd : files_ok b n held s -> (forall f, 0 <= held f < 2 ^ 30) ->
  exists k s', at_kfd fd s = Ret (k, s') /\ quiet b (n + 1) held s s'.
Proof.
  intros Hs Hh. assert (Hmore : files_ok b (n + 1) held s).
  { destruct Hs. split; [done..|]. intros f x Hx. specialize (ok_count0 f x Hx). unfold counted in *. case_decide; lia. }
  unfold at_kfd. destruct (fd =? AT_FDCWD); [eexists _, _; by split|].
  destruct (file_get_run b n ltac:(lia) held s fd Hs ltac:(intros f; apply Hh))
    as [(s' & Hg & ->)|(f & s1 & Hg & _ & _ & Hf & Hs1 & Hu1 & Hc1 & _)];
    rewrite (run_bind _ _ _ _ _ Hg); [eexists _, _; by split|].
  destruct (file_lookup b n _ s1 f Hs1 Hf) as [x Hx]. rewrite (run_bind _ _ _ _ _ (read_file_run s1 f x Hx)).
  eexists _, _. split; [reflexivity|]. split; [apply (files_ok_lost held s1 f Hs1), Hh|]. by apply same_use_calls.
Qed.

(** What an open leaves: a file more in use and its descriptor, or an error. *)
Definition opened (held : nat -> Z) (s : pk) (r : Z) (s' : pk) : Prop :=
  files_ok b n held s' /\
  (0 <= r < 128 /\ (b = 2 -> in_use s' = in_use s + 1 /\ closed s' = closed s) \/ r < 0 /\ (b = 2 -> in_use s' = in_use s)).

Lemma finish_open held s s1 f x :
  files_ok b n held s1 -> files s1 !! f = Some x -> refcnt x = 2 -> fd_refs f s1 = 0 -> held f = 0 ->
  (b = 2 -> in_use s1 = in_use s + 1 /\ closed s1 = closed s) ->
  exists r s', (fd ← file_dup f; if fd <? 0 then file_decref f;; mret (- ENOMEM) else mret fd) s1 = Ret (r, s') /\
    opened held s r s'.
Proof.
  intros Hs Hx H2 Hr Hh Hu.
  destruct (file_dup_run b n ltac:(lia) held s1 f x Hs Hx ltac:(lia)) as [[Hd _]|(i & s2 & Hd & Hi & Hs2 & Hu2 & Hc2)];
    rewrite (run_bind _ _ _ _ _ Hd).
  - change (-1 <? 0) with true. cbv iota.
    destruct (decref_free b n held held s1 f x Hs Hx H2 Hr Hh ltac:(done)) as (s2 & Hdec & Hs2 & Hu2 & _). rewrite (run_bind _ _ _ _ _ Hdec).
    eexists _, _. split; [reflexivity|]. split; [done|]. right. unfold ENOMEM. split; [lia|]. intros Hb2. destruct (Hu Hb2). lia.
  - rewrite (proj2 (Z.ltb_ge _ 0)) by lia. eexists _, _. split; [reflexivity|]. split; [done|]. left.
    unfold MAX_FDS in Hi. split; [lia|]. intros Hb2. destruct (Hu Hb2) as [Hu1 Hc]. split; [lia|]. unfold closed in *. by rewrite Hc2.
Qed.

Lemma file_openat_run held s kd name size flags mode :
  files_ok b n held s ->
  (exists err s', file_openat kd name size flags mode s = Ret (inr err, s') /\ - 4096 <= err < 0 /\
     files_ok b n held s' /\ (b = 2 -> in_use s' = in_use s)) \/
  (exists f x s', file_openat kd name size flags mode s = Ret (inl f, s') /\ files s' !! f = Some x /\ refcnt x = 2 /\
     fd_refs f s' = 0 /\ held f = 0 /\ files_ok b n held s' /\ (b = 2 -> in_use s' = in_use s + 1 /\ closed s' = closed s)).
Proof.
  intros Hs. unfold file_openat.
  destruct (get_free_run b n Hb ltac:(lia) held s Hs)
    as [[Hg _]|(f & x & s2 & Hg & Hx & H2 & Hr & Hhf & Hs2 & Hu2 & Hc2 & _)]; rewrite (run_bind _ _ _ _ _ Hg).
  { left. eexists _, _. split; [reflexivity|]. unfold ENOMEM. split; [lia|done]. }
  unfold va2pa. rewrite bind_bind, gets_bind, ret_bind. unfold id.
  destruct (frontend_quiet b n held s2 SYS_openat
    [kd; if DRAM_BASE s2 <=? name then name else u64 (name + first_free_paddr s2); size; flags; mode; 0; 0] Hs2 ltac:(done))
    as (ret & s3 & Hret & (Hs3 & Hu3) & Hd3 & Hf3).
  rewrite (run_bind _ _ _ _ _ Hret).
  assert (Hx3 : files s3 !! f = Some x) by (by rewrite Hf3). assert (Hr3 : fd_refs f s3 = 0) by (unfold fd_refs in *; by rewrite Hd3).
  destruct (Z.leb_spec 0 ret).
  - right. unfold set_kfd. rewrite bind_bind, (run_bind _ _ _ _ _ (read_file_run s3 f x Hx3)).
    unfold write_file. rewrite modify_bind. eexists f, _, _. split; [reflexivity|]. cbn.
    assert (f < length (files s3))%nat by (by eapply lookup_lt_Some). rewrite list_lookup_insert_eq by done.
    split; [done|]. split; [done|]. split; [done|]. split; [done|].
    split; [apply (files_ok_set b n held held s3 f x); [done..|by apply (ok_held _ _ _ _ Hs)|]|].
    + pose proof (ok_count _ _ _ _ Hs3 f x Hx3) as Hc. unfold counted in *. cbn [refcnt].
      by change (fd_refs f (with_files _ s3)) with (fd_refs f s3).
    + intros Hb2. destruct (Hu3 Hb2) as [Hu3' Hc3]. rewrite <- Hu2, <- Hu3'. split; [apply (in_use_set s3 f x); cbn; done || lia|].
      change (closed (with_files _ s3)) with (closed s3). unfold closed in *. by rewrite Hc3, Hc2.
  - left. destruct (decref_free b n held held s3 f x Hs3 Hx3 H2 Hr3 Hhf ltac:(done)) as (s4 & Hdec & Hs4 & Hu4 & _).
    rewrite (run_bind _ _ _ _ _ Hdec). eexists _, _. split; [reflexivity|]. split; [|split; [done|intros Hb2; destruct (Hu3 Hb2); lia]].
    split; [|done]. unfold frontend_syscall in Hret. injection Hret as <- _. apply Hans.
Qed.
End opening.

Section system_calls.
Context {host : Host} (b n : Z) (Hb : 1 <= b <= 2) (Hn : 0 <= n < 2 ^ 30 - 1).
Context (Hans : forall cs, - 4096 <= s64 (answer cs)).

Lemma sys_openat_run held s dirfd name size flags mode :
  files_ok b n held s -> (forall f, 0 <= held f < 2 ^ 30) ->
  exists r s', sys_openat dirfd name size flags mode s = Ret (r, s') /\ opened b (n + 1) held s r s'.
Proof.
  intros Hs Hh. destruct (at_kfd_run b n ltac:(lia) held s dirfd Hs Hh) as (k & s1 & Hk & Hs1 & Hu1).
  unfold sys_openat. rewrite (run_bind _ _ _ _ _ Hk).
  destruct (k =? -1); cbn [negb].
  { eexists _, _. split; [reflexivity|]. split; [done|]. right. unfold EBADF. split; [lia|]. intros Hb2. by destruct (Hu1 Hb2). }
  destruct (file_openat_run b (n + 1) Hb ltac:(lia) Hans held s1 k name size flags mode Hs1)
    as [(err & s2 & Ho & He & Hs2 & Hu2)|(f & x & s2 & Ho & Hx & H2 & Hr & Hhf & Hs2 & Hu2)];
    rewrite (run_bind _ _ _ _ _ Ho).
  - rewrite (proj2 (Z.leb_le _ _)) by lia. eexists _, _. split; [reflexivity|]. split; [done|]. right.
    rewrite s32_small by lia. split; [lia|]. intros Hb2. destruct (Hu1 Hb2). rewrite Hu2; done.
  - apply (finish_open b (n + 1) Hb ltac:(lia) held s s2 f x); try done. intros Hb2. destruct (Hu1 Hb2), (Hu2 Hb2). split; [lia|congruence].
Qed.

Lemma run_call_spec held s c :
  files_ok b n held s -> (forall f, 0 <= held f < 2 ^ 30 - 1) ->
  exists r s', run_call c s = Ret (r, s') /\ files_ok b (n + 1) held s' /\
    (b = 2 -> in_use s' = in_use s + Z.b2z (is_open c && (0 <=? r)) /\ (is_open c && (r <? 0) = false -> closed s' = closed s)).
Proof.
  intros Hs Hh1. assert (Hh : forall f : nat, 0 <= held f < 2 ^ 30) by (intros f; specialize (Hh1 f); lia).
  assert (Hh2 : forall f : nat, held f < 2 ^ 30) by (intros f; specialize (Hh f); lia).
  assert (Hh3 : forall f : nat, held f < 2 ^ 30 - 1) by (intros f; specialize (Hh1 f); lia).
  assert (Hq : is_open c = false -> (exists r s', run_call c s = Ret (r, s') /\ quiet b n held s s') ->
    exists r s', run_call c s = Ret (r, s') /\ files_ok b (n + 1) held s' /\
      (b = 2 -> in_use s' = in_use s + Z.b2z (is_open c && (0 <=? r)) /\ (is_open c && (r <? 0) = false -> closed s' = closed s))).
  { intros -> (r & s' & Hr & Hs' & Hu). exists r, s'. split; [done|].
    split; [apply (files_ok_more b (n + 1) n); [lia|done]|]. intros Hb2. destruct (Hu Hb2). cbn. split; [lia|done]. }
  assert (Hw : forall fd k args, k <> SYS_close ->
    exists r s', with_file fd (host_call k args) s = Ret (r, s') /\ quiet b n held s s').
  { intros fd k args Hk. apply (with_file_run b n Hb ltac:(lia)); [done|exact Hh2|]. intros f s1 Hf Hs1. by apply host_call_run. }
  destruct c as [d nm z fl md|fd|fd|fd len|fd p d|fd k a]; cbn [run_call] in *.
  - destruct (sys_openat_run held s d nm z fl md Hs Hh) as (r & s' & Hr & Hs' & Ho).
    exists r, s'. split; [done|]. split; [done|]. cbn [is_open andb].
    intros Hb2. destruct Ho as [(Hr0 & Hu)|[Hr0 Hu]]; specialize (Hu Hb2).
    + destruct Hu. rewrite (proj2 (Z.leb_le 0 r)) by lia. by cbn.
    + rewrite (proj2 (Z.leb_gt 0 r)), (proj2 (Z.ltb_lt r 0)) by lia. cbn. split; [lia|done].
  - apply Hq; [done|]. apply (sys_close_run b n Hb ltac:(lia)); [done|exact Hh3].
  - apply Hq; [done|]. apply (sys_dup_run b n Hb ltac:(lia)); [done|exact Hh2].
  - apply Hq; [done|]. destruct (Hw fd SYS_ftruncate [len; 0; 0; 0; 0; 0] ltac:(done)) as (r & s' & Hr & Hs').
    unfold sys_ftruncate. rewrite (run_bind _ _ _ _ _ Hr). by eexists _, _.
  - apply Hq; [done|]. by apply Hw.
  - apply Hq; [done|]. destruct (Hw fd SYS_fcntl [k; a; 0; 0; 0; 0] ltac:(done)) as (r & s' & Hr & Hs').
    unfold sys_fcntl. rewrite (run_bind _ _ _ _ _ Hr). by eexists _, _.
Qed.
End system_calls.

(** The opens of a run that gave a descriptor. *)
Definition opens (cs : list file_call) (rs : list Z) : Z := countz (fun cr => is_open cr.1 && (0 <=? cr.2) = true) (zip cs rs).

Section runs.
Context {host : Host} (Hans : forall cs, - 4096 <= s64 (answer cs)).

Lemma run_calls_spec cs : forall n s, 0 <= n -> n + lenz cs < 2 ^ 30 - 1 -> files_ok 2 n (fun _ => 0) s ->
  exists rs s', run_calls cs s = Ret (rs, s') /\ length rs = length cs /\ files_ok 2 (n + lenz cs) (fun _ => 0) s' /\
    in_use s' = in_use s + opens cs rs /\
    (Forall (fun cr => is_open cr.1 && (cr.2 <? 0) = false) (zip cs rs) -> closed s' = closed s).
Proof using Hans.
  induction cs as [|c cs IH]; intros n s Hn Hl Hs; rewrite ?lenz_nil, ?lenz_cons in *.
  - exists [], s. split; [done|]. split; [done|]. rewrite Z.add_0_r. split; [done|]. by rewrite Z.add_0_r.
  - pose proof (lenz_nonneg cs). destruct (run_call_spec 2 n ltac:(lia) ltac:(lia) Hans (fun _ => 0) s c Hs ltac:(intros; lia)) as (r & s1 & Hr & Hs1 & Hp).
    destruct (Hp eq_refl) as [Hu1 Hc1].
    destruct (IH (n + 1) s1 ltac:(lia) ltac:(lia) Hs1) as (rs & s2 & Hrs & Hlen & Hs2 & Hu2 & Hc2).
    exists (r :: rs), s2. cbn [run_calls]. rewrite (run_bind _ _ _ _ _ Hr), (run_bind _ _ _ _ _ Hrs).
    split; [done|]. split; [cbn; lia|]. split; [by rewrite Z.add_assoc|]. split.
    + unfold opens. cbn [zip zip_with]. rewrite countz_cons. fold (opens cs rs). cbn [fst snd].
      destruct (is_open c && (0 <=? r)); case_bool_decide; cbn [Z.b2z] in *; try lia; done.
    + cbn [zip zip_with]. intros Hf. apply Forall_cons in Hf as [H1 H2]. rewrite Hc2 by done. by apply Hc1.
Qed.
End runs.

(** ** The first descriptors *)

Definition first_fds : list (option nat) := [Some 0%nat; Some 1%nat; Some 2%nat] ++ replicate 125 None.
Definition first_files : list file_t := [MkFile 0 3; MkFile 1 3; MkFile 2 3] ++ replicate 125 (MkFile (-1) 0).

Lemma file_init_run s :
  fds s = replicate MAX_FDS None -> files s = replicate MAX_FILES (MkFile (-1) 0) ->
  file_init s = Ret (tt, with_files first_files (with_fds first_fds s)).
Proof. intros Hd Hf. destruct s. cbn in *. subst. vm_compute. reflexivity. Qed.

Lemma first_files_ok b s : 1 <= b <= 2 -> files_ok b 0 (fun _ => 0) (with_files first_files (with_fds first_fds s)).
Proof.
  intros Hb. assert (Hn : forall (j : nat) d, replicate 125 (@None nat) !! j = Some d -> d = None)
    by (intros j d Hj; by apply lookup_replicate in Hj as [-> _]).
  split; [done|done| | |].
  - intros i f Hi. destruct i as [|[|[|i]]]; cbn in Hi; simplify_eq; [unfold MAX_FILES; lia..|]. by apply Hn in Hi.
  - intros f. lia.
  - intros f x Hx. unfold counted, fd_refs. cbn [fds files with_files with_fds] in *.
    destruct f as [|[|[|f]]].
    1-3: cbn in Hx; injection Hx as <-; cbn [refcnt]; rewrite decide_False by done.
    1: change (countz (fun d => d = Some 0%nat) first_fds) with 1; lia.
    1: change (countz (fun d => d = Some 1%nat) first_fds) with 1; lia.
    1: change (countz (fun d => d = Some 2%nat) first_fds) with 1; lia.
    change (replicate 125 (MkFile (-1) 0) !! f = Some x) in Hx. apply lookup_replicate in Hx as [-> _].
    rewrite decide_True by done. split; [|done]. apply countz_none. intros i d Hi ->.
    destruct i as [|[|[|i]]]; cbn in Hi; simplify_eq. by apply Hn in Hi.
Qed.

(** C40: from the start, no sequence of calls on descriptors faults or leaves a descriptor of a file that is not in
    use; but a file is never given back: closing its descriptor leaves the reference its opening took, the host is
    not asked to close it (unless an open fails), and when 125 files have been opened, however many of them closed
    again, no further one can be. *)
Theorem open_files_never_freed {host : Host} s cs :
  (forall h, - 4096 <= s64 (answer h)) -> lenz cs < 2 ^ 29 ->
  fds s = replicate MAX_FDS None -> files s = replicate MAX_FILES (MkFile (-1) 0) ->
  exists rs s', (file_init;; run_calls cs) s = Ret (rs, s') /\ length rs = length cs /\
    (forall i f, fds s' !! i = Some (Some f) -> exists x, files s' !! f = Some x /\ refcnt x <> 0) /\
    in_use s' = 3 + opens cs rs /\ opens cs rs <= 125 /\
    (Forall (fun cr => is_open cr.1 && (cr.2 <? 0) = false) (zip cs rs) -> closed s' = closed s).
Proof.
  intros Hans Hl Hd Hf. rewrite (run_bind _ _ _ _ _ (file_init_run s Hd Hf)).
  set (s1 := with_files _ _). pose proof (lenz_nonneg cs).
  destruct (run_calls_spec Hans cs 0 s1 ltac:(lia) ltac:(lia) (first_files_ok 2 s ltac:(lia))) as (rs & s' & Hr & Hlen & Hs' & Hu & Hc).
  assert (Hu1 : in_use s1 = 3) by (vm_compute; reflexivity).
  exists rs, s'. split; [done|]. split; [done|]. split.
  { intros i f Hi. by eapply (fd_in_use 2 (lenz cs)). }
  pose proof (countz_nonneg (fun x => refcnt x <> 0) (files s')) as Hcount. fold (in_use s') in Hcount.
  assert (lenz (files s') = 128) by (unfold lenz; by rewrite (ok_files _ _ _ _ Hs')).
  split; [lia|]. split; [lia|]. exact Hc.
Qed.

(** Opening, closing and opening again: both files stay in use. *)
Definition demo_calls : list file_call := [OpenAt AT_FDCWD 0x10000 8 0 0; Close 3; OpenAt AT_FDCWD 0x10000 8 0 0].

Lemma open_files_never_freed_witness :
  exists s', (file_init;; run_calls (host := demo_host) demo_calls) demo_pk = Ret ([3; 0; 3], s') /\ in_use s' = 5.
Proof.
  destruct (open_files_never_freed (host := demo_host) demo_pk demo_calls) as (rs & s' & Hr & _ & _ & Hu & _).
  - intros [|c h]; cbn; [|destruct (call_nr c =? SYS_openat)]; vm_compute; congruence.
  - vm_compute. reflexivity.
  - reflexivity.
  - reflexivity.
  - assert (rs = [3; 0; 3]) as -> by (vm_compute in Hr; injection Hr as <- _; reflexivity).
    exists s'. split; [exact Hr|]. rewrite Hu. reflexivity.
Defined.
