(* ===== verification/PkMmap.v ===== *)
(** * Memory of the proxy kernel: pk/mmap.c

    The page table of the user program, read and changed word by word in the
    pages of the kernel; the regions that are mapped but not yet present, to
    which a page's entry points until the page is touched; page faults, mmap,
    munmap, mprotect and brk. *)

From S2P Require Import Prelude State Pk PkFile.

Definition RISCV_PGSHIFT : Z := 12.
Definition RISCV_PGSIZE : Z := 4096.
Definition RISCV_PGLEVEL_BITS : Z := 9.
Definition VA_BITS : Z := 39.
Definition SIZEOF_VMR : Z := 40.
Definition MAX_VMR : nat := 102.

Definition PTE_V : Z := 0x001.
Definition PTE_R : Z := 0x002.
Definition PTE_W : Z := 0x004.
Definition PTE_X : Z := 0x008.
Definition PTE_U : Z := 0x010.
Definition PTE_PPN_SHIFT : Z := 10.

Definition PROT_READ : Z := 1.
Definition PROT_WRITE : Z := 2.
Definition PROT_EXEC : Z := 4.
Definition MAP_PRIVATE : Z := 0x2.
Definition MAP_FIXED : Z := 0x10.
Definition MAP_ANONYMOUS : Z := 0x20.
Definition MAP_POPULATE : Z := 0x8000.

(** A flag is set. *)
Definition has (x flag : Z) : bool := negb (x &&& flag =? 0).

Definition ROUNDUP (a b : Z) : Z := u64 ((u64 (a - 1) / b + 1) * b).
Definition ROUNDDOWN (a b : Z) : Z := a / b * b.

(** ** The pages of the kernel *)

Definition read_word (a : Z) : M pk Z :=
  ps ← gets pages;
  match ps !! ROUNDDOWN a RISCV_PGSIZE with
  | Some p => if a mod 8 =? 0 then mret (p !z (a mod RISCV_PGSIZE / 8)) else fault_with OutOfBounds
  | None => fault_with OutOfBounds
  end.

Definition write_word (a v : Z) : M pk unit :=
  ps ← gets pages;
  match ps !! ROUNDDOWN a RISCV_PGSIZE with
  | Some p =>
      if a mod 8 =? 0
      then modify (with_pages (<[ROUNDDOWN a RISCV_PGSIZE := <[Z.to_nat (a mod RISCV_PGSIZE / 8) := v]> p]> ps))
      else fault_with OutOfBounds
  | None => fault_with OutOfBounds
  end.

Definition page_alloc : M pk Z :=
  s ← gets id;
  kassert (negb (next_free_page s =? free_pages s));;
  let addr := u64 (first_free_page s + RISCV_PGSIZE * next_free_page s) in
  modify (with_next_free (next_free_page s + 1));;
  modify (fun s => with_pages (<[addr := zeros 512]> (pages s)) s);;
  mret addr.

(** ** Mapped regions *)

(** The regions in a page that has just been cleared. *)
Definition no_vmr : vmr_t := MkVmr 0 0 None 0 0 0.

Definition get_vmrs : M pk (Z * list vmr_t) :=
  v ← gets vmrs;
  match v with Some v => mret v | None => fault_with NullDeref end.

(** The region that a pointer points to. *)
Definition vmr_index (base p : Z) : nat := Z.to_nat ((p - base) / SIZEOF_VMR).
Definition vmr_ptr (base : Z) (i : nat) : Z := base + SIZEOF_VMR * Z.of_nat i.
Definition read_vmr (p : Z) : M pk vmr_t :=
  '(base, vs) ← get_vmrs;
  if ((p - base) mod SIZEOF_VMR =? 0) && (base <=? p)
  then match vs !! vmr_index base p with Some v => mret v | None => fault_with OutOfBounds end
  else fault_with OutOfBounds.
Definition write_vmr (p : Z) (v : vmr_t) : M pk unit :=
  '(base, vs) ← get_vmrs;
  if ((p - base) mod SIZEOF_VMR =? 0) && (base <=? p)
  then modify (with_vmrs (Some (base, <[vmr_index base p := v]> vs)))
  else fault_with OutOfBounds.

Section mmap.
Context {host : Host}.

Definition vmr_alloc (addr length : Z) (file : option nat) (offset refcnt prot : Z) : M pk (option Z) :=
  v ← gets vmrs;
  (if v is None then
     spinlock_lock;;
     page ← page_alloc;
     modify (with_vmrs (Some (page, replicate MAX_VMR no_vmr)));;
     spinlock_unlock
   else mret tt);;
  '(base, vs) ← get_vmrs;
  match list_find (fun v => vmr_refcnt v = 0) vs with
  | None => mret None
  | Some (i, _) =>
      (if file is Some f then file_incref f else mret tt);;
      let v := vmr_ptr base i in
      write_vmr v (MkVmr addr length file offset (u32 refcnt) (s32 prot));;
      mret (Some v)
  end.

Definition vmr_decref (p dec : Z) : M pk unit :=
  v ← read_vmr p;
  let n := u32 (vmr_refcnt v - dec) in
  write_vmr p (MkVmr (vmr_addr v) (vmr_length v) (vmr_file v) (vmr_offset v) n (vmr_prot v));;
  if n =? 0 then if vmr_file v is Some f then file_decref f else mret tt else mret tt.

(** ** Page tables *)

Definition pte_ppn (pte : Z) : Z := pte >>> PTE_PPN_SHIFT.
Definition ppn (addr : Z) : Z := addr >>> RISCV_PGSHIFT.
Definition pt_idx (addr level : Z) : Z :=
  (addr >>> (RISCV_PGLEVEL_BITS * level + RISCV_PGSHIFT)) &&& ((1 <<< RISCV_PGLEVEL_BITS) - 1).
Definition pte_create (ppn type : Z) : Z := u64 (ppn <<< PTE_PPN_SHIFT) ||| PTE_V ||| type.
Definition ptd_create (ppn : Z) : Z := pte_create ppn PTE_V.

(** The loop of the walk: the place of an entry that is not valid, or of the
    last entry. *)
Fixpoint walk_loop (levels : list Z) (t addr : Z) : M pk (Z + Z) :=
  match levels with
  | [] => mret (inr (u64 (t + 8 * pt_idx addr 0)))
  | i :: levels =>
      let slot := u64 (t + 8 * pt_idx addr i) in
      w ← read_word slot;
      if has w PTE_V then walk_loop levels (u64 (pte_ppn w <<< RISCV_PGSHIFT)) addr else mret (inl slot)
  end.
Definition walk_internal (addr : Z) : M pk (Z + Z) := t ← gets root_page_table; walk_loop [2; 1] t addr.

Definition walk (addr : Z) : M pk (option Z) :=
  r ← walk_internal addr; mret (match r with inr p => Some p | inl _ => None end).

(** With a new table for each level that is missing: two at most. *)
Fixpoint walk_create_loop (fuel : nat) (addr : Z) : M pk Z :=
  match fuel with
  | O => fault_with Blocked
  | S fuel =>
      r ← walk_internal addr;
      match r with
      | inr p => mret p
      | inl slot =>
          page ← page_alloc;
          write_word slot (ptd_create (ppn page));;
          walk_create_loop fuel addr
      end
  end.
Definition walk_create : Z -> M pk Z := walk_create_loop 3.

Definition va_avail (vaddr : Z) : M pk bool :=
  p ← walk vaddr;
  match p with None => mret true | Some p => w ← read_word p; mret (w =? 0) end.

(** ** Looking for a free range *)

(** The inner loop, downwards: the page at which it stops. *)
Fixpoint vm_alloc_down (fuel : nat) (first a : Z) : M pk Z :=
  match fuel with
  | O => fault_with Blocked
  | S fuel =>
      if first <? a then
        free ← va_avail a;
        if free : bool then vm_alloc_down fuel first (u64 (a - RISCV_PGSIZE)) else mret a
      else mret a
  end.

Fixpoint vm_alloc_loop (fuel : nat) (npage last_start a : Z) : M pk Z :=
  match fuel with
  | O => fault_with Blocked
  | S fuel =>
      if a <=? last_start then
        free ← va_avail a;
        if free : bool then
          let last := u64 (a + u64 ((npage - 1) * RISCV_PGSIZE)) in
          a' ← vm_alloc_down (S (Z.to_nat npage)) a last;
          if a <? a' then vm_alloc_loop fuel npage last_start (u64 (a' + RISCV_PGSIZE)) else mret a'
        else vm_alloc_loop fuel npage last_start (u64 (a + RISCV_PGSIZE))
      else mret 0
  end.

Definition vm_alloc (npage : Z) : M pk Z :=
  c ← gets current;
  let last_start := u64 (mmap_max c - u64 (npage * RISCV_PGSIZE)) in
  vm_alloc_loop (S (S (Z.to_nat (last_start / RISCV_PGSIZE)))) npage last_start (brk c).

(** ** Protection *)

Definition prot_to_type (prot : Z) (user : bool) : Z :=
  let pte := 0 in
  let pte := if has prot PROT_READ then pte ||| PTE_R else pte in
  let pte := if has prot PROT_WRITE then pte ||| PTE_W else pte in
  let pte := if has prot PROT_EXEC then pte ||| PTE_X else pte in
  let pte := if pte =? 0 then PTE_R else pte in
  if user then pte ||| PTE_U else pte.

Definition valid_user_range (vaddr len : Z) : M pk bool :=
  c ← gets current;
  if u64 (vaddr + len) <? vaddr then mret false else mret (u64 (vaddr + len) <=? mmap_max c).

(** ** Access of the kernel to the memory of the program *)

(** The physical address, while [vm_lock] is held: a page that is not present
    would make the handler take the lock again. *)
Definition kernel_access (va : Z) : M pk Z :=
  p ← walk va;
  match p with
  | None => fault_with Blocked
  | Some p =>
      w ← read_word p;
      if has w PTE_V then mret (u64 (pte_ppn w <<< RISCV_PGSHIFT) + va mod RISCV_PGSIZE) else fault_with Blocked
  end.

Definition clear_range (va n : Z) : M pk unit :=
  pa ← kernel_access va;
  modify (fun s => with_pmem (store_at pa (zeros n) (pmem s)) s).

(** A loop over the pages from [a] up to [last]. *)
Fixpoint for_pages (fuel : nat) (a last : Z) (body : Z -> M pk unit) : M pk unit :=
  match fuel with
  | O => fault_with Blocked
  | S fuel => if a <? last then body a;; for_pages fuel (u64 (a + RISCV_PGSIZE)) last body else mret tt
  end.
Definition page_fuel (len : Z) : nat := S (S (Z.to_nat (len / RISCV_PGSIZE))).

(** [touch] is an access to a page. *)
Definition populate_mapping (touch : Z -> M pk unit) (start size : Z) : M pk unit :=
  for_pages (S (page_fuel size)) (ROUNDDOWN start RISCV_PGSIZE) (u64 (start + size)) touch.

(** file_read and its like, by the number of the call. *)
Definition file_transfer (touch : Z -> M pk unit) (n : Z) (f : nat) (buf size : Z) (rest : list Z) : M pk Z :=
  populate_mapping touch buf size;;
  x ← read_file f;
  pa ← va2pa buf;
  frontend_syscall n (kfd x :: pa :: size :: rest).
Definition file_pread (touch : Z -> M pk unit) (f : nat) (buf size offset : Z) : M pk Z :=
  file_transfer touch SYS_pread f buf size [offset; 0; 0; 0].

(** ** Page faults *)

Definition handle_page_fault_locked (vaddr prot : Z) : M pk Z :=
  let vpn := vaddr >>> RISCV_PGSHIFT in
  let vaddr := u64 (vpn <<< RISCV_PGSHIFT) in
  p ← walk vaddr;
  match p with
  | None => mret (-1)
  | Some p =>
      w ← read_word p;
      valid ← valid_user_range vaddr 1;
      if (w =? 0) || negb valid then mret (-1)
      else
        (if negb (has w PTE_V) then
           paddr ← gets first_free_paddr;
           let ppn := u64 (vpn + paddr / RISCV_PGSIZE) in
           v ← read_vmr w;
           write_word p (pte_create ppn (prot_to_type (PROT_READ ||| PROT_WRITE) false));;
           (if vmr_file v is Some f then
              let flen := Z.min RISCV_PGSIZE (u64 (vmr_length v - u64 (vaddr - vmr_addr v))) in
              ret ← file_pread (fun a => kernel_access a;; mret tt) f vaddr flen
                      (s64 (u64 (vaddr - vmr_addr v + vmr_offset v)));
              kassert (0 <? ret);;
              if ret <? RISCV_PGSIZE then clear_range (u64 (vaddr + ret)) (RISCV_PGSIZE - ret) else mret tt
            else clear_range vaddr RISCV_PGSIZE);;
           vmr_decref w 1;;
           v ← read_vmr w;
           write_word p (pte_create ppn (prot_to_type (vmr_prot v) true))
         else mret tt);;
        let perms := pte_create 0 (prot_to_type prot true) in
        w ← read_word p;
        if negb (w &&& perms =? perms) then mret (-1) else mret 0
  end.

Definition handle_page_fault (vaddr prot : Z) : M pk Z :=
  spinlock_lock;; ret ← handle_page_fault_locked vaddr prot; spinlock_unlock;; mret ret.

(** ** Unmapping and mapping *)

Definition munmap_page (a : Z) : M pk unit :=
  p ← walk a;
  match p with
  | None => mret tt
  | Some p =>
      w ← read_word p;
      if w =? 0 then mret tt
      else (if negb (has w PTE_V) then vmr_decref w 1 else mret tt);; write_word p 0
  end.

Definition do_munmap_locked (addr len : Z) : M pk unit :=
  for_pages (page_fuel len) addr (u64 (addr + len)) munmap_page.

(** One page of a new region: what was there goes, and its entry points to the region. *)
Definition map_page (v a : Z) : M pk unit :=
  p ← walk_create a;
  w ← read_word p;
  (if negb (w =? 0) then do_munmap_locked a RISCV_PGSIZE else mret tt);;
  write_word p v.

Definition MAP_FAILED : Z := 2 ^ 64 - 1.

Definition do_mmap_locked (addr length prot flags : Z) (f : option nat) (offset : Z) : M pk Z :=
  let npage := u64 (length - 1) / RISCV_PGSIZE + 1 in
  addr ← (if has flags MAP_FIXED then
            ok ← valid_user_range addr length;
            mret (if negb (addr mod RISCV_PGSIZE =? 0) || negb ok then None else Some addr)
          else
            a ← vm_alloc npage;
            mret (if a =? 0 then None else Some a));
  match addr with
  | None => mret MAP_FAILED
  | Some addr =>
      v ← vmr_alloc addr length f offset npage prot;
      match v with
      | None => mret MAP_FAILED
      | Some v =>
          for_pages (page_fuel length) addr (u64 (addr + length)) (map_page v);;
          hv ← gets have_vm;
          (if negb hv || has flags MAP_POPULATE then
             for_pages (page_fuel length) addr (u64 (addr + length))
               (fun a => r ← handle_page_fault_locked a prot; kassert (r =? 0))
           else mret tt);;
          mret addr
      end
  end.

Definition do_munmap (addr length : Z) : M pk Z :=
  ok ← valid_user_range addr length;
  if negb (addr mod RISCV_PGSIZE =? 0) || negb ok then mret (- EINVAL)
  else spinlock_lock;; do_munmap_locked addr length;; spinlock_unlock;; mret 0.

Definition set_brk_max (x : Z) : M pk unit :=
  modify (fun s => let c := current s in with_current (MkElf (brk_min c) (brk c) x (mmap_max c) (stack_top c)) s).
Definition set_brk (x : Z) : M pk unit :=
  modify (fun s => let c := current s in with_current (MkElf (brk_min c) x (brk_max c) (mmap_max c) (stack_top c)) s).

Definition do_mmap (addr length prot flags fd offset : Z) : M pk Z :=
  if negb (has flags MAP_PRIVATE) || (length =? 0) || negb (offset mod RISCV_PGSIZE =? 0) then mret (u64 (- EINVAL))
  else
    f ← (if has flags MAP_ANONYMOUS then mret (Some None) else f ← file_get fd; mret (option_map Some f));
    match f with
    | None => mret (u64 (- EBADF))
    | Some f =>
        spinlock_lock;;
        addr ← do_mmap_locked addr length prot flags f offset;
        c ← gets current;
        (if addr <? brk_max c then set_brk_max addr else mret tt);;
        spinlock_unlock;;
        (if f is Some f then file_decref f else mret tt);;
        mret addr
    end.

Definition do_brk_locked (addr : Z) : M pk Z :=
  c ← gets current;
  let newbrk := if addr <? brk_min c then brk_min c else if brk_max c <? addr then brk_max c else addr in
  (if brk c =? 0 then set_brk (ROUNDUP (brk_min c) RISCV_PGSIZE) else mret tt);;
  c ← gets current;
  let newbrk_page := ROUNDUP newbrk RISCV_PGSIZE in
  (if newbrk_page <? brk c then do_munmap_locked newbrk_page (brk c - newbrk_page)
   else if brk c <? newbrk_page then
     a ← do_mmap_locked (brk c) (newbrk_page - brk c) (-1) (MAP_FIXED ||| MAP_PRIVATE ||| MAP_ANONYMOUS) None 0;
     kassert (a =? brk c)
   else mret tt);;
  set_brk newbrk_page;;
  mret newbrk.

Definition do_brk (addr : Z) : M pk Z :=
  spinlock_lock;; addr ← do_brk_locked addr; spinlock_unlock;; mret addr.

Definition do_mremap (addr old_size new_size flags : Z) : M pk Z := mret (u64 (- ENOSYS)).

(** One page: 0, or the error with which the loop ends. *)
Definition mprotect_page (prot a : Z) : M pk Z :=
  p ← walk a;
  match p with
  | None => mret (- ENOMEM)
  | Some p =>
      w ← read_word p;
      if w =? 0 then mret (- ENOMEM)
      else if negb (has w PTE_V) then
        v ← read_vmr w;
        if negb ((vmr_prot v ^^^ prot) &&& Z.lnot (vmr_prot v) =? 0) then mret (- EACCES)
        else write_vmr w (MkVmr (vmr_addr v) (vmr_length v) (vmr_file v) (vmr_offset v) (vmr_refcnt v) prot);; mret 0
      else if negb (has w PTE_U) || (has prot PROT_READ && negb (has w PTE_R)) ||
              (has prot PROT_WRITE && negb (has w PTE_W)) || (has prot PROT_EXEC && negb (has w PTE_X))
      then mret (- EACCES)
      else write_word p (pte_create (pte_ppn w) (prot_to_type prot true));; mret 0
  end.

Fixpoint mprotect_loop (fuel : nat) (a last prot : Z) : M pk Z :=
  match fuel with
  | O => fault_with Blocked
  | S fuel =>
      if a <? last then
        r ← mprotect_page prot a;
        if r =? 0 then mprotect_loop fuel (u64 (a + RISCV_PGSIZE)) last prot else mret r
      else mret 0
  end.

Definition do_mprotect (addr length prot : Z) : M pk Z :=
  if negb (addr mod RISCV_PGSIZE =? 0) then mret (u64 (- EINVAL))
  else
    spinlock_lock;;
    res ← mprotect_loop (page_fuel length) addr (u64 (addr + length)) prot;
    spinlock_unlock;;
    mret (u64 res).

(** ** The kernel's own mappings *)

Fixpoint map_kernel_loop (n : nat) (a offset prot : Z) : M pk unit :=
  match n with
  | O => mret tt
  | S n =>
      p ← walk_create a;
      write_word p (pte_create (u64 (a + offset) >>> RISCV_PGSHIFT) (prot_to_type prot false));;
      map_kernel_loop n (u64 (a + RISCV_PGSIZE)) offset prot
  end.
Definition map_kernel_range (vaddr paddr len prot : Z) : M pk unit :=
  map_kernel_loop (Z.to_nat (ROUNDUP len RISCV_PGSIZE / RISCV_PGSIZE)) vaddr (u64 (paddr - vaddr)) prot.

(** [sbi_base] is the address of the page of the binary interface. *)
Definition pk_vm_init (sbi_base : Z) : M pk Z :=
  s ← gets id;
  let mem_pages := mem_size s >>> RISCV_PGSHIFT in
  let free := Z.max 8 (mem_pages >>> (RISCV_PGLEVEL_BITS - 1)) in
  modify (with_free (first_free_paddr s) free (u64 (first_free_paddr s + u64 (free * RISCV_PGSIZE))));;
  root ← page_alloc;
  modify (with_root root);;
  s ← gets id;
  map_kernel_range (DRAM_BASE s) (DRAM_BASE s) (u64 (first_free_paddr s - DRAM_BASE s))
    (PROT_READ ||| PROT_WRITE ||| PROT_EXEC);;
  let sbi_vstart := u64 (- RISCV_PGSIZE) &&& (2 ^ VA_BITS - 1) in
  map_kernel_range sbi_vstart sbi_base RISCV_PGSIZE (PROT_READ ||| PROT_EXEC);;
  let top := Z.min (DRAM_BASE s) (u64 (mem_size s - u64 (first_free_paddr s - DRAM_BASE s))) in
  modify (fun s => let c := current s in with_current (MkElf (brk_min c) (brk c) top top (stack_top c)) s);;
  let stack_size := RISCV_PGSIZE * 64 in
  stack_bottom ← do_mmap_locked (u64 (top - stack_size)) stack_size (PROT_READ ||| PROT_WRITE ||| PROT_EXEC)
                   (MAP_PRIVATE ||| MAP_ANONYMOUS ||| MAP_FIXED) None 0;
  kassert (negb (stack_bottom =? MAP_FAILED));;
  modify (fun s => let c := current s in
                   with_current (MkElf (brk_min c) (brk c) (brk_max c) (mmap_max c) (u64 (stack_bottom + stack_size))) s);;
  page ← page_alloc;
  mret (u64 (page + RISCV_PGSIZE)).
End mmap.
