(* ===== verification/PkTree.v ===== *)
(** * The page table of the proxy kernel as a function

    The tables form a tree of three levels whose pages are all different; the
    walks of mmap.c find in it the entry of each of the 2^27 pages of the address
    space.  A change of the entry of a page, or a new table, is seen by the
    walks to no other page. *)

From S2P Require Import Prelude State Pk PkFile PkMmap.

(** ** Entries of tables *)

Definition page_ok (a : Z) : Prop := 0 < a < 2 ^ 55 /\ a mod 4096 = 0.

(** Word [i] of page [t]. *)
Definition wrd (ps : gmap Z (list Z)) (t i : Z) : Z := default [] (ps !! t) !z i.

(** The table an entry points to. *)
Definition node (ps : gmap Z (list Z)) (t i : Z) : option Z :=
  if has (wrd ps t i) PTE_V then Some (u64 (pte_ppn (wrd ps t i) <<< RISCV_PGSHIFT)) else None.

(** The last table on the way to an address, and the entry of a page there; 0
    when there is no table. *)
Definition leaf (root : Z) (ps : gmap Z (list Z)) (va : Z) : option Z :=
  t ← node ps root (pt_idx va 2); node ps t (pt_idx va 1).
Definition ent_of (root : Z) (ps : gmap Z (list Z)) (va : Z) : Z :=
  match leaf root ps va with Some t => wrd ps t (pt_idx va 0) | None => 0 end.

(** The level of each table and which part of the address space it is for. *)
Record tree (P : gmap Z (Z * Z)) (root : Z) (ps : gmap Z (list Z)) : Prop := {
  tree_root : P !! root = Some (2, 0);
  tree_page a lp : P !! a = Some lp -> page_ok a /\ exists ws, ps !! a = Some ws /\ length ws = 512%nat;
  tree_child a l pre i : P !! a = Some (l, pre) -> 0 < l -> 0 <= i < 512 ->
    forall t, node ps a i = Some t -> P !! t = Some (l - 1, pre * 512 + i)
}.

(** The number of the page of an address. *)
Definition vpn (va : Z) : Z := va / 4096 mod 2 ^ 27.

(** ** Indices *)

Lemma pt_idx_eq va l : 0 <= l -> pt_idx va l = va / 2 ^ (9 * l + 12) mod 512.
Proof.
  intros Hl. unfold pt_idx, RISCV_PGLEVEL_BITS, RISCV_PGSHIFT. change ((1 <<< 9) - 1) with (Z.ones 9).
  by rewrite Z.land_ones, shiftr_div by lia.
Qed.

Lemma pt_idx_range va l : 0 <= l -> 0 <= pt_idx va l < 512.
Proof. intros. rewrite pt_idx_eq by done. apply Z.mod_pos_bound. lia. Qed.

Lemma vpn_idx va : vpn va = (pt_idx va 2 * 512 + pt_idx va 1) * 512 + pt_idx va 0.
Proof. rewrite !pt_idx_eq by lia. unfold vpn. change (9 * 2 + 12) with 30. change (9 * 1 + 12) with 21. change (9 * 0 + 12) with 12. zdm. Qed.

Lemma page_ok_word a i : page_ok a -> 0 <= i < 512 ->
  let p := u64 (a + 8 * i) in
  p = a + 8 * i /\ ROUNDDOWN p RISCV_PGSIZE = a /\ p mod 8 = 0 /\ p mod RISCV_PGSIZE / 8 = i.
Proof.
  intros [H1 H2] Hi. cbv zeta. rewrite u64_small by lia. unfold ROUNDDOWN, RISCV_PGSIZE.
  assert (Ha : a = a / 4096 * 4096) by zdm. rewrite Ha. set (q := a / 4096).
  split; [done|]. split; [zdm|]. split; zdm.
Qed.

(** ** Walks *)

Lemma leaf_level P root ps va t :
  tree P root ps -> leaf root ps va = Some t -> P !! t = Some (0, pt_idx va 2 * 512 + pt_idx va 1).
Proof.
  intros Ht. unfold leaf. destruct (node ps root (pt_idx va 2)) as [t1|] eqn:H1; [|done]. cbn. intros H2.
  pose proof (tree_child _ _ _ Ht root 2 0 _ (tree_root _ _ _ Ht) ltac:(lia) (pt_idx_range va 2 ltac:(lia)) t1 H1) as Ht1.
  exact (tree_child _ _ _ Ht t1 1 _ _ Ht1 ltac:(lia) (pt_idx_range va 1 ltac:(lia)) t H2).
Qed.

Section tree.
Context (P : gmap Z (Z * Z)) (s : pk).
#[local] Notation root := (root_page_table s).
#[local] Notation ps := (pages s).
Context (Ht : tree P root ps).

Lemma read_word_run a lp i : P !! a = Some lp -> 0 <= i < 512 -> read_word (u64 (a + 8 * i)) s = Ret (wrd ps a i, s).
Proof using Ht.
  intros Ha Hi. destruct (tree_page _ _ _ Ht a lp Ha) as (Hok & ws & Hw & _).
  destruct (page_ok_word a i Hok Hi) as (_ & Hp & H8 & Hx). unfold read_word. rewrite gets_bind, Hp, Hw, H8, Hx.
  unfold wrd. by rewrite Hw.
Qed.

Lemma node_level a l pre i t : P !! a = Some (l, pre) -> 0 < l -> 0 <= i < 512 -> node ps a i = Some t ->
  P !! t = Some (l - 1, pre * 512 + i).
Proof using Ht. intros. by eapply tree_child. Qed.

Lemma walk_loop_step a l pre levels va :
  P !! a = Some (l, pre) -> 0 < l ->
  walk_loop (l :: levels) a va s =
  match node ps a (pt_idx va l) with
  | Some t => walk_loop levels t va s
  | None => Ret (inl (u64 (a + 8 * pt_idx va l)), s)
  end.
Proof using Ht.
  intros Ha Hl. cbn [walk_loop]. pose proof (pt_idx_range va l ltac:(lia)) as Hi.
  rewrite (run_bind _ _ _ _ _ (read_word_run a _ _ Ha Hi)). unfold node.
  by destruct (has (wrd ps a (pt_idx va l)) PTE_V).
Qed.

Lemma walk_internal_run va :
  walk_internal va s =
  match node ps root (pt_idx va 2) with
  | None => Ret (inl (u64 (root + 8 * pt_idx va 2)), s)
  | Some t =>
      match node ps t (pt_idx va 1) with
      | None => Ret (inl (u64 (t + 8 * pt_idx va 1)), s)
      | Some t => Ret (inr (u64 (t + 8 * pt_idx va 0)), s)
      end
  end.
Proof using Ht.
  unfold walk_internal. rewrite gets_bind. pose proof (tree_root _ _ _ Ht) as Hr.
  rewrite (walk_loop_step root 2 0) by (done || lia). destruct (node ps root (pt_idx va 2)) as [t|] eqn:Hn; [|done].
  pose proof (node_level root 2 0 _ t Hr ltac:(lia) (pt_idx_range va 2 ltac:(lia)) Hn) as Ht1.
  by rewrite (walk_loop_step t 1 _ _ _ Ht1) by lia.
Qed.

Definition slot (t va : Z) : Z := u64 (t + 8 * pt_idx va 0).

Lemma walk_run va : walk va s = Ret ((fun t => slot t va) <$> leaf root ps va, s).
Proof using Ht.
  unfold walk, mbind, M_bind, leaf. rewrite walk_internal_run. destruct (node ps root _) as [t1|]; [|done].
  cbn. by destruct (node ps t1 _).
Qed.

Lemma read_slot va t : leaf root ps va = Some t -> read_word (slot t va) s = Ret (ent_of root ps va, s).
Proof using Ht.
  intros Hl. unfold ent_of. rewrite Hl. apply (read_word_run t _ _ (leaf_level _ _ _ va t Ht Hl)). apply pt_idx_range. lia.
Qed.

Lemma walk_missing va : leaf root ps va = None -> ent_of root ps va = 0.
Proof using Type. unfold ent_of. by intros ->. Qed.
End tree.

(** ** Changing an entry *)

Definition set_word (t i v : Z) (ps : gmap Z (list Z)) : gmap Z (list Z) :=
  <[t := <[Z.to_nat i := v]> (default [] (ps !! t))]> ps.

Lemma wrd_set ps t i v t' i' ws :
  ps !! t = Some ws -> length ws = 512%nat -> 0 <= i < 512 ->
  0 <= i' -> wrd (set_word t i v ps) t' i' = if (t' =? t) && (i' =? i) then v else wrd ps t' i'.
Proof.
  intros Ht Hl Hi Hi'. unfold wrd, set_word. rewrite Ht. cbn [default from_option id]. destruct (Z.eqb_spec t' t) as [->|Hne]; cbn [andb].
  - rewrite lookup_insert_eq. cbn [default from_option id]. rewrite nthz_insert by (unfold lenz; lia). rewrite Ht. cbn [default from_option id].
    destruct (Z.eqb_spec i' i), (Z.eqb_spec i i'); subst; done || lia.
  - by rewrite lookup_insert_ne.
Qed.

Lemma vpn_same va va' :
  vpn va = vpn va' <-> pt_idx va 2 = pt_idx va' 2 /\ pt_idx va 1 = pt_idx va' 1 /\ pt_idx va 0 = pt_idx va' 0.
Proof.
  rewrite !vpn_idx. pose proof (pt_idx_range va 2). pose proof (pt_idx_range va 1). pose proof (pt_idx_range va 0).
  pose proof (pt_idx_range va' 2). pose proof (pt_idx_range va' 1). pose proof (pt_idx_range va' 0). lia.
Qed.

Section change.
Context (P : gmap Z (Z * Z)) (root : Z) (ps : gmap Z (list Z)) (Ht : tree P root ps).

Lemma node_ext ps' a i : wrd ps' a i = wrd ps a i -> node ps' a i = node ps a i.
Proof using Type. unfold node. by intros ->. Qed.

Lemma page_512 a lp : P !! a = Some lp -> exists ws, ps !! a = Some ws /\ length ws = 512%nat.
Proof using Ht. intros Ha. by destruct (tree_page _ _ _ Ht a lp Ha) as [_ H]. Qed.

(** Pages with the same words for tables above the last level. *)
Lemma leaf_ext ps' va :
  (forall a l pre i, P !! a = Some (l, pre) -> 0 < l -> 0 <= i < 512 -> wrd ps' a i = wrd ps a i) ->
  leaf root ps' va = leaf root ps va.
Proof using Ht.
  intros Hw. unfold leaf. pose proof (tree_root _ _ _ Ht) as Hr. pose proof (pt_idx_range va 2 ltac:(lia)) as H2.
  pose proof (pt_idx_range va 1 ltac:(lia)) as H1.
  rewrite (node_ext ps' root) by (apply (Hw root 2 0); done || lia).
  destruct (node ps root (pt_idx va 2)) as [t|] eqn:Hn; [|done]. cbn.
  apply node_ext. apply (Hw t 1 (0 * 512 + pt_idx va 2)); [|lia|done].
  by apply (tree_child _ _ _ Ht root 2 0 _ Hr ltac:(lia) H2).
Qed.

Context (t : Z) (pre i v : Z) (Hl : P !! t = Some (0, pre)) (Hi : 0 <= i < 512).

Lemma set_above a l q j : P !! a = Some (l, q) -> 0 < l -> 0 <= j < 512 -> wrd (set_word t i v ps) a j = wrd ps a j.
Proof using Ht Hl Hi.
  intros Ha Hl0 Hj. destruct (page_512 t _ Hl) as (ws & Hws & Hlen). rewrite (wrd_set ps t i v a j ws) by (done || lia).
  destruct (Z.eqb_spec a t) as [->|]; [|done]. rewrite Hl in Ha. injection Ha as <- _. lia.
Qed.

Lemma tree_set : tree P root (set_word t i v ps).
Proof using Ht Hl Hi.
  destruct (page_512 t _ Hl) as (ws & Hws & Hlen). split.
  - apply Ht.
  - intros a lp Ha. destruct (tree_page _ _ _ Ht a lp Ha) as (Hok & wa & Hwa & Hla). split; [done|].
    unfold set_word. rewrite Hws. cbn [default from_option id]. destruct (decide (a = t)) as [->|].
    + rewrite lookup_insert_eq. eexists. split; [done|]. by rewrite length_insert.
    + rewrite lookup_insert_ne by done. eauto.
  - intros a l q j Ha Hl0 Hj x Hx. rewrite (node_ext _ a j) in Hx by (by eapply set_above).
    by eapply (tree_child _ _ _ Ht).
Qed.
End change.

Lemma ent_set P root ps va0 t v :
  tree P root ps -> leaf root ps va0 = Some t ->
  let ps' := set_word t (pt_idx va0 0) v ps in
  tree P root ps' /\ (forall va, leaf root ps' va = leaf root ps va) /\
  forall va, ent_of root ps' va = if vpn va =? vpn va0 then v else ent_of root ps va.
Proof.
  intros Ht Hl ps'. pose proof (leaf_level _ _ _ _ _ Ht Hl) as HP. pose proof (pt_idx_range va0 0 ltac:(lia)) as Hi.
  assert (Hlf : forall va, leaf root ps' va = leaf root ps va).
  { intros va. apply (leaf_ext P root ps Ht). intros. by eapply (set_above P root ps Ht t). }
  split; [by eapply tree_set|]. split; [exact Hlf|]. intros va. unfold ent_of. rewrite Hlf.
  destruct (page_512 P root ps Ht t _ HP) as (ws & Hws & Hlen). pose proof (pt_idx_range va 0 ltac:(lia)).
  destruct (Z.eqb_spec (vpn va) (vpn va0)) as [Hv|Hv].
  - apply vpn_same in Hv as (H2 & H1 & H0). assert (Hlv : leaf root ps va = Some t) by (unfold leaf in *; by rewrite H2, H1).
    rewrite Hlv. unfold ps'. rewrite (wrd_set ps t _ v t _ ws) by (done || lia). by rewrite H0, !Z.eqb_refl.
  - destruct (leaf root ps va) as [t'|] eqn:Hlv; [|done]. unfold ps'. rewrite (wrd_set ps t _ v t' _ ws) by (done || lia).
    destruct (Z.eqb_spec t' t) as [->|]; [|done]. destruct (Z.eqb_spec (pt_idx va 0) (pt_idx va0 0)); [|done]. exfalso.
    apply Hv, vpn_same. pose proof (leaf_level _ _ _ _ _ Ht Hlv) as HP'. rewrite HP in HP'. injection HP' as Hpre.
    pose proof (pt_idx_range va 1). pose proof (pt_idx_range va0 1). lia.
Qed.

(** ** A new table *)

Lemma wrd_zeros ps a j : wrd (<[a := zeros 512]> ps) a j = 0.
Proof. unfold wrd. rewrite lookup_insert_eq. apply nthz_zeros. Qed.

Lemma has_0 flag : has 0 flag = false.
Proof. unfold has. by rewrite Z.land_0_l. Qed.

(** The entry for a table, and what a walk reads from it. *)
Lemma ptd_points a : page_ok a ->
  has (ptd_create (ppn a)) PTE_V = true /\ u64 (pte_ppn (ptd_create (ppn a)) <<< RISCV_PGSHIFT) = a.
Proof.
  intros [Ha Hm]. unfold ptd_create, pte_create, ppn, pte_ppn, PTE_PPN_SHIFT, RISCV_PGSHIFT, PTE_V.
  rewrite (shiftr_div a) by lia. assert (Hq : 0 <= a / 2 ^ 12 < 2 ^ 43) by zdm.
  assert (Hu : u64 ((a / 2 ^ 12) <<< 10) = (a / 2 ^ 12) <<< 10) by (rewrite shiftl_mul by lia; apply u64_small; lia).
  rewrite Hu, <- Z.lor_assoc. change (1 ||| 1) with 1. rewrite lor_disjoint_add by lia. split.
  - unfold has. change 1 with (Z.ones 1) at 2. rewrite Z.land_ones by lia.
    apply negb_true_iff, Z.eqb_neq. change (2 ^ 10) with (2 ^ 9 * 2). zdm.
  - rewrite shiftr_div, shiftl_mul by lia. rewrite u64_small by zdm. zdm.
Qed.

Section grow.
Context (P : gmap Z (Z * Z)) (root : Z) (ps : gmap Z (list Z)) (Ht : tree P root ps).
Context (t l pre i c : Z) (Hl : P !! t = Some (l, pre)) (Hl0 : 0 < l <= 2) (Hi : 0 <= i < 512).
Context (Hfree : node ps t i = None) (Hc : page_ok c) (Hnew : ps !! c = None).

Definition grown : gmap Z (list Z) := set_word t i (ptd_create (ppn c)) (<[c := zeros 512]> ps).

Lemma new_table a lp : P !! a = Some lp -> a <> c.
Proof using Ht Hnew. intros Ha ->. destruct (tree_page _ _ _ Ht c lp Ha) as (_ & ws & Hws & _). congruence. Qed.

Lemma grown_wrd a j : 0 <= j ->
  wrd grown a j = if (a =? t) && (j =? i) then ptd_create (ppn c) else if a =? c then 0 else wrd ps a j.
Proof using Ht Hl Hi Hnew.
  intros Hj. destruct (tree_page _ _ _ Ht t _ Hl) as (_ & ws & Hws & Hlen). pose proof (new_table t _ Hl).
  unfold grown. rewrite (wrd_set _ t i _ a j ws) by (try rewrite lookup_insert_ne; done || lia).
  destruct ((a =? t) && (j =? i)); [done|]. destruct (Z.eqb_spec a c) as [->|]; [apply wrd_zeros|].
  unfold wrd. by rewrite lookup_insert_ne.
Qed.

Lemma grown_node a j : 0 <= j ->
  node grown a j = if (a =? t) && (j =? i) then Some c else if a =? c then None else node ps a j.
Proof using Ht Hl Hi Hc Hnew.
  intros Hj. unfold node. rewrite grown_wrd by done. destruct (ptd_points c Hc) as [Hv Hp].
  destruct ((a =? t) && (j =? i)); [by rewrite Hv, Hp|]. destruct (a =? c); [by rewrite has_0|done].
Qed.

Lemma grown_tree : tree (<[c := (l - 1, pre * 512 + i)]> P) root grown.
Proof using Ht Hl Hl0 Hi Hc Hnew.
  assert (Hfresh : P !! c = None).
  { destruct (P !! c) as [lp|] eqn:E; [|done]. by destruct (new_table c lp E). }
  split.
  - pose proof (tree_root _ _ _ Ht) as Hr. rewrite lookup_insert_ne by congruence. done.
  - intros a lp Ha. destruct (tree_page _ _ _ Ht t _ Hl) as (_ & ws & Hws & Hlen). pose proof (new_table t _ Hl) as Htc.
    unfold grown, set_word. rewrite (lookup_insert_ne ps c t) by done. rewrite Hws. cbn [default from_option id].
    destruct (decide (a = c)) as [->|Hac].
    + split; [done|]. rewrite lookup_insert_ne, lookup_insert_eq by done. by eexists.
    + rewrite lookup_insert_ne in Ha by done. destruct (tree_page _ _ _ Ht a lp Ha) as (Hok & wa & Hwa & Hla). split; [done|].
      destruct (decide (a = t)) as [->|]; [rewrite lookup_insert_eq; eexists; split; [done|by rewrite length_insert]|].
      rewrite !lookup_insert_ne by done. eauto.
  - intros a l' q j Ha Hl' Hj x Hx. rewrite grown_node in Hx by lia.
    destruct (decide (a = c)) as [->|Hac].
    { rewrite (proj2 (Z.eqb_neq c t) (not_eq_sym (new_table t _ Hl))), Z.eqb_refl in Hx. done. }
    rewrite lookup_insert_ne in Ha by done.
    destruct ((a =? t) && (j =? i)) eqn:E.
    + apply andb_true_iff in E as [E1 E2]. apply Z.eqb_eq in E1, E2. injection Hx as <-.
      rewrite E1, Hl in Ha. injection Ha as <- <-. rewrite lookup_insert_eq. by rewrite E2.
    + rewrite (proj2 (Z.eqb_neq a c)) in Hx by done. pose proof (tree_child _ _ _ Ht a l' q j Ha Hl' Hj x Hx) as Hch.
      rewrite lookup_insert_ne; [done|]. intros ->. congruence.
Qed.

Lemma grown_ent va : ent_of root grown va = ent_of root ps va.
Proof using Ht Hl Hl0 Hi Hfree Hc Hnew.
  pose proof (pt_idx_range va 2 ltac:(lia)) as H2. pose proof (pt_idx_range va 1 ltac:(lia)) as H1.
  pose proof (pt_idx_range va 0 ltac:(lia)) as H0. pose proof (tree_root _ _ _ Ht) as Hr.
  assert (Hne : forall a lp, P !! a = Some lp -> (a =? c) = false) by (intros a lp Ha; apply Z.eqb_neq; by eapply new_table).
  assert (Hleaf0 : forall t0 q, P !! t0 = Some (0, q) -> wrd grown t0 (pt_idx va 0) = wrd ps t0 (pt_idx va 0)).
  { intros t0 q Ht0. rewrite grown_wrd, (Hne _ _ Ht0) by lia. destruct (Z.eqb_spec t0 t) as [E|]; [|done].
    rewrite E, Hl in Ht0. injection Ht0 as E0 _. lia. }
  assert (Hnew0 : wrd grown c (pt_idx va 0) = 0).
  { rewrite grown_wrd, Z.eqb_refl by lia. by rewrite (proj2 (Z.eqb_neq c t) (not_eq_sym (new_table t _ Hl))). }
  assert (Hcc : forall j, 0 <= j -> node grown c j = None).
  { intros j Hj. rewrite grown_node, Z.eqb_refl by lia. by rewrite (proj2 (Z.eqb_neq c t) (not_eq_sym (new_table t _ Hl))). }
  unfold ent_of, leaf. rewrite grown_node, (Hne root _ Hr) by lia.
  destruct ((root =? t) && (pt_idx va 2 =? i)) eqn:E2.
  { apply andb_true_iff in E2 as [E2 E3]. apply Z.eqb_eq in E2, E3. rewrite E2, E3, Hfree. cbn. by rewrite Hcc by lia. }
  destruct (node ps root (pt_idx va 2)) as [t1|] eqn:Hn2; [|done]. cbn.
  pose proof (tree_child _ _ _ Ht root 2 0 _ Hr ltac:(lia) H2 t1 Hn2) as Ht1. rewrite grown_node, (Hne _ _ Ht1) by lia.
  destruct ((t1 =? t) && (pt_idx va 1 =? i)) eqn:E1.
  { apply andb_true_iff in E1 as [E4 E5]. apply Z.eqb_eq in E4, E5. by rewrite E4, E5, Hfree, Hnew0. }
  destruct (node ps t1 (pt_idx va 1)) as [t0|] eqn:Hn1; [|done].
  pose proof (tree_child _ _ _ Ht t1 _ _ _ Ht1 ltac:(lia) H1 t0 Hn1) as Ht0. by eapply Hleaf0.
Qed.
End grow.
