(* ===== verification/PkWalk.v ===== *)
(** * The tables of the proxy kernel, and their growth

    The pages of the kernel come from its allocator, and those that are tables
    form a tree.  A walk that may create adds the tables that are missing on the
    way to an address; it changes no entry of a page. *)

From S2P Require Import Prelude State Pk PkFile PkMmap PkTree.

(** The pages of the address space. *)
Definition PAGES : Z := 2 ^ 27.

Definition ent (s : pk) (k : Z) : Z := ent_of (root_page_table s) (pages s) (k * 4096).

(** The pages of the kernel that are in use come from its allocator. *)
Record alloc_ok (s : pk) : Prop := {
  al_first : page_ok (first_free_page s);
  al_next : 0 <= next_free_page s <= free_pages s;
  al_end : first_free_page s + 4096 * free_pages s <= 2 ^ 54;
  al_pages : forall a ws, pages s !! a = Some ws -> exists k, 0 <= k < next_free_page s /\ a = first_free_page s + 4096 * k
}.

(** ** Entries and pages *)

Lemma vpn_page k : 0 <= k < PAGES -> vpn (k * 4096) = k.
Proof. unfold vpn, PAGES. intros Hk. rewrite Z.div_mul by lia. by apply Z.mod_small. Qed.

Lemma vpn_range va : 0 <= vpn va < PAGES.
Proof. apply Z.mod_pos_bound. done. Qed.

Lemma leaf_same root ps va va' : vpn va = vpn va' -> leaf root ps va = leaf root ps va'.
Proof. intros (H2 & H1 & _)%vpn_same. unfold leaf. by rewrite H2, H1. Qed.

Lemma ent_vpn s va : ent_of (root_page_table s) (pages s) va = ent s (vpn va).
Proof.
  assert (Hv : vpn va = vpn (vpn va * 4096)) by (by rewrite vpn_page by apply vpn_range).
  unfold ent, ent_of. rewrite (leaf_same _ _ va (vpn va * 4096)) by done. by apply vpn_same in Hv as (_ & _ & ->).
Qed.

(** The state after an entry is written. *)
Definition with_ent (t va v : Z) (s : pk) : pk := with_pages (set_word t (pt_idx va 0) v (pages s)) s.

Lemma write_slot_run P s va t v :
  tree P (root_page_table s) (pages s) -> leaf (root_page_table s) (pages s) va = Some t ->
  write_word (slot t va) v s = Ret (tt, with_ent t va v s).
Proof.
  intros Ht Hl. pose proof (leaf_level _ _ _ _ _ Ht Hl) as HP. destruct (tree_page _ _ _ Ht t _ HP) as (Hok & ws & Hws & Hlen).
  pose proof (pt_idx_range va 0 ltac:(lia)) as Hi. destruct (page_ok_word t _ Hok Hi) as (_ & Hp & H8 & Hx).
  unfold write_word, slot. rewrite gets_bind, Hp, Hws, H8, Hx. unfold modify, with_ent, set_word. by rewrite Hws.
Qed.

Lemma ent_with P s va t v k :
  tree P (root_page_table s) (pages s) -> leaf (root_page_table s) (pages s) va = Some t -> 0 <= k < PAGES ->
  ent (with_ent t va v s) k = if k =? vpn va then v else ent s k.
Proof.
  intros Ht Hl Hk. destruct (ent_set P _ _ va t v Ht Hl) as (_ & _ & He). unfold ent at 1. cbn. rewrite He. by rewrite vpn_page.
Qed.

(** ** The allocator *)

Lemma page_alloc_run s : alloc_ok s ->
  let c := first_free_page s + 4096 * next_free_page s in
  page_alloc s =
    (if next_free_page s =? free_pages s then Fault AssertFail
     else Ret (c, with_pages (<[c := zeros 512]> (pages s)) (with_next_free (next_free_page s + 1) s))) /\
  (next_free_page s <> free_pages s -> page_ok c /\ pages s !! c = None).
Proof.
  intros [[H1 H2] H3 H4 H5] c. split.
  - unfold page_alloc. rewrite gets_bind. unfold id, kassert, m_assert, c_assert, RISCV_PGSIZE.
    assert (Hc : u64 (first_free_page s + 4096 * next_free_page s) = c) by (apply u64_small; lia).
    rewrite Hc. by destruct (next_free_page s =? free_pages s).
  - intros Hne. split; [split; [lia|subst c; clear - H2; zdm]|].
    destruct (pages s !! c) as [ws|] eqn:E; [|done]. apply H5 in E as (k & Hk & Hck). lia.
Qed.

(** Only the pages of the kernel change, and [m] at most are taken; the kernel
    stops when fewer are left. *)
Definition only_pages (m : Z) (s s' : pk) : Prop :=
  s' = with_pages (pages s') (with_next_free (next_free_page s') s) /\ next_free_page s' <= next_free_page s + m.
Definition no_pages (m : Z) (s : pk) (e : fault) : Prop := e = AssertFail /\ free_pages s < next_free_page s + m.

Lemma only_pages_trans m1 m2 s1 s2 s3 : only_pages m1 s1 s2 -> only_pages m2 s2 s3 -> only_pages (m1 + m2) s1 s3.
Proof. intros [-> H1] [-> H2]. split; [by destruct s1|]. cbn in *. lia. Qed.

Lemma only_pages_refl s : only_pages 0 s s.
Proof. split; [by destruct s|lia]. Qed.

Lemma only_pages_mono m m' s s' : m <= m' -> only_pages m s s' -> only_pages m' s s'.
Proof. intros Hm [H1 H2]. split; [done|lia]. Qed.

Lemma only_pages_root m s s' : only_pages m s s' -> root_page_table s' = root_page_table s.
Proof. by intros [-> _]. Qed.

Lemma no_pages_after m1 m2 s s' e : only_pages m1 s s' -> no_pages m2 s' e -> no_pages (m1 + m2) s e.
Proof. intros [-> H1] [-> H2]. split; [done|]. cbn in *. lia. Qed.

(** ** Tables *)

Record tables_ok (P : gmap Z (Z * Z)) (s : pk) : Prop := {
  tb_tree : tree P (root_page_table s) (pages s);
  tb_alloc : alloc_ok s
}.

(** Pages and tables are added, [m] at most, and no entry of a page changes. *)
Record grows (m : Z) (P : gmap Z (Z * Z)) (s : pk) (P' : gmap Z (Z * Z)) (s' : pk) : Prop := {
  gr_ok : tables_ok P' s';
  gr_only : only_pages m s s';
  gr_ent k : ent s' k = ent s k;
  gr_pages a : is_Some (pages s !! a) -> is_Some (pages s' !! a);
  gr_tables a : is_Some (pages s !! a) -> P !! a = None -> P' !! a = None
}.

Lemma grows_refl P s : tables_ok P s -> grows 0 P s P s.
Proof. intros Ht. split; [done|apply only_pages_refl|done|done|done]. Qed.

Lemma grows_trans m1 m2 P1 P2 P3 s1 s2 s3 : grows m1 P1 s1 P2 s2 -> grows m2 P2 s2 P3 s3 -> grows (m1 + m2) P1 s1 P3 s3.
Proof.
  intros [A1 A2 A3 A4 A5] [B1 B2 B3 B4 B5]. split; [done|by eapply only_pages_trans|intros k; by rewrite B3|intros a Ha; by apply B4, A4|].
  intros a Ha HP. apply B5; [by apply A4|by apply A5].
Qed.

Lemma grows_mono m m' P s P' s' : m <= m' -> grows m P s P' s' -> grows m' P s P' s'.
Proof. intros Hm [A1 A2 A3 A4 A5]. split; [done|by eapply only_pages_mono|done|done|done]. Qed.

(** A new table in the place of an entry that is not valid. *)
Lemma add_table P s t l pre i :
  tables_ok P s -> P !! t = Some (l, pre) -> 0 < l <= 2 -> 0 <= i < 512 -> node (pages s) t i = None ->
  wp (page ← page_alloc; write_word (u64 (t + 8 * i)) (ptd_create (ppn page))) (no_pages 1 s)
    (fun _ s' => exists c, grows 1 P s (<[c := (l - 1, pre * 512 + i)]> P) s' /\ P !! c = None /\
       (forall a j, 0 <= j -> node (pages s') a j =
          if (a =? t) && (j =? i) then Some c else if a =? c then None else node (pages s) a j)) s.
Proof.
  intros [Ht Ha] HP Hl Hi Hn0. destruct (page_alloc_run s Ha) as [Hrun Hfresh]. apply wp_bind. unfold wp at 1. rewrite Hrun.
  destruct (Z.eqb_spec (next_free_page s) (free_pages s)) as [Hfull|Hne]; [split; [done|lia]|]. destruct (Hfresh Hne) as [Hc Hnew].
  set (c := first_free_page s + 4096 * next_free_page s) in *.
  destruct (tree_page _ _ _ Ht t _ HP) as (Hok & ws & Hws & Hlen).
  assert (Htc : t <> c) by congruence. destruct (page_ok_word t i Hok Hi) as (_ & Hp & H8 & Hx).
  set (s1 := with_pages _ _). unfold wp, write_word. rewrite gets_bind.
  assert (Hps1 : pages s1 !! t = Some ws) by (cbn; by rewrite lookup_insert_ne).
  rewrite Hp, Hps1, H8, Hx. change (0 =? 0) with true. cbv beta iota delta [modify].
  match goal with |- context [with_pages ?x s1] => set (s2 := with_pages x s1) end.
  assert (Hg : pages s2 = grown (pages s) t i c).
  { cbn. unfold grown, set_word. rewrite lookup_insert_ne by done. by rewrite Hws. }
  assert (Hlk : forall a, pages s2 !! a = if decide (a = t) then Some (<[Z.to_nat i := ptd_create (ppn c)]> ws) else if decide (a = c) then Some (zeros 512) else pages s !! a).
  { intros a. rewrite Hg. unfold grown, set_word. rewrite (lookup_insert_ne (pages s) c t) by done. rewrite Hws. cbn [default from_option id].
    destruct (decide (a = t)) as [->|Hat]; [by rewrite lookup_insert_eq|]. rewrite lookup_insert_ne by done.
    destruct (decide (a = c)) as [->|Hac]; [by rewrite lookup_insert_eq|]. by rewrite lookup_insert_ne. }
  assert (HPc : P !! c = None).
  { destruct (P !! c) as [lp|] eqn:E; [|done]. destruct (tree_page _ _ _ Ht c lp E) as (_ & wc & Hwc & _). congruence. }
  exists c. split; [|split; [exact HPc|intros a j Hj; rewrite Hg; by eapply (grown_node P)]]. split.
  - split; [rewrite Hg; by apply grown_tree|]. destruct Ha as [A1 A2 A3 A4]. split; [done|cbn; lia|done|]. intros a wa Hwa. rewrite Hlk in Hwa.
    cbn [next_free_page s2 s1 with_pages with_next_free first_free_page].
    destruct (decide (a = t)) as [->|]; [destruct (A4 t ws Hws) as (k & Hk & Hak); exists k; split; [lia|done]|].
    destruct (decide (a = c)) as [->|]; [exists (next_free_page s); split; [lia|done]|].
    destruct (A4 a wa Hwa) as (k & Hk & Hak). exists k. split; [lia|done].
  - split; [by destruct s|cbn; lia].
  - intros k. unfold ent. rewrite Hg. by apply (grown_ent P _ (pages s) Ht t l pre i c).
  - intros a Hs. rewrite Hlk. destruct (decide (a = t)); [done|]. by destruct (decide (a = c)).
  - intros a [wa Hwa] HPa. rewrite lookup_insert_ne; [done|]. congruence.
Qed.

(** What making the tables for an address leaves. *)
Definition has_table (m : Z) (P : gmap Z (Z * Z)) (va : Z) (s : pk) (p : Z) (s' : pk) : Prop :=
  exists P' t, grows m P s P' s' /\ leaf (root_page_table s') (pages s') va = Some t /\ p = slot t va.

Lemma has_table_from m1 m2 P1 P2 va s s1 p s' : grows m1 P1 s P2 s1 -> has_table m2 P2 va s1 p s' -> has_table (m1 + m2) P1 va s p s'.
Proof. intros Hg (P' & t & H1 & H2 & H3). exists P', t. split; [by eapply grows_trans|done]. Qed.

Lemma has_table_mono m m' P va s p s' : m <= m' -> has_table m P va s p s' -> has_table m' P va s p s'.
Proof. intros Hm (P' & t & H1 & H2 & H3). exists P', t. split; [by eapply grows_mono|done]. Qed.

(** The walk finds the last table. *)
Lemma create_done P s va t fuel E :
  tables_ok P s -> leaf (root_page_table s) (pages s) va = Some t -> wp (walk_create_loop (S fuel) va) E (has_table 0 P va s) s.
Proof.
  intros Htb Hl. pose proof (tb_tree _ _ Htb) as Ht. unfold wp. cbn [walk_create_loop].
  pose proof (walk_internal_run P s Ht va) as Hw. unfold leaf in Hl.
  destruct (node (pages s) (root_page_table s) (pt_idx va 2)) as [t1|] eqn:H2; [|done]. cbn in Hl. rewrite Hl in Hw.
  rewrite (run_bind _ _ _ _ _ Hw). exists P, t. split; [by apply grows_refl|]. split; [unfold leaf; by rewrite H2|done].
Qed.

(** A step that adds a table. *)
Lemma create_step P s va t l pre i fuel (E : fault -> Prop) (Q : Z -> pk -> Prop) :
  tables_ok P s -> P !! t = Some (l, pre) -> 0 < l <= 2 -> 0 <= i < 512 -> node (pages s) t i = None ->
  walk_internal va s = Ret (inl (u64 (t + 8 * i)), s) ->
  (forall c s', let P' := <[c := (l - 1, pre * 512 + i)]> P in grows 1 P s P' s' -> P !! c = None ->
     (forall a j, 0 <= j -> node (pages s') a j =
        if (a =? t) && (j =? i) then Some c else if a =? c then None else node (pages s) a j) -> wp (walk_create_loop fuel va) E Q s') ->
  (forall e, no_pages 1 s e -> E e) -> wp (walk_create_loop (S fuel) va) E Q s.
Proof.
  intros Htb HP Hl Hi Hn0 Hw Hk HE. cbn [walk_create_loop]. apply wp_bind. unfold wp at 1. rewrite Hw.
  pose proof (add_table P s t l pre i Htb HP Hl Hi Hn0) as Ha.
  unfold wp in *. unfold mbind, M_bind in *. destruct (page_alloc s) as [[c s1]|e]; [|exact (HE e Ha)].
  destruct (write_word _ _ s1) as [[u s2]|e]; [|exact (HE e Ha)]. destruct Ha as (c' & H1 & H2 & H3). by apply (Hk c').
Qed.

Lemma walk_create_tables P s va :
  tables_ok P s -> wp (walk_create va) (no_pages 2 s) (has_table 2 P va s) s.
Proof.
  intros Htb. pose proof (tb_tree _ _ Htb) as Ht. pose proof (tree_root _ _ _ Ht) as Hr.
  pose proof (pt_idx_range va 2 ltac:(lia)) as H2. pose proof (pt_idx_range va 1 ltac:(lia)) as H1.
  pose proof (walk_internal_run P s Ht va) as Hw. unfold walk_create.
  destruct (node (pages s) (root_page_table s) (pt_idx va 2)) as [t1|] eqn:N2.
  - pose proof (tree_child _ _ _ Ht _ 2 0 _ Hr ltac:(lia) H2 t1 N2) as Ht1.
    destruct (node (pages s) t1 (pt_idx va 1)) as [t0|] eqn:N1.
    + eapply wp_mono; [apply (create_done P s va t0 2 _ Htb)|intros e He; exact He|intros p s' Hp; by eapply (has_table_mono 0)].
      unfold leaf. by rewrite N2.
    + apply (create_step P s va t1 _ _ _ 2 _ _ Htb Ht1 ltac:(lia) H1 N1 Hw); [|intros e [-> He]; split; [done|lia]]. intros c s1 P1 Hg Hct Hnode.
      eapply wp_mono; [apply (create_done P1 s1 va c 1 _ (gr_ok _ _ _ _ _ Hg))|intros e Hee; exact Hee|
        intros p s' Hp; apply (has_table_mono (1 + 0)); [lia|by eapply has_table_from]].
      unfold leaf. rewrite (only_pages_root _ _ _ (gr_only _ _ _ _ _ Hg)), Hnode by lia.
      assert (Hne : root_page_table s <> t1) by (intros E; rewrite E, Ht1 in Hr; discriminate).
      rewrite (proj2 (Z.eqb_neq _ t1)), (proj2 (Z.eqb_neq _ c)) by congruence. cbn. rewrite N2. cbn.
      by rewrite Hnode, !Z.eqb_refl by lia.
  - apply (create_step P s va (root_page_table s) 2 0 (pt_idx va 2) 2 _ _ Htb Hr ltac:(lia) H2 N2 Hw); [|intros e [-> He]; split; [done|lia]].
    intros c s1 P1 Hg Hct Hnode. pose proof (gr_ok _ _ _ _ _ Hg) as Htb1. pose proof (gr_only _ _ _ _ _ Hg) as Ho.
    assert (Hrc : root_page_table s <> c) by congruence.
    assert (N2' : node (pages s1) (root_page_table s1) (pt_idx va 2) = Some c)
      by (by rewrite (only_pages_root _ _ _ Ho), Hnode, !Z.eqb_refl by lia).
    assert (N1' : node (pages s1) c (pt_idx va 1) = None).
    { rewrite Hnode, Z.eqb_refl by lia. by rewrite (proj2 (Z.eqb_neq c _)) by congruence. }
    pose proof (walk_internal_run _ s1 (tb_tree _ _ Htb1) va) as Hw1. rewrite N2', N1' in Hw1.
    assert (HPc : P1 !! c = Some (1, 0 * 512 + pt_idx va 2)) by (unfold P1; by rewrite lookup_insert_eq).
    apply (create_step P1 s1 va c _ _ (pt_idx va 1) 1 _ _ Htb1 HPc ltac:(lia) H1 N1' Hw1); [|intros e Hee; apply (no_pages_after 1 1 s s1 e Ho Hee)].
    intros c2 s2 P2 Hg2 Hct2 Hnode2. unfold P1 in Hct2. rewrite lookup_insert_None in Hct2. destruct Hct2 as [HP2 Hcc].
    eapply wp_mono; [apply (create_done P2 s2 va c2 0 _ (gr_ok _ _ _ _ _ Hg2))|intros e Hee; exact Hee|intros p s' Hp; apply (has_table_mono (1 + 1 + 0)); [lia|];
      eapply has_table_from; [by eapply grows_trans|exact Hp]].
    unfold leaf. rewrite (only_pages_root _ _ _ (gr_only _ _ _ _ _ Hg2)), Hnode2 by lia.
    rewrite (only_pages_root _ _ _ Ho) in *. rewrite (proj2 (Z.eqb_neq _ c)), (proj2 (Z.eqb_neq _ c2)) by congruence. cbn.
    rewrite N2'. cbn. by rewrite Hnode2, !Z.eqb_refl by lia.
Qed.

(** ** How many tables *)

(** A walk takes pages only when the last table on its way is missing. *)
Definition need (s : pk) (va : Z) : Z := if leaf (root_page_table s) (pages s) va is Some _ then 0 else 2.

Lemma need_le s va : 0 <= need s va <= 2.
Proof. unfold need. destruct (leaf _ _ va); lia. Qed.

Lemma walk_create_need P s va : tables_ok P s -> wp (walk_create va) (no_pages (need s va) s) (has_table (need s va) P va s) s.
Proof.
  intros Ht. unfold need. destruct (leaf (root_page_table s) (pages s) va) as [t|] eqn:Hl; [by apply (create_done P s va t 2)|by apply walk_create_tables].
Qed.

(** Pages with the same last table. *)
Lemma leaf_near root ps k k' : k / 512 = k' / 512 -> leaf root ps (k * 4096) = leaf root ps (k' * 4096).
Proof.
  intros Hk. assert (Hi : forall l x, 0 < l -> pt_idx (x * 4096) l = x / 512 / 2 ^ (9 * (l - 1)) mod 512).
  { intros l x Hl. rewrite pt_idx_eq by lia. f_equal. replace (2 ^ (9 * l + 12)) with (4096 * (512 * 2 ^ (9 * (l - 1)))).
    - rewrite <- Z.div_div, Z.div_mul, <- Z.div_div; [done|..]; pose proof (pow2_pos (9 * (l - 1)) ltac:(lia)); lia.
    - replace (9 * l + 12) with (12 + (9 + 9 * (l - 1))) by lia. by rewrite !Z.pow_add_r by lia. }
  unfold leaf. by rewrite !Hi, Hk by lia.
Qed.

(** The pages for tables that the pages from [j] up to [k] may take, in order; and any [np] pages. *)
Definition new_tables (j k : Z) : Z := if k <=? j then 0 else 2 * ((k - 1) / 512 - j / 512 + 1).
Definition table_pages (np : Z) : Z := 2 * ((np + 510) / 512 + 1).

Lemma new_tables_nonneg j k : 0 <= new_tables j k.
Proof. unfold new_tables. destruct (Z.leb_spec k j); [lia|]. zdm. Qed.

Lemma new_tables_range j np : 0 < np -> new_tables j (j + np) <= table_pages np.
Proof. intros Hn. unfold new_tables, table_pages. destruct (Z.leb_spec (j + np) j); [lia|]. zdm. Qed.

Lemma new_tables_mono j k k' : k <= k' -> new_tables j k <= new_tables j k'.
Proof. intros Hk. unfold new_tables. destruct (Z.leb_spec k j), (Z.leb_spec k' j); zdm. Qed.

(** One more page, when the page before it has its table. *)
Lemma need_next s j k : j <= k -> (j < k -> is_Some (leaf (root_page_table s) (pages s) ((k - 1) * 4096))) ->
  new_tables j k + need s (k * 4096) <= new_tables j (k + 1).
Proof.
  intros Hj Hl. pose proof (need_le s (k * 4096)). unfold new_tables. rewrite (proj2 (Z.leb_gt (k + 1) j)) by lia. replace (k + 1 - 1) with k by lia.
  destruct (Z.leb_spec k j); [assert (k = j) by lia; subst; lia|]. destruct (Z.eq_dec (k / 512) ((k - 1) / 512)) as [E|Hne]; [|zdm].
  destruct (Hl ltac:(lia)) as [t Ht]. rewrite <- (leaf_near _ _ _ _ E) in Ht. unfold need. rewrite Ht. lia.
Qed.
