(* ===== verification/PkVm.v ===== *)
(** * What the memory of the proxy kernel guarantees

    The invariant of mmap.c: the tables are a tree, every entry is empty, valid,
    or the address of a region in use, and a region counts the entries that
    point to it; and that the operations keep it. *)

From S2P Require Import Prelude State Pk PkFile PkMmap PkTree PkWalk.

(** ** Counting pages *)

Section cnt.
Context (N : Z).

Definition cnt (e : Z -> Z) (p : Z) : Z := countz (fun k => e k = p) (seqZ 0 N).

Lemma countz_app {A} (Q : A -> Prop) `{!forall x, Decision (Q x)} l l' : countz Q (l ++ l') = countz Q l + countz Q l'.
Proof. unfold countz. by rewrite filter_app, lenz_app. Qed.

Lemma countz_ext {A} (Q R : A -> Prop) `{!forall x, Decision (Q x)} `{!forall x, Decision (R x)} l :
  (forall x, x ∈ l -> Q x <-> R x) -> countz Q l = countz R l.
Proof.
  induction l as [|x l IH]; intros Hl; [done|]. rewrite !countz_cons, IH by (intros; apply Hl; by right).
  f_equal. f_equal. apply bool_decide_ext, Hl. by left.
Qed.

Lemma cnt_set e k v p : 0 <= k < N ->
  cnt (fun x => if x =? k then v else e x) p =
  cnt e p - Z.b2z (bool_decide (e k = p)) + Z.b2z (bool_decide (v = p)).
Proof.
  intros Hk. unfold cnt.
  assert (Hs : seqZ 0 N = seqZ 0 k ++ k :: seqZ (k + 1) (N - k - 1)).
  { replace N with (k + (N - k)) at 1 by lia. rewrite seqZ_app, Z.add_0_l, (seqZ_cons k) by lia.
    by replace (Z.pred (N - k)) with (N - k - 1) by lia. }
  rewrite Hs, !countz_app, !countz_cons, Z.eqb_refl.
  rewrite (countz_ext (fun x => (if x =? k then v else e x) = p) (fun x => e x = p) (seqZ 0 k)).
  2:{ intros x Hx. apply elem_of_seqZ in Hx. by rewrite (proj2 (Z.eqb_neq x k)) by lia. }
  rewrite (countz_ext (fun x => (if x =? k then v else e x) = p) (fun x => e x = p) (seqZ (k + 1) _)).
  2:{ intros x Hx. apply elem_of_seqZ in Hx. by rewrite (proj2 (Z.eqb_neq x k)) by lia. }
  lia.
Qed.

Lemma cnt_ext e e' p : (forall k, 0 <= k < N -> e k = e' k) -> cnt e p = cnt e' p.
Proof. intros He. apply countz_ext. intros k Hk. apply elem_of_seqZ in Hk. by rewrite He by lia. Qed.

Lemma cnt_range e p : 0 <= N -> 0 <= cnt e p <= N.
Proof. intros HN. unfold cnt. pose proof (countz_nonneg (fun k => e k = p) (seqZ 0 N)) as H. unfold lenz in H. rewrite length_seqZ in H. lia. Qed.

Lemma cnt_pos e p k : 0 <= k < N -> e k = p -> 0 < cnt e p.
Proof.
  intros Hk He. apply (countz_pos _ _ (Z.to_nat k) k); [|done].
  rewrite lookup_seqZ_lt by lia. f_equal. lia.
Qed.

Lemma cnt_0 e p : cnt e p = 0 -> forall k, 0 <= k < N -> e k <> p.
Proof. intros H0 k Hk He. pose proof (cnt_pos e p k Hk He). lia. Qed.
End cnt.

(** ** The invariant *)

(** A region in use lies below the end of the user's part of the address space. *)
Definition region_ok (s : pk) (v : vmr_t) : Prop :=
  vmr_addr v mod 4096 = 0 /\ 0 <= vmr_addr v /\ 0 < vmr_length v /\ vmr_addr v + vmr_length v <= mmap_max (current s).

(** The page [k] of the program is in the memory from [first_free_paddr] on. *)
Definition page_ppn (s : pk) (k : Z) : Z := k + first_free_paddr s / 4096.
Definition present_ok (s : pk) (k w : Z) : Prop := has w PTE_V = true /\ (k * 4096 < mmap_max (current s) -> pte_ppn w = page_ppn s k).

Definition vmr_holds (f : nat) (v : vmr_t) : Prop := vmr_refcnt v <> 0 /\ vmr_file v = Some f.
#[export] Instance vmr_holds_dec f v : Decision (vmr_holds f v).
Proof. unfold vmr_holds. apply _. Defined.

(** [pend] are the references a region is still to get or to lose, [extra] the
    holders of a file besides descriptors and regions, [n] bounds the lost
    references of [files_ok]. *)
Record vm_ok (n : Z) (P : gmap Z (Z * Z)) (base : Z) (vs : list vmr_t) (pend : nat -> Z) (extra : nat -> Z) (s : pk) : Prop := {
  vm_tree : tree P (root_page_table s) (pages s);
  vm_alloc_ok : alloc_ok s;
  vm_vmrs : vmrs s = Some (base, vs);
  vm_len : length vs = MAX_VMR;
  vm_base : page_ok base /\ P !! base = None /\ exists ws, pages s !! base = Some ws;
  vm_top : 0 <= mmap_max (current s) <= 2 ^ 38;
  vm_ent k : 0 <= k < PAGES -> ent s k = 0 \/ present_ok s k (ent s k) \/
    exists i v, vs !! i = Some v /\ ent s k = vmr_ptr base i /\ vmr_addr v <= k * 4096 < vmr_addr v + vmr_length v;
  vm_count i v : vs !! i = Some v -> vmr_refcnt v = cnt PAGES (ent s) (vmr_ptr base i) + pend i /\ 0 <= vmr_refcnt v < 2 ^ 32;
  vm_region i v : vs !! i = Some v -> vmr_refcnt v <> 0 -> region_ok s v;
  vm_file i v f : vs !! i = Some v -> vmr_refcnt v <> 0 -> vmr_file v = Some f -> (f < MAX_FILES)%nat;
  vm_extra f : 0 <= extra f <= 2 ^ 20;
  vm_files : files_ok 1 n (fun f => countz (vmr_holds f) vs + extra f) s
}.

(** ** Pointers to regions *)

Lemma vmr_ptr_facts base i : page_ok base -> (i < MAX_VMR)%nat ->
  vmr_ptr base i <> 0 /\ has (vmr_ptr base i) PTE_V = false /\ vmr_index base (vmr_ptr base i) = i /\
  ((vmr_ptr base i - base) mod SIZEOF_VMR =? 0) && (base <=? vmr_ptr base i) = true.
Proof.
  intros [Hb Hm] Hi. unfold vmr_ptr, vmr_index, SIZEOF_VMR. split; [lia|]. split; [|split].
  - unfold has. change PTE_V with (Z.ones 1). rewrite Z.land_ones by lia. apply negb_false_iff, Z.eqb_eq. change (2 ^ 1) with 2. clear - Hm. zdm.
  - replace (base + 40 * Z.of_nat i - base) with (Z.of_nat i * 40) by lia. rewrite Z.div_mul, Nat2Z.id by lia. done.
  - replace (base + 40 * Z.of_nat i - base) with (Z.of_nat i * 40) by lia. rewrite Z.mod_mul by lia.
    cbn [Z.eqb andb]. apply Z.leb_le. lia.
Qed.

Lemma vmr_ptr_inj base i j : vmr_ptr base i = vmr_ptr base j -> i = j.
Proof. unfold vmr_ptr, SIZEOF_VMR. lia. Qed.

Lemma read_vmr_run base vs s i v : page_ok base -> length vs = MAX_VMR -> vmrs s = Some (base, vs) -> vs !! i = Some v ->
  read_vmr (vmr_ptr base i) s = Ret (v, s).
Proof.
  intros Hb Hl Hs Hi. assert (Hlt : (i < MAX_VMR)%nat) by (rewrite <- Hl; by eapply lookup_lt_Some).
  destruct (vmr_ptr_facts base i Hb Hlt) as (_ & _ & Hx & Hok). unfold read_vmr, get_vmrs.
  rewrite bind_bind, gets_bind, Hs, ret_bind, Hok, Hx. by rewrite Hi.
Qed.

Lemma write_vmr_run base vs s i v : page_ok base -> (i < MAX_VMR)%nat -> vmrs s = Some (base, vs) ->
  write_vmr (vmr_ptr base i) v s = Ret (tt, with_vmrs (Some (base, <[i := v]> vs)) s).
Proof.
  intros Hb Hi Hs. destruct (vmr_ptr_facts base i Hb Hi) as (_ & _ & Hx & Hok). unfold write_vmr, get_vmrs.
  by rewrite bind_bind, gets_bind, Hs, ret_bind, Hok, Hx.
Qed.

(** ** Steps that keep the invariant *)

(** [b2z] of a proposition. *)
#[local] Notation one Q := (Z.b2z (bool_decide Q)).

Section steps.
Context {host : Host} (n : Z) (Hn : 0 <= n <= 2 ^ 30).

Definition points (s : pk) (base : Z) (vs : list vmr_t) (k w : Z) : Prop :=
  w = 0 \/ present_ok s k w \/
  exists i v, vs !! i = Some v /\ w = vmr_ptr base i /\ vmr_addr v <= k * 4096 < vmr_addr v + vmr_length v.

Lemma vm_set P base vs pend pend' extra s va t w :
  vm_ok n P base vs pend extra s -> leaf (root_page_table s) (pages s) va = Some t -> points s base vs (vpn va) w ->
  (forall i, (i < MAX_VMR)%nat -> pend' i = pend i + one (ent s (vpn va) = vmr_ptr base i) - one (w = vmr_ptr base i)) ->
  vm_ok n P base vs pend' extra (with_ent t va w s).
Proof.
  intros Hv Hl Hw Hp. pose proof (vm_tree _ _ _ _ _ _ _ Hv) as Ht. pose proof (leaf_level _ _ _ _ _ Ht Hl) as HP.
  destruct (tree_page _ _ _ Ht t _ HP) as (_ & ws & Hws & Hlen). pose proof (vpn_range va) as Hk.
  assert (He : forall k, 0 <= k < PAGES -> ent (with_ent t va w s) k = if k =? vpn va then w else ent s k)
    by (intros; by eapply ent_with).
  destruct Hv as [_ Ha Hvm Hlv (Hb1 & Hb2 & Hb3) Htop Hent Hc Hr Hf Hx Hfs]. split; try done.
  - destruct (ent_set P _ _ va t w Ht Hl) as (Ht' & _ & _). exact Ht'.
  - destruct Ha as [A1 A2 A3 A4]. split; [done..|]. intros a wa Hwa. cbn in Hwa. unfold set_word in Hwa.
    rewrite Hws in Hwa. destruct (decide (a = t)) as [->|]; [by eapply A4|]. rewrite lookup_insert_ne in Hwa by done. by eapply A4.
  - split; [done|]. split; [done|]. cbn. unfold set_word. rewrite lookup_insert_ne by congruence. done.
  - intros k Hk'. rewrite He by done. destruct (Z.eqb_spec k (vpn va)) as [->|]; [exact Hw|by apply Hent].
  - intros i v Hi. assert (Hlt : (i < MAX_VMR)%nat) by (rewrite <- Hlv; by eapply lookup_lt_Some).
    specialize (Hp i Hlt). destruct (Hc i v Hi) as (Hq & Hq2). split; [|done].
    rewrite (cnt_ext _ _ _ _ He), cnt_set by done. lia.
  - destruct Hfs. by split.
Qed.

(** A region's count in the list of regions. *)
Definition with_refcnt (v : vmr_t) (c : Z) : vmr_t :=
  MkVmr (vmr_addr v) (vmr_length v) (vmr_file v) (vmr_offset v) c (vmr_prot v).

Lemma holds_refcnt f v c : c <> 0 -> vmr_refcnt v <> 0 -> vmr_holds f (with_refcnt v c) <-> vmr_holds f v.
Proof. unfold vmr_holds. cbn. tauto. Qed.

Lemma files_ok_same held s s' : fds s' = fds s -> files s' = files s -> files_ok 1 n held s -> files_ok 1 n held s'.
Proof. intros Hd Hf Hs. destruct Hs as [H1 H2 H3 H4 H5]. split; rewrite ?Hd, ?Hf; try done. intros f x Hx. specialize (H5 f x Hx). unfold counted, fd_refs in *. by rewrite Hd. Qed.

(** Regions for the same pages of the same file. *)
Definition same_place (v v' : vmr_t) : Prop :=
  vmr_addr v' = vmr_addr v /\ vmr_length v' = vmr_length v /\ vmr_file v' = vmr_file v.

(** Everything but the count of files and one region stays. *)
Lemma vm_update P base vs pend extra s i v v' extra' s' :
  vm_ok n P base vs pend extra s -> vs !! i = Some v -> same_place v v' -> 0 <= vmr_refcnt v' -> vmr_refcnt v' <= vmr_refcnt v ->
  pages s' = pages s -> root_page_table s' = root_page_table s -> first_free_paddr s' = first_free_paddr s -> alloc_ok s' -> current s' = current s ->
  vmrs s' = Some (base, <[i := v']> vs) -> (forall f, 0 <= extra' f <= 2 ^ 20) ->
  files_ok 1 n (fun f => countz (vmr_holds f) (<[i := v']> vs) + extra' f) s' ->
  vm_ok n P base (<[i := v']> vs) (fun j => if decide (j = i) then pend i - (vmr_refcnt v - vmr_refcnt v') else pend j) extra' s'.
Proof.
  intros Hv Hi (Hp1 & Hp2 & Hp3) Hc0 Hc1 Hpg Hrt Hpa Hal Hcu Hvs Hx' Hfs'. assert (Hlt : (i < length vs)%nat) by (by eapply lookup_lt_Some).
  assert (He : forall k, ent s' k = ent s k) by (intros k; unfold ent; by rewrite Hpg, Hrt).
  destruct Hv as [Ht Ha Hvm Hlv Hb Htop Hent Hc Hr Hf Hx Hfs]. split; try done.
  - by rewrite Hrt, Hpg.
  - by rewrite length_insert.
  - by rewrite Hpg.
  - by rewrite Hcu.
  - intros k Hk. rewrite He. destruct (Hent k Hk) as [H|[H|(j & w & Hj & Hp & Hw)]]; [by left|right; left; unfold present_ok, page_ppn in *; by rewrite Hcu, Hpa|].
    right; right. destruct (decide (j = i)) as [->|].
    + exists i, v'. rewrite list_lookup_insert_eq by done. rewrite Hp1, Hp2. simplify_eq. done.
    + exists j, w. by rewrite list_lookup_insert_ne.
  - intros j w Hj. rewrite (cnt_ext _ _ _ _ (fun k _ => He k)). destruct (decide (j = i)) as [->|].
    + rewrite list_lookup_insert_eq in Hj by done. injection Hj as <-. destruct (Hc i v Hi) as (H1 & H2). lia.
    + rewrite list_lookup_insert_ne in Hj by done. exact (Hc j w Hj).
  - intros j w Hj. unfold region_ok. rewrite Hcu. destruct (decide (j = i)) as [->|].
    + rewrite list_lookup_insert_eq in Hj by done. injection Hj as <-. rewrite Hp1, Hp2. intros H. apply (Hr i v Hi). lia.
    + rewrite list_lookup_insert_ne in Hj by done. exact (Hr j w Hj).
  - intros j w f Hj. destruct (decide (j = i)) as [->|].
    + rewrite list_lookup_insert_eq in Hj by done. injection Hj as <-. rewrite Hp3. intros H. apply (Hf i v f Hi). lia.
    + rewrite list_lookup_insert_ne in Hj by done. exact (Hf j w f Hj).
Qed.

Lemma holds_insert f vs i v c : vs !! i = Some v ->
  countz (vmr_holds f) (<[i := with_refcnt v c]> vs) =
  countz (vmr_holds f) vs - one (vmr_holds f v) + one (vmr_holds f (with_refcnt v c)).
Proof. intros Hi. by rewrite (countz_insert _ _ _ v). Qed.

Lemma decref_vm P base vs pend extra s i v :
  vm_ok n P base vs pend extra s -> vs !! i = Some v -> 0 < vmr_refcnt v ->
  exists s', vmr_decref (vmr_ptr base i) 1 s = Ret (tt, s') /\
    vm_ok n P base (<[i := with_refcnt v (vmr_refcnt v - 1)]> vs)
      (fun j => if decide (j = i) then pend i - 1 else pend j) extra s' /\
    same_kfds s s' /\ exists fs cs, s' = with_calls cs (pmem s) (with_files fs (with_vmrs (vmrs s') s)) /\ closes_of (vmr_file v) (calls s) cs.
Proof.
  intros Hv Hi Hp. destruct (vm_count _ _ _ _ _ _ _ Hv i v Hi) as (Hcnt & H32). pose proof (cnt_range PAGES (ent s) (vmr_ptr base i) ltac:(done)).
  pose proof (vm_base _ _ _ _ _ _ _ Hv) as (Hb & _). pose proof (vm_len _ _ _ _ _ _ _ Hv) as Hlen.
  assert (Hlt : (i < MAX_VMR)%nat) by (rewrite <- Hlen; by eapply lookup_lt_Some).
  unfold vmr_decref. rewrite (run_bind _ _ _ _ _ (read_vmr_run base vs s i v Hb Hlen (vm_vmrs _ _ _ _ _ _ _ Hv) Hi)).
  rewrite (run_bind _ _ _ _ _ (write_vmr_run base vs s i _ Hb Hlt (vm_vmrs _ _ _ _ _ _ _ Hv))).
  rewrite (u32_small (vmr_refcnt v - 1)) by lia. change (MkVmr _ _ _ _ (vmr_refcnt v - 1) _) with (with_refcnt v (vmr_refcnt v - 1)).
  set (vs' := <[i := _]> vs). set (s1 := with_vmrs _ s).
  assert (Hre : forall fs cs, files_ok 1 n (fun f => countz (vmr_holds f) vs' + extra f) (with_calls cs (pmem s) (with_files fs s1)) ->
    vm_ok n P base vs' (fun j => if decide (j = i) then pend i - 1 else pend j) extra (with_calls cs (pmem s) (with_files fs s1))).
  { intros fs cs Hfs. pose proof (vm_update P base vs pend extra s i v (with_refcnt v (vmr_refcnt v - 1)) extra (with_calls cs (pmem s) (with_files fs s1)) Hv Hi) as Hrc.
    cbn [vmr_refcnt with_refcnt] in Hrc. replace (pend i - (vmr_refcnt v - (vmr_refcnt v - 1))) with (pend i - 1) in Hrc by lia.
    apply Hrc; [by repeat split|lia|lia|reflexivity|reflexivity|reflexivity| |reflexivity|reflexivity|apply Hv|exact Hfs].
    destruct (vm_alloc_ok _ _ _ _ _ _ _ Hv) as [A1 A2 A3 A4]. by split. }
  pose proof (vm_files _ _ _ _ _ _ _ Hv) as Hfs.
  assert (Hsame : forall held, files_ok 1 n held s -> files_ok 1 n held s1) by (intros held; by apply files_ok_same).
  destruct (Z.eqb_spec (vmr_refcnt v - 1) 0) as [H0|H0].
  - destruct (vmr_file v) as [f|] eqn:Hf.
    + destruct (decref_held 1 n ltac:(done) Hn _ s1 f (Hsame _ Hfs)) as (s' & Hd & Hs' & [(fs & cs & -> & Hcl) Hkf] & _).
      { apply (vm_file _ _ _ _ _ _ _ Hv i v f Hi); [lia|done]. }
      { pose proof (vm_extra _ _ _ _ _ _ _ Hv f). assert (Hh : vmr_holds f v) by (split; [lia|done]). pose proof (countz_pos _ vs i v Hi Hh). lia. }
      rewrite Hd. eexists. split; [reflexivity|]. split; [|split; [exact Hkf|by exists fs, cs]]. apply Hre.
      revert Hs'. apply files_ok_ext. intros g. unfold hold, vs'. rewrite (holds_insert g vs i v _ Hi).
      rewrite (bool_decide_eq_false_2 (vmr_holds g (with_refcnt _ _))) by (intros [Hh _]; cbn in Hh; lia).
      destruct (decide (g = f)) as [->|Hne].
      * rewrite bool_decide_eq_true_2 by (split; [lia|done]). cbn [Z.b2z]. lia.
      * rewrite bool_decide_eq_false_2 by (intros [_ Hh]; congruence). cbn [Z.b2z]. lia.
    + eexists. split; [reflexivity|]. split; [|split; [done|exists (files s), (calls s); split; [by destruct s|done]]]. replace s1 with (with_calls (calls s) (pmem s) (with_files (files s1) s1)) by (by destruct s).
      apply Hre. apply (files_ok_same _ s1); [done..|]. apply Hsame. revert Hfs. apply files_ok_ext. intros g. unfold vs'.
      rewrite (holds_insert g vs i v _ Hi). rewrite !bool_decide_eq_false_2; [cbn [Z.b2z]; lia|intros [_ Hh]; cbn in Hh; congruence..].
  - eexists. split; [reflexivity|]. split; [|split; [done|exists (files s), (calls s); split; [by destruct s|by destruct (vmr_file v)]]]. replace s1 with (with_calls (calls s) (pmem s) (with_files (files s1) s1)) by (by destruct s).
    apply Hre. apply (files_ok_same _ s1); [done..|]. apply Hsame. revert Hfs. apply files_ok_ext. intros g. unfold vs'.
    rewrite (holds_insert g vs i v _ Hi). rewrite (bool_decide_ext (vmr_holds g (with_refcnt _ _)) (vmr_holds g v)); [lia|].
    apply holds_refcnt; lia.
Qed.

(** ** New tables *)

Lemma vm_tables P base vs pend extra s : vm_ok n P base vs pend extra s -> tables_ok P s.
Proof. intros Hv. split; apply Hv. Qed.

(** Growing the tables keeps the invariant. *)
Lemma vm_grows m P P' base vs pend extra s s' :
  vm_ok n P base vs pend extra s -> grows m P s P' s' -> vm_ok n P' base vs pend extra s'.
Proof.
  intros [Ht Ha Hvm Hlv (Hb1 & Hb2 & Hb3) Htop Hent Hcnt Hr Hf Hxx Hfs] [[Ht' Ha'] Ho He Hp HP].
  assert (Hsame : vmrs s' = vmrs s /\ current s' = current s /\ first_free_paddr s' = first_free_paddr s /\ fds s' = fds s /\ files s' = files s)
    by (by destruct Ho as [-> _]). destruct Hsame as (S1 & S2 & S3 & S4 & S5). split; try assumption.
  - by rewrite S1.
  - split; [done|]. split; [by apply HP|by apply Hp].
  - by rewrite S2.
  - intros k Hk. rewrite He. unfold present_ok, page_ppn. rewrite S2, S3. by apply Hent.
  - intros j v Hj. rewrite (cnt_ext _ _ _ _ (fun k _ => He k)). exact (Hcnt j v Hj).
  - intros j v Hj. unfold region_ok. rewrite S2. exact (Hr j v Hj).
  - by apply (files_ok_same _ s).
Qed.

(** What making the tables for an address leaves. *)
Definition has_leaf (m base : Z) (vs : list vmr_t) (pend extra : nat -> Z) (va : Z) (s : pk) (p : Z) (s' : pk) : Prop :=
  exists P t, vm_ok n P base vs pend extra s' /\ leaf (root_page_table s') (pages s') va = Some t /\ p = slot t va /\
    (forall k, ent s' k = ent s k) /\ only_pages m s s'.

Lemma walk_create_spec P base vs pend extra s va :
  vm_ok n P base vs pend extra s -> wp (walk_create va) (no_pages (need s va) s) (has_leaf (need s va) base vs pend extra va s) s.
Proof.
  intros Hv. eapply wp_mono; [by apply (walk_create_need P), (vm_tables _ _ _ _ _ _ Hv)|done|].
  intros p s' (P' & t & Hg & Hl & Hp). exists P', t. split; [by eapply vm_grows|]. split; [done|]. split; [done|]. split; apply Hg.
Qed.

(** ** Operations on one page *)

(** What the operations leave alone. *)
Record frame (s s' : pk) : Prop := {
  fr_fds : fds s' = fds s;
  fr_first : first_free_page s' = first_free_page s;
  fr_free : free_pages s' = free_pages s;
  fr_root : root_page_table s' = root_page_table s;
  fr_paddr : first_free_paddr s' = first_free_paddr s;
  fr_dram : DRAM_BASE s' = DRAM_BASE s;
  fr_have : have_vm s' = have_vm s;
  fr_lock : vm_lock s' = vm_lock s;
  fr_current : current s' = current s;
  fr_kfds : same_kfds s s'
}.

#[global] Instance frame_preorder : PreOrder frame.
Proof. split; [by split|]. intros s1 s2 s3 [] []. split; [congruence..|intros f; unfold same_kfds in *; congruence]. Qed.

Lemma frame_pages m s s' : only_pages m s s' -> frame s s'.
Proof. intros [-> _]. by split. Qed.

(** Regions that differ in their counts only. *)
Definition recounted (vs vs' : list vmr_t) : Prop :=
  forall i v, vs !! i = Some v -> exists c, vs' !! i = Some (with_refcnt v c).

#[global] Instance recounted_preorder : PreOrder recounted.
Proof.
  split.
  - intros vs i v Hi. exists (vmr_refcnt v). by destruct v.
  - intros v1 v2 v3 H1 H2 i v Hi. destruct (H1 i v Hi) as [c Hc]. destruct (H2 i _ Hc) as [c' Hc']. by exists c'.
Qed.

Lemma recounted_insert vs i v c : vs !! i = Some v -> recounted vs (<[i := with_refcnt v c]> vs).
Proof.
  intros Hi j w Hj. destruct (decide (j = i)) as [->|].
  - simplify_eq. exists c. rewrite list_lookup_insert_eq; [done|by eapply lookup_lt_Some].
  - exists (vmr_refcnt w). rewrite list_lookup_insert_ne by done. by destruct w.
Qed.

(** The entry of the page of an address has become [w], every other is as before. *)
Definition ent_became (va w : Z) (s s' : pk) : Prop :=
  forall k, 0 <= k < PAGES -> ent s' k = if k =? vpn va then w else ent s k.

Lemma munmap_page_run P base vs pend extra s va :
  (forall i, 0 <= pend i) ->
  vm_ok n P base vs pend extra s ->
  exists vs' s', munmap_page va s = Ret (tt, s') /\ vm_ok n P base vs' pend extra s' /\
    ent_became va 0 s s' /\ recounted vs vs' /\ frame s s' /\ closes (calls s) (calls s') /\ pmem s' = pmem s /\
    next_free_page s' = next_free_page s /\ forall a, leaf (root_page_table s') (pages s') a = leaf (root_page_table s) (pages s) a.
Proof.
  intros Hp0 Hv. pose proof (vm_tree _ _ _ _ _ _ _ Hv) as Ht. pose proof (vpn_range va) as Hk.
  unfold munmap_page. rewrite (run_bind _ _ _ _ _ (walk_run P s Ht va)).
  destruct (leaf (root_page_table s) (pages s) va) as [t|] eqn:Hl; cbn [fmap option_fmap option_map].
  2:{ exists vs, s. split; [done|]. split; [done|]. split; [|done]. intros k Hk'.
      destruct (Z.eqb_spec k (vpn va)) as [->|]; [|done]. rewrite <- ent_vpn. by apply walk_missing. }
  rewrite (run_bind _ _ _ _ _ (read_slot P s Ht va t Hl)), ent_vpn.
  destruct (Z.eqb_spec (ent s (vpn va)) 0) as [H0|H0].
  { exists vs, s. split; [done|]. split; [done|]. split; [|done]. intros k Hk'. by destruct (Z.eqb_spec k (vpn va)) as [->|]. }
  destruct (vm_ent _ _ _ _ _ _ _ Hv (vpn va) Hk) as [|[[Hva _]|(i & v & Hi & Hp & Hr)]]; [done| |].
  - rewrite Hva. cbn [negb]. rewrite ret_bind. rewrite (write_slot_run P s va t 0 Ht Hl).
    exists vs. eexists. split; [reflexivity|]. split; [|split; [intros k Hk'; by apply (ent_with P)|]].
    2:{ split; [done|]. split; [by split|]. split; [done|]. split; [done|]. split; [done|]. intros a. by destruct (ent_set P _ _ va t 0 Ht Hl) as (_ & Hlf & _). }
    eapply vm_set; [exact Hv|exact Hl|by left|]. intros j Hj.
    pose proof (vm_base _ _ _ _ _ _ _ Hv) as (Hb & _). destruct (vmr_ptr_facts base j Hb Hj) as (Hz & Hnv & _).
    rewrite !bool_decide_eq_false_2; [cbn [Z.b2z]; lia|congruence|]. intros E. rewrite E, Hnv in Hva. done.
  - destruct (vm_base _ _ _ _ _ _ _ Hv) as (Hb & _).
    assert (Hlt : (i < MAX_VMR)%nat) by (rewrite <- (vm_len _ _ _ _ _ _ _ Hv); by eapply lookup_lt_Some).
    destruct (vmr_ptr_facts base i Hb Hlt) as (_ & Hnv & _). rewrite Hp, Hnv. cbn [negb].
    destruct (vm_count _ _ _ _ _ _ _ Hv i v Hi) as (Hcnt & _). pose proof (cnt_pos PAGES (ent s) _ _ Hk Hp). specialize (Hp0 i).
    destruct (decref_vm P base vs _ extra s i v Hv Hi ltac:(lia)) as (s1 & Hd & Hv1 & Hkf & fs & cs & Hs1 & Hcl).
    rewrite (run_bind _ _ _ _ _ Hd). pose proof (vm_tree _ _ _ _ _ _ _ Hv1) as Ht1.
    assert (He1 : forall k, ent s1 k = ent s k) by (intros k; rewrite Hs1; reflexivity).
    assert (Hl1 : leaf (root_page_table s1) (pages s1) va = Some t) by (rewrite Hs1; exact Hl).
    rewrite (write_slot_run P s1 va t 0 Ht1 Hl1).
    exists (<[i := with_refcnt v (vmr_refcnt v - 1)]> vs). eexists. split; [reflexivity|].
    split; [|split; [|split; [exact (recounted_insert vs i v _ Hi)|]]].
    + eapply vm_set; [exact Hv1|exact Hl1|by left|]. intros j Hj.
      rewrite He1, Hp.
      destruct (vmr_ptr_facts base j Hb Hj) as (Hz & _). rewrite (bool_decide_eq_false_2 (0 = _)) by congruence.
      destruct (decide (j = i)) as [->|Hne]; [rewrite bool_decide_eq_true_2 by done; cbn [Z.b2z]; lia|].
      rewrite bool_decide_eq_false_2; [cbn [Z.b2z]; lia|]. intros E. apply Hne. symmetry. exact (vmr_ptr_inj base i j E).
    + intros k Hk'. by rewrite (ent_with P s1 va t 0 k Ht1 Hl1 Hk'), He1.
    + split; [transitivity s1; [rewrite Hs1 in Hkf |- *; by split|by split]|]. rewrite Hs1. split; [exact (closes_of_closes _ _ _ Hcl)|split; [reflexivity|split; [reflexivity|]]]. intros a.
      destruct (ent_set P _ _ va t 0 Ht Hl) as (_ & Hlf & _). exact (Hlf a).
Qed.

(** ** Loops over pages *)

(** The page at which a loop from page [j] up to address [last] ends. *)
Definition page_end (j last : Z) : Z := Z.max j ((last + 4095) / 4096).

Lemma for_pages_wp (I : Z -> pk -> Prop) (E : fault -> Prop) last body : last <= 2 ^ 38 -> forall fuel j s,
  0 <= j -> (forall k s, j <= k -> k * 4096 < last -> I k s -> wp (body (k * 4096)) E (fun _ => I (k + 1)) s) ->
  I j s -> (0 < fuel)%nat -> last - j * 4096 < 4096 * (Z.of_nat fuel - 1) ->
  wp (for_pages fuel (j * 4096) last body) E (fun _ => I (page_end j last)) s.
Proof.
  intros Hlast. induction fuel as [|fuel IH]; intros j s Hj Hbody HI H0 Hf; [lia|]. cbn [for_pages].
  destruct (Z.ltb_spec (j * 4096) last).
  - apply wp_bind. eapply wp_mono; [apply (Hbody j s); done || lia|done|]. intros [] s1 HI1; cbv beta in HI1.
    unfold RISCV_PGSIZE. assert (Hu : u64 (j * 4096 + 4096) = (j + 1) * 4096) by (rewrite u64_small; lia). rewrite Hu.
    replace (page_end j last) with (page_end (j + 1) last) by (unfold page_end; zdm).
    apply (IH (j + 1) s1); [lia| |done|lia|lia]. intros k s2 Hk. apply Hbody. lia.
  - apply wp_ret. replace (page_end j last) with j by (unfold page_end; zdm). done.
Qed.

Lemma page_fuel_enough len j : 0 <= len -> (0 < page_fuel len)%nat /\ j * 4096 + len - j * 4096 < 4096 * (Z.of_nat (page_fuel len) - 1).
Proof. intros Hl. unfold page_fuel, RISCV_PGSIZE. split; [lia|]. rewrite !Nat2Z.inj_succ, Z2Nat.id by (apply Z.div_pos; lia). zdm. Qed.

(** ** Unmapping *)

(** The pages [j] to [k] of [s] are empty in [s']. *)
Record unmapped (base : Z) (extra : nat -> Z) (s : pk) (vs : list vmr_t) (j k : Z) (vs' : list vmr_t) (s' : pk) : Prop := {
  un_ent x : 0 <= x < PAGES -> ent s' x = if (j <=? x) && (x <? k) then 0 else ent s x;
  un_vs : recounted vs vs';
  un_frame : frame s s';
  un_calls : closes (calls s) (calls s');
  un_pmem : pmem s' = pmem s;
  un_next : next_free_page s' = next_free_page s;
  un_leaf a : leaf (root_page_table s') (pages s') a = leaf (root_page_table s) (pages s) a
}.

Lemma do_munmap_run P base vs pend extra s j len :
  (forall i, 0 <= pend i) ->
  vm_ok n P base vs pend extra s -> 0 <= j -> 0 <= len -> j * 4096 + len <= 2 ^ 38 ->
  exists vs' s', do_munmap_locked (j * 4096) len s = Ret (tt, s') /\ vm_ok n P base vs' pend extra s' /\
    unmapped base extra s vs j (page_end j (j * 4096 + len)) vs' s'.
Proof.
  intros Hp0 Hv Hj Hl Hm. unfold do_munmap_locked. rewrite u64_small by lia.
  pose (I := fun k s' => exists vs', vm_ok n P base vs' pend extra s' /\ unmapped base extra s vs j k vs' s').
  destruct (page_fuel_enough len j Hl) as [Hf1 Hf2].
  destruct (wp_total (for_pages (page_fuel len) (j * 4096) (j * 4096 + len) munmap_page) (fun _ => I (page_end j (j * 4096 + len))) s)
    as ([] & s' & Hr & vs' & H1 & H2); [|by exists vs', s'].
  apply for_pages_wp; try done.
  - intros k s1 Hk Hkm (vs1 & Hv1 & Hu1).
    destruct (munmap_page_run P base vs1 pend extra s1 (k * 4096) Hp0 Hv1) as (vs2 & s2 & Hr & Hv2 & He & Hrec & Hfr & Hc & Hpm & Hnx & Hlf).
    unfold wp. rewrite Hr. exists vs2. split; [done|]. destruct Hu1 as [U1 U2 U3 U4 U5 U7 U6]. split; [|by etrans..|congruence|congruence|intros a; by rewrite Hlf].
    intros x Hx. rewrite (He x Hx), (U1 x Hx), vpn_page by (unfold PAGES in *; lia).
    destruct (Z.eqb_spec x k), (Z.leb_spec j x), (Z.ltb_spec x (k + 1)), (Z.ltb_spec x k); cbn [andb]; lia || done.
  - exists vs. split; [done|]. split; [|done..]. intros x Hx. destruct (Z.leb_spec j x), (Z.ltb_spec x j); cbn [andb]; lia || done.
Qed.
End steps.
