(* ===== verification/PkMap.v ===== *)
(** * mmap of the proxy kernel

    A new region: the search for free pages, the entry in the list of regions,
    and the entries of its pages that point to it. *)

From S2P Require Import Prelude State Pk PkFile PkMmap PkTree PkWalk PkVm.

#[local] Notation one Q := (Z.b2z (bool_decide Q)).

Section map.
Context {host : Host} (n : Z) (Hn : 0 <= n <= 2 ^ 30).

(** ** Mapping *)

(** [m] references of region [i] are still to come. *)
Definition pending (i : nat) (m : Z) : nat -> Z := fun j => if decide (j = i) then m else 0.

Lemma pending_nonneg i m : 0 <= m -> forall j, 0 <= pending i m j.
Proof. intros Hm j. unfold pending. case_decide; lia. Qed.

Lemma ent_became_trans va w w' s s1 s2 : ent_became va w s s1 -> ent_became va w' s1 s2 -> ent_became va w' s s2.
Proof. intros H1 H2 k Hk. rewrite (H2 k Hk), (H1 k Hk). by destruct (k =? vpn va). Qed.

(** The calls to the host and the memory stay too, and at most [m] pages are taken. *)
Record keeps (m : Z) (s s' : pk) : Prop := {
  kp_frame : frame s s';
  kp_calls : closes (calls s) (calls s');
  kp_pmem : pmem s' = pmem s;
  kp_next : next_free_page s' <= next_free_page s + m
}.

Lemma keeps_trans m1 m2 s1 s2 s3 : keeps m1 s1 s2 -> keeps m2 s2 s3 -> keeps (m1 + m2) s1 s3.
Proof. intros [A1 A2 A3 A4] [B1 B2 B3 B4]. split; [by etrans|by etrans|congruence|lia]. Qed.

Lemma keeps_mono m m' s s' : m <= m' -> keeps m s s' -> keeps m' s s'.
Proof. intros Hm [A1 A2 A3 A4]. split; [done|done|done|lia]. Qed.

Lemma only_pages_keeps m s s' : only_pages m s s' -> keeps m s s'.
Proof. intros Ho. split; [by eapply frame_pages|destruct Ho as [-> ?]; cbn; done || lia..]. Qed.

Lemma unmapped_keeps base extra s vs j k vs' s' : unmapped base extra s vs j k vs' s' -> keeps 0 s s'.
Proof. intros [U1 U2 U3 U4 U5 U6 U7]. split; [done|done|done|lia]. Qed.

(** The last step: the entry of a page that is empty points to the region. *)
Lemma point_page P base vs extra s i v m k t :
  vm_ok n P base vs (pending i m) extra s -> vs !! i = Some v -> 0 <= k < PAGES ->
  vmr_addr v <= k * 4096 < vmr_addr v + vmr_length v ->
  leaf (root_page_table s) (pages s) (k * 4096) = Some t -> ent s k = 0 ->
  exists s', write_word (slot t (k * 4096)) (vmr_ptr base i) s = Ret (tt, s') /\
    vm_ok n P base vs (pending i (m - 1)) extra s' /\ ent_became (k * 4096) (vmr_ptr base i) s s' /\ keeps 0 s s' /\
    leaf (root_page_table s') (pages s') (k * 4096) = Some t.
Proof.
  intros Hv Hi Hk Hr Hl H0. pose proof (vm_tree _ _ _ _ _ _ _ Hv) as Ht. destruct (vm_base _ _ _ _ _ _ _ Hv) as (Hb & _).
  rewrite (write_slot_run P s _ t _ Ht Hl). eexists. split; [reflexivity|].
  split; [|split; [intros x Hx; by apply (ent_with P)|split; [split; [by split|reflexivity|reflexivity|cbn; lia]|]]].
  2:{ destruct (ent_set P _ _ (k * 4096) t (vmr_ptr base i) Ht Hl) as (_ & Hlf & _). cbn. by rewrite Hlf. }
  eapply vm_set; [exact Hv|exact Hl|right; right; exists i, v; by rewrite vpn_page|].
  intros j Hj. rewrite vpn_page, H0 by done. destruct (vmr_ptr_facts base j Hb Hj) as (Hz & _).
  rewrite (bool_decide_eq_false_2 (0 = _)) by congruence. unfold pending. destruct (decide (j = i)) as [->|Hne].
  - rewrite bool_decide_eq_true_2 by done. cbn [Z.b2z]. lia.
  - rewrite bool_decide_eq_false_2; [cbn [Z.b2z]; lia|]. intros E. apply Hne. symmetry. exact (vmr_ptr_inj base i j E).
Qed.

Definition page_mapped (base : Z) (vs : list vmr_t) (extra : nat -> Z) (i : nat) (m k : Z) (s s' : pk) : Prop :=
  exists P' vs', vm_ok n P' base vs' (pending i (m - 1)) extra s' /\ ent_became (k * 4096) (vmr_ptr base i) s s' /\
    recounted vs vs' /\ keeps (need s (k * 4096)) s s' /\ is_Some (leaf (root_page_table s') (pages s') (k * 4096)).

Lemma map_page_spec P base vs extra s i v m k :
  vm_ok n P base vs (pending i m) extra s -> vs !! i = Some v -> 0 < m -> 0 <= k < 2 ^ 26 ->
  vmr_addr v <= k * 4096 < vmr_addr v + vmr_length v ->
  wp (map_page (vmr_ptr base i) (k * 4096)) (no_pages (need s (k * 4096)) s) (fun _ => page_mapped base vs extra i m k s) s.
Proof.
  intros Hv Hi Hm Hk Hr. assert (Hk' : 0 <= k < PAGES) by (unfold PAGES; lia). unfold map_page. apply wp_bind.
  eapply wp_mono; [by apply (walk_create_spec n P)|done|]. intros p s1 (P1 & t & Hv1 & Hl1 & -> & He1 & Ho1). cbv beta.
  pose proof (vm_tree _ _ _ _ _ _ _ Hv1) as Ht1. apply wp_bind. unfold wp at 1.
  rewrite (read_slot P1 s1 Ht1 _ t Hl1), ent_vpn, vpn_page by done. pose proof (only_pages_keeps _ _ _ Ho1) as Hk1.
  assert (Hout : forall P2 vs2 s2, vm_ok n P2 base vs2 (pending i m) extra s2 -> recounted vs vs2 -> keeps (need s (k * 4096)) s s2 ->
    leaf (root_page_table s2) (pages s2) (k * 4096) = Some t -> ent_became (k * 4096) 0 s s2 ->
    wp (write_word (slot t (k * 4096)) (vmr_ptr base i)) (no_pages (need s (k * 4096)) s) (fun _ => page_mapped base vs extra i m k s) s2).
  { intros P2 vs2 s2 Hv2 Hrec Hfr Hl2 He2. destruct (Hrec i v Hi) as [c Hc].
    assert (H0 : ent s2 k = 0) by (rewrite (He2 k Hk'), vpn_page, Z.eqb_refl by done; reflexivity).
    destruct (point_page P2 base vs2 extra s2 i _ m k t Hv2 Hc Hk' Hr Hl2 H0) as (s3 & Hw & Hv3 & He3 & Hf3 & Hl3).
    unfold wp. rewrite Hw. exists P2, vs2. split; [done|]. split; [by eapply ent_became_trans|]. split; [done|].
    split; [rewrite <- (Z.add_0_r (need _ _)); by apply (keeps_trans _ 0 s s2)|by exists t]. }
  destruct (Z.eqb_spec (ent s1 k) 0) as [H0|H0]; cbn [negb].
  - apply wp_bind, wp_ret. cbv beta. apply (Hout P1 vs s1 Hv1 ltac:(reflexivity) Hk1 Hl1). intros x Hx. rewrite He1, vpn_page by done.
    destruct (Z.eqb_spec x k) as [->|]; [by rewrite <- He1|done].
  - destruct (do_munmap_run n Hn P1 base vs (pending i m) extra s1 k 4096 (pending_nonneg i m ltac:(lia)) Hv1 ltac:(lia) ltac:(lia) ltac:(lia))
      as (vs2 & s2 & Hd & Hv2 & Hu).
    apply wp_bind. unfold wp at 1. unfold RISCV_PGSIZE. rewrite Hd. pose proof (unmapped_keeps _ _ _ _ _ _ _ _ Hu) as Hk2.
    destruct Hu as [U1 U2 _ _ _ _ U6].
    apply (Hout P1 vs2 s2 Hv2 U2); [rewrite <- (Z.add_0_r (need _ _)); by apply (keeps_trans _ 0 s s1)|by rewrite U6|].
    intros x Hx. rewrite (U1 x Hx), He1, vpn_page by done. replace (page_end k (k * 4096 + 4096)) with (k + 1) by (unfold page_end; zdm).
    destruct (Z.eqb_spec x k), (Z.leb_spec k x), (Z.ltb_spec x (k + 1)); cbn [andb]; lia || done.
Qed.

(** A region for the pages [addr] to [addr + length], whose entries are still to come. *)
Definition file_held (extra : nat -> Z) (file : option nat) : Prop :=
  match file with Some f => (f < MAX_FILES)%nat /\ 0 < extra f | None => True end.

Definition free_region (vs : list vmr_t) (i : nat) : Prop := exists v, vs !! i = Some v /\ vmr_refcnt v = 0.

Lemma vm_new_region P base vs extra s s1 i new :
  vm_ok n P base vs (fun _ => 0) extra s -> free_region vs i -> 0 < vmr_refcnt new < 2 ^ 32 -> region_ok s new ->
  (forall f, vmr_file new = Some f -> (f < MAX_FILES)%nat) ->
  frame s s1 -> pages s1 = pages s -> next_free_page s1 = next_free_page s -> vmrs s1 = Some (base, <[i := new]> vs) ->
  files_ok 1 n (fun g => countz (vmr_holds g) (<[i := new]> vs) + extra g) s1 ->
  vm_ok n P base (<[i := new]> vs) (pending i (vmr_refcnt new)) extra s1 /\ (forall k, ent s1 k = ent s k).
Proof.
  intros Hv (v & Hi & H0) Hc Hok Hnf Hfr Hpg Hnx Hvs1 Hfs1. destruct Hfr as [F1 F2 F3 F4 F5 F6 F7 F8 F9 F10].
  assert (He : forall k, ent s1 k = ent s k) by (intros k; unfold ent; by rewrite Hpg, F4).
  split; [|exact He]. destruct (vm_count _ _ _ _ _ _ _ Hv i v Hi) as [Hci _].
  destruct Hv as [Ht Hal _ Hlen Hbase Htop Hent Hcnt Hreg Hfile Hx Hfs].
  assert (Hlt : (i < length vs)%nat) by (by eapply lookup_lt_Some). split.
  - by rewrite F4, Hpg.
  - destruct Hal as [A1 A2 A3 A4]. split; rewrite ?F2, ?F3, ?Hnx, ?Hpg; assumption.
  - exact Hvs1.
  - by rewrite length_insert.
  - by rewrite Hpg.
  - by rewrite F9.
  - intros k Hk. rewrite He. destruct (Hent k Hk) as [H|[H|(j & w & Hj & Hp & Hw)]]; [by left|right; left; unfold present_ok, page_ppn in *; by rewrite F5, F9|].
    right; right. exists j, w. rewrite list_lookup_insert_ne; [exact (conj Hj (conj Hp Hw))|]. intros Hij.
    pose proof (cnt_pos PAGES (ent s) _ k Hk Hp) as Hcp. rewrite <- Hij in Hcp. lia.
  - intros j w Hj. rewrite (cnt_ext _ _ _ _ (fun k _ => He k)). unfold pending. destruct (decide (j = i)) as [->|Hne].
    + rewrite list_lookup_insert_eq in Hj by done. injection Hj as <-. lia.
    + rewrite list_lookup_insert_ne in Hj by done. exact (Hcnt j w Hj).
  - intros j w Hj. unfold region_ok. rewrite F9. destruct (decide (j = i)) as [->|Hne].
    + rewrite list_lookup_insert_eq in Hj by done. injection Hj as <-. intros _. exact Hok.
    + rewrite list_lookup_insert_ne in Hj by done. exact (Hreg j w Hj).
  - intros j w g Hj. destruct (decide (j = i)) as [->|Hne].
    + rewrite list_lookup_insert_eq in Hj by done. injection Hj as <-. intros _. apply Hnf.
    + rewrite list_lookup_insert_ne in Hj by done. exact (Hfile j w g Hj).
  - exact Hx.
  - exact Hfs1.
Qed.

(** The region that vmr_alloc takes, if one is free. *)
Record allocated (P : gmap Z (Z * Z)) (base : Z) (vs : list vmr_t) (extra : nat -> Z) (s : pk) (new : vmr_t) (i : nat) (s' : pk) : Prop := {
  alc_free : free_region vs i;
  alc_ok : vm_ok n P base (<[i := new]> vs) (pending i (vmr_refcnt new)) extra s';
  alc_ent : forall k, ent s' k = ent s k;
  alc_keeps : keeps 0 s s'
}.

Lemma vmr_alloc_run P base vs extra s addr length file offset npage prot :
  vm_ok n P base vs (fun _ => 0) extra s -> file_held extra file -> 0 < npage < 2 ^ 32 ->
  let new := MkVmr addr length file offset npage (s32 prot) in region_ok s new ->
  (vmr_alloc addr length file offset npage prot s = Ret (None, s) /\ Forall (fun v => vmr_refcnt v <> 0) vs) \/
  (exists i s', vmr_alloc addr length file offset npage prot s = Ret (Some (vmr_ptr base i), s') /\
     allocated P base vs extra s new i s').
Proof.
  intros Hv Hf Hnp new Hok. destruct (vm_base _ _ _ _ _ _ _ Hv) as (Hb & _).
  pose proof (vm_vmrs _ _ _ _ _ _ _ Hv) as Hvm. pose proof (vm_len _ _ _ _ _ _ _ Hv) as Hlen.
  unfold vmr_alloc, get_vmrs. rewrite gets_bind, Hvm, ret_bind, bind_bind, gets_bind, Hvm, ret_bind.
  destruct (list_find _ vs) as [[i v]|] eqn:Hfind.
  2:{ left. split; [done|]. apply list_find_None in Hfind. exact Hfind. }
  apply list_find_Some in Hfind as (Hi & H0 & _). right. exists i.
  assert (Hlt : (i < MAX_VMR)%nat) by (rewrite <- Hlen; by eapply lookup_lt_Some).
  assert (Hfree : free_region vs i) by (by exists v).
  assert (Hcount : forall g, countz (vmr_holds g) (<[i := new]> vs) = countz (vmr_holds g) vs + one (file = Some g)).
  { intros g. rewrite (countz_insert _ _ _ v) by done. rewrite (bool_decide_eq_false_2 (vmr_holds g v)) by (intros [Hh _]; done).
    rewrite (bool_decide_ext (vmr_holds g new) (file = Some g)); [cbn [Z.b2z]; lia|]. unfold vmr_holds. cbn. split; [tauto|split; [lia|done]]. }
  pose proof (vm_files _ _ _ _ _ _ _ Hv) as Hfs. rewrite u32_small by lia. fold new.
  assert (Hfin : forall fs s1, same_kfds s (with_files fs s) -> s1 = with_vmrs (Some (base, <[i := new]> vs)) (with_files fs s) ->
    files_ok 1 n (fun g => countz (vmr_holds g) vs + one (file = Some g) + extra g) (with_files fs s) ->
    allocated P base vs extra s new i s1).
  { intros fs s1 Hkf -> Hfs1. assert (Hfr : frame s (with_vmrs (Some (base, <[i := new]> vs)) (with_files fs s))) by (split; first [reflexivity|exact Hkf]).
    destruct (vm_new_region P base vs extra s (with_vmrs (Some (base, <[i := new]> vs)) (with_files fs s)) i new Hv Hfree) as [HF1 HF2];
      [exact Hnp|exact Hok|intros f Hff; cbn in Hff; rewrite Hff in Hf; apply Hf|exact Hfr|reflexivity..| |].
    + apply (files_ok_same n _ (with_files fs s)); [reflexivity|reflexivity|]. revert Hfs1. apply files_ok_ext.
      intros g. rewrite Hcount. lia.
    + split; [exact Hfree|exact HF1|exact HF2|split; [exact Hfr|reflexivity|reflexivity|cbn; lia]]. }
  destruct file as [f|].
  - destruct Hf as [Hf1 Hf2]. destruct (held_in_use 1 n _ s f Hfs Hf1) as (x & Hx & Hnz).
    { pose proof (countz_nonneg (vmr_holds f) vs). lia. }
    pose proof (refcnt_range 1 n Hn _ s f x Hfs Hx). pose proof (vm_extra _ _ _ _ _ _ _ Hv f).
    assert (Hch : countz (vmr_holds f) vs <= 102).
    { pose proof (countz_nonneg (vmr_holds f) vs) as Hc0. unfold lenz in Hc0. rewrite Hlen in Hc0. unfold MAX_VMR in Hc0. lia. }
    rewrite (run_bind _ _ _ _ _ (file_incref_run s f x Hx ltac:(lia))).
    destruct (take_ref 1 n Hn _ s f x Hfs Hx Hnz ltac:(cbv beta; lia)) as [Hfs1 _].
    match type of Hfs1 with files_ok _ _ _ (with_files ?fs0 s) => set (fs := fs0) in * end.
    rewrite (run_bind _ _ _ _ _ (write_vmr_run base vs (with_files fs s) i new Hb Hlt Hvm)).
    eexists. split; [reflexivity|]. apply (Hfin fs); [by apply (same_kfds_set s f x)|reflexivity|]. revert Hfs1. apply files_ok_ext. intros g. unfold hold.
    destruct (decide (g = f)) as [->|Hne]; [rewrite bool_decide_eq_true_2 by done|rewrite bool_decide_eq_false_2 by congruence];
      cbn [Z.b2z]; lia.
  - rewrite ret_bind, (run_bind _ _ _ _ _ (write_vmr_run base vs s i new Hb Hlt Hvm)).
    eexists. split; [reflexivity|]. apply (Hfin (files s)); [done|by destruct s|].
    apply (files_ok_same n _ s); [reflexivity|reflexivity|]. revert Hfs. apply files_ok_ext. intros g.
    rewrite bool_decide_eq_false_2 by done. cbn [Z.b2z]. lia.
Qed.

(** ** The search for free pages *)

Definition free_from (s : pk) (np k : Z) : Prop := forall x, k <= x < k + np -> ent s x = 0.

Section search.
Context (P : gmap Z (Z * Z)) (s : pk) (Ht : tree P (root_page_table s) (pages s)).

Lemma va_avail_run k : 0 <= k < PAGES -> va_avail (k * 4096) s = Ret (ent s k =? 0, s).
Proof using Ht.
  intros Hk. unfold va_avail. rewrite (run_bind _ _ _ _ _ (walk_run P s Ht (k * 4096))).
  destruct (leaf (root_page_table s) (pages s) (k * 4096)) as [t|] eqn:Hl; cbn [fmap option_fmap option_map].
  - by rewrite (run_bind _ _ _ _ _ (read_slot P s Ht _ t Hl)), ent_vpn, vpn_page.
  - unfold ent. by rewrite (walk_missing s _ Hl).
Qed.

Lemma vm_alloc_down_run f fuel : 0 <= f -> forall l, f <= l < PAGES -> l - f < Z.of_nat fuel ->
  exists x, vm_alloc_down fuel (f * 4096) (l * 4096) s = Ret (x * 4096, s) /\ f <= x <= l /\ (x = f \/ ent s x <> 0) /\ forall y, x < y <= l -> ent s y = 0.
Proof using Ht.
  intros Hf. induction fuel as [|fuel IH]; intros l Hl Hfu; [lia|]. cbn [vm_alloc_down].
  destruct (Z.ltb_spec (f * 4096) (l * 4096)).
  - rewrite (run_bind _ _ _ _ _ (va_avail_run l ltac:(lia))). destruct (Z.eqb_spec (ent s l) 0) as [H0|H0].
    + unfold RISCV_PGSIZE. replace (u64 (l * 4096 - 4096)) with ((l - 1) * 4096) by (rewrite u64_small; unfold PAGES in *; lia).
      destruct (IH (l - 1)) as (x & Hr & Hx & He & Hy); [lia|lia|]. exists x. split; [exact Hr|]. split; [lia|]. split; [exact He|].
      intros y Hyr. destruct (Z.eq_dec y l) as [->|]; [exact H0|]. apply Hy. lia.
    + exists l. split; [reflexivity|]. split; [lia|]. split; [by right|]. intros y Hy. lia.
  - exists f. assert (l = f) by lia. subst l. split; [reflexivity|]. split; [lia|]. split; [by left|]. intros y Hy. lia.
Qed.

(** The first start from page [b] at which [np] pages are free, up to address [top]. *)
Definition first_fit (np top b r : Z) : Prop :=
  (b <= r /\ r * 4096 <= top /\ free_from s np r /\ forall y, b <= y < r -> ~ free_from s np y) \/
  (r = 0 /\ forall y, b <= y -> y * 4096 <= top -> ~ free_from s np y).

Lemma first_fit_skip np top b b' r :
  b <= b' -> (forall y, b <= y < b' -> ~ free_from s np y) -> first_fit np top b' r -> first_fit np top b r.
Proof using Type.
  intros Hb Hn' [(H1 & H2 & H3 & H4)|[H1 H2]]; [left|right].
  - split; [lia|]. split; [done|]. split; [done|]. intros y Hy. destruct (Z.lt_ge_cases y b'); [by apply Hn'; lia|apply H4; lia].
  - split; [done|]. intros y Hy. destruct (Z.lt_ge_cases y b'); [intros _; by apply Hn'; lia|apply H2; lia].
Qed.

Lemma vm_alloc_loop_run np top fuel : 0 < np -> 0 <= top -> top + np * 4096 <= 2 ^ 38 ->
  forall b, 0 <= b -> top / 4096 - b + 1 < Z.of_nat fuel -> (0 < fuel)%nat ->
  exists r, vm_alloc_loop fuel np top (b * 4096) s = Ret (r * 4096, s) /\ first_fit np top b r.
Proof using Ht.
  intros Hnp Htop Hmax. induction fuel as [|fuel IH]; intros b Hb Hfu Hfp; [lia|]. cbn [vm_alloc_loop].
  destruct (Z.leb_spec (b * 4096) top) as [Hle|Hgt].
  2:{ exists 0. split; [reflexivity|]. right. split; [done|]. intros y Hy Hyt. lia. }
  assert (Hbt : b <= top / 4096) by zdm. assert (Htt : top / 4096 * 4096 <= top) by zdm.
  assert (Hbp : b + np <= 2 ^ 26) by lia.
  assert (Hnext : forall x, b <= x < b + np -> ent s x <> 0 ->
    exists r, vm_alloc_loop fuel np top (u64 (x * 4096 + 4096)) s = Ret (r * 4096, s) /\ first_fit np top b r).
  { intros x Hx He. replace (u64 (x * 4096 + 4096)) with ((x + 1) * 4096) by (rewrite u64_small; lia).
    destruct (IH (x + 1)) as (r & Hr & Hfit); [lia|lia|lia|]. exists r. split; [exact Hr|].
    revert Hfit. apply first_fit_skip; [lia|]. intros y Hy Hfree. apply He, Hfree. lia. }
  rewrite (run_bind _ _ _ _ _ (va_avail_run b ltac:(unfold PAGES; lia))). unfold RISCV_PGSIZE in *.
  destruct (Z.eqb_spec (ent s b) 0) as [H0|H0]; [|apply Hnext; [lia|exact H0]].
  rewrite (u64_small ((np - 1) * 4096)) by lia.
  replace (u64 (b * 4096 + (np - 1) * 4096)) with ((b + np - 1) * 4096) by (rewrite u64_small; lia).
  destruct (vm_alloc_down_run b (S (Z.to_nat np)) Hb (b + np - 1)) as (x & Hr & Hx & He & Hy); [unfold PAGES; lia|lia|].
  rewrite (run_bind _ _ _ _ _ Hr). destruct (Z.ltb_spec (b * 4096) (x * 4096)) as [Hlt|Hge].
  - apply Hnext; [lia|]. destruct He as [->|He]; [lia|exact He].
  - assert (x = b) by lia. subst x. exists b. split; [reflexivity|]. left. split; [lia|]. split; [exact Hle|]. split.
    + intros y Hyr. destruct (Z.eq_dec y b) as [->|]; [exact H0|]. apply Hy. lia.
    + intros y Hyr. lia.
Qed.
End search.

Lemma vm_alloc_run P base vs pend extra s np b :
  vm_ok n P base vs pend extra s -> brk (current s) = b * 4096 -> 0 <= b -> 0 < np -> np * 4096 <= mmap_max (current s) ->
  exists r, vm_alloc np s = Ret (r * 4096, s) /\ first_fit s np (mmap_max (current s) - np * 4096) b r.
Proof.
  intros Hv Hb Hb0 Hnp Hmax. pose proof (vm_top _ _ _ _ _ _ _ Hv) as Htop. unfold vm_alloc. rewrite gets_bind. cbv zeta.
  unfold RISCV_PGSIZE. rewrite (u64_small (np * 4096)) by lia. rewrite u64_small, Hb by lia.
  apply (vm_alloc_loop_run P s (vm_tree _ _ _ _ _ _ _ Hv)); [lia|lia|lia|exact Hb0| |lia].
  assert (0 <= (mmap_max (current s) - np * 4096) / 4096) by (apply Z.div_pos; lia). lia.
Qed.

Lemma first_fit_unique s np top b r r' : first_fit s np top b r -> first_fit s np top b r' -> r = r'.
Proof.
  intros [(A1 & A2 & A3 & A4)|[A1 A2]] [(B1 & B2 & B3 & B4)|[B1 B2]].
  - destruct (Z.lt_trichotomy r r') as [H|[H|H]]; [|done|].
    + destruct (B4 r ltac:(lia) A3).
    + destruct (A4 r' ltac:(lia) B3).
  - destruct (B2 r A1 A2 A3).
  - destruct (A2 r' B1 B2 B3).
  - congruence.
Qed.

(** ** All pages of a new region *)

Lemma vm_ok_pend P base vs pend pend' extra s :
  (forall i, pend i = pend' i) -> vm_ok n P base vs pend extra s -> vm_ok n P base vs pend' extra s.
Proof. intros He []. split; try assumption. intros i v Hi. rewrite <- He. by apply vm_count. Qed.

Definition npages (length : Z) : Z := (length - 1) / 4096 + 1.

(** Pages [j] to [j + np] of [s'] point to region [i]; all others are as in [s]. *)
Definition mapped (base : Z) (extra : nat -> Z) (s : pk) (vs : list vmr_t) (i : nat) (j np : Z) (s' : pk) : Prop :=
  exists P' vs', vm_ok n P' base vs' (fun _ => 0) extra s' /\ recounted vs vs' /\
    (forall x, 0 <= x < PAGES -> ent s' x = if (j <=? x) && (x <? j + np) then vmr_ptr base i else ent s x) /\
    keeps (table_pages np) s s'.

Lemma map_pages P base vs extra s i v j :
  let len := vmr_length v in let np := npages len in
  vm_ok n P base vs (pending i np) extra s -> vs !! i = Some v -> vmr_addr v = j * 4096 -> 0 <= j -> 0 < len ->
  j * 4096 + len <= 2 ^ 38 ->
  wp (for_pages (page_fuel len) (j * 4096) (j * 4096 + len) (map_page (vmr_ptr base i))) (no_pages (table_pages np) s)
    (fun _ => mapped base extra s vs i j np) s.
Proof.
  intros len np Hv Hi Ha Hj Hl Hm. destruct (page_fuel_enough len j ltac:(lia)) as [Hf1 Hf2].
  assert (Hend : page_end j (j * 4096 + len) = j + np) by (unfold page_end, np, npages; zdm).
  pose (I := fun k s' => exists P' vs', vm_ok n P' base vs' (pending i (np - (k - j))) extra s' /\ recounted vs vs' /\
    (forall x, 0 <= x < PAGES -> ent s' x = if (j <=? x) && (x <? k) then vmr_ptr base i else ent s x) /\
    keeps (new_tables j k) s s' /\ (j < k -> is_Some (leaf (root_page_table s') (pages s') ((k - 1) * 4096)))).
  pose proof (new_tables_range j np) as Hrange.
  eapply wp_mono; [apply (for_pages_wp I (no_pages (table_pages np) s)); [exact Hm|exact Hj| | |exact Hf1|exact Hf2]|intros e He; exact He|].
  - intros k s1 Hk Hkm (P1 & vs1 & Hv1 & Hr1 & He1 & Hk1 & Hlf1). pose proof (need_next s1 j k Hk Hlf1) as Hneed. destruct (Hr1 i v Hi) as [c Hc].
    assert (Hnp : k - j < np) by (unfold np, npages; zdm).
    eapply wp_mono; [apply (map_page_spec P1 base vs1 extra s1 i _ _ k Hv1 Hc); [lia|lia|cbn; lia]| |].
    + intros e [-> Hno]. split; [done|]. destruct Hk1 as [Hf _ _ Hn1]. rewrite (fr_free _ _ Hf) in Hno. pose proof (new_tables_mono j (k + 1) (j + np)). lia.
    + intros [] s2 (P2 & vs2 & Hv2 & He2 & Hr2 & Hk2 & Hl2). exists P2, vs2.
      replace (np - (k + 1 - j)) with (np - (k - j) - 1) by lia. split; [exact Hv2|]. split; [by etrans|]. split.
      * intros x Hx. rewrite (He2 x Hx), (He1 x Hx), vpn_page by (unfold PAGES in *; lia).
        destruct (Z.eqb_spec x k), (Z.leb_spec j x), (Z.ltb_spec x (k + 1)), (Z.ltb_spec x k); cbn [andb]; lia || reflexivity.
      * split; [apply (keeps_mono _ _ _ _ Hneed); by eapply keeps_trans|]. intros _. by replace (k + 1 - 1) with k by lia.
  - exists P, vs. replace (np - (j - j)) with np by lia. split; [exact Hv|]. split; [reflexivity|]. split.
    + intros x Hx. destruct (Z.leb_spec j x), (Z.ltb_spec x j); cbn [andb]; lia || reflexivity.
    + split; [|lia]. split; [reflexivity|reflexivity|reflexivity|]. pose proof (new_tables_nonneg j j). lia.
  - rewrite Hend. intros _ s' (P' & vs' & Hv' & Hr' & He' & Hk' & _). exists P', vs'. split.
    + revert Hv'. apply vm_ok_pend. intros k. unfold pending. destruct (decide (k = i)); lia.
    + split; [exact Hr'|]. split; [exact He'|]. revert Hk'. apply keeps_mono, Hrange. unfold np, npages. zdm.
Qed.

(** ** mmap *)

(** Where a mapping goes. *)
Definition placed (s : pk) (addr length flags j : Z) : Prop :=
  if has flags MAP_FIXED then addr = j * 4096 /\ addr + length <= mmap_max (current s)
  else j <> 0 /\ first_fit s (npages length) (mmap_max (current s) - npages length * 4096) (brk (current s) / 4096) j.

(** What the search relies on. *)
Definition searchable (s : pk) (length flags : Z) : Prop :=
  has flags MAP_FIXED = false ->
  brk (current s) mod 4096 = 0 /\ 0 <= brk (current s) /\ npages length * 4096 <= mmap_max (current s).

Lemma npages_pos length : 0 < length -> 0 < npages length /\ length <= npages length * 4096 < length + 4096.
Proof. unfold npages. intros Hl. split; zdm. Qed.

Lemma mmap_place_run P base vs pend extra s addr length flags :
  vm_ok n P base vs pend extra s -> 0 <= addr < 2 ^ 64 -> 0 < length < 2 ^ 64 -> searchable s length flags ->
  exists r, (if has flags MAP_FIXED
     then ok ← valid_user_range addr length; mret (if negb (addr mod RISCV_PGSIZE =? 0) || negb ok then None else Some addr)
     else a ← vm_alloc (npages length); mret (if a =? 0 then None else Some a)) s = Ret (r, s) /\
   match r with
   | None => forall j, ~ placed s addr length flags j
   | Some a => exists j, placed s addr length flags j /\ 0 <= j /\ a = j * 4096 /\ a + length <= mmap_max (current s)
   end.
Proof.
  intros Hv Ha Hl Hs. pose proof (vm_top _ _ _ _ _ _ _ Hv) as Htop. destruct (npages_pos length) as [Hn1 Hn2]; [lia|].
  unfold searchable, placed in *. destruct (has flags MAP_FIXED).
  - unfold valid_user_range. rewrite bind_bind, gets_bind. unfold RISCV_PGSIZE.
    assert (Hc : u64 (addr + length) = addr + length \/ u64 (addr + length) < addr).
    { destruct (Z.lt_ge_cases (addr + length) (2 ^ 64)); [left; apply u64_small; lia|right].
      unfold u64. rewrite <- (Z.mod_unique_pos (addr + length) (2 ^ 64) 1 (addr + length - 2 ^ 64)) by lia. lia. }
    destruct (Z.ltb_spec (u64 (addr + length)) addr) as [Hw|Hw].
    + rewrite ret_bind. cbn [negb]. rewrite orb_true_r. eexists; split; [reflexivity|]. intros j [-> Hj]. rewrite u64_small in Hw by lia. lia.
    + rewrite ret_bind. destruct Hc as [->|Hc]; [|lia].
      destruct (Z.eqb_spec (addr mod 4096) 0) as [Hm|Hm], (Z.leb_spec (addr + length) (mmap_max (current s))) as [Hle|Hle]; cbn [negb orb];
        eexists; (split; [reflexivity|]); cbn beta iota.
      * exists (addr / 4096). split; [split; [zdm|lia]|]. split; [zdm|]. split; [zdm|lia].
      * intros j [-> Hj]. lia.
      * intros j [-> Hj]. apply Hm. apply Z.mod_mul. lia.
      * intros j [-> Hj]. lia.
  - destruct (Hs eq_refl) as (Hb & Hb0 & Hmax). assert (Hbb : brk (current s) = brk (current s) / 4096 * 4096) by (clear - Hb; zdm).
    destruct (vm_alloc_run P base vs pend extra s (npages length) _ Hv Hbb) as (r & Hr & Hfit); [apply Z.div_pos; lia|lia|lia|].
    rewrite (run_bind _ _ _ _ _ Hr). eexists; split; [reflexivity|]. destruct (Z.eqb_spec (r * 4096) 0) as [H0|H0].
    + intros j [Hj Hfj]. apply Hj. rewrite <- (first_fit_unique _ _ _ _ _ _ Hfit Hfj). lia.
    + exists r. destruct Hfit as [(F1 & F2 & F3 & F4)|[-> _]]; [|lia]. assert (0 <= brk (current s) / 4096) by (apply Z.div_pos; lia).
      split; [split; [lia|left; done]|]. split; [lia|]. split; [done|lia].
Qed.

Lemma mapped_from base extra s s1 vs i j np s' :
  (forall k, ent s1 k = ent s k) -> keeps 0 s s1 -> mapped base extra s1 vs i j np s' -> mapped base extra s vs i j np s'.
Proof.
  intros He Hk (P' & vs' & H1 & H2 & H3 & H4). exists P', vs'. split; [done|]. split; [done|]. split.
  - intros x Hx. by rewrite (H3 x Hx), He.
  - by apply (keeps_trans 0 (table_pages np) s s1).
Qed.

(** The populating of a mapping that is asked for. *)
Definition populate_pages (addr length prot flags : Z) : M pk unit :=
  hv ← gets have_vm;
  if negb hv || has flags MAP_POPULATE then
    for_pages (page_fuel length) addr (u64 (addr + length)) (fun a => r ← handle_page_fault_locked a prot; kassert (r =? 0))
  else mret tt.

Lemma do_mmap_locked_wp P base vs extra s addr length prot flags file offset (E : fault -> Prop) (Q : Z -> pk -> Prop) :
  vm_ok n P base vs (fun _ => 0) extra s -> file_held extra file ->
  0 <= addr < 2 ^ 64 -> 0 < length < 2 ^ 64 -> searchable s length flags ->
  (forall e, no_pages (table_pages (npages length)) s e -> E e) ->
  ((forall j, ~ placed s addr length flags j) \/ Forall (fun v => vmr_refcnt v <> 0) vs -> Q MAP_FAILED s) ->
  (forall j i s2, placed s addr length flags j -> 0 <= j -> j * 4096 + length <= mmap_max (current s) -> free_region vs i ->
     mapped base extra s (<[i := MkVmr (j * 4096) length file offset (npages length) (s32 prot)]> vs) i j (npages length) s2 ->
     wp (populate_pages (j * 4096) length prot flags;; mret (j * 4096)) E Q s2) ->
  wp (do_mmap_locked addr length prot flags file offset) E Q s.
Proof.
  intros Hv Hf Ha Hl Hs HE Hfail Hok2. pose proof (vm_top _ _ _ _ _ _ _ Hv) as Htop. destruct (npages_pos length) as [Hn1 Hn2]; [lia|].
  unfold do_mmap_locked. rewrite (u64_small (length - 1)) by lia. change ((length - 1) / RISCV_PGSIZE + 1) with (npages length).
  destruct (mmap_place_run P base vs _ extra s addr length flags Hv Ha Hl Hs) as (r & Hr & Hplace).
  apply wp_bind. unfold wp at 1. rewrite Hr. destruct r as [a|]; [|apply wp_ret, Hfail; by left].
  destruct Hplace as (j & Hpl & Hj & -> & Htopj).
  pose (new := MkVmr (j * 4096) length file offset (npages length) (s32 prot)).
  assert (Hok : region_ok s new) by (unfold region_ok; cbn; rewrite Z.mod_mul by lia; lia).
  apply wp_bind. unfold wp at 1.
  destruct (vmr_alloc_run P base vs extra s (j * 4096) length file offset (npages length) prot Hv Hf ltac:(lia) Hok)
    as [[Hal Hfull]|(i & s1 & Hal & [Hfree Hv1 He1 Hk1])]; rewrite Hal; [apply wp_ret, Hfail; by right|].
  apply wp_bind. rewrite u64_small by lia.
  assert (Hi : <[i := new]> vs !! i = Some new).
  { apply list_lookup_insert_eq. destruct Hfree as (v & Hv0 & _). by eapply lookup_lt_Some. }
  eapply wp_mono; [apply (map_pages P base _ extra s1 i new j Hv1 Hi); [reflexivity|exact Hj|cbn; lia|cbn; lia]| |].
  - intros e [-> Hno]. destruct Hk1 as [Hf1 _ _ Hn1']. rewrite (fr_free _ _ Hf1) in Hno. apply HE. split; [done|].
    change (vmr_length new) with length in Hno. lia.
  - intros [] s2 Hm. pose proof (mapped_from _ _ _ _ _ _ _ _ _ He1 Hk1 Hm) as Hm2.
    pose proof (Hok2 j i s2 Hpl Hj Htopj Hfree Hm2) as Hq. unfold populate_pages in Hq. rewrite u64_small in Hq by lia.
    unfold wp in *. by rewrite bind_bind in Hq.
Qed.

End map.
