(* ===== verification/PkFault.v ===== *)
(** * Page faults of the proxy kernel

    The first access to a page of a region gives it a page of the memory, filled
    from the file of the region or with zeros, and takes it off the region's
    count; any other access is judged by the page's entry. *)

From S2P Require Import Prelude State Pk PkFile PkMmap PkTree PkWalk PkVm PkMap.

Lemma bind_ext {A B} (m : M pk A) (f g : A -> M pk B) s : (forall a s', f a s' = g a s') -> (m ≫= f) s = (m ≫= g) s.
Proof. intros H. unfold mbind, M_bind. destruct (m s) as [[a s']|e]; [apply H|reflexivity]. Qed.

(** ** Entries of pages *)

Lemma has_V x : has x PTE_V = Z.testbit x 0.
Proof.
  unfold has. change PTE_V with (Z.ones 1). rewrite Z.land_ones by lia. change (2 ^ 1) with 2. rewrite <- Z.bit0_mod.
  by destruct (Z.testbit x 0).
Qed.

Lemma pte_points ppn type : 0 <= ppn < 2 ^ 54 -> 0 <= type < 2 ^ 10 ->
  has (pte_create ppn type) PTE_V = true /\ pte_ppn (pte_create ppn type) = ppn.
Proof.
  intros Hp Ht. unfold pte_create, pte_ppn, PTE_PPN_SHIFT.
  assert (Hu : u64 (ppn <<< 10) = ppn <<< 10) by (rewrite shiftl_mul by lia; apply u64_small; lia). rewrite Hu. split.
  - rewrite has_V, !Z.lor_spec. by rewrite orb_true_r.
  - rewrite !Z.shiftr_lor, Z.shiftr_shiftl_l by lia. change (PTE_V >>> 10) with 0.
    rewrite (shiftr_div type) by lia. rewrite Z.div_small by lia. rewrite !Z.lor_0_r. apply Z.shiftl_0_r.
Qed.

Lemma prot_type_range prot user : 0 <= prot_to_type prot user < 2 ^ 10.
Proof. unfold prot_to_type. by destruct (has prot PROT_READ), (has prot PROT_WRITE), (has prot PROT_EXEC), user. Qed.

(** ** The memory behind a page *)

(** The user's pages lie below the kernel, and in the memory from [first_free_paddr] on. *)
Record user_ok (s : pk) : Prop := {
  us_align : first_free_paddr s mod 4096 = 0;
  us_paddr : 0 <= first_free_paddr s <= 2 ^ 54;
  us_dram : mmap_max (current s) <= DRAM_BASE s
}.

Definition page_pa (s : pk) (k : Z) : Z := k * 4096 + first_free_paddr s.

Lemma page_ppn_range s k : user_ok s -> 0 <= k < 2 ^ 26 -> 0 <= page_ppn s k < 2 ^ 44.
Proof. intros [H1 H2 _] Hk. unfold page_ppn. zdm. Qed.

Lemma page_ppn_pa s k : user_ok s -> 0 <= k < 2 ^ 26 -> u64 (page_ppn s k <<< RISCV_PGSHIFT) = page_pa s k.
Proof.
  intros Hu Hk. pose proof (page_ppn_range s k Hu Hk). destruct Hu as [H1 H2 _]. unfold RISCV_PGSHIFT.
  rewrite shiftl_mul by lia. rewrite u64_small by lia. unfold page_ppn, page_pa. clear - H1. zdm.
Qed.

Lemma present_pte s k type : user_ok s -> 0 <= k < 2 ^ 26 -> 0 <= type < 2 ^ 10 -> present_ok s k (pte_create (page_ppn s k) type).
Proof. intros Hu Hk Ht. pose proof (page_ppn_range s k Hu Hk). destruct (pte_points (page_ppn s k) type) as [H1 H2]; [lia|done|]. by split. Qed.

Lemma user_ok_frame s s' : user_ok s -> frame s s' -> user_ok s'.
Proof. intros [U1 U2 U3] [F1 F2 F3 F4 F5 F6 F7 F8 F9 F10]. split; by rewrite ?F5, ?F6, ?F9. Qed.

(** The kernel reaches a page that is present. *)
Lemma kernel_access_run P s k type d :
  tree P (root_page_table s) (pages s) -> user_ok s -> 0 <= k < 2 ^ 26 -> 0 <= d < 4096 -> 0 <= type < 2 ^ 10 ->
  ent s k = pte_create (page_ppn s k) type -> is_Some (leaf (root_page_table s) (pages s) (k * 4096)) ->
  kernel_access (k * 4096 + d) s = Ret (page_pa s k + d, s).
Proof.
  intros Ht Hu Hk Hd Hty He [t Hl]. pose proof (page_ppn_range s k Hu Hk).
  assert (Hvpn : vpn (k * 4096 + d) = k) by (unfold vpn; rewrite Z.div_add_l, Z.div_small, Z.add_0_r by lia; apply Z.mod_small; lia).
  assert (Hkv : vpn (k * 4096) = k) by (apply vpn_page; unfold PAGES; lia).
  assert (Hl' : leaf (root_page_table s) (pages s) (k * 4096 + d) = Some t) by (rewrite (leaf_same _ _ _ (k * 4096)); congruence).
  unfold kernel_access. rewrite (run_bind _ _ _ _ _ (walk_run P s Ht _)), Hl'. cbn [fmap option_fmap option_map].
  rewrite (run_bind _ _ _ _ _ (read_slot P s Ht _ t Hl')), ent_vpn, Hvpn, He.
  destruct (pte_points (page_ppn s k) type) as [-> ->]; [lia|done|]. rewrite page_ppn_pa by done. unfold RISCV_PGSIZE.
  by replace ((k * 4096 + d) mod 4096) with d by (clear - Hd; zdm).
Qed.

Lemma clear_range_run P s k type d m :
  tree P (root_page_table s) (pages s) -> user_ok s -> 0 <= k < 2 ^ 26 -> 0 <= d < 4096 -> 0 <= type < 2 ^ 10 ->
  ent s k = pte_create (page_ppn s k) type -> is_Some (leaf (root_page_table s) (pages s) (k * 4096)) ->
  clear_range (k * 4096 + d) m s = Ret (tt, with_pmem (store_at (page_pa s k + d) (zeros m) (pmem s)) s).
Proof.
  intros. unfold clear_range. by rewrite (run_bind _ _ _ _ _ (kernel_access_run P s k type d ltac:(done) ltac:(done) ltac:(done) ltac:(done) ltac:(done) ltac:(done) ltac:(done))).
Qed.

(** ** Reading the file of a region *)

Section fault.
Context {host : Host} (n : Z) (Hn : 0 <= n <= 2 ^ 30).

(** The call for a page, and the memory after it. *)
Definition pread_call (s : pk) (kd k len off : Z) : fcall := MkCall SYS_pread [kd; page_pa s k; len; off; 0; 0; 0].
Definition after_call (c : fcall) (s : pk) : pk :=
  with_calls (c :: calls s) (foldl (fun m w => store_at w.1 w.2 m) (pmem s) (writes (c :: calls s))) s.

Lemma file_pread_run P s k type f x len off :
  tree P (root_page_table s) (pages s) -> user_ok s -> 0 <= k < 2 ^ 26 -> 0 <= type < 2 ^ 10 ->
  ent s k = pte_create (page_ppn s k) type -> is_Some (leaf (root_page_table s) (pages s) (k * 4096)) ->
  files s !! f = Some x -> 0 < len <= 4096 -> k * 4096 < mmap_max (current s) ->
  let c := pread_call s (kfd x) k len off in
  file_pread (fun a => kernel_access a;; mret tt) f (k * 4096) len off s = Ret (s64 (answer (c :: calls s)), after_call c s).
Proof.
  intros Ht Hu Hk Hty He Hl Hx Hlen Htop c. unfold file_pread, file_transfer, populate_mapping.
  assert (Hd : ROUNDDOWN (k * 4096) RISCV_PGSIZE = k * 4096) by (unfold ROUNDDOWN, RISCV_PGSIZE; by rewrite Z.div_mul).
  rewrite Hd. rewrite (u64_small (k * 4096 + len)) by lia.
  assert (Hpop : for_pages (S (page_fuel len)) (k * 4096) (k * 4096 + len) (fun a => kernel_access a;; mret tt) s = Ret (tt, s)).
  { unfold page_fuel. cbn [for_pages]. rewrite (proj2 (Z.ltb_lt (k * 4096) _)) by lia. rewrite bind_bind.
    pose proof (kernel_access_run P s k type 0 Ht Hu Hk ltac:(lia) Hty He Hl) as Hka. rewrite Z.add_0_r in Hka.
    rewrite (run_bind _ _ _ _ _ Hka), ret_bind. unfold RISCV_PGSIZE. rewrite (u64_small (k * 4096 + 4096)) by lia. by rewrite (proj2 (Z.ltb_ge (k * 4096 + 4096) _)) by lia. }
  rewrite (run_bind _ _ _ _ _ Hpop), (run_bind _ _ _ _ _ (read_file_run s f x Hx)).
  assert (Hva : va2pa (k * 4096) s = Ret (page_pa s k, s)).
  { unfold va2pa. rewrite gets_bind. unfold id. destruct Hu as [_ Hp Hdr]. rewrite (proj2 (Z.leb_gt (DRAM_BASE s) _)) by lia.
    rewrite u64_small by lia. done. }
  by rewrite (run_bind _ _ _ _ _ Hva).
Qed.

(** ** Steps that leave the tables and the regions *)

(** What the invariant depends on, the files apart. *)
Record same_vm (s s' : pk) : Prop := {
  sv_pages : pages s' = pages s;
  sv_vmrs : vmrs s' = vmrs s;
  sv_first : first_free_page s' = first_free_page s;
  sv_next : next_free_page s' = next_free_page s;
  sv_free : free_pages s' = free_pages s;
  sv_root : root_page_table s' = root_page_table s;
  sv_paddr : first_free_paddr s' = first_free_paddr s;
  sv_top : mmap_max (current s') = mmap_max (current s)
}.

Lemma same_vm_ent s s' k : same_vm s s' -> ent s' k = ent s k.
Proof. intros Hs. unfold ent. by rewrite (sv_pages _ _ Hs), (sv_root _ _ Hs). Qed.

Lemma vm_ok_same n' P base vs pend extra extra' s s' :
  vm_ok n P base vs pend extra s -> same_vm s s' -> (forall f, 0 <= extra' f <= 2 ^ 20) ->
  files_ok 1 n' (fun f => countz (vmr_holds f) vs + extra' f) s' -> vm_ok n' P base vs pend extra' s'.
Proof.
  intros [Ht [A1 A2 A3 A4] Hvm Hlen Hb Htop Hent Hc Hr Hf Hx Hfs] Hsame Hx' Hfs'.
  assert (He : forall k, ent s' k = ent s k) by (intros k; by apply same_vm_ent). destruct Hsame as [Hpg Hvs F1 Hnx F2 F3 Hpa Hcu]. split.
  - by rewrite F3, Hpg.
  - split; rewrite ?F1, ?F2, ?Hnx, ?Hpg; assumption.
  - by rewrite Hvs.
  - exact Hlen.
  - by rewrite Hpg.
  - by rewrite Hcu.
  - intros k Hk. rewrite He. unfold present_ok, page_ppn. rewrite Hpa, Hcu. exact (Hent k Hk).
  - intros j w Hj. rewrite (cnt_ext _ _ _ _ (fun k _ => He k)). exact (Hc j w Hj).
  - intros j w Hj. unfold region_ok. rewrite Hcu. exact (Hr j w Hj).
  - exact Hf.
  - exact Hx'.
  - exact Hfs'.
Qed.

Lemma vm_ok_calls P base vs pend extra s c m : vm_ok n P base vs pend extra s -> vm_ok n P base vs pend extra (with_calls c m s).
Proof.
  intros Hv. apply (vm_ok_same n P base vs pend extra extra s); [exact Hv|by split|apply Hv|]. apply files_ok_calls, Hv.
Qed.

(** ** The fault *)

Definition fault_result (w prot : Z) : Z :=
  let perms := pte_create 0 (prot_to_type prot true) in if negb (w &&& perms =? perms) then -1 else 0.

(** The entry of a page of region [v] once it is present. *)
Definition user_pte (s : pk) (k : Z) (v : vmr_t) : Z := pte_create (page_ppn s k) (prot_to_type (vmr_prot v) true).

(** What the fault makes of the page: it is read from the file, as far as that goes, and cleared from there on. *)
Definition page_offset (v : vmr_t) (k : Z) : Z := k * 4096 - vmr_addr v.
Definition page_len (v : vmr_t) (k : Z) : Z := Z.min 4096 (vmr_length v - page_offset v k).
Definition fill_page (s : pk) (k : Z) (file : option nat) (off len : Z) : outcome (list fcall * (Z -> Z)) :=
  match file with
  | None => Ret (calls s, store_at (page_pa s k) (zeros 4096) (pmem s))
  | Some f =>
      let x := default (MkFile 0 0) (files s !! f) in
      let c := pread_call s (kfd x) k len (s64 (u64 off)) in
      let r := s64 (answer (c :: calls s)) in
      let m := pmem (after_call c s) in
      if 0 <? r then Ret (c :: calls s, if r <? 4096 then store_at (page_pa s k + r) (zeros (4096 - r)) m else m)
      else Fault AssertFail
  end.
Definition fill_region (s : pk) (v : vmr_t) (k : Z) : outcome (list fcall * (Z -> Z)) :=
  fill_page s k (vmr_file v) (page_offset v k + vmr_offset v) (page_len v k).

(** What a fault on a page that is not yet present leaves. *)
Record page_present (P : gmap Z (Z * Z)) (base : Z) (vs : list vmr_t) (extra : nat -> Z) (i : nat) (v : vmr_t) (k : Z)
    (s : pk) (filled : list fcall * (Z -> Z)) (s' : pk) : Prop := {
  pp_ok : vm_ok n P base (<[i := with_refcnt v (vmr_refcnt v - 1)]> vs) (fun _ => 0) extra s';
  pp_ent : ent_became (k * 4096) (user_pte s k v) s s';
  pp_frame : frame s s';
  pp_next : next_free_page s' = next_free_page s;
  pp_calls : closes_of (vmr_file v) filled.1 (calls s');
  pp_pmem : pmem s' = filled.2
}.

Section locked.
Context (P : gmap Z (Z * Z)) (base : Z) (vs : list vmr_t) (extra : nat -> Z) (s : pk).
Context (Hv : vm_ok n P base vs (fun _ => 0) extra s) (Hu : user_ok s).

(** The entries a fault looks at. *)
Lemma fault_none va prot : 0 <= va < 2 ^ 64 -> let k := va / 4096 in
  mmap_max (current s) <= k * 4096 \/ ent s k = 0 -> handle_page_fault_locked va prot s = Ret (-1, s).
Proof using Hv.
  intros Hva k Hk. pose proof (vm_tree _ _ _ _ _ _ _ Hv) as Ht. pose proof (vm_top _ _ _ _ _ _ _ Hv) as Htop. unfold handle_page_fault_locked, RISCV_PGSHIFT.
  rewrite (shiftr_div va) by lia. change (2 ^ 12) with 4096. fold k. rewrite shiftl_mul by lia. change (2 ^ 12) with 4096.
  assert (Hk0 : 0 <= k < 2 ^ 52) by (subst k; zdm). rewrite (u64_small (k * 4096)) by lia.
  rewrite (run_bind _ _ _ _ _ (walk_run P s Ht _)). destruct (leaf _ _ (k * 4096)) as [t|] eqn:Hl; [|reflexivity].
  cbn [fmap option_fmap option_map]. rewrite (run_bind _ _ _ _ _ (read_slot P s Ht _ t Hl)).
  unfold valid_user_range. rewrite bind_bind, gets_bind. rewrite (u64_small (k * 4096 + 1)) by lia.
  rewrite (proj2 (Z.ltb_ge (k * 4096 + 1) _)) by lia. rewrite ret_bind.
  destruct (Z.leb_spec (k * 4096 + 1) (mmap_max (current s))) as [Hle|Hgt]; [|cbn [negb]; by rewrite orb_true_r].
  destruct Hk as [|H0]; [lia|]. rewrite ent_vpn, vpn_page, H0 by (unfold PAGES; lia). reflexivity.
Qed.

Lemma fault_start va prot : 0 <= va < 2 ^ 64 -> let k := va / 4096 in
  k * 4096 < mmap_max (current s) -> ent s k <> 0 ->
  exists t, leaf (root_page_table s) (pages s) (k * 4096) = Some t /\ 0 <= k < 2 ^ 26 /\
    handle_page_fault_locked va prot s =
    ((if negb (has (ent s k) PTE_V) then
        v ← read_vmr (ent s k);
        write_word (slot t (k * 4096)) (pte_create (page_ppn s k) (prot_to_type (PROT_READ ||| PROT_WRITE) false));;
        (if vmr_file v is Some f then
           let flen := Z.min RISCV_PGSIZE (u64 (vmr_length v - u64 (k * 4096 - vmr_addr v))) in
           ret ← file_pread (fun a => kernel_access a;; mret tt) f (k * 4096) flen
                   (s64 (u64 (k * 4096 - vmr_addr v + vmr_offset v)));
           kassert (0 <? ret);;
           if ret <? RISCV_PGSIZE then clear_range (u64 (k * 4096 + ret)) (RISCV_PGSIZE - ret) else mret tt
         else clear_range (k * 4096) RISCV_PGSIZE);;
        vmr_decref (ent s k) 1;;
        v ← read_vmr (ent s k);
        write_word (slot t (k * 4096)) (pte_create (page_ppn s k) (prot_to_type (vmr_prot v) true))
      else mret tt);;
     w ← read_word (slot t (k * 4096));
     mret (fault_result w prot)) s.
Proof using Hv Hu.
  intros Hva k Hk H0. pose proof (vm_tree _ _ _ _ _ _ _ Hv) as Ht. pose proof (vm_top _ _ _ _ _ _ _ Hv) as Htop.
  assert (Hk0 : 0 <= k < 2 ^ 26) by (subst k; zdm).
  destruct (leaf (root_page_table s) (pages s) (k * 4096)) as [t|] eqn:Hl.
  2:{ destruct H0. unfold ent. by rewrite (walk_missing s _ Hl). }
  exists t. split; [done|]. split; [done|]. unfold handle_page_fault_locked, RISCV_PGSHIFT.
  rewrite (shiftr_div va) by lia. change (2 ^ 12) with 4096. fold k. rewrite shiftl_mul by lia. change (2 ^ 12) with 4096.
  rewrite (u64_small (k * 4096)) by lia. rewrite (run_bind _ _ _ _ _ (walk_run P s Ht _)), Hl. cbn [fmap option_fmap option_map].
  rewrite (run_bind _ _ _ _ _ (read_slot P s Ht _ t Hl)), ent_vpn, vpn_page by (unfold PAGES; lia).
  unfold valid_user_range. rewrite bind_bind, gets_bind. rewrite (u64_small (k * 4096 + 1)) by lia.
  rewrite (proj2 (Z.ltb_ge (k * 4096 + 1) _)) by lia. rewrite ret_bind.
  rewrite (proj2 (Z.leb_le (k * 4096 + 1) (mmap_max (current s)))) by lia. rewrite (proj2 (Z.eqb_neq (ent s k) 0)) by done.
  cbn [negb orb]. destruct (has (ent s k) PTE_V); cbn [negb].
  - rewrite !ret_bind. unfold fault_result, mbind, M_bind. destruct (read_word _ s) as [[w s']|e]; [|done]. by destruct (negb _).
  - rewrite !bind_bind, gets_bind. rewrite (u64_small (k + first_free_paddr s / RISCV_PGSIZE)).
    2:{ pose proof (page_ppn_range s k Hu Hk0) as Hp. unfold page_ppn in Hp. unfold RISCV_PGSIZE. lia. }
    change (k + first_free_paddr s / RISCV_PGSIZE) with (page_ppn s k).
    cbv beta zeta. rewrite ?bind_bind. repeat (apply bind_ext; intros; cbv beta zeta; rewrite ?bind_bind). unfold fault_result. by destruct (negb _).
Qed.

(** A page that is present already. *)
Lemma fault_present va prot : 0 <= va < 2 ^ 64 -> let k := va / 4096 in
  k * 4096 < mmap_max (current s) -> has (ent s k) PTE_V = true -> handle_page_fault_locked va prot s = Ret (fault_result (ent s k) prot, s).
Proof using Hv Hu.
  intros Hva k Hk HV. assert (H0 : ent s k <> 0) by (intros E; by rewrite E, has_0 in HV).
  destruct (fault_start va prot Hva Hk H0) as (t & Hl & Hk0 & Hrun). fold k in Hl, Hk0, Hrun. rewrite Hrun, HV. cbn [negb]. rewrite ret_bind.
  by rewrite (run_bind _ _ _ _ _ (read_slot P s (vm_tree _ _ _ _ _ _ _ Hv) _ t Hl)), ent_vpn, vpn_page by (unfold PAGES; lia).
Qed.

(** The page of a region while it is filled. *)
Definition filling (k t : Z) (s1 : pk) : Prop :=
  s1 = with_ent t (k * 4096) (pte_create (page_ppn s k) (prot_to_type (PROT_READ ||| PROT_WRITE) false)) s.

Lemma filling_ok i v k t s1 : 0 <= k < 2 ^ 26 -> leaf (root_page_table s) (pages s) (k * 4096) = Some t ->
  vs !! i = Some v -> ent s k = vmr_ptr base i -> filling k t s1 ->
  vm_ok n P base vs (pending i 1) extra s1 /\ leaf (root_page_table s1) (pages s1) (k * 4096) = Some t /\
  ent s1 k = pte_create (page_ppn s k) (prot_to_type (PROT_READ ||| PROT_WRITE) false) /\
  (forall x, 0 <= x < PAGES -> x <> k -> ent s1 x = ent s x).
Proof using Hv Hu.
  unfold filling. intros Hk Hl Hi He ->. pose proof (vm_tree _ _ _ _ _ _ _ Hv) as Ht. assert (HkP : 0 <= k < PAGES) by (unfold PAGES; lia).
  pose proof (page_ppn_range s k Hu Hk) as Hp. destruct (vm_base _ _ _ _ _ _ _ Hv) as (Hb & _).
  destruct (pte_points (page_ppn s k) (prot_to_type (PROT_READ ||| PROT_WRITE) false)) as [HV _]; [lia|apply prot_type_range|].
  split; [|split; [|split]].
  - eapply vm_set; [exact Hv|exact Hl|right; left; rewrite vpn_page by done; apply present_pte; [done|done|apply prot_type_range]|].
    intros j Hj. rewrite vpn_page, He by done.
    destruct (vmr_ptr_facts base j Hb Hj) as (_ & HnV & _). rewrite (bool_decide_eq_false_2 (pte_create _ _ = _)) by congruence.
    unfold pending. destruct (decide (j = i)) as [->|Hne]; [rewrite bool_decide_eq_true_2 by done; cbn [Z.b2z]; lia|].
    rewrite bool_decide_eq_false_2; [cbn [Z.b2z]; lia|]. intros E. apply Hne. symmetry. exact (vmr_ptr_inj base i j E).
  - destruct (ent_set P _ _ (k * 4096) t (pte_create (page_ppn s k) (prot_to_type (PROT_READ ||| PROT_WRITE) false)) Ht Hl) as (_ & Hlf & _).
    cbn. by rewrite Hlf.
  - rewrite (ent_with P s) by done. by rewrite vpn_page, Z.eqb_refl.
  - intros x Hx Hne. rewrite (ent_with P s), vpn_page by done. by rewrite (proj2 (Z.eqb_neq x k)).
Qed.

(** The filling itself. *)
Lemma fill_run i v k t s1 : 0 <= k < 2 ^ 26 -> k * 4096 < mmap_max (current s) -> leaf (root_page_table s) (pages s) (k * 4096) = Some t ->
  vs !! i = Some v -> ent s k = vmr_ptr base i -> 0 < vmr_refcnt v -> vmr_addr v <= k * 4096 < vmr_addr v + vmr_length v -> filling k t s1 ->
  (if vmr_file v is Some f then
     let flen := Z.min RISCV_PGSIZE (u64 (vmr_length v - u64 (k * 4096 - vmr_addr v))) in
     ret ← file_pread (fun a => kernel_access a;; mret tt) f (k * 4096) flen (s64 (u64 (k * 4096 - vmr_addr v + vmr_offset v)));
     kassert (0 <? ret);;
     if ret <? RISCV_PGSIZE then clear_range (u64 (k * 4096 + ret)) (RISCV_PGSIZE - ret) else mret tt
   else clear_range (k * 4096) RISCV_PGSIZE) s1 =
  match fill_region s v k with
  | Ret (c, m) => Ret (tt, with_calls c m s1)
  | Fault e => Fault e
  end.
Proof using Hv Hu.
  intros Hk Htop Hl Hi He Hp Hr Hfill. destruct (filling_ok i v k t s1 Hk Hl Hi He Hfill) as (Hv1 & Hl1 & He1 & _).
  pose proof (vm_tree _ _ _ _ _ _ _ Hv1) as Ht1. pose proof (vm_region _ _ _ _ _ _ _ Hv i v Hi ltac:(lia)) as (Ha1 & Ha2 & Ha3 & Ha4).
  pose proof (vm_top _ _ _ _ _ _ _ Hv) as Hmax. unfold filling in Hfill.
  assert (Hu1 : user_ok s1) by (rewrite Hfill; split; apply Hu). pose proof (prot_type_range (PROT_READ ||| PROT_WRITE) false) as Hty.
  assert (Hppn : page_ppn s1 k = page_ppn s k) by (by rewrite Hfill). rewrite <- Hppn in He1.
  assert (Hpa : page_pa s1 k = page_pa s k) by (by rewrite Hfill).
  assert (Hsame : calls s1 = calls s /\ pmem s1 = pmem s /\ files s1 = files s) by (by rewrite Hfill). destruct Hsame as (Hcs & Hps & Hfs).
  unfold fill_region, fill_page. destruct (vmr_file v) as [f|] eqn:Hf.
  - destruct (held_in_use 1 n _ s f (vm_files _ _ _ _ _ _ _ Hv)) as (x & Hx & _).
    { by apply (vm_file _ _ _ _ _ _ _ Hv i v f Hi ltac:(lia)). }
    { pose proof (vm_extra _ _ _ _ _ _ _ Hv f). assert (Hh : vmr_holds f v) by (split; [lia|done]). pose proof (countz_pos _ vs i v Hi Hh). lia. }
    rewrite Hx. cbn [default from_option id]. unfold page_len, page_offset, RISCV_PGSIZE.
    rewrite (u64_small (k * 4096 - vmr_addr v)), (u64_small (vmr_length v - (k * 4096 - vmr_addr v))) by lia.
    set (len := Z.min 4096 _). set (off := s64 _). rewrite <- Hfs in Hx.
    pose proof (file_pread_run P s1 k _ f x len off Ht1 Hu1 Hk Hty He1 ltac:(by eexists) Hx ltac:(lia)) as Hread.
    rewrite (run_bind _ _ _ _ _ (Hread ltac:(rewrite Hfill; cbn; lia))).
    assert (Hc : pread_call s1 (kfd x) k len off = pread_call s (kfd x) k len off) by (unfold pread_call; by rewrite Hpa). rewrite Hc, Hcs.
    set (c := pread_call s (kfd x) k len off). set (r := s64 _). unfold kassert, m_assert, c_assert.
    destruct (Z.ltb_spec 0 r) as [H0|H0]; [|reflexivity].
    rewrite (run_bind _ _ _ tt (after_call c s1) eq_refl).
    assert (Hac : after_call c s1 = with_calls (calls (after_call c s)) (pmem (after_call c s)) s1) by (unfold after_call; by rewrite Hcs, Hps).
    destruct (Z.ltb_spec r 4096) as [H4|H4]; [|by rewrite Hac].
    rewrite (u64_small (k * 4096 + r)) by lia.
    rewrite (clear_range_run P (after_call c s1) k _ r (4096 - r) Ht1 (Build_user_ok (after_call c s1) (us_align _ Hu1) (us_paddr _ Hu1) (us_dram _ Hu1))
      Hk ltac:(lia) Hty He1 ltac:(by eexists)).
    change (page_pa (after_call c s1) k) with (page_pa s1 k). by rewrite Hpa, Hac.
  - pose proof (clear_range_run P s1 k _ 0 4096 Ht1 Hu1 Hk ltac:(lia) Hty He1 ltac:(by eexists)) as Hc. rewrite !Z.add_0_r in Hc.
    unfold RISCV_PGSIZE. rewrite Hc, Hpa, Hps. unfold with_pmem. cbn. by rewrite Hcs.
Qed.

(** After the filling: the count, and the entry of the page. *)
Lemma finish_run i v k t s2 : 0 <= k < 2 ^ 26 -> vm_ok n P base vs (pending i 1) extra s2 ->
  leaf (root_page_table s2) (pages s2) (k * 4096) = Some t -> has (ent s2 k) PTE_V = true ->
  vs !! i = Some v -> 0 < vmr_refcnt v -> user_ok s2 -> page_ppn s2 k = page_ppn s k ->
  exists s', (vmr_decref (vmr_ptr base i) 1;; v ← read_vmr (vmr_ptr base i);
      write_word (slot t (k * 4096)) (pte_create (page_ppn s k) (prot_to_type (vmr_prot v) true))) s2 = Ret (tt, s') /\
    vm_ok n P base (<[i := with_refcnt v (vmr_refcnt v - 1)]> vs) (fun _ => 0) extra s' /\
    leaf (root_page_table s') (pages s') (k * 4096) = Some t /\ ent_became (k * 4096) (user_pte s k v) s2 s' /\ keeps 0 s2 s' /\
    next_free_page s' = next_free_page s2 /\ closes_of (vmr_file v) (calls s2) (calls s').
Proof using Hv Hu Hn.
  intros Hk Hv2 Hl2 HV Hi Hc Hu2 Hppn. destruct (decref_vm n Hn P base vs _ extra s2 i v Hv2 Hi Hc) as (s3 & Hd & Hv3 & Hkf & fs & cs & Hs3 & Hcl).
  apply (vm_ok_pend n _ _ _ _ (fun _ => 0)) in Hv3; [|intros j; unfold pending; destruct (decide (j = i)), (decide (i = i)); done || lia].
  set (v' := with_refcnt v (vmr_refcnt v - 1)) in *. destruct (vm_base _ _ _ _ _ _ _ Hv3) as (Hb & _).
  assert (Hi3 : <[i := v']> vs !! i = Some v') by (apply list_lookup_insert_eq; by eapply lookup_lt_Some).
  pose proof (read_vmr_run base _ s3 i v' Hb (vm_len _ _ _ _ _ _ _ Hv3) (vm_vmrs _ _ _ _ _ _ _ Hv3) Hi3) as Hrd.
  rewrite (run_bind _ _ _ _ _ Hd), (run_bind _ _ _ _ _ Hrd). change (vmr_prot v') with (vmr_prot v).
  assert (Hpg : pages s3 = pages s2 /\ root_page_table s3 = root_page_table s2) by (rewrite Hs3; by split). destruct Hpg as [Hpg Hrt].
  assert (He3 : forall x, ent s3 x = ent s2 x) by (intros x; unfold ent; by rewrite Hpg, Hrt).
  assert (Hl3 : leaf (root_page_table s3) (pages s3) (k * 4096) = Some t) by (by rewrite Hpg, Hrt).
  pose proof (vm_tree _ _ _ _ _ _ _ Hv3) as Ht3. assert (HkP : 0 <= k < PAGES) by (unfold PAGES; lia).
  rewrite (write_slot_run P s3 _ t _ Ht3 Hl3). eexists. split; [reflexivity|].
  pose proof (page_ppn_range s k Hu Hk) as Hp.
  destruct (pte_points (page_ppn s k) (prot_to_type (vmr_prot v) true)) as [HVn _]; [lia|apply prot_type_range|].
  split; [|split; [|split; [|split; [|split]]]].
  - eapply vm_set; [exact Hv3|exact Hl3| |].
    { right; left. rewrite vpn_page by done. rewrite <- Hppn. pose proof (present_pte s2 k _ Hu2 Hk (prot_type_range (vmr_prot v) true)) as Hpr.
      unfold present_ok, page_ppn in *. by rewrite Hs3. }
    intros j Hj. rewrite vpn_page, He3 by done.
    destruct (vmr_ptr_facts base j Hb Hj) as (_ & HnV & _). rewrite !bool_decide_eq_false_2 by congruence. cbn [Z.b2z]. lia.
  - destruct (ent_set P _ _ (k * 4096) t (pte_create (page_ppn s k) (prot_to_type (vmr_prot v) true)) Ht3 Hl3) as (_ & Hlf & _). cbn. by rewrite Hlf.
  - intros x Hx. rewrite (ent_with P s3), vpn_page, He3 by done. reflexivity.
  - split; [transitivity s3; [rewrite Hs3 in Hkf |- *; by split|by split]|rewrite Hs3; exact (closes_of_closes _ _ _ Hcl)|rewrite Hs3; reflexivity|rewrite Hs3; cbn; lia].
  - by rewrite Hs3.
  - by rewrite Hs3.
Qed.

Lemma fault_fill va prot i v : 0 <= va < 2 ^ 64 -> let k := va / 4096 in
  k * 4096 < mmap_max (current s) -> vs !! i = Some v -> ent s k = vmr_ptr base i ->
  match fill_region s v k with
  | Ret filled => exists s', handle_page_fault_locked va prot s = Ret (fault_result (user_pte s k v) prot, s') /\
                    page_present P base vs extra i v k s filled s'
  | Fault e => handle_page_fault_locked va prot s = Fault e
  end.
Proof using Hv Hu Hn.
  intros Hva k Htop Hi He. destruct (vm_base _ _ _ _ _ _ _ Hv) as (Hb & _).
  assert (Hlt : (i < MAX_VMR)%nat) by (rewrite <- (vm_len _ _ _ _ _ _ _ Hv); by eapply lookup_lt_Some).
  destruct (vmr_ptr_facts base i Hb Hlt) as (H0 & HnV & _). assert (He0 : ent s k <> 0) by congruence.
  destruct (fault_start va prot Hva Htop He0) as (t & Hl & Hk & Hrun). fold k in Hl, Hk, Hrun. rewrite Hrun, He, HnV. clear Hrun.
  assert (HkP : 0 <= k < PAGES) by (unfold PAGES; lia).
  assert (Hr : vmr_addr v <= k * 4096 < vmr_addr v + vmr_length v).
  { destruct (vm_ent _ _ _ _ _ _ _ Hv k HkP) as [H|[H|(j & w & Hj & Hp & Hw)]]; [congruence|destruct H; congruence|].
    rewrite He in Hp. apply vmr_ptr_inj in Hp. subst j. by simplify_eq. }
  assert (Hc : 0 < vmr_refcnt v).
  { destruct (vm_count _ _ _ _ _ _ _ Hv i v Hi) as [Hc _]. pose proof (cnt_pos PAGES (ent s) _ k HkP He). lia. }
  cbn [negb]. rewrite !bind_bind. rewrite (run_bind _ _ _ _ _ (read_vmr_run base vs s i v Hb (vm_len _ _ _ _ _ _ _ Hv) (vm_vmrs _ _ _ _ _ _ _ Hv) Hi)).
  rewrite !bind_bind, (run_bind _ _ _ _ _ (write_slot_run P s _ t _ (vm_tree _ _ _ _ _ _ _ Hv) Hl)).
  set (s1 := with_ent _ _ _ s). assert (Hfill : filling k t s1) by reflexivity. clearbody s1.
  pose proof (fill_run i v k t s1 Hk Htop Hl Hi He Hc Hr Hfill) as Hfr. rewrite !bind_bind.
  destruct (filling_ok i v k t s1 Hk Hl Hi He Hfill) as (Hv1 & Hl1 & He1 & Ho1).
  destruct (fill_region s v k) as [[c m]|e]; [|exact (run_bind_Fault _ _ _ _ Hfr)].
  rewrite (run_bind _ _ _ _ _ Hfr). set (s2 := with_calls _ _ s1).
  assert (HV2 : has (ent s2 k) PTE_V = true).
  { change (ent s2 k) with (ent s1 k). rewrite He1. pose proof (page_ppn_range s k Hu Hk). apply pte_points; [lia|apply prot_type_range]. }
  destruct (finish_run i v k t s2 Hk (vm_ok_calls _ _ _ _ _ _ _ _ Hv1) Hl1 HV2 Hi Hc ltac:(subst s2; rewrite Hfill; split; apply Hu) ltac:(subst s2; by rewrite Hfill)) as (s' & Hf & Hv' & Hl' & He' & Hk' & Hnx' & Hcl').
  rewrite (run_bind _ _ _ _ _ Hf). pose proof (vm_tree _ _ _ _ _ _ _ Hv') as Ht'.
  rewrite (run_bind _ _ _ _ _ (read_slot P s' Ht' _ t Hl')), ent_vpn, vpn_page, (He' k HkP), vpn_page, Z.eqb_refl by done.
  exists s'. split; [reflexivity|]. unfold filling in Hfill. destruct Hk' as [Hf2 _ Hp2 _]. split.
  - exact Hv'.
  - intros x Hx. rewrite (He' x Hx). destruct (Z.eqb_spec x (vpn (k * 4096))) as [|Hne]; [reflexivity|].
    rewrite vpn_page in Hne by done. change (ent s2 x) with (ent s1 x). by apply Ho1.
  - etrans; [|exact Hf2]. unfold s2. rewrite Hfill. by split.
  - rewrite Hnx'. unfold s2. by rewrite Hfill.
  - exact Hcl'.
  - by rewrite Hp2.
Qed.

(** What a fault can do, whatever it returns. *)
Lemma fault_safe va prot : 0 <= va < 2 ^ 64 ->
  wp (handle_page_fault_locked va prot) (eq AssertFail) (fun _ s' => exists vs', vm_ok n P base vs' (fun _ => 0) extra s' /\ frame s s') s.
Proof using Hv Hu Hn.
  intros Hva. pose proof (vm_top _ _ _ _ _ _ _ Hv) as Htop. unfold wp.
  destruct (Z.le_gt_cases (mmap_max (current s)) (va / 4096 * 4096)) as [Hk|Hk].
  { rewrite (fault_none va prot Hva (or_introl Hk)). by exists vs. }
  assert (HkP : 0 <= va / 4096 < PAGES) by (unfold PAGES; zdm).
  destruct (vm_ent _ _ _ _ _ _ _ Hv _ HkP) as [H0|[[HV _]|(i & v & Hi & Hp & Hr)]].
  - rewrite (fault_none va prot Hva (or_intror H0)). by exists vs.
  - rewrite (fault_present va prot Hva Hk HV). by exists vs.
  - pose proof (fault_fill va prot i v Hva Hk Hi Hp) as Hf. destruct (fill_region s v (va / 4096)) as [filled|e] eqn:Hfill.
    + destruct Hf as (s' & Hrun & Hpp). rewrite Hrun. eexists. split; [apply Hpp|apply Hpp].
    + rewrite Hf. unfold fill_region, fill_page in Hfill. destruct (vmr_file v); [|done]. destruct (0 <? _); congruence.
Qed.
End locked.

Lemma populate_safe P base vs extra s j len prot flags :
  vm_ok n P base vs (fun _ => 0) extra s -> user_ok s -> 0 <= j -> 0 < len -> j * 4096 + len <= 2 ^ 38 ->
  wp (populate_pages (j * 4096) len prot flags) (eq AssertFail) (fun _ s' => exists vs', vm_ok n P base vs' (fun _ => 0) extra s' /\ frame s s') s.
Proof.
  intros Hv Hu Hj Hl Hm. unfold populate_pages. apply wp_bind, wp_gets. destruct (negb (have_vm s) || has flags MAP_POPULATE).
  2:{ apply wp_ret. by exists vs. }
  rewrite u64_small by lia. destruct (page_fuel_enough len j ltac:(lia)) as [Hf1 Hf2].
  pose (I := fun (_ : Z) s' => exists vs', vm_ok n P base vs' (fun _ => 0) extra s' /\ frame s s').
  apply (for_pages_wp I (eq AssertFail)); [exact Hm|exact Hj| |by exists vs|exact Hf1|exact Hf2].
  intros k s1 Hk Hkm (vs1 & Hv1 & Hfr1).
  pose proof (user_ok_frame s s1 Hu Hfr1) as Hu1.
  apply wp_bind. eapply wp_mono; [apply (fault_safe P base vs1 extra s1 Hv1 Hu1); lia|done|]. intros r s2 (vs2 & Hv2 & Hfr2). cbv beta.
  unfold wp, kassert, m_assert, lift, c_assert. destruct (r =? 0); [|done]. exists vs2. split; [done|by etrans].
Qed.
End fault.
