(* ===== verification/PkSpec.v ===== *)
(** * The address space of a program, and the calls that change it

    What a program has of its memory is, for every page, whether it is mapped,
    what it is to be filled with at its first access, or the entry it is
    accessed by.  mmap, munmap and page faults are operations on this view; the
    tables, the regions and their counts are how it is kept. *)

From S2P Require Import Prelude State Pk PkFile PkMmap PkTree PkWalk PkVm PkMap PkFault.

(** ** The view *)

(** A page that has not been accessed is read from [file] at [offset], [len]
    bytes at most; the rest of it is zeros. *)
Inductive page_view : Type :=
  | Unmapped
  | Untouched (file : option nat) (offset len prot : Z)
  | Present (pte : Z).

Definition region_page (v : vmr_t) (k : Z) : page_view :=
  Untouched (vmr_file v) (page_offset v k + vmr_offset v) (page_len v k) (vmr_prot v).

Definition view (s : pk) (k : Z) : page_view :=
  let w := ent s k in
  if w =? 0 then Unmapped
  else if has w PTE_V then Present w
  else match vmrs s with
       | Some (base, vs) => match vs !! vmr_index base w with Some v => region_page v k | None => Unmapped end
       | None => Unmapped
       end.

(** A view in which the pages [j] to [j + np] are changed. *)
Definition with_range (j np : Z) (f : Z -> page_view) (w : Z -> page_view) : Z -> page_view :=
  fun k => if (j <=? k) && (k <? j + np) then f k else w k.

(** Views of the pages of the address space. *)
Definition same_view (w w' : Z -> page_view) : Prop := forall k, 0 <= k < PAGES -> w k = w' k.

#[global] Instance same_view_equivalence : Equivalence same_view.
Proof.
  split; [by intros w k _|by intros w w' H k Hk; rewrite (H k Hk)|by intros w1 w2 w3 H1 H2 k Hk; rewrite (H1 k Hk), (H2 k Hk)].
Qed.

#[global] Instance with_range_proper j np f : Proper (same_view ==> same_view) (with_range j np f).
Proof. intros w w' H k Hk. unfold with_range. by rewrite (H k Hk). Qed.

Section view.
Context (n : Z) (P : gmap Z (Z * Z)) (base : Z) (vs : list vmr_t) (pend extra : nat -> Z) (s : pk).
Context (Hv : vm_ok n P base vs pend extra s).

(** What an entry can be. *)
Lemma view_cases k : 0 <= k < PAGES ->
  (ent s k = 0 /\ view s k = Unmapped) \/
  (has (ent s k) PTE_V = true /\ ent s k <> 0 /\ view s k = Present (ent s k)) \/
  (exists i v, vs !! i = Some v /\ ent s k = vmr_ptr base i /\ vmr_addr v <= k * 4096 < vmr_addr v + vmr_length v /\
     has (ent s k) PTE_V = false /\ ent s k <> 0 /\ view s k = region_page v k).
Proof using Hv.
  intros Hk. destruct (vm_base _ _ _ _ _ _ _ Hv) as (Hb & _). unfold view. cbv zeta.
  destruct (vm_ent _ _ _ _ _ _ _ Hv k Hk) as [H0|[[HV _]|(i & v & Hi & Hp & Hr)]].
  - left. by rewrite H0.
  - right; left. assert (ent s k <> 0) by (intros E; by rewrite E, has_0 in HV). rewrite (proj2 (Z.eqb_neq _ 0)), HV by done. done.
  - right; right. assert (Hlt : (i < MAX_VMR)%nat) by (rewrite <- (vm_len _ _ _ _ _ _ _ Hv); by eapply lookup_lt_Some).
    destruct (vmr_ptr_facts base i Hb Hlt) as (H0 & HnV & Hx & _). exists i, v.
    rewrite Hp, HnV, (proj2 (Z.eqb_neq _ 0)), (vm_vmrs _ _ _ _ _ _ _ Hv), Hx, Hi by done. done.
Qed.

(** A page that is present is the program's own page of the memory. *)
Lemma view_present k w : 0 <= k < PAGES -> view s k = Present w -> w = ent s k /\ present_ok s k w.
Proof using Hv.
  intros Hk Hw. destruct (view_cases k Hk) as [[_ E]|[(HV & H0 & E)|(i & v & _ & _ & _ & _ & _ & E)]]; rewrite E in Hw; [done| |done].
  injection Hw as <-. split; [done|]. destruct (vm_ent _ _ _ _ _ _ _ Hv k Hk) as [H|[H|(i & v & Hi & Hp & _)]]; [done|done|].
  destruct (vm_base _ _ _ _ _ _ _ Hv) as (Hb & _). assert (Hlt : (i < MAX_VMR)%nat) by (rewrite <- (vm_len _ _ _ _ _ _ _ Hv); by eapply lookup_lt_Some).
  destruct (vmr_ptr_facts base i Hb Hlt) as (_ & HnV & _). congruence.
Qed.
End view.

(** The view depends on the entries and on what the regions say of their pages. *)
Lemma view_same n P P' base vs vs' pend pend' extra extra' s s' k :
  vm_ok n P base vs pend extra s -> vm_ok n P' base vs' pend' extra' s' -> 0 <= k < PAGES -> ent s' k = ent s k ->
  (forall i v, vs !! i = Some v -> ent s k = vmr_ptr base i -> exists v', vs' !! i = Some v' /\ region_page v' k = region_page v k) ->
  view s' k = view s k.
Proof.
  intros Hv Hv' Hk He Hr. unfold view. rewrite He. cbv zeta.
  destruct (view_cases n P base vs pend extra s Hv k Hk) as [[H0 _]|[(HV & H0 & _)|(i & v & Hi & Hp & _ & HnV & H0 & _)]].
  - by rewrite H0.
  - by rewrite HV.
  - rewrite (vm_vmrs _ _ _ _ _ _ _ Hv), (vm_vmrs _ _ _ _ _ _ _ Hv'). destruct (Hr i v Hi Hp) as (v' & Hi' & Hrp).
    destruct (vm_base _ _ _ _ _ _ _ Hv) as (Hb & _).
    assert (Hlt : (i < MAX_VMR)%nat) by (rewrite <- (vm_len _ _ _ _ _ _ _ Hv); by eapply lookup_lt_Some).
    destruct (vmr_ptr_facts base i Hb Hlt) as (_ & _ & Hx & _). rewrite Hp, Hx, Hi, Hi'. by rewrite Hrp.
Qed.

Lemma recounted_page vs vs' k i v : recounted vs vs' -> vs !! i = Some v -> exists v', vs' !! i = Some v' /\ region_page v' k = region_page v k.
Proof. intros Hr Hi. destruct (Hr i v Hi) as [c Hc]. by exists (with_refcnt v c). Qed.

Section operations.
Context {host : Host} (n : Z) (Hn : 0 <= n <= 2 ^ 30).

(** A region that mmap may take has no pages. *)
Lemma free_no_page P base vs pend extra s i k :
  vm_ok n P base vs pend extra s -> (forall i, 0 <= pend i) -> free_region vs i -> 0 <= k < PAGES -> ent s k <> vmr_ptr base i.
Proof.
  intros Hv Hp (v & Hi & H0) Hk He. destruct (vm_count _ _ _ _ _ _ _ Hv i v Hi) as [Hc _].
  pose proof (cnt_pos PAGES (ent s) _ k Hk He). specialize (Hp i). lia.
Qed.

(** Unmapping. *)
Lemma unmapped_view P P' base vs vs' extra s s' j np :
  vm_ok n P base vs (fun _ => 0) extra s -> vm_ok n P' base vs' (fun _ => 0) extra s' -> unmapped base extra s vs j (j + np) vs' s' ->
  same_view (view s') (with_range j np (fun _ => Unmapped) (view s)).
Proof.
  intros Hv Hv' Hu k Hk. unfold with_range. pose proof (un_ent _ _ _ _ _ _ _ _ Hu k Hk) as He.
  destruct ((j <=? k) && (k <? j + np)).
  - unfold view. by rewrite He.
  - eapply view_same; [exact Hv|exact Hv'|exact Hk|exact He|]. intros i v Hi _.
    exact (recounted_page vs vs' k i v (un_vs _ _ _ _ _ _ _ _ Hu) Hi).
Qed.

(** Mapping. *)
Definition mapped_page (addr length prot : Z) (file : option nat) (offset k : Z) : page_view :=
  Untouched file (k * 4096 - addr + offset) (Z.min 4096 (length - (k * 4096 - addr))) (s32 prot).

Lemma mapped_view P base vs extra s s' i j length prot file offset :
  let new := MkVmr (j * 4096) length file offset (npages length) (s32 prot) in
  vm_ok n P base vs (fun _ => 0) extra s -> free_region vs i -> 0 <= j ->
  mapped n base extra s (<[i := new]> vs) i j (npages length) s' ->
  same_view (view s') (with_range j (npages length) (mapped_page (j * 4096) length prot file offset) (view s)).
Proof.
  intros new Hv Hfree Hj (P' & vs' & Hv' & Hrec & He & _) k Hk. unfold with_range.
  assert (Hi : <[i := new]> vs !! i = Some new) by (apply list_lookup_insert_eq; destruct Hfree as (v & Hi & _); by eapply lookup_lt_Some).
  pose proof (He k Hk) as Hek. destruct ((j <=? k) && (k <? j + npages length)) eqn:Hr.
  - destruct (view_cases n P' base vs' _ extra s' Hv' k Hk) as [[H0 _]|[(HV & _)|(i' & v' & Hi' & Hp & _ & _ & _ & Hvw)]].
    + destruct (Hrec i new Hi) as [c Hc]. destruct (vm_base _ _ _ _ _ _ _ Hv') as (Hb & _).
      assert (Hlt : (i < MAX_VMR)%nat) by (rewrite <- (vm_len _ _ _ _ _ _ _ Hv'); by eapply lookup_lt_Some).
      destruct (vmr_ptr_facts base i Hb Hlt) as (Hz & _). congruence.
    + destruct (Hrec i new Hi) as [c Hc]. destruct (vm_base _ _ _ _ _ _ _ Hv') as (Hb & _).
      assert (Hlt : (i < MAX_VMR)%nat) by (rewrite <- (vm_len _ _ _ _ _ _ _ Hv'); by eapply lookup_lt_Some).
      destruct (vmr_ptr_facts base i Hb Hlt) as (_ & HnV & _). congruence.
    + rewrite Hp in Hek. apply vmr_ptr_inj in Hek. subst i'. destruct (Hrec i new Hi) as [c Hc]. rewrite Hvw.
      rewrite Hc in Hi'. injection Hi' as <-. reflexivity.
  - eapply view_same; [exact Hv|exact Hv'|exact Hk|exact Hek|]. intros i' v' Hi' Hp.
    apply (recounted_page _ vs' k i' v' Hrec). rewrite list_lookup_insert_ne; [exact Hi'|]. intros <-.
    by apply (free_no_page P base vs _ extra s i k Hv (fun _ => ltac:(lia)) Hfree Hk).
Qed.

(** A page fault. *)
Lemma present_view P base vs extra s s' filled i v k :
  vm_ok n P base vs (fun _ => 0) extra s -> user_ok s -> 0 <= k < 2 ^ 26 -> vs !! i = Some v ->
  page_present n P base vs extra i v k s filled s' ->
  same_view (view s') (with_range k 1 (fun _ => Present (user_pte s k v)) (view s)).
Proof.
  intros Hv Hu Hk Hi [Hv' He _ _ _ _] x Hx. unfold with_range. pose proof (He x Hx) as Hex.
  rewrite vpn_page in Hex by (unfold PAGES; lia).
  destruct (Z.eqb_spec x k) as [->|Hne].
  - rewrite (proj2 (Z.leb_le k k)), (proj2 (Z.ltb_lt k (k + 1))) by lia. cbn [andb]. pose proof (page_ppn_range s k Hu Hk) as Hp.
    destruct (pte_points (page_ppn s k) (prot_to_type (vmr_prot v) true)) as [HV _]; [lia|apply prot_type_range|].
    change (pte_create _ _) with (user_pte s k v) in HV. unfold view. rewrite Hex, HV. cbv zeta.
    rewrite (proj2 (Z.eqb_neq (user_pte s k v) 0)); [done|]. intros E. by rewrite E, has_0 in HV.
  - assert (Hr : (k <=? x) && (x <? k + 1) = false) by (destruct (Z.leb_spec k x), (Z.ltb_spec x (k + 1)); cbn [andb]; lia || done).
    rewrite Hr. eapply view_same; [exact Hv|exact Hv'|exact Hx|exact Hex|]. intros j w Hj _.
    by apply (recounted_page vs _ x j w (recounted_insert vs i v _ Hi)).
Qed.
End operations.
