(* ===== verification/PkCalls.v ===== *)
(** * The memory calls of a program: mmap, munmap, brk, mprotect and page faults

    Each call, made in a state that satisfies the invariant of the kernel,
    leaves one that does, and changes the view of the address space as it should. *)

From S2P Require Import Prelude State Pk PkFile PkMmap PkTree PkWalk PkVm PkMap PkFault PkSpec.

(** ** The invariant between calls *)

Record brk_ok (c : elf_info) : Prop := {
  bk_top : mmap_max c mod 4096 = 0;
  bk_align : brk c mod 4096 = 0;
  bk_brk : 0 <= brk c <= mmap_max c;
  bk_min : 0 <= brk_min c <= mmap_max c;
  bk_max : 0 <= brk_max c <= mmap_max c
}.

Definition none_held : nat -> Z := fun _ => 0.

(** [extra] as in [vm_ok]. *)
Record pk_held (n : Z) (extra : nat -> Z) (s : pk) : Prop := {
  po_vm : exists P base vs, vm_ok n P base vs (fun _ => 0) extra s;
  po_user : user_ok s;
  po_lock : vm_lock s = false;
  po_have : have_vm s = true;
  po_brk : brk_ok (current s)
}.

Definition pk_ok (n : Z) (s : pk) : Prop := pk_held n none_held s.

Lemma pk_ok_top n extra s : pk_held n extra s -> 0 <= mmap_max (current s) <= 2 ^ 38.
Proof. intros [(P & base & vs & Hv) _ _ _ _]. apply Hv. Qed.

Section calls.
Context {host : Host} (n : Z) (Hn : 0 <= n <= 2 ^ 30).

(** ** The lock *)

Lemma vm_ok_lock P base vs pend extra s b : vm_ok n P base vs pend extra s -> vm_ok n P base vs pend extra (with_vm_lock b s).
Proof.
  intros Hv. apply (vm_ok_same n n P base vs pend extra extra s); [exact Hv|by split|apply Hv|].
  apply (files_ok_same n _ s); [reflexivity|reflexivity|apply Hv].
Qed.

Lemma locked_wp {A} (m : M pk A) E (Q : A -> pk -> Prop) s : vm_lock s = false ->
  wp m E (fun r s' => Q r (with_vm_lock false s')) (with_vm_lock true s) ->
  wp (spinlock_lock;; r ← m; spinlock_unlock;; mret r) E Q s.
Proof.
  intros Hl Hm. apply wp_bind. unfold spinlock_lock. apply wp_bind, wp_gets. rewrite Hl. apply wp_modify. cbv beta.
  apply wp_bind. eapply wp_mono; [exact Hm|done|]. intros r s' Hq. cbv beta. apply wp_bind, wp_modify, wp_ret. exact Hq.
Qed.

Lemma ent_lock b s k : ent (with_vm_lock b s) k = ent s k.
Proof. reflexivity. Qed.
Lemma view_lock b s : view (with_vm_lock b s) = view s.
Proof. reflexivity. Qed.

(** What a call leaves, but for the tables and the regions. *)
Lemma pk_ok_frame P base vs extra s s' : pk_held n extra s -> vm_ok n P base vs (fun _ => 0) extra s' -> frame (with_vm_lock true s) s' ->
  pk_held n extra (with_vm_lock false s').
Proof.
  intros [_ [U1 U2 U3] Hl Hh Hb] Hv [F1 F2 F3 F4 F5 F6 F7 F8 F9 F10]. cbn in *. split.
  - exists P, base, vs. by apply vm_ok_lock.
  - split; cbn; by rewrite ?F5, ?F6, ?F9.
  - reflexivity.
  - cbn. by rewrite F7.
  - cbn. by rewrite F9.
Qed.

(** ** munmap *)

Definition good_range (s : pk) (addr length : Z) : bool := (addr mod 4096 =? 0) && (addr + length <=? mmap_max (current s)).

Lemma valid_range_run s addr length : 0 <= addr < 2 ^ 64 -> 0 <= length < 2 ^ 64 -> 0 <= mmap_max (current s) <= 2 ^ 38 ->
  valid_user_range addr length s = Ret (addr + length <=? mmap_max (current s), s).
Proof.
  intros Ha Hl Hm. unfold valid_user_range. rewrite gets_bind.
  destruct (Z.lt_ge_cases (addr + length) (2 ^ 64)).
  - rewrite u64_small by lia. by rewrite (proj2 (Z.ltb_ge (addr + length) addr)) by lia.
  - assert (Hu : u64 (addr + length) = addr + length - 2 ^ 64).
    { unfold u64. symmetry. apply (Z.mod_unique_pos (addr + length) (2 ^ 64) 1); lia. }
    rewrite Hu, (proj2 (Z.ltb_lt _ addr)) by lia. by rewrite (proj2 (Z.leb_gt (addr + length) _)) by lia.
Qed.

Lemma page_end_len j length : 0 <= length -> page_end j (j * 4096 + length) = j + (length + 4095) / 4096.
Proof.
  intros Hl. unfold page_end. rewrite <- Z.add_assoc, Z.div_add_l by lia. assert (0 <= (length + 4095) / 4096) by (apply Z.div_pos; lia). lia.
Qed.

Lemma do_munmap_spec s addr length : pk_ok n s -> 0 <= addr < 2 ^ 64 -> 0 <= length < 2 ^ 64 ->
  exists r s', do_munmap addr length s = Ret (r, s') /\ pk_ok n s' /\ closes (calls s) (calls s') /\ pmem s' = pmem s /\ current s' = current s /\
    if good_range s addr length
    then r = 0 /\ same_view (view s') (with_range (addr / 4096) ((length + 4095) / 4096) (fun _ => Unmapped) (view s))
    else r = - EINVAL /\ s' = s.
Proof.
  intros Hs Ha Hl. pose proof (pk_ok_top n _ s Hs) as Htop. unfold do_munmap.
  rewrite (run_bind _ _ _ _ _ (valid_range_run s addr length Ha Hl Htop)). unfold good_range, RISCV_PGSIZE.
  destruct (Z.eqb_spec (addr mod 4096) 0) as [Hm|Hm]; cbn [negb orb andb]; [|by eexists _, _].
  destruct (Z.leb_spec (addr + length) (mmap_max (current s))) as [Hr|Hr]; cbn [negb]; [|by eexists _, _].
  destruct (po_vm _ _ _ Hs) as (P & base & vs & Hv). pose proof (vm_ok_lock _ _ _ _ _ _ true Hv) as Hv1.
  assert (Haj : addr = addr / 4096 * 4096) by (clear - Hm; zdm). assert (Hj : 0 <= addr / 4096) by (apply Z.div_pos; lia).
  set (j := addr / 4096) in *. clearbody j.
  destruct (do_munmap_run n Hn P base vs (fun _ => 0) none_held (with_vm_lock true s) j length (fun _ => Z.le_refl 0) Hv1 Hj ltac:(lia) ltac:(cbn; lia))
    as (vs' & s' & Hrun & Hv' & Hu). rewrite <- Haj in Hrun, Hu.
  unfold spinlock_lock. rewrite bind_bind, gets_bind, (po_lock _ _ _ Hs), modify_bind, (run_bind _ _ _ _ _ Hrun).
  unfold spinlock_unlock. rewrite modify_bind. eexists _, _. split; [reflexivity|].
  split; [apply (pk_ok_frame P base vs' none_held s); [done|done|apply Hu]|]. split; [apply Hu|]. split; [apply Hu|]. split; [apply (un_frame _ _ _ _ _ _ _ _ Hu)|]. split; [reflexivity|].
  rewrite view_lock. rewrite <- (view_lock true s). apply (unmapped_view n P P base vs vs' none_held); [exact Hv1|exact Hv'|].
  assert (Hend : page_end j (addr + length) = j + (length + 4095) / 4096) by (rewrite Haj; apply page_end_len; lia).
  by rewrite <- Hend.
Qed.

(** ** Page faults *)

Lemma unlock_lock s : vm_lock s = false -> with_vm_lock false (with_vm_lock true s) = s.
Proof. destruct s. cbn. by intros ->. Qed.

Lemma user_ok_lock s b : user_ok s -> user_ok (with_vm_lock b s).
Proof. intros []. by split. Qed.

(** What a fault returns and leaves, by what the page is. *)
Definition fault_done (extra : nat -> Z) (s : pk) (k prot : Z) (out : outcome (Z * pk)) : Prop :=
  match (if k * 4096 <? mmap_max (current s) then view s k else Unmapped) with
  | Unmapped => out = Ret (-1, s)
  | Present w => out = Ret (fault_result w prot, s)
  | Untouched file off len p =>
      let pte := pte_create (page_ppn s k) (prot_to_type p true) in
      match fill_page s k file off len with
      | Ret (c, m) => exists s', out = Ret (fault_result pte prot, s') /\ pk_held n extra s' /\ closes_of file c (calls s') /\ pmem s' = m /\
                        frame s s' /\ same_view (view s') (with_range k 1 (fun _ => Present pte) (view s))
      | Fault e => out = Fault e
      end
  end.

Lemma handle_page_fault_spec extra s va prot : pk_held n extra s -> 0 <= va < 2 ^ 64 ->
  fault_done extra s (va / 4096) prot (handle_page_fault va prot s).
Proof.
  intros Hs Hva. set (k := va / 4096). pose proof (po_lock _ _ _ Hs) as Hlk. destruct (po_vm _ _ _ Hs) as (P & base & vs & Hv).
  pose proof (vm_ok_lock _ _ _ _ _ _ true Hv) as Hv1. pose proof (user_ok_lock s true (po_user _ _ _ Hs)) as Hu1.
  pose proof (pk_ok_top _ _ _ Hs) as Htop. unfold fault_done, handle_page_fault, spinlock_lock.
  rewrite bind_bind, gets_bind, Hlk, modify_bind. set (s1 := with_vm_lock true s) in *.
  assert (Hsame : forall r, handle_page_fault_locked va prot s1 = Ret (r, s1) ->
    (r ← handle_page_fault_locked va prot; spinlock_unlock;; mret r) s1 = Ret (r, s)).
  { intros r Hr. rewrite (run_bind _ _ _ _ _ Hr). unfold spinlock_unlock. rewrite modify_bind. unfold s1. by rewrite unlock_lock. }
  destruct (Z.ltb_spec (k * 4096) (mmap_max (current s))) as [Hk|Hk].
  2:{ apply Hsame, (fault_none n P base vs extra s1 Hv1); [done|by left]. }
  assert (Hk0 : 0 <= k < 2 ^ 26) by (subst k; split; [apply Z.div_pos; lia|lia]).
  destruct (view_cases n P base vs _ extra s Hv k ltac:(unfold PAGES; lia)) as [[H0 ->]|[(HV & H0 & ->)|(i & v & Hi & Hp & Hr & HV & H0 & ->)]].
  - apply Hsame, (fault_none n P base vs extra s1 Hv1); [done|by right].
  - by apply Hsame, (fault_present n P base vs extra s1 Hv1 Hu1).
  - unfold region_page. fold (fill_region s v k). pose proof (fault_fill n Hn P base vs extra s1 Hv1 Hu1 va prot i v Hva Hk Hi Hp) as Hf.
    fold k in Hf. change (fill_region s1 v k) with (fill_region s v k) in Hf.
    destruct (fill_region s v k) as [[c m]|e]; [|exact (run_bind_Fault _ _ _ _ Hf)].
    destruct Hf as (s' & Hrun & Hpp). rewrite (run_bind _ _ _ _ _ Hrun). unfold spinlock_unlock. rewrite modify_bind.
    eexists. split; [reflexivity|]. split; [|split; [|split; [|split]]].
    + eapply (pk_ok_frame P base _ _ s); [exact Hs|apply Hpp|apply Hpp].
    + apply Hpp.
    + apply Hpp.
    + destruct (pp_frame _ _ _ _ _ _ _ _ _ _ _ Hpp) as [F1 F2 F3 F4 F5 F6 F7 F8 F9 F10]. by split.
    + rewrite view_lock, <- (view_lock true s). by apply (present_view n P base vs extra s1 s' (c, m) i v k).
Qed.

(** ** mmap *)

(** The file of a descriptor. *)
Definition fd_file (s : pk) (fd : Z) : option nat :=
  if (fd <? 0) || (Z.of_nat MAX_FDS <=? fd) then None else default None (fds s !! Z.to_nat fd).

Lemma file_get_fd held s fd : files_ok 1 n held s -> (forall f, held f < 2 ^ 30) ->
  match fd_file s fd with
  | None => file_get fd s = Ret (None, s)
  | Some f => exists fs, file_get fd s = Ret (Some f, with_files fs s) /\ (f < MAX_FILES)%nat /\ files_ok 1 n (hold f 1 held) (with_files fs s) /\
                same_kfds s (with_files fs s)
  end.
Proof.
  intros Hs Hh. unfold fd_file, file_get. change (Z.of_nat MAX_FDS) with 128.
  destruct (Z.ltb_spec fd 0); [done|]. destruct (Z.leb_spec 128 fd); [done|]. cbn [orb].
  rewrite gets_bind. unfold id.
  assert (is_Some (fds s !! Z.to_nat fd)) as [[f|] Hfd]
    by (apply lookup_lt_is_Some; rewrite (ok_fds _ _ _ _ Hs); unfold MAX_FDS; lia); rewrite Hfd; cbn [default from_option id]; [|done].
  destruct (fd_in_use 1 n held s _ f Hs Hfd) as (x & Hx & Hnz).
  rewrite (run_bind _ _ _ _ _ (read_file_run s f x Hx)), (proj2 (Z.eqb_neq _ _)) by done.
  rewrite (run_bind _ _ _ _ _ (set_refcnt_run s f x _ Hx)). eexists. split; [reflexivity|].
  split; [by eapply ok_fd|]. split; [by apply (take_ref 1 n Hn held s f x)|by apply (same_kfds_set s f x)].
Qed.

Definition regions_full (s : pk) : Prop := exists base vs, vmrs s = Some (base, vs) /\ Forall (fun v => vmr_refcnt v <> 0) vs.

(** What mmap returns and leaves; its arguments are in order. *)
Definition mmap_result (s : pk) (addr length prot flags : Z) (file : option nat) (offset r : Z) (s' : pk) : Prop :=
  closes (calls s) (calls s') /\ pmem s' = pmem s /\
  ((r = MAP_FAILED /\ ((forall j, ~ placed s addr length flags j) \/ regions_full s) /\ same_view (view s') (view s)) \/
   (exists j, placed s addr length flags j /\ r = j * 4096 /\ 0 <= r /\ r + length <= mmap_max (current s) /\
      same_view (view s') (with_range j (npages length) (mapped_page r length prot file offset) (view s)))).

(** It may stop the kernel when it has to populate the mapping, or when the pages for tables run out. *)
Definition mmap_stops (s : pk) (length flags : Z) (e : fault) : Prop :=
  e = AssertFail /\ (has flags MAP_POPULATE = false -> no_pages (table_pages (npages length)) s e).

Definition locked_mmap (P : gmap Z (Z * Z)) (base : Z) (extra : nat -> Z) (s : pk)
    (addr length prot flags : Z) (file : option nat) (offset r : Z) (s' : pk) : Prop :=
  (exists P' vs', vm_ok n P' base vs' (fun _ => 0) extra s') /\ frame s s' /\
  (r = MAP_FAILED \/ 0 <= r /\ r + length <= mmap_max (current s)) /\
  (has flags MAP_POPULATE = false -> mmap_result s addr length prot flags file offset r s').

Lemma locked_mmap_run P base vs extra s addr length prot flags file offset :
  vm_ok n P base vs (fun _ => 0) extra s -> user_ok s -> have_vm s = true -> file_held extra file ->
  0 <= addr < 2 ^ 64 -> 0 < length < 2 ^ 64 -> searchable s length flags ->
  wp (do_mmap_locked addr length prot flags file offset) (mmap_stops s length flags)
    (locked_mmap P base extra s addr length prot flags file offset) s.
Proof.
  intros Hv Hu Hhv Hf Ha Hl Hs. pose proof (vm_top _ _ _ _ _ _ _ Hv) as Htop. apply (do_mmap_locked_wp n Hn P base vs extra); try done.
  - intros e He. split; [apply He|by intros _].
  - intros Hfail. split; [by exists P, vs|]. split; [done|]. split; [by left|]. intros _. split; [done|]. split; [done|]. left.
    split; [done|]. split; [|done]. destruct Hfail as [Hno|Hfull]; [by left|right]. exists base, vs. split; [apply Hv|exact Hfull].
  - intros j i s2 Hpl Hj Htopj Hfree Hm. pose proof (mapped_view n P base vs extra s s2 i j length prot file offset Hv Hfree Hj Hm) as Hview.
    destruct Hm as (P2 & vs2 & Hv2 & _ & _ & [Hfr Hc Hpm _]).
    pose proof (user_ok_frame s s2 Hu Hfr) as Hu2.
    destruct (has flags MAP_POPULATE) eqn:Hpop.
    + apply wp_bind. eapply wp_mono; [apply (populate_safe n Hn P2 base vs2 extra s2 j length prot flags Hv2 Hu2); lia|intros e He; split; [by subst e|congruence]|].
      intros [] s3 (vs3 & Hv3 & Hfr3). apply wp_ret. split; [by exists P2, vs3|]. split; [by etrans|]. split; [right; lia|]. by rewrite Hpop.
    + apply wp_bind. unfold populate_pages. apply wp_bind, wp_gets. rewrite (fr_have _ _ Hfr), Hhv, Hpop. apply wp_ret, wp_ret.
      split; [by exists P2, vs2|]. split; [done|]. split; [right; lia|]. intros _. split; [done|]. split; [done|]. right. exists j.
      split; [done|]. split; [done|]. split; [lia|]. split; [done|exact Hview].
Qed.

(** The end of mmap: the limit of brk, the lock and the reference to the file. *)
Definition mmap_end (file : option nat) (addr : Z) : M pk Z :=
  c ← gets current;
  (if addr <? brk_max c then set_brk_max addr else mret tt);;
  spinlock_unlock;;
  (if file is Some f then file_decref f else mret tt);;
  mret addr.

Definition one_held (file : option nat) : nat -> Z := match file with Some f => hold f 1 none_held | None => none_held end.

Lemma vm_files_none P base vs s : vm_ok n P base vs (fun _ => 0) none_held s -> files_ok 1 n (fun f => countz (vmr_holds f) vs) s.
Proof. intros Hv. pose proof (vm_files _ _ _ _ _ _ _ Hv) as Hf. revert Hf. apply files_ok_ext. intros f. unfold none_held. lia. Qed.

Lemma mmap_end_run P base vs s file addr :
  vm_ok n P base vs (fun _ => 0) (one_held file) s -> (forall f, file = Some f -> (f < MAX_FILES)%nat) ->
  exists fs cs m, let c := current s in
    mmap_end file addr s = Ret (addr, with_calls cs (pmem s) (with_files fs (with_vm_lock false (with_current (MkElf (brk_min c) (brk c) m (mmap_max c) (stack_top c)) s)))) /\ closes (calls s) cs /\
    m = (if addr <? brk_max c then addr else brk_max c) /\
    vm_ok n P base vs (fun _ => 0) none_held (with_calls cs (pmem s) (with_files fs (with_vm_lock false (with_current (MkElf (brk_min c) (brk c) m (mmap_max c) (stack_top c)) s)))).
Proof.
  intros Hv Hfile. set (m := if addr <? brk_max (current s) then addr else brk_max (current s)).
  set (s1 := with_vm_lock false (with_current (MkElf (brk_min (current s)) (brk (current s)) m (mmap_max (current s)) (stack_top (current s))) s)).
  assert (Hrun : mmap_end file addr s = ((if file is Some f then file_decref f else mret tt);; mret addr) s1).
  { unfold mmap_end. rewrite gets_bind. unfold s1, m. destruct (addr <? brk_max (current s)); [reflexivity|].
    rewrite ret_bind. unfold spinlock_unlock. rewrite modify_bind. by destruct s as [? ? ? ? ? ? ? ? ? ? ? ? ? ? ? []]. }
  assert (Hv1 : forall fs cs, files_ok 1 n (fun f => countz (vmr_holds f) vs + none_held f) (with_calls cs (pmem s) (with_files fs s1)) ->
    vm_ok n P base vs (fun _ => 0) none_held (with_calls cs (pmem s) (with_files fs s1))).
  { intros fs cs Hfs. apply (vm_ok_same n n P base vs (fun _ => 0) (one_held file) none_held s); [exact Hv|by split|intros f; unfold none_held; lia|exact Hfs]. }
  pose proof (vm_files _ _ _ _ _ _ _ Hv) as Hfs. destruct file as [f|].
  - assert (Hfs1 : files_ok 1 n (fun g => countz (vmr_holds g) vs + one_held (Some f) g) s1) by (by apply (files_ok_same n _ s)).
    destruct (decref_held 1 n ltac:(done) Hn _ s1 f Hfs1 (Hfile f eq_refl)) as (s2 & Hd & Hs2 & [(fs & cs & -> & Hcl) _] & _).
    { unfold one_held, hold, none_held. rewrite decide_True by done. pose proof (countz_nonneg (vmr_holds f) vs). lia. }
    exists fs, cs, m. cbv zeta. rewrite Hrun, (run_bind _ _ _ _ _ Hd). split; [reflexivity|]. split; [exact Hcl|]. split; [reflexivity|].
    apply Hv1. revert Hs2. apply files_ok_ext. intros g. unfold hold, one_held, none_held, hold. destruct (decide (g = f)); lia.
  - exists (files s1), (calls s), m. cbv zeta. rewrite Hrun, ret_bind. split; [by destruct s|]. split; [done|]. split; [reflexivity|]. apply Hv1.
    by apply (files_ok_same n _ s).
Qed.

(** What mmap does, its errors first. *)
Definition mmap_file (s : pk) (flags fd : Z) : option (option nat) :=
  if has flags MAP_ANONYMOUS then Some None else Some <$> fd_file s fd.
Definition mmap_call (s : pk) (addr length prot flags fd offset r : Z) (s' : pk) : Prop :=
  if negb (has flags MAP_PRIVATE) || (length =? 0) || negb (offset mod 4096 =? 0) then r = u64 (- EINVAL) /\ s' = s
  else match mmap_file s flags fd with
       | None => r = u64 (- EBADF) /\ s' = s
       | Some file => has flags MAP_POPULATE = false -> mmap_result s addr length prot flags file offset r s'
       end.

Lemma mmap_file_run P base vs s flags fd : vm_ok n P base vs (fun _ => 0) none_held s ->
  match mmap_file s flags fd with
  | None => (if has flags MAP_ANONYMOUS then mret (Some None) else f ← file_get fd; mret (option_map Some f)) s = Ret (None, s)
  | Some file => exists fs, (if has flags MAP_ANONYMOUS then mret (Some None) else f ← file_get fd; mret (option_map Some f)) s =
                     Ret (Some file, with_files fs s) /\
                   vm_ok n P base vs (fun _ => 0) (one_held file) (with_files fs s) /\ (forall f, file = Some f -> (f < MAX_FILES)%nat)
  end.
Proof.
  intros Hv. unfold mmap_file. destruct (has flags MAP_ANONYMOUS).
  { exists (files s). split; [by destruct s|]. split; [|done].
    apply (vm_ok_same n n P base vs (fun _ => 0) none_held none_held s); [exact Hv|by split|intros f; unfold none_held; lia|].
    apply (files_ok_same n _ s); [reflexivity|reflexivity|]. apply Hv. }
  assert (Hc : forall f, countz (vmr_holds f) vs + none_held f <= 102).
  { intros f. pose proof (countz_nonneg (vmr_holds f) vs) as Hc. unfold lenz in Hc. rewrite (vm_len _ _ _ _ _ _ _ Hv) in Hc.
    unfold MAX_VMR in Hc. unfold none_held. lia. }
  pose proof (file_get_fd _ s fd (vm_files _ _ _ _ _ _ _ Hv) ltac:(intros f; specialize (Hc f); cbv beta; lia)) as Hg.
  destruct (fd_file s fd) as [f|]; cbn [fmap option_fmap option_map].
  - destruct Hg as (fs & Hg & Hf & Hfs & _). exists fs. rewrite (run_bind _ _ _ _ _ Hg). split; [done|]. split; [|by intros g [= ->]].
    apply (vm_ok_same n n P base vs (fun _ => 0) none_held _ s); [exact Hv|by split| |].
    + intros g. unfold one_held, hold, none_held. destruct (decide (g = f)); lia.
    + revert Hfs. apply files_ok_ext. intros g. unfold one_held, hold, none_held. destruct (decide (g = f)); lia.
  - by rewrite (run_bind _ _ _ _ _ Hg).
Qed.

Lemma do_mmap_spec s addr length prot flags fd offset :
  pk_ok n s -> 0 <= addr < 2 ^ 64 -> 0 <= length < 2 ^ 64 -> searchable s length flags ->
  wp (do_mmap addr length prot flags fd offset) (mmap_stops s length flags)
    (fun r s' => pk_ok n s' /\ mmap_max (current s') = mmap_max (current s) /\ mmap_call s addr length prot flags fd offset r s') s.
Proof.
  intros Hs Ha Hl Hse. unfold do_mmap, mmap_call, RISCV_PGSIZE.
  destruct (negb (has flags MAP_PRIVATE) || (length =? 0) || negb (offset mod 4096 =? 0)) eqn:Hbad; [by apply wp_ret|].
  assert (Hl0 : 0 < length) by (destruct (Z.eqb_spec length 0); [rewrite orb_true_r in Hbad; done|lia]).
  destruct (po_vm _ _ _ Hs) as (P & base & vs & Hv). apply wp_bind. unfold wp at 1. pose proof (mmap_file_run P base vs s flags fd Hv) as Hfile.
  destruct (mmap_file s flags fd) as [file|]; [|rewrite Hfile; by apply wp_ret].
  destruct Hfile as (fs & Hrun & Hv1 & Hf). rewrite Hrun. destruct Hs as [_ [U1 U2 U3] Hlk Hhv Hb].
  apply wp_bind. unfold spinlock_lock. apply wp_bind, wp_gets. cbn [vm_lock with_files]. rewrite Hlk. apply wp_modify. cbv beta.
  set (s1 := with_vm_lock true (with_files fs s)). pose proof (vm_ok_lock _ _ _ _ _ _ true Hv1) as Hv2. fold s1 in Hv2.
  apply wp_bind. eapply wp_mono; [apply (locked_mmap_run P base vs (one_held file) s1 addr length prot flags file offset Hv2)| |].
  - by split.
  - exact Hhv.
  - unfold file_held. destruct file as [f|]; [|done]. split; [by apply Hf|]. unfold one_held, hold, none_held. by rewrite decide_True.
  - exact Ha.
  - lia.
  - exact Hse.
  - intros e He. exact He.
  - intros r s2 ((P2 & vs2 & Hv3) & [F1 F2 F3 F4 F5 F6 F7 F8 F9 F10] & Hr & Hres). cbn in *.
    change (wp (mmap_end file r) (mmap_stops s length flags) (fun r s' => pk_ok n s' /\ mmap_max (current s') = mmap_max (current s) /\
      (has flags MAP_POPULATE = false -> mmap_result s addr length prot flags file offset r s')) s2).
    destruct (mmap_end_run P2 base vs2 s2 file r Hv3 Hf) as (fs' & cs' & m & He & Hcl & Hm & Hv4). cbv zeta in He, Hv4.
    unfold wp. rewrite He. rewrite F9 in *. split; [|split; [reflexivity|intros Hp; destruct (Hres Hp) as (Hc & Hm' & Hv'); split; [by transitivity (calls s2)|exact (conj Hm' Hv')]]]. destruct Hb as [B1 B2 B3 B4 B5]. split.
    + by exists P2, base, vs2.
    + split; cbn; by rewrite ?F5, ?F6.
    + reflexivity.
    + cbn. by rewrite F7.
    + split; try done. cbn. rewrite Hm. destruct (Z.ltb_spec r (brk_max (current s))); [|done].
      destruct Hr as [->|Hr]; [unfold MAP_FAILED in *; lia|lia].
Qed.

(** ** brk *)

Definition round_up (a : Z) : Z := (a + 4095) / 4096 * 4096.

Lemma ROUNDUP_eq a : 0 <= a <= 2 ^ 38 -> ROUNDUP a RISCV_PGSIZE = round_up a.
Proof.
  intros Ha. destruct (Z.eq_dec a 0) as [->|]; [reflexivity|]. unfold ROUNDUP, round_up, RISCV_PGSIZE.
  rewrite (u64_small (a - 1)) by lia. rewrite u64_small; [|split; zdm].
  replace (a + 4095) with (a - 1 + 1 * 4096) by lia. rewrite Z.div_add by lia. reflexivity.
Qed.

Lemma round_up_range a m : 0 <= a <= m -> m mod 4096 = 0 -> 0 <= round_up a <= m /\ a <= round_up a /\ round_up a mod 4096 = 0.
Proof. unfold round_up. intros Ha Hm. rewrite Z.mod_mul by lia. repeat split; zdm. Qed.

(** The end of the data before the call, the end that is asked for and the page it is in. *)
Definition old_brk (c : elf_info) : Z := if brk c =? 0 then round_up (brk_min c) else brk c.
Definition new_brk (c : elf_info) (addr : Z) : Z := if addr <? brk_min c then brk_min c else if brk_max c <? addr then brk_max c else addr.

Definition brk_view (c : elf_info) (addr : Z) (w : Z -> page_view) : Z -> page_view :=
  let b := old_brk c in
  let e := round_up (new_brk c addr) in
  if e <? b then with_range (e / 4096) ((b - e) / 4096) (fun _ => Unmapped) w
  else with_range (b / 4096) ((e - b) / 4096) (mapped_page b (e - b) (-1) None 0) w.

Definition brk_result (s : pk) (addr r : Z) (s' : pk) : Prop :=
  r = new_brk (current s) addr /\ brk (current s') = round_up r /\ closes (calls s) (calls s') /\ pmem s' = pmem s /\
  same_view (view s') (brk_view (current s) addr (view s)).

Definition brk_stops (s : pk) (addr : Z) (e : fault) : Prop :=
  let np := npages (round_up (new_brk (current s) addr) - old_brk (current s)) in e = AssertFail /\ (no_pages (table_pages np) s e \/ regions_full s).

Definition with_brk (b : Z) (s : pk) : pk :=
  let c := current s in with_current (MkElf (brk_min c) b (brk_max c) (mmap_max c) (stack_top c)) s.

Lemma vm_ok_brk P base vs pend extra s b : vm_ok n P base vs pend extra s -> vm_ok n P base vs pend extra (with_brk b s).
Proof.
  intros Hv. apply (vm_ok_same n n P base vs pend extra extra s); [exact Hv|by split|apply Hv|].
  apply (files_ok_same n _ s); [reflexivity|reflexivity|apply Hv].
Qed.

(** The change of the mappings, from a state whose end is page [b] to page [e]. *)
Definition move_brk (e : Z) : M pk unit :=
  c ← gets current;
  if e <? brk c then do_munmap_locked e (brk c - e)
  else if brk c <? e then
    a ← do_mmap_locked (brk c) (e - brk c) (-1) (MAP_FIXED ||| MAP_PRIVATE ||| MAP_ANONYMOUS) None 0;
    kassert (a =? brk c)
  else mret tt.

Lemma do_brk_locked_eq s addr : brk_ok (current s) -> mmap_max (current s) <= 2 ^ 38 ->
  let c := current s in
  do_brk_locked addr s = (move_brk (round_up (new_brk c addr));; set_brk (round_up (new_brk c addr));; mret (new_brk c addr)) (with_brk (old_brk c) s).
Proof.
  intros [B1 B2 B3 B4 B5] Hm c. unfold do_brk_locked. rewrite gets_bind. fold c. change (if addr <? brk_min c then _ else _) with (new_brk c addr).
  assert (Hn1 : 0 <= new_brk c addr <= mmap_max c).
  { unfold new_brk. destruct (Z.ltb_spec addr (brk_min c)); [done|]. destruct (Z.ltb_spec (brk_max c) addr); [done|]. subst c. lia. }
  rewrite !ROUNDUP_eq by (subst c; lia). cbv zeta.
  assert (Hset : forall k : unit -> M pk Z, ((if brk c =? 0 then set_brk (round_up (brk_min c)) else mret tt) ≫= k) s = k tt (with_brk (old_brk c) s)).
  { intros k. unfold old_brk, with_brk. destruct (brk c =? 0); [reflexivity|]. rewrite ret_bind. unfold c. by destruct s as [? ? ? ? ? ? ? ? ? ? ? ? ? ? ? []]. }
  rewrite Hset. unfold move_brk. rewrite gets_bind, bind_bind, gets_bind. reflexivity.
Qed.

Lemma move_brk_run P base vs s e :
  vm_ok n P base vs (fun _ => 0) none_held s -> user_ok s -> have_vm s = true -> brk (current s) mod 4096 = 0 -> 0 <= brk (current s) <= mmap_max (current s) ->
  0 <= e <= mmap_max (current s) -> e mod 4096 = 0 ->
  let b := brk (current s) in
  wp (move_brk e) (fun f => f = AssertFail /\ (no_pages (table_pages (npages (e - b))) s f \/ regions_full s))
    (fun _ s' => (exists P' vs', vm_ok n P' base vs' (fun _ => 0) none_held s') /\ frame s s' /\ closes (calls s) (calls s') /\ pmem s' = pmem s /\
       same_view (view s') (if e <? b then with_range (e / 4096) ((b - e) / 4096) (fun _ => Unmapped) (view s)
                            else with_range (b / 4096) ((e - b) / 4096) (mapped_page b (e - b) (-1) None 0) (view s))) s.
Proof.
  intros Hv Hu Hhv Hb1 Hb2 He1 He2 b. pose proof (vm_top _ _ _ _ _ _ _ Hv) as Htop. unfold move_brk. apply wp_bind, wp_gets. fold b.
  assert (Hbb : b = b / 4096 * 4096) by (subst b; clear - Hb1; zdm). assert (Hee : e = e / 4096 * 4096) by (clear - He2; zdm).
  destruct (Z.ltb_spec e b) as [Hlt|Hge].
  - destruct (do_munmap_run n Hn P base vs (fun _ => 0) none_held s (e / 4096) (b - e) (fun _ => Z.le_refl 0) Hv) as (vs' & s' & Hrun & Hv' & Hun);
      [apply Z.div_pos; lia|lia|fold b in Hb2; lia|].
    rewrite <- Hee in Hrun. unfold wp. rewrite Hrun. split; [by exists P, vs'|]. split; [apply Hun|]. split; [apply Hun|]. split; [apply Hun|].
    apply (unmapped_view n P P base vs vs' none_held); [done|done|].
    assert (Hend : page_end (e / 4096) (e / 4096 * 4096 + (b - e)) = e / 4096 + (b - e) / 4096).
    { rewrite page_end_len by lia. f_equal. clear - Hbb Hee Hlt. zdm. }
    by rewrite <- Hend.
  - destruct (Z.ltb_spec b e) as [Hlt2|Hge2].
    2:{ apply wp_ret. split; [by exists P, vs|]. split; [done|]. split; [done|]. split; [done|]. intros k Hk. unfold with_range.
        replace ((e - b) / 4096) with 0 by (replace (e - b) with 0 by lia; reflexivity).
        destruct (Z.leb_spec (b / 4096) k), (Z.ltb_spec k (b / 4096 + 0)); cbn [andb]; done || lia. }
    apply wp_bind. eapply wp_mono; [apply (locked_mmap_run P base vs none_held s b (e - b) (-1) _ None 0 Hv Hu Hhv I)| |].
    + fold b in Hb2. lia.
    + fold b in Hb2. lia.
    + by intros.
    + intros f [-> Hf]. split; [done|]. left. by apply Hf.
    + intros r s' (Hv' & Hfr & _ & Hres). destruct (Hres eq_refl) as (Hc & Hpm & [(-> & Hno & _)|(j & [Hj Hjt] & -> & Hj0 & _ & Hview)]).
      * unfold kassert, m_assert, lift, wp, c_assert. rewrite (proj2 (Z.eqb_neq MAP_FAILED b)) by (unfold MAP_FAILED; fold b in Hb2; lia).
        split; [done|]. right. destruct Hno as [Hno|Hfull]; [|exact Hfull]. exfalso. apply (Hno (b / 4096)). split; [exact Hbb|lia].
      * unfold kassert, m_assert, lift, wp, c_assert. rewrite (proj2 (Z.eqb_eq (j * 4096) b)) by done.
        split; [done|]. split; [done|]. split; [done|]. split; [done|]. intros k Hk. rewrite (Hview k Hk).
        assert (Hjb : b / 4096 = j) by (rewrite Hj; apply Z.div_mul; lia). rewrite Hjb, <- Hj.
        assert (Hnp : npages (e - b) = (e - b) / 4096) by (unfold npages; clear - Hbb Hee Hlt2; zdm). by rewrite Hnp.
Qed.

Lemma do_brk_spec s addr : pk_ok n s -> 0 <= addr < 2 ^ 64 ->
  wp (do_brk addr) (brk_stops s addr) (fun r s' => pk_ok n s' /\ mmap_max (current s') = mmap_max (current s) /\ brk_result s addr r s') s.
Proof.
  intros Hs Ha. pose proof (pk_ok_top _ _ _ Hs) as Htop. destruct (po_vm _ _ _ Hs) as (P & base & vs & Hv).
  destruct Hs as [_ [U1 U2 U3] Hlk Hhv Hb]. apply (locked_wp _ _ _ s Hlk). set (s1 := with_vm_lock true s).
  unfold wp. rewrite (do_brk_locked_eq s1 addr Hb (proj2 Htop)). set (c := current s1). set (e := round_up (new_brk c addr)). set (s2 := with_brk (old_brk c) s1).
  destruct Hb as [B1 B2 B3 B4 B5].
  assert (Hn1 : 0 <= new_brk c addr <= mmap_max c).
  { unfold new_brk. destruct (Z.ltb_spec addr (brk_min c)); [done|]. destruct (Z.ltb_spec (brk_max c) addr); [done|]. subst c. cbn in *. lia. }
  destruct (round_up_range _ _ Hn1 B1) as (E1 & E2 & E3). destruct (round_up_range _ _ B4 B1) as (E4 & _ & E5).
  assert (Hold : old_brk c mod 4096 = 0 /\ 0 <= old_brk c <= mmap_max c).
  { unfold old_brk. change c with (current s). destruct (brk (current s) =? 0); by split. }
  change (wp (move_brk e;; set_brk e;; mret (new_brk c addr)) (brk_stops s addr) (fun r s' => pk_ok n (with_vm_lock false s') /\ mmap_max (current s') = mmap_max (current s) /\ brk_result s addr r (with_vm_lock false s')) s2).
  apply wp_bind. eapply wp_mono; [apply (move_brk_run P base vs s2 e (vm_ok_brk _ _ _ _ _ _ _ (vm_ok_lock _ _ _ _ _ _ true Hv)))| |].
  - by split.
  - exact Hhv.
  - apply Hold.
  - apply Hold.
  - exact E1.
  - exact E3.
  - intros f Hf. exact Hf.
  - intros [] s3 ((P3 & vs3 & Hv3) & [F1 F2 F3 F4 F5 F6 F7 F8 F9 F10] & Hc & Hpm & Hview). cbn in *.
    apply wp_bind, wp_modify, wp_ret. change (with_current _ s3) with (with_brk e s3).
    split; [|split; [cbn; by rewrite F9|split; [done|split; [done|split; [done|split; [done|exact Hview]]]]]]. split.
    + exists P3, base, vs3. by apply vm_ok_lock, vm_ok_brk.
    + split; cbn; by rewrite ?F5, ?F6, ?F9.
    + reflexivity.
    + cbn. by rewrite F7.
    + cbn. rewrite F9. split; cbn; done.
Qed.
End calls.
