(* ===== verification/PkSyscall.v ===== *)
(** * System calls of the proxy kernel on the memory of the program

    The kernel runs in the address space of the program: it reads and writes a
    buffer of the program by its virtual address, a page that is not present
    faults, and the handler of faults fills it.  The host reads and writes the
    same buffer by its physical address.  pk/syscall.c, and populate_mapping in
    pk/mmap.c. *)

From S2P Require Import Prelude State Pk PkFile PkMmap.

Section syscall.
Context {host : Host}.

(** ** Accesses by the kernel *)

(** The addresses the hardware translates. *)
Definition canonical (va : Z) : bool := (va <? 2 ^ (VA_BITS - 1)) || (2 ^ 64 - 2 ^ (VA_BITS - 1) <=? va).

(** The physical address, if the entry of the page allows the access: an atomic
    operation when [write], a load otherwise.  The kernel may use the pages of
    the program and its own. *)
Definition translated (write : bool) (va : Z) : M pk (option Z) :=
  if negb (canonical va) then mret None
  else
    p ← walk va;
    match p with
    | None => mret None
    | Some p =>
        w ← read_word p;
        mret (if has w PTE_V && has w PTE_R && (negb write || has w PTE_W)
              then Some (u64 (pte_ppn w <<< RISCV_PGSHIFT) + va mod RISCV_PGSIZE) else None)
    end.

(** Otherwise the access traps; the handler mends the page and the access is
    made again, or the kernel stops (handle_fault_load, handle_fault_store).  A
    fault that comes back after it has been mended comes back for ever. *)
Fixpoint access_loop (fuel : nat) (write : bool) (va : Z) : M pk Z :=
  pa ← translated write va;
  match pa with
  | Some pa => mret pa
  | None =>
      match fuel with
      | O => fault_with Blocked
      | S fuel =>
          r ← handle_page_fault va (if write then PROT_WRITE else PROT_READ);
          if r =? 0 then access_loop fuel write va else fault_with Die
      end
  end.
Definition kernel_touch (write : bool) (va : Z) : M pk unit := access_loop 1 write va;; mret tt.

(** ** Calls on a buffer *)

Definition file_read (f : nat) (buf size : Z) : M pk Z := file_transfer (kernel_touch true) SYS_read f buf size [0; 0; 0; 0].
Definition file_write (f : nat) (buf size : Z) : M pk Z := file_transfer (kernel_touch false) SYS_write f buf size [0; 0; 0; 0].

Definition sys_read (fd buf n : Z) : M pk Z := with_file fd (fun f => file_read f buf n).
Definition sys_pread (fd buf n offset : Z) : M pk Z := with_file fd (fun f => file_pread (kernel_touch true) f buf n offset).
Definition sys_write (fd buf n : Z) : M pk Z := with_file fd (fun f => file_write f buf n).

Definition SYS_getcwd : Z := 17.
Definition sys_getcwd (buf size : Z) : M pk Z :=
  populate_mapping (kernel_touch true) buf size;;
  pa ← va2pa buf;
  frontend_syscall SYS_getcwd [pa; size; 0; 0; 0; 0; 0].

(** ** Calls by name *)

Definition SYS_mkdirat : Z := 34.
Definition SYS_unlinkat : Z := 35.
Definition SYS_linkat : Z := 37.
Definition SYS_renameat : Z := 38.
Definition SYS_faccessat : Z := 48.
Definition SYS_chdir : Z := 49.

(** A name in a directory, with the size of its text with the final 0. *)
Definition call_at (n dirfd name name_size x : Z) : M pk Z :=
  k ← at_kfd dirfd;
  if negb (k =? -1) then
    pa ← va2pa name;
    frontend_syscall n [k; pa; name_size; x; 0; 0; 0]
  else mret (- EBADF).
Definition sys_faccessat (dirfd name name_size mode : Z) : M pk Z := call_at SYS_faccessat dirfd name name_size mode.
Definition sys_unlinkat (dirfd name name_size flags : Z) : M pk Z := call_at SYS_unlinkat dirfd name name_size flags.
Definition sys_mkdirat (dirfd name name_size mode : Z) : M pk Z := call_at SYS_mkdirat dirfd name name_size mode.

(** Two names. *)
Definition call_at2 (n old_dirfd old_name old_size new_dirfd new_name new_size x : Z) : M pk Z :=
  old_kfd ← at_kfd old_dirfd;
  new_kfd ← at_kfd new_dirfd;
  if negb (old_kfd =? -1) && negb (new_kfd =? -1) then
    old_pa ← va2pa old_name;
    new_pa ← va2pa new_name;
    frontend_syscall n [old_kfd; old_pa; old_size; new_kfd; new_pa; new_size; x]
  else mret (- EBADF).
Definition sys_linkat (old_dirfd old_name old_size new_dirfd new_name new_size flags : Z) : M pk Z :=
  call_at2 SYS_linkat old_dirfd old_name old_size new_dirfd new_name new_size flags.
Definition sys_renameat (old_fd old_path old_size new_fd new_path new_size : Z) : M pk Z :=
  r ← call_at2 SYS_renameat old_fd old_path old_size new_fd new_path new_size 0;
  mret (s32 r).

Definition sys_chdir (path : Z) : M pk Z :=
  pa ← va2pa path;
  r ← frontend_syscall SYS_chdir [pa; 0; 0; 0; 0; 0; 0];
  mret (s32 r).
End syscall.
