(* ===== verification/PkUser.v ===== *)
(** * The memory a program and the kernel share

    The kernel's accesses to the buffers of a program, and the calls that pass a
    buffer to the host: the host reads and writes what the program sees. *)

From S2P Require Import Prelude State Pk PkFile PkMmap PkTree PkWalk PkVm PkMap PkFault PkSpec PkCalls PkSyscall.

(** ** Flags of entries *)

Lemma has_bit x i : 0 <= i -> has x (2 ^ i) = Z.testbit x i.
Proof.
  intros Hi. unfold has. assert (E : x &&& 2 ^ i = if Z.testbit x i then 2 ^ i else 0).
  { apply Z.bits_inj'. intros j Hj. rewrite Z.land_spec, Z.pow2_bits_eqb by done.
    destruct (Z.eqb_spec i j) as [<-|Hne].
    - rewrite andb_true_r. destruct (Z.testbit x i); [by rewrite Z.pow2_bits_true|by rewrite Z.bits_0].
    - rewrite andb_false_r. destruct (Z.testbit x i); [by rewrite Z.pow2_bits_false|by rewrite Z.bits_0]. }
  rewrite E. destruct (Z.testbit x i); [|done]. apply negb_true_iff, Z.eqb_neq. pose proof (pow2_pos i Hi). lia.
Qed.

Lemma has_V_bit x : has x PTE_V = Z.testbit x 0.
Proof. apply (has_bit x 0). lia. Qed.
Lemma has_R_bit x : has x PTE_R = Z.testbit x 1.
Proof. apply (has_bit x 1). lia. Qed.
Lemma has_W_bit x : has x PTE_W = Z.testbit x 2.
Proof. apply (has_bit x 2). lia. Qed.

(** The bits of an entry of the program. *)
Lemma pte_bits ppn p i : 0 <= i < 10 -> Z.testbit (pte_create ppn (prot_to_type p true)) i = (i =? 0) || Z.testbit (prot_to_type p true) i.
Proof.
  intros Hi. unfold pte_create, PTE_PPN_SHIFT. rewrite !Z.lor_spec. unfold u64.
  rewrite Z.mod_pow2_bits_low, Z.shiftl_spec_low by lia. cbn [orb]. change PTE_V with (2 ^ 0).
  rewrite Z.pow2_bits_eqb, (Z.eqb_sym 0 i) by lia. done.
Qed.

(** What the kernel may do with a page by its entry, and what a new entry of the program allows. *)
Definition usable (write : bool) (w : Z) : bool := has w PTE_R && (negb write || has w PTE_W).
Definition usable_prot (write : bool) (p : Z) : bool := has p PROT_READ && (negb write || has p PROT_WRITE) || (negb write && negb (has p PROT_WRITE) && negb (has p PROT_EXEC)).

Lemma usable_pte write ppn p : usable write (pte_create ppn (prot_to_type p true)) = usable_prot write p.
Proof.
  unfold usable, usable_prot. rewrite has_R_bit, has_W_bit, !pte_bits by lia. unfold prot_to_type.
  by destruct (has p PROT_READ), (has p PROT_WRITE), (has p PROT_EXEC), write.
Qed.

Definition access_prot (write : bool) : Z := if write then PROT_WRITE else PROT_READ.

(** The handler of faults lets pass what the hardware does. *)
Lemma fault_result_pte write ppn p : 0 <= ppn < 2 ^ 54 -> usable_prot write p = true ->
  fault_result (pte_create ppn (prot_to_type p true)) (access_prot write) = 0.
Proof.
  intros Hp Hu. unfold fault_result. cbv zeta. set (w := pte_create ppn _).
  assert (Hperm : pte_create 0 (prot_to_type (access_prot write) true) = 2 ^ 0 ||| 2 ^ (if write then 2 else 1) ||| 2 ^ 4) by (by destruct write).
  rewrite Hperm, !land_lor_mask.
  assert (Hbit : forall i, 0 <= i < 10 -> Z.testbit w i = true -> w &&& 2 ^ i = 2 ^ i).
  { intros i Hi Hb. apply Z.bits_inj'. intros j Hj. rewrite Z.land_spec, Z.pow2_bits_eqb by lia.
    destruct (Z.eqb_spec i j) as [<-|]; [by rewrite Hb|apply andb_false_r]. }
  rewrite (Hbit 0), (Hbit 4), (Hbit (if write then 2 else 1)), Z.eqb_refl; [done|..]; unfold w; rewrite ?pte_bits by (destruct write; lia).
  all: try (destruct write; lia). all: unfold prot_to_type, usable_prot in *.
  all: by destruct (has p PROT_READ), (has p PROT_WRITE), (has p PROT_EXEC), write.
Qed.

Lemma fault_result_read w : fault_result w PROT_READ = 0 -> has w PTE_R = true.
Proof.
  unfold fault_result. cbv zeta. intros H. destruct (Z.eqb_spec (w &&& pte_create 0 (prot_to_type PROT_READ true)) (pte_create 0 (prot_to_type PROT_READ true))) as [E|]; [|done].
  rewrite has_R_bit. apply (f_equal (fun x => Z.testbit x 1)) in E. rewrite Z.land_spec in E. by apply andb_true_iff in E as [? _].
Qed.

(** ** One access *)

Section access.
Context {host : Host} (n : Z) (Hn : 0 <= n <= 2 ^ 30) (extra : nat -> Z).

Lemma vpn_user va : 0 <= va < 2 ^ 38 -> vpn va = va / 4096 /\ 0 <= va / 4096 < 2 ^ 26.
Proof. intros Hva. assert (H : 0 <= va / 4096 < 2 ^ 26) by zdm. split; [|done]. apply Z.mod_small. lia. Qed.

Definition translation (write : bool) (s : pk) (va : Z) : option Z :=
  match view s (va / 4096) with
  | Present w => if usable write w then Some (va + first_free_paddr s) else None
  | _ => None
  end.

(** What the hardware makes of an address of the program. *)
Lemma translated_run write s va : pk_held n extra s -> 0 <= va < mmap_max (current s) ->
  translated write va s = Ret (translation write s va, s).
Proof.
  intros Hs Hva. pose proof (pk_ok_top _ _ _ Hs) as Htop. destruct (po_vm _ _ _ Hs) as (P & base & vs & Hv).
  pose proof (vm_tree _ _ _ _ _ _ _ Hv) as Ht. destruct (vpn_user va ltac:(lia)) as [Hk Hk0]. unfold translated, translation, canonical.
  rewrite (proj2 (Z.ltb_lt va _)) by (unfold VA_BITS; lia). cbn [orb negb]. rewrite (run_bind _ _ _ _ _ (walk_run P s Ht va)).
  destruct (leaf (root_page_table s) (pages s) va) as [t|] eqn:Hl; cbn [fmap option_fmap option_map].
  2:{ unfold view. rewrite <- Hk, <- ent_vpn, (walk_missing s _ Hl). done. }
  rewrite (run_bind _ _ _ _ _ (read_slot P s Ht va t Hl)), ent_vpn, Hk.
  assert (HkP : 0 <= va / 4096 < PAGES) by (unfold PAGES; lia).
  destruct (view_cases n P base vs _ extra s Hv _ HkP) as [[H0 ->]|[(HV & H0 & Hvw)|(i & v & _ & _ & _ & HnV & _ & ->)]].
  - by rewrite H0, has_0.
  - destruct (view_present n P base vs _ extra s Hv _ _ HkP Hvw) as [_ [_ Hppn]]. rewrite Hvw, HV. cbn [andb]. change (has _ PTE_R && _) with (usable write (ent s (va / 4096))).
    destruct (usable write _); [|done]. rewrite Hppn by zdm. rewrite page_ppn_pa by (apply Hs || done). unfold page_pa, RISCV_PGSIZE.
    replace (va / 4096 * 4096 + first_free_paddr s + va mod 4096) with (va + first_free_paddr s) by (clear; zdm). done.
  - by rewrite HnV.
Qed.

(** What an access leaves that may have to fill the page. *)
Definition refused (write : bool) (w : Z) : fault := if fault_result w (access_prot write) =? 0 then Blocked else Die.
Definition touch_done (write : bool) (s : pk) (k : Z) (out : outcome (unit * pk)) : Prop :=
  match view s k with
  | Unmapped => out = Fault Die
  | Present w => out = if usable write w then Ret (tt, s) else Fault (refused write w)
  | Untouched file off len p =>
      let pte := pte_create (page_ppn s k) (prot_to_type p true) in
      match fill_page s k file off len with
      | Ret (c, m) =>
          if usable_prot write p
          then exists s', out = Ret (tt, s') /\ pk_held n extra s' /\ closes_of file c (calls s') /\ pmem s' = m /\ frame s s' /\
                 same_view (view s') (with_range k 1 (fun _ => Present pte) (view s))
          else out = Fault (refused write pte)
      | Fault e => out = Fault e
      end
  end.

Lemma touch_run write va s : kernel_touch write va s =
  (pa ← translated write va;
   match pa with
   | Some _ => mret tt
   | None =>
       r ← handle_page_fault va (access_prot write);
       if r =? 0 then pa ← translated write va; (match pa with Some _ => mret tt | None => fault_with Blocked end) else fault_with Die
   end) s.
Proof.
  unfold kernel_touch. cbn [access_loop]. rewrite !bind_bind. apply bind_ext. intros [pa|] s1; [done|]. rewrite bind_bind. apply bind_ext.
  intros r s2. destruct (r =? 0); [|done]. rewrite bind_bind. apply bind_ext. by intros [pa|] s3.
Qed.

Lemma kernel_touch_spec write s va : pk_held n extra s -> 0 <= va < mmap_max (current s) ->
  touch_done write s (va / 4096) (kernel_touch write va s).
Proof using Hn.
  intros Hs Hva. pose proof (pk_ok_top _ _ _ Hs) as Htop. set (k := va / 4096).
  assert (Hk : k * 4096 < mmap_max (current s)) by (subst k; zdm). destruct (vpn_user va ltac:(lia)) as [_ Hk0]. fold k in Hk0.
  pose proof (handle_page_fault_spec n Hn extra s va (access_prot write) Hs ltac:(lia)) as Hf. unfold fault_done in Hf. fold k in Hf.
  rewrite (proj2 (Z.ltb_lt _ _)) in Hf by done. unfold touch_done. rewrite touch_run, (run_bind _ _ _ _ _ (translated_run write s va Hs Hva)).
  unfold translation. fold k. destruct (view s k) as [|file off len p|w] eqn:Hvw.
  - by rewrite (run_bind _ _ _ _ _ Hf).
  - cbv zeta. destruct (fill_page s k file off len) as [[c m]|e]; [|exact (run_bind_Fault _ _ _ _ Hf)].
    destruct Hf as (s' & Hr & Hs' & Hc & Hm & Hfr & Hview). rewrite (run_bind _ _ _ _ _ Hr). set (pte := pte_create _ _) in *.
    assert (Hvw' : view s' k = Present pte).
    { rewrite (Hview k) by (unfold PAGES; lia). unfold with_range. by rewrite (proj2 (Z.leb_le k k)), (proj2 (Z.ltb_lt k (k + 1))) by lia. }
    assert (Hva' : 0 <= va < mmap_max (current s')) by (by rewrite (fr_current _ _ Hfr)).
    assert (Htr : translated write va s' = Ret (if usable_prot write p then Some (va + first_free_paddr s') else None, s')).
    { rewrite (translated_run write s' va Hs' Hva'). unfold translation. fold k. rewrite Hvw'. unfold pte. by rewrite usable_pte. }
    destruct (usable_prot write p) eqn:Hup.
    + pose proof (page_ppn_range s k (po_user _ _ _ Hs) Hk0) as Hp. unfold pte. rewrite (fault_result_pte write (page_ppn s k) p ltac:(lia) Hup).
      change (0 =? 0) with true. cbv iota. rewrite (run_bind _ _ _ _ _ Htr). by exists s'.
    + unfold refused. destruct (fault_result pte (access_prot write) =? 0); [|done]. by rewrite (run_bind _ _ _ _ _ Htr).
  - destruct (usable write w) eqn:Hw; [done|]. rewrite (run_bind _ _ _ _ _ Hf). unfold refused.
    destruct (fault_result w (access_prot write) =? 0); [|done]. pose proof (translated_run write s va Hs Hva) as Htr. unfold translation in Htr.
    fold k in Htr. rewrite Hvw, Hw in Htr. by rewrite (run_bind _ _ _ _ _ Htr).
Qed.

(** Whatever the page is, the access is made or the kernel stops; a load never faults for ever. *)
Definition touch_stops (write : bool) (e : fault) : Prop := e = AssertFail \/ e = Die \/ e = Blocked /\ write = true.

Lemma refused_stops write w : usable write w = false -> touch_stops write (refused write w).
Proof.
  intros Hw. unfold refused, touch_stops. destruct write; [destruct (_ =? 0); tauto|]. cbn [access_prot].
  destruct (Z.eqb_spec (fault_result w PROT_READ) 0) as [E|]; [|tauto]. unfold usable in Hw. by rewrite (fault_result_read w E) in Hw.
Qed.

Lemma kernel_touch_safe write s va : pk_held n extra s -> 0 <= va < mmap_max (current s) ->
  wp (kernel_touch write va) (touch_stops write) (fun _ s' => pk_held n extra s' /\ frame s s') s.
Proof using Hn.
  intros Hs Hva. pose proof (kernel_touch_spec write s va Hs Hva) as Ht. unfold wp. unfold touch_done in Ht.
  destruct (view s (va / 4096)) as [|file off len p|w].
  - rewrite Ht. right; by left.
  - cbv zeta in Ht. destruct (fill_page s _ file off len) as [[c m]|e] eqn:Hfill.
    + destruct (usable_prot write p) eqn:Hup; [destruct Ht as (s' & -> & Hs' & _ & _ & Hfr & _); done|].
      rewrite Ht. apply refused_stops. by rewrite usable_pte.
    + rewrite Ht. unfold fill_page in Hfill. destruct file; [|done]. destruct (0 <? _); [done|]. injection Hfill as <-. by left.
  - rewrite Ht. destruct (usable write w) eqn:Hw; [done|by apply refused_stops].
Qed.
End access.

(** ** The bytes of the program *)

(** What the program reads at an address; of a page that is still to be read
    from a file the host decides. *)
Definition user_byte (s : pk) (va : Z) : option Z :=
  match view s (va / 4096) with
  | Present w => Some (pmem s (u64 (pte_ppn w <<< RISCV_PGSHIFT) + va mod 4096))
  | Untouched None _ _ _ => Some 0
  | _ => None
  end.

Definition same_bytes (s s' : pk) : Prop := forall va, 0 <= va < mmap_max (current s) -> user_byte s' va = user_byte s va.

(** The kernel can use the page without the host. *)
Definition ready (write : bool) (pv : page_view) : bool :=
  match pv with Present w => usable write w | Untouched None _ _ p => usable_prot write p | _ => false end.
Definition all_ready (write : bool) (s : pk) (buf size : Z) : Prop :=
  forall k, buf / 4096 <= k -> k * 4096 < buf + size -> ready write (view s k) = true.

Section user.
Context {host : Host} (n : Z) (Hn : 0 <= n <= 2 ^ 30) (extra : nat -> Z).

Lemma present_pa s va w : pk_held n extra s -> 0 <= va < mmap_max (current s) -> view s (va / 4096) = Present w ->
  u64 (pte_ppn w <<< RISCV_PGSHIFT) + va mod 4096 = va + first_free_paddr s.
Proof.
  intros Hs Hva Hvw. pose proof (pk_ok_top _ _ _ Hs) as Htop. destruct (po_vm _ _ _ Hs) as (P & base & vs & Hv).
  destruct (vpn_user va ltac:(lia)) as [_ Hk0]. destruct (view_present n P base vs _ extra s Hv (va / 4096) w ltac:(unfold PAGES; lia) Hvw) as [_ [_ Hppn]].
  rewrite Hppn by zdm. rewrite page_ppn_pa by (apply Hs || done). unfold page_pa. clear. zdm.
Qed.

Lemma user_byte_present s va w : pk_held n extra s -> 0 <= va < mmap_max (current s) -> view s (va / 4096) = Present w ->
  user_byte s va = Some (pmem s (va + first_free_paddr s)).
Proof. intros Hs Hva Hvw. unfold user_byte. by rewrite Hvw, (present_pa s va w Hs Hva Hvw). Qed.

Lemma pk_held_calls s c m : pk_held n extra s -> pk_held n extra (with_calls c m s).
Proof.
  intros [(P & base & vs & Hv) [U1 U2 U3] Hl Hh Hb]. split; [|by split|done..]. exists P, base, vs. by apply vm_ok_calls.
Qed.

(** Filling a page with zeros does not change a byte. *)
Lemma touch_ready write s k : pk_held n extra s -> 0 <= k -> k * 4096 < mmap_max (current s) -> ready write (view s k) = true ->
  exists s' w, kernel_touch write (k * 4096) s = Ret (tt, s') /\ pk_held n extra s' /\ frame s s' /\ calls s' = calls s /\ same_bytes s s' /\
    view s' k = Present w /\ forall x, 0 <= x < PAGES -> x <> k -> view s' x = view s x.
Proof using Hn.
  intros Hs Hk Htop Hr. pose proof (kernel_touch_spec n Hn extra write s (k * 4096) Hs ltac:(lia)) as Ht. pose proof (pk_ok_top _ _ _ Hs) as Hmax.
  rewrite Z.div_mul in Ht by lia. unfold touch_done in Ht. unfold ready in Hr. destruct (view s k) as [|[f|] off len p|w] eqn:Hvw; [done|done| |].
  - cbn [fill_page] in Ht. rewrite Hr in Ht. destruct Ht as (s' & Hrun & Hs' & Hc & Hm & Hfr & Hview).
    assert (Hk' : view s' k = Present (pte_create (page_ppn s k) (prot_to_type p true))).
    { rewrite (Hview k) by (unfold PAGES; lia). unfold with_range. by rewrite (proj2 (Z.leb_le k k)), (proj2 (Z.ltb_lt k (k + 1))) by lia. }
    assert (Hx : forall x, 0 <= x < PAGES -> x <> k -> view s' x = view s x).
    { intros x Hx Hne. rewrite (Hview x Hx). unfold with_range. destruct (Z.leb_spec k x), (Z.ltb_spec x (k + 1)); cbn [andb]; lia || done. }
    eexists s', _. split; [exact Hrun|]. split; [exact Hs'|]. split; [exact Hfr|]. split; [exact Hc|]. split; [|split; [exact Hk'|exact Hx]].
    intros va Hva. assert (Hva' : 0 <= va < mmap_max (current s')) by (by rewrite (fr_current _ _ Hfr)).
    destruct (vpn_user va ltac:(lia)) as [_ Hvk]. destruct (Z.eq_dec (va / 4096) k) as [E|Hne].
    + rewrite <- E in Hk'. rewrite (user_byte_present s' va _ Hs' Hva' Hk'). unfold user_byte. rewrite E, Hvw. f_equal.
      rewrite Hm, (fr_paddr _ _ Hfr). replace (va + first_free_paddr s) with (page_pa s k + va mod 4096) by (unfold page_pa; clear - E; zdm).
      unfold store_at. rewrite lenz_zeros by lia. assert (0 <= va mod 4096 < 4096) by (apply Z.mod_pos_bound; lia).
      rewrite (proj2 (Z.leb_le _ _)), (proj2 (Z.ltb_lt _ _)) by lia. apply nthz_zeros.
    + specialize (Hx (va / 4096) ltac:(unfold PAGES; lia) Hne). unfold user_byte at 2. rewrite <- Hx. fold (user_byte s' va).
      destruct (view s' (va / 4096)) as [|[f|] o l q|w] eqn:Hw; unfold user_byte; rewrite Hw; try done. f_equal.
      rewrite (present_pa s' va w Hs' Hva' Hw), Hm, (fr_paddr _ _ Hfr). unfold store_at, page_pa. rewrite lenz_zeros by lia.
      destruct (Z.leb_spec (k * 4096 + first_free_paddr s) (va + first_free_paddr s)), (Z.ltb_spec (va + first_free_paddr s) (k * 4096 + first_free_paddr s + 4096));
        cbn [andb]; try done. exfalso. apply Hne. clear - H H0. zdm.
  - rewrite Hr in Ht. exists s, w. split; [done|]. split; [done|]. split; [done|]. split; [done|]. split; [by intros va _|]. by split.
Qed.

(** ** A buffer *)

Lemma populate_wp (I : Z -> pk -> Prop) E touch s buf size :
  0 <= buf -> 0 <= size -> buf + size <= 2 ^ 38 ->
  (forall k s', buf / 4096 <= k -> k * 4096 < buf + size -> I k s' -> wp (touch (k * 4096)) E (fun _ => I (k + 1)) s') ->
  I (buf / 4096) s -> wp (populate_mapping touch buf size) E (fun _ => I (page_end (buf / 4096) (buf + size))) s.
Proof.
  intros Hb Hsz Hm Ht HI. unfold populate_mapping, ROUNDDOWN, RISCV_PGSIZE. rewrite u64_small by lia.
  apply for_pages_wp; [lia|apply Z.div_pos; lia|done|done|unfold page_fuel; lia|].
  unfold page_fuel, RISCV_PGSIZE. rewrite !Nat2Z.inj_succ, Z2Nat.id by (apply Z.div_pos; lia). zdm.
Qed.

(** What filling a buffer leaves of the state [s]. *)
Record populated (s : pk) (j k : Z) (s' : pk) : Prop := {
  pd_ok : pk_held n extra s';
  pd_frame : frame s s';
  pd_calls : calls s' = calls s;
  pd_bytes : same_bytes s s';
  pd_present x : j <= x < k -> exists w, view s' x = Present w;
  pd_other x : 0 <= x < PAGES -> ~ (j <= x < k) -> view s' x = view s x
}.

Lemma same_bytes_trans s1 s2 s3 : frame s1 s2 -> same_bytes s1 s2 -> same_bytes s2 s3 -> same_bytes s1 s3.
Proof. intros Hf H1 H2 va Hva. rewrite (H2 va); [by apply H1|]. by rewrite (fr_current _ _ Hf). Qed.

Lemma populate_ready write s buf size :
  pk_held n extra s -> 0 <= buf -> 0 <= size -> buf + size <= mmap_max (current s) -> all_ready write s buf size ->
  exists s', populate_mapping (kernel_touch write) buf size s = Ret (tt, s') /\
    populated s (buf / 4096) (page_end (buf / 4096) (buf + size)) s'.
Proof using Hn.
  intros Hs Hb Hsz Htop Hr. pose proof (pk_ok_top _ _ _ Hs) as Hmax. assert (Hj : 0 <= buf / 4096) by (apply Z.div_pos; lia).
  destruct (wp_total (populate_mapping (kernel_touch write) buf size) (fun _ => populated s (buf / 4096) (page_end (buf / 4096) (buf + size))) s)
    as ([] & s' & Hrun & Hp); [|by exists s'].
  apply (populate_wp (populated s (buf / 4096))); try lia.
  - intros k s1 Hk Hkt [Hs1 Hf1 Hc1 Hb1 Hp1 Ho1].
    assert (Hv1 : view s1 k = view s k) by (apply Ho1; unfold PAGES; lia).
    destruct (touch_ready write s1 k Hs1) as (s2 & w & Hrun & Hs2 & Hf2 & Hc2 & Hb2 & Hw & Hx2);
      [lia|rewrite (fr_current _ _ Hf1); lia|rewrite Hv1; by apply Hr|].
    unfold wp. rewrite Hrun. split; [done|by etrans|congruence|by apply (same_bytes_trans s s1)| |].
    + intros x Hx. destruct (Z.eq_dec x k) as [->|Hne]; [by exists w|]. rewrite Hx2 by (unfold PAGES; lia). apply Hp1. lia.
    + intros x Hx Hnx. rewrite Hx2 by lia. apply Ho1; lia.
  - split; [done|done|done|by intros va _|lia|done].
Qed.

(** The host is given the place of the buffer in the memory. *)
Definition buffer_pa (s : pk) (buf : Z) : Z := if DRAM_BASE s <=? buf then buf else buf + first_free_paddr s.

Lemma va2pa_run s buf : user_ok s -> 0 <= buf <= 2 ^ 38 -> va2pa buf s = Ret (buffer_pa s buf, s).
Proof.
  intros [U1 U2 U3] Hb. unfold va2pa, buffer_pa. rewrite gets_bind. unfold id. by rewrite u64_small by lia.
Qed.

Lemma transfer_ready write nr f buf size rest s :
  pk_held n extra s -> (f < MAX_FILES)%nat -> 0 <= buf -> 0 <= size -> buf + size <= mmap_max (current s) -> all_ready write s buf size ->
  exists s1, populated s (buf / 4096) (page_end (buf / 4096) (buf + size)) s1 /\
    let c := MkCall nr (file_kfd s f :: buffer_pa s buf :: size :: rest) in
    file_transfer (kernel_touch write) nr f buf size rest s = Ret (s64 (answer (c :: calls s1)), after_call c s1).
Proof using Hn.
  intros Hs Hf Hb Hsz Htop Hr. pose proof (pk_ok_top _ _ _ Hs) as Hmax.
  destruct (populate_ready write s buf size Hs Hb Hsz Htop Hr) as (s1 & Hrun & Hp). exists s1. split; [done|]. destruct Hp as [Hs1 Hf1 _ _ _ _].
  unfold file_transfer. rewrite (run_bind _ _ _ _ _ Hrun). destruct (po_vm _ _ _ Hs1) as (P & base & vs & Hv).
  destruct (file_lookup 1 n _ s1 f (vm_files _ _ _ _ _ _ _ Hv) Hf) as [x Hx]. rewrite (run_bind _ _ _ _ _ (read_file_run s1 f x Hx)).
  rewrite (run_bind _ _ _ _ _ (va2pa_run s1 buf (po_user _ _ _ Hs1) ltac:(lia))).
  assert (Hk : kfd x = file_kfd s f) by (rewrite <- (fr_kfds _ _ Hf1 f); unfold file_kfd; by rewrite Hx).
  unfold buffer_pa. by rewrite Hk, (fr_dram _ _ Hf1), (fr_paddr _ _ Hf1).
Qed.

(** After a call of the host that writes [bs] to the buffer. *)
Lemma host_wrote s buf size k s1 c bs va :
  populated s (buf / 4096) k s1 -> page_end (buf / 4096) (buf + size) = k -> 0 <= buf -> lenz bs <= size -> buf + size <= mmap_max (current s) ->
  writes (c :: calls s1) = [(buffer_pa s buf, bs)] -> 0 <= va < mmap_max (current s) ->
  user_byte (after_call c s1) va = if (buf <=? va) && (va <? buf + lenz bs) then Some (bs !z (va - buf)) else user_byte s va.
Proof.
  intros [Hs1 Hf1 _ Hb1 Hp1 _] Hk Hb Hbs Htop Hw Hva. rewrite <- (Hb1 va Hva).
  assert (Hva1 : 0 <= va < mmap_max (current s1)) by (by rewrite (fr_current _ _ Hf1)). pose proof (us_dram _ (po_user _ _ _ Hs1)) as Hdram.
  assert (Hm : pmem (after_call c s1) = store_at (buffer_pa s buf) bs (pmem s1)) by (unfold after_call; cbn; by rewrite Hw).
  unfold user_byte. change (view (after_call c s1)) with (view s1). rewrite Hm.
  assert (Hpa : lenz bs = 0 \/ buffer_pa s buf = buf + first_free_paddr s1).
  { unfold buffer_pa. rewrite <- (fr_dram _ _ Hf1), <- (fr_paddr _ _ Hf1). destruct (Z.leb_spec (DRAM_BASE s1) buf); [left|by right].
    pose proof (lenz_nonneg bs). rewrite (fr_current _ _ Hf1) in Hdram. lia. }
  destruct (view s1 (va / 4096)) as [|file o l p|w] eqn:Hvw.
  3:{ rewrite (present_pa s1 va w Hs1 Hva1 Hvw). unfold store_at. pose proof (lenz_nonneg bs). destruct Hpa as [H0| ->].
      - destruct (Z.leb_spec (buffer_pa s buf) (va + first_free_paddr s1)), (Z.ltb_spec (va + first_free_paddr s1) (buffer_pa s buf + lenz bs)),
          (Z.leb_spec buf va), (Z.ltb_spec va (buf + lenz bs)); cbn [andb]; lia || done.
      - replace (va + first_free_paddr s1 - (buf + first_free_paddr s1)) with (va - buf) by lia.
        destruct (Z.leb_spec (buf + first_free_paddr s1) (va + first_free_paddr s1)), (Z.ltb_spec (va + first_free_paddr s1) (buf + first_free_paddr s1 + lenz bs)),
          (Z.leb_spec buf va), (Z.ltb_spec va (buf + lenz bs)); cbn [andb]; lia || done. }
  all: destruct (Z.leb_spec buf va), (Z.ltb_spec va (buf + lenz bs)); cbn [andb]; try done; exfalso.
  all: destruct (Hp1 (va / 4096)) as [w Hw']; [rewrite <- Hk; unfold page_end; zdm|congruence].
Qed.
End user.

(** ** Calls on a file *)

Section with_file.
Context {host : Host} (n : Z) (Hn : 0 <= n <= 2 ^ 30).

(** The file is held while the call runs. *)
Lemma with_file_wp s fd k E (Q : Z -> pk -> Prop) :
  pk_ok n s -> (fd_file s fd = None -> Q (- EBADF) s) ->
  (forall f fs, fd_file s fd = Some f -> (f < MAX_FILES)%nat -> same_kfds s (with_files fs s) ->
     pk_held n (one_held (Some f)) (with_files fs s) ->
     wp (k f) E (fun r s2 => pk_held n (one_held (Some f)) s2 /\
         forall fs' cs', let s' := with_calls cs' (pmem s2) (with_files fs' s2) in closes (calls s2) cs' -> pk_ok n s' -> Q r s') (with_files fs s)) ->
  wp (with_file fd k) E Q s.
Proof using Hn.
  intros Hs Hnone Hk. unfold with_file. apply wp_bind. unfold wp at 1. destruct (po_vm _ _ _ Hs) as (P & base & vs & Hv).
  assert (Hc : forall vs f, length vs = MAX_VMR -> 0 <= countz (vmr_holds f) vs <= 102).
  { intros vs' f Hlen. pose proof (countz_nonneg (vmr_holds f) vs') as Hc. unfold lenz in Hc. rewrite Hlen in Hc. unfold MAX_VMR in Hc. lia. }
  pose proof (file_get_fd n Hn _ s fd (vm_files _ _ _ _ _ _ _ Hv)) as Hg.
  specialize (Hg ltac:(intros f; pose proof (Hc vs f (vm_len _ _ _ _ _ _ _ Hv)); unfold none_held; lia)).
  destruct (fd_file s fd) as [f|] eqn:Hfd; [|rewrite Hg; by apply wp_ret, Hnone].
  destruct Hg as (fs & Hg & Hf & Hfs & Hkf). rewrite Hg.
  assert (Hone : forall g, 0 <= one_held (Some f) g <= 2 ^ 20) by (intros g; unfold one_held, hold, none_held; destruct (decide (g = f)); lia).
  assert (Hs1 : pk_held n (one_held (Some f)) (with_files fs s)).
  { destruct Hs as [_ [U1 U2 U3] Hl Hh Hb]. split; [|by split|done..]. exists P, base, vs.
    apply (vm_ok_same n n P base vs (fun _ => 0) none_held _ s); [exact Hv|by split|exact Hone|].
    revert Hfs. apply files_ok_ext. intros g. unfold one_held, hold, none_held. destruct (decide (g = f)); lia. }
  apply wp_bind. eapply wp_mono; [by apply (Hk f fs eq_refl Hf Hkf)|done|]. intros r s2 [Hs2 HQ]. cbv beta.
  destruct (po_vm _ _ _ Hs2) as (P2 & base2 & vs2 & Hv2).
  destruct (decref_held 1 n ltac:(done) Hn _ s2 f (vm_files _ _ _ _ _ _ _ Hv2) Hf) as (s3 & Hd & Hs3 & [(fs' & cs' & -> & Hcl) _] & _).
  { unfold one_held, hold, none_held. rewrite decide_True by done. pose proof (Hc vs2 f (vm_len _ _ _ _ _ _ _ Hv2)). lia. }
  apply wp_bind. unfold wp at 1. rewrite Hd. apply wp_ret, HQ; [done|].
  destruct Hs2 as [_ [U1 U2 U3] Hl Hh Hb]. split; [|by split|done..]. exists P2, base2, vs2.
  apply (vm_ok_same n n P2 base2 vs2 (fun _ => 0) (one_held (Some f)) none_held s2); [exact Hv2|by split|intros g; unfold none_held; lia|].
  revert Hs3. apply files_ok_ext. intros g. unfold hold, one_held, none_held, hold. destruct (decide (g = f)); lia.
Qed.
End with_file.

(** ** Any buffer *)

Section transfers.
Context {host : Host} (n : Z) (Hn : 0 <= n <= 2 ^ 30).

(** The calls keep the invariant and the size of the user's part of the address space. *)
Definition safe_from (extra : nat -> Z) (s s' : pk) : Prop := pk_held n extra s' /\ mmap_max (current s') = mmap_max (current s).

Lemma populate_buffer_safe extra write s buf size :
  pk_held n extra s -> 0 <= buf -> 0 <= size -> buf + size <= mmap_max (current s) ->
  wp (populate_mapping (kernel_touch write) buf size) (touch_stops write) (fun _ => safe_from extra s) s.
Proof using Hn.
  intros Hs Hb Hsz Htop. pose proof (pk_ok_top _ _ _ Hs) as Hmax. assert (Hj : 0 <= buf / 4096) by (apply Z.div_pos; lia).
  apply (populate_wp (fun _ => safe_from extra s)); try lia; [|by split].
  intros k s1 Hk Hkt [Hs1 Hm1]. eapply wp_mono; [apply (kernel_touch_safe n Hn extra write s1); [done|lia]|done|].
  intros [] s2 [Hs2 Hf2]. split; [done|]. by rewrite (fr_current _ _ Hf2).
Qed.

Lemma host_safe extra s0 s nr args : safe_from extra s0 s -> wp (frontend_syscall nr args) (fun _ => False) (fun _ => safe_from extra s0) s.
Proof. intros [Hs Hm]. unfold wp, frontend_syscall. cbv zeta. split; [by apply pk_held_calls|done]. Qed.

Lemma file_transfer_safe extra write nr f buf size rest s :
  pk_held n extra s -> (f < MAX_FILES)%nat -> 0 <= buf -> 0 <= size -> buf + size <= mmap_max (current s) ->
  wp (file_transfer (kernel_touch write) nr f buf size rest) (touch_stops write) (fun _ => safe_from extra s) s.
Proof using Hn.
  intros Hs Hf Hb Hsz Htop. pose proof (pk_ok_top _ _ _ Hs) as Hmax. apply wp_bind.
  eapply wp_mono; [by apply (populate_buffer_safe extra)|done|]. intros [] s1 [Hs1 Hm1]. destruct (po_vm _ _ _ Hs1) as (P & base & vs & Hv).
  destruct (file_lookup 1 n _ s1 f (vm_files _ _ _ _ _ _ _ Hv) Hf) as [x Hx]. apply wp_bind. unfold wp at 1. rewrite (read_file_run s1 f x Hx).
  apply wp_bind. unfold wp at 1. rewrite (va2pa_run s1 buf (po_user _ _ _ Hs1) ltac:(lia)). eapply wp_mono; [by apply host_safe|done|done].
Qed.

Lemma with_transfer_safe write nr fd buf size rest s :
  pk_ok n s -> 0 <= buf -> 0 <= size -> buf + size <= mmap_max (current s) ->
  wp (with_file fd (fun f => file_transfer (kernel_touch write) nr f buf size rest)) (touch_stops write) (fun _ => safe_from none_held s) s.
Proof using Hn.
  intros Hs Hb Hsz Htop. apply (with_file_wp n Hn); [done|by split|]. intros f fs _ Hf _ Hs1.
  eapply wp_mono; [by apply (file_transfer_safe _ write nr f buf size rest (with_files fs s) Hs1 Hf)|done|].
  intros r s2 [Hs2 Hm2]. split; [done|]. intros fs' Hok. by split.
Qed.

Lemma sys_getcwd_safe buf size s :
  pk_ok n s -> 0 <= buf -> 0 <= size -> buf + size <= mmap_max (current s) ->
  wp (sys_getcwd buf size) (touch_stops true) (fun _ => safe_from none_held s) s.
Proof using Hn.
  intros Hs Hb Hsz Htop. pose proof (pk_ok_top _ _ _ Hs) as Hmax. apply wp_bind. eapply wp_mono; [by apply (populate_buffer_safe none_held)|done|].
  intros [] s1 [Hs1 Hm1]. apply wp_bind. unfold wp at 1. rewrite (va2pa_run s1 buf (po_user _ _ _ Hs1) ltac:(lia)).
  eapply wp_mono; [by apply host_safe|done|done].
Qed.
End transfers.
