(* ===== verification/PkProt.v ===== *)
(** * mprotect of the proxy kernel

    A page that is present gets a new entry; for a page that has not been
    accessed the protection of its region changes, and with it that of all other
    pages of the region that have not been accessed. *)

From S2P Require Import Prelude State Pk PkFile PkMmap PkTree PkWalk PkVm PkMap PkFault PkSpec PkCalls.

Definition with_prot (v : vmr_t) (p : Z) : vmr_t :=
  MkVmr (vmr_addr v) (vmr_length v) (vmr_file v) (vmr_offset v) (vmr_refcnt v) p.

Definition reprot (p : Z) (w : page_view) : page_view :=
  match w with Untouched f off len _ => Untouched f off len p | _ => w end.

(** More than the region allows. *)
Definition widens (old new : Z) : bool := negb ((old ^^^ new) &&& Z.lnot old =? 0).
(** More than the entry allows. *)
Definition exceeds (w prot : Z) : bool :=
  negb (has w PTE_U) || (has prot PROT_READ && negb (has w PTE_R)) ||
  (has prot PROT_WRITE && negb (has w PTE_W)) || (has prot PROT_EXEC && negb (has w PTE_X)).

(** What mprotect makes of the page [k]: its result and the view. *)
Definition protect_page (s : pk) (k prot : Z) : Z * (Z -> page_view) :=
  match view s k with
  | Unmapped => (- ENOMEM, view s)
  | Untouched _ _ _ p =>
      if widens p prot then (- EACCES, view s)
      else (0, fun x => if ent s x =? ent s k then reprot prot (view s x) else view s x)
  | Present w =>
      if exceeds w prot then (- EACCES, view s)
      else (0, with_range k 1 (fun _ => Present (pte_create (pte_ppn w) (prot_to_type prot true))) (view s))
  end.

Lemma pte_V p t : has (pte_create p t) PTE_V = true.
Proof. rewrite has_V. unfold pte_create. rewrite !Z.lor_spec. by rewrite orb_true_r. Qed.

Section protect.
Context {host : Host} (n : Z) (Hn : 0 <= n <= 2 ^ 30).

(** The host is not asked for anything. *)
Definition silent (s s' : pk) : Prop := keeps 0 s s' /\ calls s' = calls s.

Lemma silent_trans s1 s2 s3 : silent s1 s2 -> silent s2 s3 -> silent s1 s3.
Proof. intros [H1 C1] [H2 C2]. split; [by apply (keeps_trans 0 0 s1 s2)|congruence]. Qed.

Definition page_protected (P : gmap Z (Z * Z)) (base : Z) (extra : nat -> Z) (k prot : Z) (s : pk) (r : Z) (s' : pk) : Prop :=
  (exists vs', vm_ok n P base vs' (fun _ => 0) extra s') /\ silent s s' /\
  r = (protect_page s k prot).1 /\ same_view (view s') (protect_page s k prot).2.

Lemma protect_region P base vs extra s i v prot :
  vm_ok n P base vs (fun _ => 0) extra s -> vs !! i = Some v ->
  let s' := with_vmrs (Some (base, <[i := with_prot v prot]> vs)) s in
  vm_ok n P base (<[i := with_prot v prot]> vs) (fun _ => 0) extra s' /\
  same_view (view s') (fun x => if ent s x =? vmr_ptr base i then reprot prot (view s x) else view s x).
Proof.
  intros Hv Hi s'. destruct (vm_count _ _ _ _ _ _ _ Hv i v Hi) as [_ Hc]. assert (Hlt : (i < length vs)%nat) by (by eapply lookup_lt_Some).
  assert (Hv' : vm_ok n P base (<[i := with_prot v prot]> vs) (fun _ => 0) extra s').
  { apply (vm_ok_pend n _ _ _ (fun j => if decide (j = i) then 0 - (vmr_refcnt v - vmr_refcnt (with_prot v prot)) else 0)).
    { intros j. cbn. destruct (decide (j = i)); lia. }
    apply (vm_update n P base vs (fun _ => 0) extra s i v (with_prot v prot) extra s' Hv Hi); try reflexivity; [done|cbn; lia| |apply Hv|].
    - destruct (vm_alloc_ok _ _ _ _ _ _ _ Hv) as [A1 A2 A3 A4]. by split.
    - apply (files_ok_same n _ s); [reflexivity|reflexivity|]. pose proof (vm_files _ _ _ _ _ _ _ Hv) as Hf. revert Hf. apply files_ok_ext.
      intros f. rewrite (countz_insert _ _ _ v) by done. change (bool_decide (vmr_holds f (with_prot v prot))) with (bool_decide (vmr_holds f v)). lia. }
  split; [exact Hv'|]. intros x Hx. destruct (vm_base _ _ _ _ _ _ _ Hv) as (Hb & _).
  destruct (view_cases n P base vs _ extra s Hv x Hx) as [[H0 Hvw]|[(HV & H0 & Hvw)|(j & w & Hj & Hp & Hr & HV & H0 & Hvw)]]; rewrite Hvw.
  - unfold view. change (ent s' x) with (ent s x). rewrite H0. by destruct (0 =? vmr_ptr base i).
  - unfold view. change (ent s' x) with (ent s x). rewrite HV, (proj2 (Z.eqb_neq _ 0)) by done. by destruct (ent s x =? vmr_ptr base i).
  - unfold view. change (ent s' x) with (ent s x). rewrite HV, (proj2 (Z.eqb_neq _ 0)) by done. cbn [vmrs s' with_vmrs].
    assert (Hlj : (j < MAX_VMR)%nat) by (rewrite <- (vm_len _ _ _ _ _ _ _ Hv); by eapply lookup_lt_Some).
    destruct (vmr_ptr_facts base j Hb Hlj) as (_ & _ & Hxj & _). rewrite Hp, Hxj. destruct (decide (i = j)) as [->|Hne].
    + rewrite list_lookup_insert_eq, Z.eqb_refl by done. rewrite Hj in Hi. by injection Hi as <-.
    + rewrite list_lookup_insert_ne, Hj by done. rewrite (proj2 (Z.eqb_neq _ _)); [done|]. intros E. by apply vmr_ptr_inj in E.
Qed.

Lemma mprotect_page_run P base vs extra s a prot : vm_ok n P base vs (fun _ => 0) extra s -> user_ok s ->
  exists r s', mprotect_page prot a s = Ret (r, s') /\ page_protected P base extra (vpn a) prot s r s'.
Proof.
  intros Hv Hu. pose proof (vm_tree _ _ _ _ _ _ _ Hv) as Ht. pose proof (vpn_range a) as Hk. set (k := vpn a) in *.
  assert (Hk0 : silent s s) by (split; [split; [reflexivity|reflexivity|reflexivity|lia]|done]).
  unfold mprotect_page, page_protected, protect_page. rewrite (run_bind _ _ _ _ _ (walk_run P s Ht a)).
  destruct (leaf (root_page_table s) (pages s) a) as [t|] eqn:Hl; cbn [fmap option_fmap option_map].
  2:{ eexists _, s. split; [reflexivity|]. assert (Hvw : view s k = Unmapped) by (unfold view, k; by rewrite <- ent_vpn, (walk_missing s a Hl)).
      rewrite Hvw. split; [by exists vs|done]. }
  rewrite (run_bind _ _ _ _ _ (read_slot P s Ht a t Hl)), ent_vpn. fold k.
  destruct (view_cases n P base vs _ extra s Hv k Hk) as [[H0 ->]|[(HV & H0 & Hvw)|(i & v & Hi & Hp & Hr & HV & H0 & ->)]]; [| |].
  - rewrite H0. eexists _, s. split; [reflexivity|]. split; [by exists vs|done].
  - destruct (view_present n P base vs _ extra s Hv k _ Hk Hvw) as [_ [_ Hppn]]. rewrite Hvw.
    rewrite HV, (proj2 (Z.eqb_neq _ 0)) by done. cbn [negb]. change (_ || _ || _ || _) with (exceeds (ent s k) prot).
    destruct (exceeds (ent s k) prot); [eexists _, s; split; [reflexivity|]; split; [by exists vs|done]|].
    rewrite (run_bind _ _ _ _ _ (write_slot_run P s a t _ Ht Hl)). eexists _, _. split; [reflexivity|]. set (w := pte_create _ _).
    assert (Hv' : vm_ok n P base vs (fun _ => 0) extra (with_ent t a w s)).
    { eapply vm_set; [exact Hv|exact Hl| |].
      { right; left. split; [apply pte_V|]. fold k. intros Hkm. unfold w. rewrite (Hppn Hkm). pose proof (vm_top _ _ _ _ _ _ _ Hv).
        apply (present_pte s k _ Hu); [lia|apply prot_type_range|exact Hkm]. }
      intros j Hj. fold k.
      destruct (vm_base _ _ _ _ _ _ _ Hv) as (Hb & _). destruct (vmr_ptr_facts base j Hb Hj) as (_ & HnV & _).
      assert (w <> vmr_ptr base j) by (intros E; unfold w in E; rewrite <- E, pte_V in HnV; done).
      rewrite !bool_decide_eq_false_2 by congruence. cbn [Z.b2z]. lia. }
    split; [by exists vs|]. split; [split; [split; [by split|reflexivity|reflexivity|cbn; lia]|reflexivity]|]. split; [done|]. cbn [snd]. intros x Hx. unfold with_range.
    pose proof (ent_with P s a t w x Ht Hl Hx) as Hex. fold k in Hex. destruct (Z.eqb_spec x k) as [->|Hne].
    + rewrite (proj2 (Z.leb_le k k)), (proj2 (Z.ltb_lt k (k + 1))) by lia. cbn [andb]. unfold view. rewrite Hex. unfold w.
      rewrite pte_V. rewrite (proj2 (Z.eqb_neq _ 0)); [done|]. intros E. pose proof (pte_V (pte_ppn (ent s k)) (prot_to_type prot true)) as HV'.
      by rewrite E, has_0 in HV'.
    + assert (Hr : (k <=? x) && (x <? k + 1) = false) by (destruct (Z.leb_spec k x), (Z.ltb_spec x (k + 1)); cbn [andb]; lia || done).
      rewrite Hr. eapply view_same; [exact Hv|exact Hv'|exact Hx|exact Hex|]. intros j u Hj _. by exists u.
  - rewrite HV, (proj2 (Z.eqb_neq _ 0)) by done. cbn [negb]. destruct (vm_base _ _ _ _ _ _ _ Hv) as (Hb & _).
    assert (Hlt : (i < MAX_VMR)%nat) by (rewrite <- (vm_len _ _ _ _ _ _ _ Hv); by eapply lookup_lt_Some).
    rewrite Hp, (run_bind _ _ _ _ _ (read_vmr_run base vs s i v Hb (vm_len _ _ _ _ _ _ _ Hv) (vm_vmrs _ _ _ _ _ _ _ Hv) Hi)).
    unfold region_page. change (negb (_ =? 0)) with (widens (vmr_prot v) prot).
    destruct (widens (vmr_prot v) prot); [eexists _, s; split; [reflexivity|]; split; [by exists vs|done]|].
    rewrite (run_bind _ _ _ _ _ (write_vmr_run base vs s i _ Hb Hlt (vm_vmrs _ _ _ _ _ _ _ Hv))). eexists _, _. split; [reflexivity|].
    destruct (protect_region P base vs extra s i v prot Hv Hi) as [Hv' Hvw].
    split; [by eexists|]. split; [split; [split; [by split|reflexivity|reflexivity|cbn; lia]|reflexivity]|]. split; [done|]. exact Hvw.
Qed.

Lemma mprotect_loop_run P base extra prot last fuel : last <= 2 ^ 64 - 4096 -> forall j vs s,
  vm_ok n P base vs (fun _ => 0) extra s -> user_ok s -> 0 <= j -> (0 < fuel)%nat -> last - j * 4096 < 4096 * (Z.of_nat fuel - 1) ->
  exists r s', mprotect_loop fuel (j * 4096) last prot s = Ret (r, s') /\ (exists vs', vm_ok n P base vs' (fun _ => 0) extra s') /\ silent s s' /\
    (r = 0 \/ r = - ENOMEM \/ r = - EACCES).
Proof.
  intros Hlast. induction fuel as [|fuel IH]; intros j vs s Hv Hu Hj H0 Hf; [lia|]. cbn [mprotect_loop].
  destruct (Z.ltb_spec (j * 4096) last).
  - destruct (mprotect_page_run P base vs extra s (j * 4096) prot Hv Hu) as (r & s1 & Hr & (vs1 & Hv1) & Hk1 & Hres & _).
    rewrite (run_bind _ _ _ _ _ Hr). destruct (Z.eqb_spec r 0) as [->|Hr0].
    + unfold RISCV_PGSIZE. assert (Hnext : u64 (j * 4096 + 4096) = (j + 1) * 4096) by (rewrite u64_small; lia). rewrite Hnext.
      destruct (IH (j + 1) vs1 s1 Hv1 (user_ok_frame s s1 Hu (kp_frame _ _ _ (proj1 Hk1)))) as (r & s' & Hr' & Hv' & Hk' & Hres'); [lia|lia|lia|]. exists r, s'. split; [exact Hr'|].
      split; [exact Hv'|]. split; [by apply (silent_trans s s1)|exact Hres'].
    + exists r, s1. split; [reflexivity|]. split; [by exists vs1|]. split; [done|]. right. unfold protect_page in Hres.
      destruct (view s (vpn (j * 4096))) as [|f o l p|w]; [by left|destruct (widens p prot); [by right|done]|destruct (exceeds w prot); [by right|done]].
  - exists 0, s. split; [reflexivity|]. split; [by exists vs|]. split; [split; [split; [reflexivity|reflexivity|reflexivity|lia]|done]|by left].
Qed.

Lemma do_mprotect_spec s addr length prot : pk_ok n s -> 0 <= addr -> 0 <= length -> addr + length <= 2 ^ 64 - 4096 ->
  exists r s', do_mprotect addr length prot s = Ret (r, s') /\ pk_ok n s' /\ calls s' = calls s /\ pmem s' = pmem s /\ current s' = current s /\
    (addr mod 4096 <> 0 -> r = u64 (- EINVAL) /\ s' = s) /\
    (addr mod 4096 = 0 -> length <> 0 -> length <= 4096 ->
       r = u64 (protect_page s (vpn addr) prot).1 /\ same_view (view s') (protect_page s (vpn addr) prot).2).
Proof.
  intros Hs Ha Hl Hal. unfold do_mprotect, RISCV_PGSIZE. destruct (Z.eqb_spec (addr mod 4096) 0) as [Hm|Hm]; cbn [negb].
  2:{ eexists _, s. split; [reflexivity|]. split; [done|]. by split. }
  destruct (po_vm _ _ _ Hs) as (P & base & vs & Hv). pose proof (vm_ok_lock n P base vs (fun _ => 0) none_held s true Hv) as Hv1. pose proof (user_ok_lock s true (po_user _ _ _ Hs)) as Hu1. set (s1 := with_vm_lock true s) in *.
  unfold spinlock_lock. rewrite bind_bind, gets_bind, (po_lock _ _ _ Hs), modify_bind. fold s1. rewrite (u64_small (addr + length)) by lia.
  assert (Haj : addr = addr / 4096 * 4096) by (clear - Hm; zdm). assert (Hj : 0 <= addr / 4096) by (apply Z.div_pos; lia).
  destruct (page_fuel_enough length (addr / 4096) Hl) as [Hf1 Hf2]. rewrite <- Haj in Hf2.
  destruct (mprotect_loop_run P base none_held prot (addr + length) (page_fuel length) ltac:(lia) (addr / 4096) vs s1 Hv1 Hu1 Hj Hf1)
    as (r & s2 & Hr & (vs2 & Hv2) & [[Hk1 _ Hk3 _] Hk2] & _); [lia|]. rewrite <- Haj in Hr.
  rewrite (run_bind _ _ _ _ _ Hr). unfold spinlock_unlock. rewrite modify_bind. eexists _, _. split; [reflexivity|].
  split; [by apply (pk_ok_frame n P base vs2 none_held s)|]. split; [done|]. split; [done|]. split; [apply (fr_current _ _ Hk1)|]. split; [done|]. intros _ Hl0 Hl1.
  (* one page *)
  destruct (mprotect_page_run P base vs none_held s1 addr prot Hv1 Hu1) as (r1 & s3 & Hr1 & _ & _ & Hres & Hview).
  change (protect_page s1 (vpn addr) prot) with (protect_page s (vpn addr) prot) in *.
  assert (H12 : r = r1 /\ s2 = s3).
  { unfold page_fuel in Hr. cbn [mprotect_loop] in Hr. rewrite (proj2 (Z.ltb_lt addr _)), (run_bind _ _ _ _ _ Hr1) in Hr by lia.
    destruct (Z.eqb_spec r1 0) as [->|]; [|by injection Hr as <- <-]. unfold RISCV_PGSIZE in Hr.
    rewrite (proj2 (Z.ltb_ge (u64 (addr + 4096)) _)) in Hr by (rewrite u64_small; lia). by injection Hr as <- <-. }
  destruct H12 as [-> ->]. split; [by rewrite Hres|exact Hview].
Qed.
End protect.
