(* ===== verification/PkSafe.v ===== *)
(** * All calls of a program together

    Calls on descriptors, on buffers, by name and on the memory in any order: the files and the
    regions share the references to files, so that the invariants of both are
    kept together. *)

From S2P Require Import Prelude State Pk PkFile PkMmap PkTree PkWalk PkVm PkMap PkFault PkSpec PkCalls PkSyscall PkUser PkProt.

(** ** Calls on descriptors leave the memory alone *)

Definition file_frame (s s' : pk) : Prop := exists d f c m, s' = with_fds d (with_files f (with_calls c m s)).

#[global] Instance file_frame_preorder : PreOrder file_frame.
Proof.
  split.
  - intros s. exists (fds s), (files s), (calls s), (pmem s). by destruct s.
  - intros s1 s2 s3 (d & f & c & m & ->) (d' & f' & c' & m' & ->). by exists d', f', c', m'.
Qed.

Definition stays {A} (m : M pk A) : Prop := forall s r s', m s = Ret (r, s') -> file_frame s s'.

Lemma stays_ret {A} (a : A) : stays (mret a).
Proof. intros s r s' [= _ <-]. reflexivity. Qed.
Lemma stays_gets {A} (f : pk -> A) : stays (gets f).
Proof. intros s r s' [= _ <-]. reflexivity. Qed.
Lemma stays_fault {A} e : stays (A := A) (fault_with e).
Proof. intros s r s' [=]. Qed.
Lemma stays_bind {A B} (m : M pk A) (k : A -> M pk B) : stays m -> (forall a, stays (k a)) -> stays (m ≫= k).
Proof.
  intros Hm Hk s r s'. unfold mbind, M_bind. destruct (m s) as [[a s1]|e] eqn:E; [|done]. intros H.
  etrans; [exact (Hm s a s1 E)|exact (Hk a s1 r s' H)].
Qed.
Lemma stays_files f : stays (modify (fun s => with_files (f s) s)).
Proof. intros s r s' [= _ <-]. exists (fds s), (f s), (calls s), (pmem s). by destruct s. Qed.
Lemma stays_fds f : stays (modify (fun s => with_fds (f s) s)).
Proof. intros s r s' [= _ <-]. exists (f s), (files s), (calls s), (pmem s). by destruct s. Qed.
Lemma stays_assert b : stays (kassert b).
Proof. intros s r s'. unfold kassert, m_assert, lift, c_assert. destruct b; [intros [= _ <-]; reflexivity|done]. Qed.

Create HintDb stays.
#[export] Hint Resolve stays_ret stays_gets stays_fault stays_files stays_fds stays_assert : stays.

(** A goal of this kind, by the form of the operation. *)
Ltac solve_stays :=
  repeat first
    [ progress (auto 1 with stays)
    | apply stays_bind; [|intros ?]
    | match goal with |- stays (match ?x with _ => _ end) => destruct x end ].

Section stays.
Context {host : Host}.

Lemma stays_frontend k args : stays (frontend_syscall k args).
Proof. intros s r s'. unfold frontend_syscall. cbv zeta. intros [= _ <-]. eexists (fds s), (files s), _, _. reflexivity. Qed.
Lemma stays_read_file f : stays (read_file f).
Proof. unfold read_file. solve_stays. Qed.
#[local] Hint Resolve stays_frontend stays_read_file : stays.
Lemma stays_set_refcnt f x : stays (set_refcnt f x).
Proof. unfold set_refcnt, write_file. solve_stays. Qed.
Lemma stays_set_kfd f x : stays (set_kfd f x).
Proof. unfold set_kfd, write_file. solve_stays. Qed.
#[local] Hint Resolve stays_set_refcnt stays_set_kfd : stays.
Lemma stays_decref f : stays (file_decref f).
Proof. unfold file_decref. solve_stays. Qed.
Lemma stays_incref f : stays (file_incref f).
Proof. unfold file_incref. solve_stays. Qed.
#[local] Hint Resolve stays_decref stays_incref : stays.
Lemma stays_dup f : stays (file_dup f).
Proof. unfold file_dup. solve_stays. Qed.
Lemma stays_get fd : stays (file_get fd).
Proof. unfold file_get. solve_stays. Qed.
#[local] Hint Resolve stays_dup stays_get : stays.
Lemma stays_with_file fd k : (forall f, stays (k f)) -> stays (with_file fd k).
Proof. intros Hk. unfold with_file. solve_stays. Qed.
Lemma stays_host_call k args f : stays (host_call k args f).
Proof. unfold host_call. solve_stays. Qed.
#[local] Hint Resolve stays_with_file stays_host_call : stays.
Lemma stays_at fd : stays (at_kfd fd).
Proof. unfold at_kfd. solve_stays. Qed.
Lemma stays_va2pa a : stays (va2pa a).
Proof. unfold va2pa. solve_stays. Qed.
#[local] Hint Resolve stays_at stays_va2pa : stays.
Lemma stays_openat d nm z fl md : stays (sys_openat d nm z fl md).
Proof. unfold sys_openat, file_openat, file_get_free. solve_stays. Qed.
Lemma stays_call_at k d nm z x : stays (call_at k d nm z x).
Proof. unfold call_at. solve_stays. Qed.
Lemma stays_call_at2 k d nm z d' nm' z' x : stays (call_at2 k d nm z d' nm' z' x).
Proof. unfold call_at2. solve_stays. Qed.
#[local] Hint Resolve stays_call_at2 : stays.
Lemma stays_renameat d nm z d' nm' z' : stays (sys_renameat d nm z d' nm' z').
Proof. unfold sys_renameat. solve_stays. Qed.
Lemma stays_chdir a : stays (sys_chdir a).
Proof. unfold sys_chdir. solve_stays. Qed.
Lemma stays_close fd : stays (sys_close fd).
Proof. unfold sys_close, fd_close. solve_stays. Qed.

Lemma stays_run_call c : stays (run_call c).
Proof.
  destruct c; cbn [run_call]; [apply stays_openat|apply stays_close| | | |]; unfold sys_dup, sys_ftruncate, sys_lseek, sys_fcntl; solve_stays.
Qed.
End stays.

(** ** The calls of a program *)

Inductive pk_call : Type :=
  | FileCall (c : file_call)
  | Read (fd buf n : Z)
  | Pread (fd buf n offset : Z)
  | Write (fd buf n : Z)
  | Getcwd (buf size : Z)
  | Faccessat (dirfd name name_size mode : Z)
  | Unlinkat (dirfd name name_size flags : Z)
  | Mkdirat (dirfd name name_size mode : Z)
  | Linkat (old_dirfd old_name old_size new_dirfd new_name new_size flags : Z)
  | Renameat (old_fd old_path old_size new_fd new_path new_size : Z)
  | Chdir (path : Z)
  | Mmap (addr length prot flags fd offset : Z)
  | Munmap (addr length : Z)
  | Brk (addr : Z)
  | Mprotect (addr length prot : Z)
  | Mremap (addr old_size new_size flags : Z)
  | Access (vaddr prot : Z).

Section run.
Context {host : Host}.

(** An access is a page fault, as long as the page's entry does not allow it. *)
Definition run_pk_call (c : pk_call) : M pk Z :=
  match c with
  | FileCall c => run_call c
  | Read fd buf n => sys_read fd buf n
  | Pread fd buf n offset => sys_pread fd buf n offset
  | Write fd buf n => sys_write fd buf n
  | Getcwd buf size => sys_getcwd buf size
  | Faccessat d nm z mode => sys_faccessat d nm z mode
  | Unlinkat d nm z flags => sys_unlinkat d nm z flags
  | Mkdirat d nm z mode => sys_mkdirat d nm z mode
  | Linkat d nm z d' nm' z' flags => sys_linkat d nm z d' nm' z' flags
  | Renameat d nm z d' nm' z' => sys_renameat d nm z d' nm' z'
  | Chdir path => sys_chdir path
  | Mmap addr length prot flags fd offset => do_mmap addr length prot flags fd offset
  | Munmap addr length => do_munmap addr length
  | Brk addr => do_brk addr
  | Mprotect addr length prot => do_mprotect addr length prot
  | Mremap addr old_size new_size flags => do_mremap addr old_size new_size flags
  | Access vaddr prot => handle_page_fault vaddr prot
  end.

Fixpoint run_pk_calls (cs : list pk_call) : M pk (list Z) :=
  match cs with
  | [] => mret []
  | c :: cs => r ← run_pk_call c; rs ← run_pk_calls cs; mret (r :: rs)
  end.
End run.

(** Addresses and lengths are 64-bit numbers; buffers lie in the user's part of
    the address space; a mapping whose place is not given is no longer than it,
    and mprotect's range does not reach the last page. *)
Definition call_wf (top : Z) (c : pk_call) : Prop :=
  match c with
  | FileCall _ | Mremap _ _ _ _ | Faccessat _ _ _ _ | Unlinkat _ _ _ _ | Mkdirat _ _ _ _ | Linkat _ _ _ _ _ _ _ | Renameat _ _ _ _ _ _ | Chdir _ => True
  | Read _ buf n | Pread _ buf n _ | Write _ buf n | Getcwd buf n => 0 <= buf /\ 0 <= n /\ buf + n <= top
  | Mmap addr length _ flags _ _ =>
      0 <= addr < 2 ^ 64 /\ 0 <= length < 2 ^ 64 /\ (has flags MAP_FIXED = false -> npages length * 4096 <= top)
  | Munmap addr length => 0 <= addr < 2 ^ 64 /\ 0 <= length < 2 ^ 64
  | Brk addr => 0 <= addr < 2 ^ 64
  | Mprotect addr length _ => 0 <= addr /\ 0 <= length /\ addr + length <= 2 ^ 64 - 4096
  | Access vaddr _ => 0 <= vaddr < 2 ^ 64
  end.

(** What can stop the kernel: its assertions, an access of its own to a page the
    program may not use, and for a buffer it writes a page that faults for ever. *)
Definition call_stops (c : pk_call) (e : fault) : Prop :=
  match c with
  | Read _ _ _ | Pread _ _ _ _ | Getcwd _ _ => touch_stops true e
  | Write _ _ _ => touch_stops false e
  | _ => e = AssertFail
  end.

Lemma pk_ok_more n m s : pk_ok n s -> n <= m <= 2 ^ 30 -> 0 <= n -> pk_ok m s.
Proof.
  intros [(P & base & vs & Hv) Hu Hl Hh Hb] Hm Hn. split; try done. exists P, base, vs.
  apply (vm_ok_same n m P base vs (fun _ => 0) none_held none_held s); [exact Hv|by split|apply Hv|].
  apply (files_ok_more 1 m n); [lia|apply Hv].
Qed.

Section safe.
Context {host : Host} (Hans : forall h, - 4096 <= s64 (answer h)).

(** A call that leaves the memory alone. *)
Lemma stays_safe n m s (c : M pk Z) : 0 <= n <= 2 ^ 30 -> pk_ok n s -> stays c ->
  (forall held, files_ok 1 n held s -> (forall f, 0 <= held f < 2 ^ 30 - 1) -> exists r s', c s = Ret (r, s') /\ files_ok 1 m held s') ->
  exists r s', c s = Ret (r, s') /\ pk_ok m s' /\ mmap_max (current s') = mmap_max (current s).
Proof using Type.
  intros Hn [(P & base & vs & Hv) [U1 U2 U3] Hl Hh Hb] Hst Hc.
  assert (Hheld : forall f, 0 <= countz (vmr_holds f) vs + none_held f < 2 ^ 30 - 1).
  { intros f. pose proof (countz_nonneg (vmr_holds f) vs) as Hq. unfold lenz in Hq. rewrite (vm_len _ _ _ _ _ _ _ Hv) in Hq.
    unfold MAX_VMR in Hq. unfold none_held. lia. }
  destruct (Hc _ (vm_files _ _ _ _ _ _ _ Hv) Hheld) as (r & s' & Hr & Hfs). exists r, s'. split; [exact Hr|].
  destruct (Hst s r s' Hr) as (d & f & cs & mm & E). split; [|by rewrite E].
  split; [exists P, base, vs|rewrite E; by split|by rewrite E|by rewrite E|by rewrite E].
  apply (vm_ok_same n m P base vs (fun _ => 0) none_held none_held s); [exact Hv|rewrite E; by split|apply Hv|exact Hfs].
Qed.

Lemma host_files n held s k args : files_ok 1 n held s -> exists r s', frontend_syscall k args s = Ret (r, s') /\ files_ok 1 n held s'.
Proof using Type. intros Hs. unfold frontend_syscall. cbv zeta. eexists _, _. split; [reflexivity|]. by apply files_ok_calls. Qed.

Lemma file_call_files n s c held : 0 <= n < 2 ^ 30 - 1 -> files_ok 1 n held s -> (forall f, 0 <= held f < 2 ^ 30 - 1) ->
  exists r s', run_call c s = Ret (r, s') /\ files_ok 1 (n + 1) held s'.
Proof using Hans.
  intros Hn Hs Hh. destruct (run_call_spec 1 n ltac:(done) Hn Hans held s c Hs Hh) as (r & s' & Hr & Hfs & _). by exists r, s'.
Qed.

Lemma at_files n s fd held : 0 <= n < 2 ^ 30 -> files_ok 1 n held s -> (forall f, 0 <= held f < 2 ^ 30 - 1) ->
  exists k s', at_kfd fd s = Ret (k, s') /\ files_ok 1 (n + 1) held s'.
Proof using Type.
  intros Hn Hs Hh. destruct (at_kfd_run 1 n Hn held s fd Hs) as (k & s' & Hk & Hs' & _); [intros f; specialize (Hh f); lia|]. by exists k, s'.
Qed.

Lemma call_at_files n s nr d nm z x held : 0 <= n < 2 ^ 30 -> files_ok 1 n held s -> (forall f, 0 <= held f < 2 ^ 30 - 1) ->
  exists r s', call_at nr d nm z x s = Ret (r, s') /\ files_ok 1 (n + 1) held s'.
Proof using Type.
  intros Hn Hs Hh. destruct (at_files n s d held Hn Hs Hh) as (k & s1 & Hk & Hs1). unfold call_at. rewrite (run_bind _ _ _ _ _ Hk).
  destruct (k =? -1); cbn [negb]; [by eexists _, s1|]. unfold va2pa. rewrite bind_bind, gets_bind, ret_bind. by apply host_files.
Qed.

Lemma call_at2_files n s nr d nm z d' nm' z' x held : 0 <= n < 2 ^ 30 - 1 -> files_ok 1 n held s -> (forall f, 0 <= held f < 2 ^ 30 - 1) ->
  exists r s', call_at2 nr d nm z d' nm' z' x s = Ret (r, s') /\ files_ok 1 (n + 2) held s'.
Proof using Type.
  intros Hn Hs Hh. destruct (at_files n s d held ltac:(lia) Hs Hh) as (k & s1 & Hk & Hs1).
  destruct (at_files (n + 1) s1 d' held ltac:(lia) Hs1 Hh) as (k' & s2 & Hk' & Hs2). replace (n + 1 + 1) with (n + 2) in Hs2 by lia.
  unfold call_at2. rewrite (run_bind _ _ _ _ _ Hk), (run_bind _ _ _ _ _ Hk').
  destruct (negb (k =? -1) && negb (k' =? -1)); [|by eexists _, s2]. unfold va2pa.
  rewrite bind_bind, gets_bind, ret_bind, bind_bind, gets_bind, ret_bind. by apply host_files.
Qed.

Lemma pk_searchable n s length flags : pk_ok n s ->
  (has flags MAP_FIXED = false -> npages length * 4096 <= mmap_max (current s)) -> searchable s length flags.
Proof. intros [_ _ _ _ [B1 B2 B3 B4 B5]] Hl Hf. split; [done|]. split; [lia|by apply Hl]. Qed.

(** One call: it keeps the invariant, or stops the kernel. *)
Definition kept (n : Z) (s s' : pk) : Prop := pk_ok (n + 2) s' /\ mmap_max (current s') = mmap_max (current s).

Lemma kept_more n m s s' : 0 <= n -> n <= m <= n + 2 -> n + 2 <= 2 ^ 30 -> pk_ok m s' -> mmap_max (current s') = mmap_max (current s) -> kept n s s'.
Proof using Type. intros Hn Hm Hb Hs He. split; [|done]. apply (pk_ok_more m); [done|lia|lia]. Qed.

Lemma stays_call_safe n m s (c : M pk Z) E : 0 <= n -> n <= m <= n + 2 -> n + 2 <= 2 ^ 30 -> pk_ok n s -> stays c ->
  (forall held, files_ok 1 n held s -> (forall f, 0 <= held f < 2 ^ 30 - 1) -> exists r s', c s = Ret (r, s') /\ files_ok 1 m held s') ->
  wp c E (fun _ => kept n s) s.
Proof using Type.
  intros Hn Hm Hb Hs Hst Hc. destruct (stays_safe n m s c ltac:(lia) Hs Hst Hc) as (r & s' & Hr & Hs' & Hmm). unfold wp. rewrite Hr.
  by apply (kept_more n m).
Qed.

Lemma safe_kept n s (c : M pk Z) E : 0 <= n -> n + 2 <= 2 ^ 30 -> wp c E (fun _ => safe_from n none_held s) s -> wp c E (fun _ => kept n s) s.
Proof using Type. intros Hn Hb Hw. eapply wp_mono; [exact Hw|done|]. intros r s' [Hs' Hm]. apply (kept_more n n); [lia|lia|lia|exact Hs'|exact Hm]. Qed.

Lemma pk_call_safe n s c : 0 <= n -> n + 2 <= 2 ^ 30 - 1 -> pk_ok n s -> call_wf (mmap_max (current s)) c ->
  wp (run_pk_call c) (call_stops c) (fun _ => kept n s) s.
Proof using Hans.
  intros Hn Hnb Hs Hwf. assert (Hn' : 0 <= n <= 2 ^ 30) by lia.
  assert (Hsame : forall s', pk_ok n s' -> mmap_max (current s') = mmap_max (current s) -> kept n s s') by (intros s' H1 H2; apply (kept_more n n); [lia|lia|lia|exact H1|exact H2]).
  destruct c; cbn [run_pk_call call_wf call_stops] in *.
  - apply (stays_call_safe n (n + 1)); try lia; [done|apply stays_run_call|]. intros held Hf Hh. apply file_call_files; [lia|exact Hf|exact Hh].
  - destruct Hwf as (Hb & Hsz & Ht). apply safe_kept; [lia|lia|]. exact (with_transfer_safe n Hn' true SYS_read fd buf n0 [0; 0; 0; 0] s Hs Hb Hsz Ht).
  - destruct Hwf as (Hb & Hsz & Ht). apply safe_kept; [lia|lia|]. exact (with_transfer_safe n Hn' true SYS_pread fd buf n0 [offset; 0; 0; 0] s Hs Hb Hsz Ht).
  - destruct Hwf as (Hb & Hsz & Ht). apply safe_kept; [lia|lia|]. exact (with_transfer_safe n Hn' false SYS_write fd buf n0 [0; 0; 0; 0] s Hs Hb Hsz Ht).
  - destruct Hwf as (Hb & Hsz & Ht). apply safe_kept; [lia|lia|]. exact (sys_getcwd_safe n Hn' buf size s Hs Hb Hsz Ht).
  - apply (stays_call_safe n (n + 1)); try lia; [done|apply stays_call_at|]. intros held Hf Hh. apply call_at_files; [lia|exact Hf|exact Hh].
  - apply (stays_call_safe n (n + 1)); try lia; [done|apply stays_call_at|]. intros held Hf Hh. apply call_at_files; [lia|exact Hf|exact Hh].
  - apply (stays_call_safe n (n + 1)); try lia; [done|apply stays_call_at|]. intros held Hf Hh. apply call_at_files; [lia|exact Hf|exact Hh].
  - apply (stays_call_safe n (n + 2)); try lia; [done|apply stays_call_at2|]. intros held Hf Hh. apply call_at2_files; [lia|exact Hf|exact Hh].
  - apply (stays_call_safe n (n + 2)); try lia; [done|apply stays_renameat|]. intros held Hf Hh.
    destruct (call_at2_files n s SYS_renameat old_fd old_path old_size new_fd new_path new_size 0 held ltac:(lia) Hf Hh) as (r & s' & Hr & Hf').
    unfold sys_renameat. rewrite (run_bind _ _ _ _ _ Hr). by eexists _, s'.
  - apply (stays_call_safe n n); try lia; [done|apply stays_chdir|]. intros held Hf _. unfold sys_chdir, va2pa. rewrite bind_bind, gets_bind, ret_bind.
    match goal with |- context [frontend_syscall ?k ?a] => destruct (host_files n held s k a Hf) as (r & s' & Hr & Hf') end.
    rewrite (run_bind _ _ _ _ _ Hr). by eexists _, s'.
  - destruct Hwf as (Ha & Hl & Hf). eapply wp_mono; [apply (do_mmap_spec n Hn' s addr length prot flags fd offset Hs Ha Hl)| |].
    + by apply (pk_searchable n).
    + by intros e [-> _].
    + intros r s' (Hs' & Hm & _). by apply Hsame.
  - destruct Hwf as (Ha & Hl). destruct (do_munmap_spec n Hn' s addr length Hs Ha Hl) as (r & s' & Hr & Hs' & _ & _ & Hc & _).
    unfold wp. rewrite Hr. apply Hsame; [done|]. by rewrite Hc.
  - eapply wp_mono; [apply (do_brk_spec n Hn' s addr Hs Hwf)|by intros e [-> _]|]. intros r s' (Hs' & Hm & _). by apply Hsame.
  - destruct Hwf as (Ha & Hl & Hal). destruct (do_mprotect_spec n s addr length prot Hs Ha Hl Hal) as (r & s' & Hr & Hs' & _ & _ & Hc & _).
    unfold wp. rewrite Hr. apply Hsame; [done|]. by rewrite Hc.
  - apply wp_ret. by apply Hsame.
  - pose proof (handle_page_fault_spec n Hn' none_held s vaddr prot Hs Hwf) as Hf. unfold fault_done in Hf. unfold wp.
    destruct (if _ <? _ then _ else Unmapped) as [|file off len p|w].
    + rewrite Hf. by apply Hsame.
    + destruct (fill_page s (vaddr / 4096) file off len) as [[cs m]|e] eqn:Hfill.
      * destruct Hf as (s' & -> & Hs' & _ & _ & Hfr & _). apply Hsame; [done|]. by rewrite (fr_current _ _ Hfr).
      * rewrite Hf. unfold fill_page in Hfill. destruct file; [|done]. destruct (0 <? _); congruence.
    + rewrite Hf. by apply Hsame.
Qed.

(** A run stops as one of its calls does. *)
Definition calls_stop (cs : list pk_call) (e : fault) : Prop := Exists (fun c => call_stops c e) cs.

Lemma pk_calls_run cs : forall n s, 0 <= n -> n + 2 * lenz cs < 2 ^ 30 - 1 -> pk_ok n s -> Forall (call_wf (mmap_max (current s))) cs ->
  wp (run_pk_calls cs) (calls_stop cs) (fun rs s' => length rs = length cs /\ pk_ok (n + 2 * lenz cs) s') s.
Proof using Hans.
  induction cs as [|c cs IH]; intros n s Hn Hl Hs Hwf; rewrite ?lenz_nil, ?lenz_cons in *; cbn [run_pk_calls].
  - apply wp_ret. split; [done|]. by rewrite Z.add_0_r.
  - pose proof (lenz_nonneg cs). apply Forall_cons in Hwf as [Hc Hcs]. apply wp_bind.
    eapply wp_mono; [apply (pk_call_safe n s c Hn ltac:(lia) Hs Hc)|by intros e He; left|]. intros r s1 [Hs1 Hm]. rewrite <- Hm in Hcs. apply wp_bind.
    eapply wp_mono; [apply (IH (n + 2) s1 ltac:(lia) ltac:(lia) Hs1 Hcs)|by intros e He; right|]. intros rs s2 [Hlen Hs2]. apply wp_ret.
    split; [cbn; lia|]. by replace (n + 2 * (1 + lenz cs)) with (n + 2 + 2 * lenz cs) by lia.
Qed.
End safe.
