(* ===== verification/PkInit.v ===== *)
(** * The start of the proxy kernel

    From the memory the monitor leaves, the kernel makes its tables: its own
    pages and the page of the binary interface are mapped, and the stack of the
    program.  What it leaves satisfies the invariant of all calls. *)

From S2P Require Import Prelude State Pk PkFile PkMmap PkTree PkWalk PkVm PkMap PkFault PkSpec PkCalls.

(** boot_loader of pk/pk.c, but for the control registers. *)
Definition boot_loader {host : Host} (sbi_base : Z) : M pk Z := file_init;; pk_vm_init sbi_base.

(** ** Tables that grow without a program *)

Lemma tables_set P s va t v : tables_ok P s -> leaf (root_page_table s) (pages s) va = Some t -> tables_ok P (with_ent t va v s).
Proof.
  intros [Ht [A1 A2 A3 A4]] Hl. pose proof (leaf_level _ _ _ _ _ Ht Hl) as HP. destruct (tree_page _ _ _ Ht t _ HP) as (_ & ws & Hws & _).
  split; [by destruct (ent_set P _ _ va t v Ht Hl) as (Ht' & _ & _)|]. split; [done..|]. intros a wa Hwa. cbn in Hwa. unfold set_word in Hwa.
  rewrite Hws in Hwa. destruct (decide (a = t)) as [->|]; [by eapply A4|]. rewrite lookup_insert_ne in Hwa by done. by eapply A4.
Qed.

(** A page that is no table. *)
Lemma tree_insert P root ps c ws : tree P root ps -> ps !! c = None ->
  tree P root (<[c := ws]> ps) /\ forall va, ent_of root (<[c := ws]> ps) va = ent_of root ps va.
Proof.
  intros Ht Hc. assert (Hne : forall a lp, P !! a = Some lp -> a <> c).
  { intros a lp Ha ->. destruct (tree_page _ _ _ Ht c lp Ha) as (_ & wa & Hwa & _). congruence. }
  assert (Hw : forall a lp i, P !! a = Some lp -> wrd (<[c := ws]> ps) a i = wrd ps a i).
  { intros a lp i Ha. unfold wrd. by rewrite lookup_insert_ne by (symmetry; by eapply Hne). }
  split.
  - split; [apply Ht| |].
    + intros a lp Ha. destruct (tree_page _ _ _ Ht a lp Ha) as (Hok & wa & Hwa & Hl). split; [done|]. exists wa.
      by rewrite lookup_insert_ne by (symmetry; by eapply Hne).
    + intros a l pre i Ha Hl Hi x Hx. unfold node in Hx. rewrite (Hw a _ i Ha) in Hx. by apply (tree_child _ _ _ Ht a l pre i Ha Hl Hi).
  - intros va. assert (Hlf : leaf root (<[c := ws]> ps) va = leaf root ps va).
    { apply (leaf_ext P root ps Ht). intros a l pre i Ha _ _. by eapply Hw. }
    unfold ent_of. rewrite Hlf. destruct (leaf root ps va) as [t|] eqn:Hl; [|done]. eapply Hw, leaf_level; done.
Qed.

Lemma page_alloc_grows P s : tables_ok P s -> next_free_page s < free_pages s ->
  exists c s', page_alloc s = Ret (c, s') /\ grows 1 P s P s' /\ pages s' = <[c := zeros 512]> (pages s) /\ page_ok c /\ P !! c = None.
Proof.
  intros [Ht Ha] Hn. destruct (page_alloc_run s Ha) as [Hrun Hfresh]. destruct (Hfresh ltac:(lia)) as [Hc Hnew].
  rewrite (proj2 (Z.eqb_neq _ _)) in Hrun by lia. set (c := first_free_page s + 4096 * next_free_page s) in *.
  eexists c, _. split; [exact Hrun|]. destruct (tree_insert P _ _ c (zeros 512) Ht Hnew) as [Ht' He].
  assert (HP : P !! c = None).
  { destruct (P !! c) as [lp|] eqn:E; [|done]. destruct (tree_page _ _ _ Ht c lp E) as (_ & wc & Hwc & _). congruence. }
  split; [|by split]. split.
  - split; [exact Ht'|]. destruct Ha as [A1 A2 A3 A4]. split; [done|cbn; lia|done|]. intros a wa Hwa. cbn in Hwa |- *.
    apply lookup_insert_Some in Hwa as [[<- _]|[_ Hwa]]; [exists (next_free_page s); split; [lia|done]|].
    destruct (A4 a wa Hwa) as (k & Hk & Hak). exists k. split; [lia|done].
  - split; [by destruct s|cbn; lia].
  - intros k. apply He.
  - intros a [wa Hwa]. cbn. destruct (decide (a = c)) as [->|]; [by rewrite lookup_insert_eq|]. rewrite lookup_insert_ne by done. by exists wa.
  - done.
Qed.

(** ** The kernel's own mappings *)

Definition kernel_pte (offset prot k : Z) : Z := pte_create (u64 (k * 4096 + offset) >>> RISCV_PGSHIFT) (prot_to_type prot false).

(** The pages from [j] up to [k] of [s'] have the entries [f] gives; the rest is as in [s]. *)
Record kernel_mapped (f : Z -> Z) (s : pk) (j k : Z) (s' : pk) : Prop := {
  km_tables : exists P, tables_ok P s';
  km_only : only_pages (new_tables j k) s s';
  km_ent x : 0 <= x < PAGES -> ent s' x = if (j <=? x) && (x <? k) then f x else ent s x;
  km_leaf : j < k -> is_Some (leaf (root_page_table s') (pages s') ((k - 1) * 4096))
}.

Lemma kernel_mapped_refl P f s j : tables_ok P s -> kernel_mapped f s j j s.
Proof.
  intros Ht. split; [by exists P| | |lia].
  - unfold new_tables. rewrite (proj2 (Z.leb_le j j)) by lia. apply only_pages_refl.
  - intros x Hx. destruct (Z.leb_spec j x), (Z.ltb_spec x j); cbn [andb]; lia || done.
Qed.

Section init.
Context {host : Host}.

Lemma map_kernel_loop_spec s j offset prot : 0 <= j -> forall m k s1,
  j <= k -> k + Z.of_nat m <= PAGES -> kernel_mapped (kernel_pte offset prot) s j k s1 ->
  wp (map_kernel_loop m (k * 4096) offset prot) (no_pages (new_tables j (k + Z.of_nat m)) s)
    (fun _ => kernel_mapped (kernel_pte offset prot) s j (k + Z.of_nat m)) s1.
Proof.
  intros Hj m. induction m as [|m IH]; intros k s1 Hk Hm Hs1; cbn [map_kernel_loop].
  - apply wp_ret. by rewrite Z.add_0_r.
  - pose proof Hs1 as [[P Ht] Ho He Hl]. pose proof (need_next s1 j k Hk Hl) as Hneed. apply wp_bind.
    eapply wp_mono; [by apply (walk_create_need P)| |].
    { intros e Hno. pose proof (no_pages_after _ _ _ _ _ Ho Hno) as [He1 He2]. split; [done|].
      pose proof (new_tables_mono j (k + 1) (k + Z.of_nat (S m))). lia. }
    intros p s2 (P2 & t & Hg & Hl2 & ->). apply wp_bind. unfold wp at 1. pose proof (gr_ok _ _ _ _ _ Hg) as Htb2.
    rewrite (write_slot_run P2 s2 _ t _ (tb_tree _ _ Htb2) Hl2). set (s3 := with_ent _ _ _ s2).
    assert (Hk1 : 0 <= k < PAGES) by lia.
    assert (H3 : kernel_mapped (kernel_pte offset prot) s j (k + 1) s3).
    { split.
      - exists P2. by apply tables_set.
      - apply (only_pages_mono _ _ _ _ Hneed). pose proof (only_pages_trans _ _ _ _ _ Ho (gr_only _ _ _ _ _ Hg)) as [E Hle].
        split; [unfold s3; rewrite E; by destruct s|exact Hle].
      - intros x Hx. unfold s3. rewrite (ent_with P2 s2 _ _ _ x (tb_tree _ _ Htb2) Hl2 Hx), vpn_page, (gr_ent _ _ _ _ _ Hg), (He x Hx) by done.
        destruct (Z.eqb_spec x k) as [->|]; [by rewrite (proj2 (Z.leb_le j k)), (proj2 (Z.ltb_lt k (k + 1))) by lia|].
        destruct (Z.leb_spec j x), (Z.ltb_spec x k), (Z.ltb_spec x (k + 1)); cbn [andb]; lia || done.
      - intros _. replace (k + 1 - 1) with k by lia. exists t. unfold s3.
        destruct (ent_set P2 _ _ (k * 4096) t (kernel_pte offset prot k) (tb_tree _ _ Htb2) Hl2) as (_ & Hlf & _). cbn. by rewrite Hlf. }
    unfold RISCV_PGSIZE. assert (Hu : u64 (k * 4096 + 4096) = (k + 1) * 4096) by (rewrite u64_small; unfold PAGES in *; lia). rewrite Hu.
    replace (k + Z.of_nat (S m)) with (k + 1 + Z.of_nat m) in * by lia. by apply IH; [lia|lia|].
Qed.

Lemma map_kernel_range_spec P s j np paddr prot : tables_ok P s -> 0 <= j -> 0 <= np <= 2 ^ 26 -> j + np <= PAGES ->
  wp (map_kernel_range (j * 4096) paddr (np * 4096) prot) (no_pages (new_tables j (j + np)) s)
    (fun _ => kernel_mapped (kernel_pte (u64 (paddr - j * 4096)) prot) s j (j + np)) s.
Proof.
  intros Ht Hj Hn Hm. unfold map_kernel_range. assert (Hlen : ROUNDUP (np * 4096) RISCV_PGSIZE / RISCV_PGSIZE = np).
  { rewrite ROUNDUP_eq by lia. unfold round_up, RISCV_PGSIZE. rewrite Z.div_mul by lia. zdm. }
  rewrite Hlen. pose proof (map_kernel_loop_spec s j (u64 (paddr - j * 4096)) prot Hj (Z.to_nat np) j s ltac:(lia) ltac:(lia) (kernel_mapped_refl P _ s j Ht)) as H.
  by rewrite Z2Nat.id in H by lia.
Qed.

(** ** The first region *)

(** The regions are in a page that the first of them takes. *)
Definition with_regions (c : Z) (s : pk) : pk := with_vmrs (Some (c, replicate MAX_VMR no_vmr)) s.

Lemma vmr_alloc_first s c s1 addr length file offset refcnt prot : vmrs s = None -> vm_lock s = false -> page_alloc s = Ret (c, s1) ->
  vmr_alloc addr length file offset refcnt prot s = vmr_alloc addr length file offset refcnt prot (with_regions c s1).
Proof.
  intros Hv Hl Hp.
  assert (Hp' : page_alloc (with_vm_lock true s) = Ret (c, with_vm_lock true s1) /\ vm_lock s1 = false).
  { revert Hp. unfold page_alloc, kassert, m_assert, lift, c_assert, mbind, M_bind, gets, id. cbn [next_free_page free_pages first_free_page with_vm_lock].
    destruct (negb _); [|done]. cbn. intros [= <- <-]. done. }
  destruct Hp' as [Hp' Hls].
  assert (E : with_vm_lock false (with_vmrs (Some (c, replicate MAX_VMR no_vmr)) (with_vm_lock true s1)) = with_regions c s1)
    by (destruct s1; cbn in *; by subst).
  unfold vmr_alloc. rewrite !gets_bind, Hv. cbn [vmrs with_regions with_vmrs]. rewrite ret_bind.
  unfold spinlock_lock, spinlock_unlock. rewrite !bind_bind, gets_bind, Hl, modify_bind, bind_bind, (run_bind _ _ _ _ _ Hp').
  rewrite bind_bind, !modify_bind. by rewrite E.
Qed.

Lemma do_mmap_first s c s1 addr length prot flags offset : has flags MAP_FIXED = true -> vmrs s = None -> vm_lock s = false ->
  page_alloc s = Ret (c, s1) -> current s1 = current s ->
  0 <= addr < 2 ^ 64 -> 0 <= length < 2 ^ 64 -> 0 <= mmap_max (current s) <= 2 ^ 38 ->
  addr mod 4096 = 0 -> addr + length <= mmap_max (current s) ->
  do_mmap_locked addr length prot flags None offset s = do_mmap_locked addr length prot flags None offset (with_regions c s1).
Proof.
  intros Hf Hv Hl Hp Hc Ha Hlen Hmax Hm Hle. unfold do_mmap_locked. rewrite Hf.
  assert (Hplace : forall s', current s' = current s ->
    (ok ← valid_user_range addr length; mret (if negb (addr mod RISCV_PGSIZE =? 0) || negb ok then None else Some addr)) s' = Ret (Some addr, s')).
  { intros s' Hs'. rewrite (run_bind _ _ _ _ _ (valid_range_run s' addr length Ha Hlen ltac:(by rewrite Hs'))), Hs'.
    rewrite (proj2 (Z.leb_le _ _) Hle). unfold RISCV_PGSIZE. by rewrite Hm. }
  rewrite (run_bind _ _ _ _ _ (Hplace s eq_refl)), (run_bind _ _ _ _ _ (Hplace (with_regions c s1) Hc)).
  unfold mbind at 1 3, M_bind at 1 3. by rewrite (vmr_alloc_first s c s1).
Qed.

(** What the tables say, and a page for regions that are all free, make the invariant. *)
Lemma regions_vm_ok P c s : tables_ok P s -> page_ok c -> P !! c = None -> is_Some (pages s !! c) -> 0 <= mmap_max (current s) <= 2 ^ 38 ->
  (forall k, 0 <= k < PAGES -> ent s k = 0 \/ present_ok s k (ent s k)) -> files_ok 1 0 none_held s ->
  vm_ok 0 P c (replicate MAX_VMR no_vmr) (fun _ => 0) none_held (with_regions c s).
Proof.
  intros [Ht Ha] Hc HP [ws Hws] Hmax He Hf.
  assert (Hfree : forall i v, replicate MAX_VMR no_vmr !! i = Some v -> v = no_vmr) by (intros i v Hi; by apply lookup_replicate in Hi as [-> _]).
  split; [done|by destruct Ha|done|by rewrite length_replicate|by split; [|split; [|exists ws]]|done| | | | | |].
  - intros k Hk. destruct (He k Hk) as [H|H]; [by left|by right; left].
  - intros i v Hi. assert (Hlt : (i < MAX_VMR)%nat) by (apply lookup_lt_Some in Hi; by rewrite length_replicate in Hi).
    apply Hfree in Hi as ->. split; [|cbn; lia]. cbn [vmr_refcnt no_vmr]. unfold cnt. rewrite countz_none; [reflexivity|].
    intros j x Hx Hp. apply list_elem_of_lookup_2, elem_of_seqZ in Hx. destruct (vmr_ptr_facts c i Hc Hlt) as (H0 & HV & _).
    change (ent s x = vmr_ptr c i) in Hp. destruct (He x ltac:(unfold PAGES in *; lia)) as [E|[E _]]; congruence.
  - intros i v Hi. by apply Hfree in Hi as ->.
  - intros i v f Hi. by apply Hfree in Hi as ->.
  - intros f. unfold none_held. lia.
  - apply (files_ok_same 0 _ s); [done..|]. revert Hf. apply files_ok_ext. intros f. unfold none_held.
    rewrite countz_none; [reflexivity|]. intros j v Hj [Hh _]. by apply Hfree in Hj as ->.
Qed.
End init.

(** The tables of a kernel that has only a root. *)
Lemma root_tables s r : page_ok r -> root_page_table s = r -> first_free_page s = r -> next_free_page s = 1 -> 1 <= free_pages s ->
  r + 4096 * free_pages s <= 2 ^ 54 -> pages s = <[r := zeros 512]> ∅ ->
  tables_ok (<[r := (2, 0)]> ∅) s /\ forall k, ent s k = 0.
Proof.
  intros Hr Hroot Hff Hn Hfree Hend Hp.
  assert (Hw : forall t i, wrd (pages s) t i = 0).
  { intros t i. unfold wrd. rewrite Hp. destruct (decide (t = r)) as [->|]; [rewrite lookup_insert_eq; apply nthz_zeros|].
    rewrite lookup_insert_ne, lookup_empty by done. unfold nthz. cbn [default from_option]. destruct (i <? 0); [done|by destruct (Z.to_nat i)]. }
  assert (Hnode : forall t i, node (pages s) t i = None) by (intros t i; unfold node; by rewrite Hw, has_0).
  split; [|intros k; unfold ent, ent_of, leaf; by rewrite Hnode]. split.
  - rewrite Hroot, Hp. split; [by rewrite lookup_insert_eq| |].
    + intros a lp H. apply lookup_insert_Some in H as [[<- _]|[_ H]]; [|by rewrite lookup_empty in H].
      split; [done|]. exists (zeros 512). split; [by rewrite lookup_insert_eq|reflexivity].
    + intros a l pre i _ _ _ t Ht. rewrite <- Hp in Ht. by rewrite Hnode in Ht.
  - split; [by rewrite Hff|lia|by rewrite Hff|]. intros a ws Ha. rewrite Hp in Ha.
    apply lookup_insert_Some in Ha as [[<- _]|[_ H]]; [|by rewrite lookup_empty in H]. exists 0. lia.
Qed.

(** ** The start *)

(** The memory that the kernel keeps for itself, and what it starts from. *)
Definition kernel_free (s : pk) : Z := Z.max 8 (mem_size s / 2 ^ 20).
Definition kernel_end (s : pk) : Z := first_free_paddr s + kernel_free s * 4096.
Definition kernel_pages (s : pk) : Z := (kernel_end s - DRAM_BASE s) / 4096.
Definition boot_top (s : pk) : Z := Z.min (DRAM_BASE s) (mem_size s - (kernel_end s - DRAM_BASE s)).

Record fresh (s : pk) : Prop := {
  fs_fds : fds s = replicate MAX_FDS None;
  fs_files : files s = replicate MAX_FILES (MkFile (-1) 0);
  fs_pages : pages s = ∅;
  fs_next : next_free_page s = 0;
  fs_vmrs : vmrs s = None;
  fs_lock : vm_lock s = false;
  fs_have : have_vm s = true;
  fs_current : current s = MkElf 0 0 0 0 0
}.

(** Memory that suffices: for the tables, and for the stack of the program. *)
Record board_ok (s : pk) : Prop := {
  bd_align : DRAM_BASE s mod 4096 = 0 /\ first_free_paddr s mod 4096 = 0 /\ mem_size s mod 4096 = 0;
  bd_base : 64 * 4096 <= DRAM_BASE s <= first_free_paddr s;
  bd_end : kernel_end s <= 2 ^ 38;
  bd_mem : kernel_end s - DRAM_BASE s + 64 * 4096 <= mem_size s < 2 ^ 64;
  bd_free : table_pages (kernel_pages s) + table_pages 64 + 5 <= kernel_free s
}.

(** The page at the top of the address space, for the binary interface. *)
Definition sbi_page : Z := 2 ^ 27 - 1.

Definition kernel_prot : Z := PROT_READ ||| PROT_WRITE ||| PROT_EXEC.
Definition kernel_view (s : pk) (sbi_base k : Z) : page_view :=
  if (DRAM_BASE s / 4096 <=? k) && (k <? kernel_end s / 4096) then Present (pte_create k (prot_to_type kernel_prot false))
  else if k =? sbi_page then Present (pte_create (sbi_base / 4096) (prot_to_type (PROT_READ ||| PROT_EXEC) false))
  else Unmapped.
Definition boot_view (s : pk) (sbi_base : Z) : Z -> page_view :=
  let bottom := boot_top s - 64 * 4096 in
  with_range (bottom / 4096) 64 (mapped_page bottom (64 * 4096) kernel_prot None 0) (kernel_view s sbi_base).

Lemma kernel_pte_at v pa prot k : 0 <= v -> 0 <= pa + (k * 4096 - v) < 2 ^ 64 ->
  kernel_pte (u64 (pa - v)) prot k = pte_create ((pa + (k * 4096 - v)) / 4096) (prot_to_type prot false).
Proof.
  intros Hv Hp. unfold kernel_pte, RISCV_PGSHIFT. rewrite shiftr_div by lia. f_equal. f_equal. unfold u64.
  rewrite Z.add_mod_idemp_r by lia. rewrite Z.mod_small; lia.
Qed.

(** The entries of the kernel's own pages. *)
Record kernel_made (sbi_base N : Z) (s s' : pk) : Prop := {
  kd_tables : exists P, tables_ok P s';
  kd_only : only_pages (table_pages N + 2) s s';
  kd_ent x : 0 <= x < PAGES -> ent s' x =
    if (DRAM_BASE s / 4096 <=? x) && (x <? first_free_paddr s / 4096) then pte_create x (prot_to_type kernel_prot false)
    else if x =? sbi_page then pte_create (sbi_base / 4096) (prot_to_type (PROT_READ ||| PROT_EXEC) false)
    else 0
}.

Section boot.
Context {host : Host}.

Lemma map_kernel_spec P s sbi_base j N : tables_ok P s -> (forall k, ent s k = 0) -> DRAM_BASE s = j * 4096 ->
  first_free_paddr s = (j + N) * 4096 -> first_free_paddr s <= 2 ^ 38 -> 0 <= j -> 0 < N -> 0 <= sbi_base < 2 ^ 64 ->
  next_free_page s + table_pages N + 2 <= free_pages s ->
  wp (map_kernel_range (DRAM_BASE s) (DRAM_BASE s) (u64 (first_free_paddr s - DRAM_BASE s)) kernel_prot;;
      map_kernel_range (u64 (- RISCV_PGSIZE) &&& (2 ^ VA_BITS - 1)) sbi_base RISCV_PGSIZE (PROT_READ ||| PROT_EXEC))
    (fun _ => False) (fun _ => kernel_made sbi_base N s) s.
Proof.
  intros Ht H0 Hd Hf Hmax Hj HN Hs Hfree. change (u64 (- RISCV_PGSIZE) &&& (2 ^ VA_BITS - 1)) with (sbi_page * 4096).
  assert (Hlen : u64 (first_free_paddr s - DRAM_BASE s) = N * 4096) by (rewrite u64_small; lia). rewrite Hlen, Hd. apply wp_bind.
  pose proof (new_tables_range j N HN). unfold sbi_page in *.
  eapply wp_mono; [apply (map_kernel_range_spec P); [done|lia|lia|unfold PAGES; lia]|intros e [_ Hno]; lia|].
  intros [] s1 [[P1 Ht1] Ho1 He1 _]. pose proof Ho1 as [E1 Hn1].
  assert (Hf1 : free_pages s1 = free_pages s) by (by rewrite E1).
  change (new_tables (2 ^ 27 - 1) (2 ^ 27 - 1 + 1)) with 2.
  eapply wp_mono; [apply (map_kernel_range_spec P1 s1 (2 ^ 27 - 1) 1); [done|lia|lia|unfold PAGES; lia]|intros e [_ Hno]|].
  { change (new_tables (2 ^ 27 - 1) (2 ^ 27 - 1 + 1)) with 2 in Hno. lia. }
  intros [] s2 [Ht2 Ho2 He2 _]. split; [done| |].
  - change (new_tables (2 ^ 27 - 1) (2 ^ 27 - 1 + 1)) with 2 in Ho2. pose proof (only_pages_trans _ _ _ _ _ Ho1 Ho2) as Ho.
    revert Ho. apply only_pages_mono. lia.
  - intros x Hx. unfold PAGES in Hx. unfold sbi_page. rewrite (He2 x Hx), (He1 x Hx), H0, Hd, Hf, !Z.div_mul by lia.
    destruct (Z.leb_spec (2 ^ 27 - 1) x), (Z.ltb_spec x (2 ^ 27 - 1 + 1)), (Z.eqb_spec x (2 ^ 27 - 1)); cbn [andb]; try lia.
    + subst x. rewrite (proj2 (Z.ltb_ge (2 ^ 27 - 1) (j + N))), andb_false_r, kernel_pte_at by lia. by rewrite Z.sub_diag, Z.add_0_r.
    + rewrite kernel_pte_at by lia. replace (j * 4096 + (x * 4096 - j * 4096)) with (x * 4096) by lia. by rewrite Z.div_mul by lia.
Qed.

(** The state when the root of the tables is made. *)
Definition rooted (s : pk) : pk :=
  let r := first_free_paddr s in
  with_root r (with_pages (<[r := zeros 512]> ∅) (with_next_free 1
    (with_free r (kernel_free s) (kernel_end s) (with_files first_files (with_fds first_fds s))))).

Lemma wp_bind2 {A B C} (m1 : M pk A) (m2 : M pk B) (k : B -> M pk C) E Q s :
  wp (m1;; m2) E (fun b s' => wp (k b) E Q s') s -> wp (m1;; b ← m2; k b) E Q s.
Proof. intros H. apply wp_bind in H. unfold wp in *. by rewrite bind_bind in H. Qed.

(** What pk_vm_init does after that. *)
Definition map_user (top : Z) : M pk Z :=
  modify (fun s => let c := current s in with_current (MkElf (brk_min c) (brk c) top top (stack_top c)) s);;
  let stack_size := RISCV_PGSIZE * 64 in
  stack_bottom ← do_mmap_locked (u64 (top - stack_size)) stack_size kernel_prot (MAP_PRIVATE ||| MAP_ANONYMOUS ||| MAP_FIXED) None 0;
  kassert (negb (stack_bottom =? MAP_FAILED));;
  modify (fun s => let c := current s in
                   with_current (MkElf (brk_min c) (brk c) (brk_max c) (mmap_max c) (u64 (stack_bottom + stack_size))) s);;
  page ← page_alloc;
  mret (u64 (page + RISCV_PGSIZE)).

Lemma kernel_end_u64 s : board_ok s ->
  8 `max` (mem_size s >>> RISCV_PGSHIFT >>> (RISCV_PGLEVEL_BITS - 1)) = kernel_free s /\ 8 <= kernel_free s /\
  u64 (first_free_paddr s + u64 (kernel_free s * RISCV_PGSIZE)) = kernel_end s.
Proof.
  intros [_ Hb He _ _]. unfold kernel_end in *. rewrite Z.shiftr_shiftr, shiftr_div by (unfold RISCV_PGSHIFT, RISCV_PGLEVEL_BITS; lia).
  assert (8 <= kernel_free s) by (unfold kernel_free; lia). split; [done|]. split; [done|]. unfold RISCV_PGSIZE. rewrite (u64_small (kernel_free s * 4096)) by lia.
  apply u64_small. lia.
Qed.

Lemma root_page_run s : fresh s -> board_ok s -> page_alloc (with_free (first_free_paddr s) (kernel_free s) (kernel_end s) (with_files first_files (with_fds first_fds s))) =
  Ret (first_free_paddr s, with_pages (<[first_free_paddr s := zeros 512]> ∅) (with_next_free 1
    (with_free (first_free_paddr s) (kernel_free s) (kernel_end s) (with_files first_files (with_fds first_fds s))))).
Proof.
  intros Hs Hb. destruct (kernel_end_u64 s Hb) as (_ & H8 & _). destruct Hb as [_ Hbs He _ _]. unfold kernel_end in He.
  unfold page_alloc. rewrite gets_bind. unfold id. cbn [next_free_page with_free free_pages first_free_page with_files with_fds]. rewrite (fs_next _ Hs).
  rewrite (proj2 (Z.eqb_neq 0 _)) by lia. unfold kassert. change (m_assert (negb false)) with (mret (M := M pk) tt). rewrite ret_bind, !modify_bind.
  unfold RISCV_PGSIZE. rewrite Z.add_0_r, u64_small by lia. cbn. by rewrite (fs_pages _ Hs).
Qed.

Lemma rooted_run s sbi_base E Q : fresh s -> board_ok s ->
  wp (map_kernel_range (DRAM_BASE s) (DRAM_BASE s) (u64 (kernel_end s - DRAM_BASE s)) kernel_prot;;
      map_kernel_range (u64 (- RISCV_PGSIZE) &&& (2 ^ VA_BITS - 1)) sbi_base RISCV_PGSIZE (PROT_READ ||| PROT_EXEC))
    E (fun _ => wp (map_user (boot_top s)) E Q) (rooted s) -> wp (boot_loader sbi_base) E Q s.
Proof.
  intros Hs Hb Hwp. destruct (kernel_end_u64 s Hb) as (Hfree & H8 & Hend). assert (Htop : Z.min (DRAM_BASE s) (u64 (mem_size s - u64 (kernel_end s - DRAM_BASE s))) = boot_top s).
  { destruct Hb as [_ Hbs He Hm _]. unfold kernel_end in *. rewrite (u64_small (_ - DRAM_BASE s)), u64_small by lia. done. }
  apply wp_bind. unfold wp at 1. rewrite (file_init_run s (fs_fds _ Hs) (fs_files _ Hs)). cbv beta iota.
  unfold pk_vm_init. apply wp_bind, wp_gets. cbv beta zeta. apply wp_bind, wp_modify. cbv beta. unfold id.
  cbn [mem_size first_free_paddr with_files with_fds]. rewrite Hfree, Hend.
  apply wp_bind. unfold wp at 1. rewrite (root_page_run s Hs Hb). apply wp_bind, wp_modify, wp_bind, wp_gets. apply wp_bind2.
  eapply wp_mono; [exact Hwp|done|]. intros [] s2 H2. rewrite <- Htop in H2. exact H2.
Qed.

(** The stack, when no region has been made yet. *)
Record stacked (s : pk) (top r : Z) (s' : pk) : Prop := {
  sk_result : r = top - 64 * 4096;
  sk_ok : exists P base vs, vm_ok 0 P base vs (fun _ => 0) none_held s';
  sk_frame : frame s s';
  sk_calls : closes (calls s) (calls s') /\ pmem s' = pmem s;
  sk_next : next_free_page s' <= next_free_page s + 1 + table_pages 64;
  sk_view : same_view (view s') (with_range (r / 4096) 64 (mapped_page r (64 * 4096) kernel_prot None 0) (view s))
}.

Lemma stack_spec P s top : tables_ok P s -> vmrs s = None -> vm_lock s = false -> have_vm s = true -> mmap_max (current s) = top ->
  64 * 4096 <= top <= 2 ^ 38 -> top mod 4096 = 0 -> files_ok 1 0 none_held s ->
  (forall k, 0 <= k < PAGES -> ent s k = 0 \/ present_ok s k (ent s k)) -> next_free_page s + 1 + table_pages 64 <= free_pages s ->
  wp (do_mmap_locked (u64 (top - RISCV_PGSIZE * 64)) (RISCV_PGSIZE * 64) kernel_prot (MAP_PRIVATE ||| MAP_ANONYMOUS ||| MAP_FIXED) None 0)
    (fun _ => False) (stacked s top) s.
Proof.
  intros Ht Hv Hl Hh Hc Htop Hm Hf He Hfree. change (table_pages 64) with 4 in *. unfold RISCV_PGSIZE. rewrite u64_small by lia. change (4096 * 64) with (64 * 4096) in *.
  destruct (page_alloc_grows P s Ht ltac:(lia)) as (c & s1 & Hp & Hg & Hpg & Hok & HP).
  pose proof (gr_only _ _ _ _ _ Hg) as [E1 Hn1].
  assert (Hcur : current s1 = current s) by (by rewrite E1). assert (Hent1 : forall k, ent s1 k = ent s k) by apply Hg.
  assert (Hrun : do_mmap_locked (top - 64 * 4096) (64 * 4096) kernel_prot (MAP_PRIVATE ||| MAP_ANONYMOUS ||| MAP_FIXED) None 0 s =
    do_mmap_locked (top - 64 * 4096) (64 * 4096) kernel_prot (MAP_PRIVATE ||| MAP_ANONYMOUS ||| MAP_FIXED) None 0 (with_regions c s1)).
  { apply do_mmap_first; [done|done|done|exact Hp|exact Hcur|lia|lia|lia|zdm|lia]. }
  unfold wp at 1. rewrite Hrun. 
  assert (Hvm : vm_ok 0 P c (replicate MAX_VMR no_vmr) (fun _ => 0) none_held (with_regions c s1)).
  { apply regions_vm_ok; [apply Hg|done|done|rewrite Hpg, lookup_insert_eq; by eexists|rewrite Hcur; lia| |].
    - intros k Hk. rewrite Hent1. unfold present_ok, page_ppn. rewrite E1. by apply He.
    - apply (files_ok_same 0 _ s); [by rewrite E1..|done]. }
  fold (wp (do_mmap_locked (top - 64 * 4096) (64 * 4096) kernel_prot (MAP_PRIVATE ||| MAP_ANONYMOUS ||| MAP_FIXED) None 0) (fun _ => False) (stacked s top) (with_regions c s1)).
  apply (do_mmap_locked_wp 0 ltac:(lia) P c _ none_held _ _ _ _ _ None _ _ _ Hvm); [done|lia|lia|done| | |].
  - intros e [_ Hno]. change (table_pages (npages (64 * 4096))) with 4 in Hno. cbn in Hno. rewrite E1 in Hno. cbn in Hno. lia.
  - intros [Hno|Hfull]; exfalso.
    + apply (Hno (top / 4096 - 64)). split; [clear - Hm; zdm|]. change (current (with_regions c s1)) with (current s1). rewrite Hcur. lia.
    + rewrite Forall_forall in Hfull. apply (Hfull no_vmr); [|done]. apply list_elem_of_lookup_2 with O. done.
  - intros j i s2 [Hpl _] Hj _ Hfree2 Hmap. unfold populate_pages.
    pose proof (mapped_view 0 P c _ none_held _ s2 i j _ kernel_prot None 0 Hvm Hfree2 Hj Hmap) as Hview.
    destruct Hmap as (P2 & vs2 & Hvm2 & _ & _ & [Kf Kc Kp Kn]).
    apply wp_bind, wp_bind, wp_gets.
    assert (Hh2 : have_vm s2 = true) by (rewrite (fr_have _ _ Kf); cbn; by rewrite E1).
    rewrite Hh2. apply wp_ret, wp_ret. change (table_pages (npages (64 * 4096))) with 4 in Kn.
    rewrite <- Hpl in *. split; [done|by eexists _, _, _| | | |].
    + etrans; [by apply (frame_pages _ _ _ (gr_only _ _ _ _ _ Hg))|]. etrans; [|exact Kf]. by split.
    + rewrite Kp. cbn in Kc |- *. rewrite E1 in Kc |- *. by split.
    + change (table_pages 64) with 4. cbn in Kn. lia.
    + rewrite Hview, Hpl, Z.div_mul by lia. apply with_range_proper. intros k Hk. unfold view. change (ent (with_regions c s1) k) with (ent s1 k).
      rewrite Hent1. destruct (He k Hk) as [-> | [-> _]]; [done|]. by destruct (ent s k =? 0).
Qed.

(** The entries of the kernel, as the program sees them. *)
Lemma kernel_made_view s sbi_base s2 : board_ok s -> 0 <= sbi_base < 2 ^ 64 -> kernel_made sbi_base (kernel_pages s) (rooted s) s2 ->
  forall k x, 0 <= k < PAGES -> let s3 := with_current (MkElf 0 0 (boot_top s) (boot_top s) x) s2 in
    (ent s3 k = 0 \/ present_ok s3 k (ent s3 k)) /\ view s3 k = kernel_view s sbi_base k.
Proof.
  intros [(Hd & _) Hbs Hend _ _] Hsbi [_ _ He] k x Hk s3. specialize (He k Hk). cbn [DRAM_BASE first_free_paddr rooted] in He.
  assert (Hpte : forall p prot, 0 <= p < 2 ^ 54 -> let w := pte_create p (prot_to_type prot false) in (w =? 0) = false /\ has w PTE_V = true).
  { intros p prot Hp w. destruct (pte_points p _ Hp (prot_type_range prot false)) as [HV _]. split; [|done]. apply Z.eqb_neq. intros E. unfold w in E. by rewrite E, has_0 in HV. }
  assert (Htop : boot_top s <= DRAM_BASE s /\ boot_top s <= 2 ^ 38) by (unfold boot_top, kernel_end in *; unfold kernel_free in *; lia).
  unfold view, kernel_view, present_ok. change (ent s3 k) with (ent s2 k). cbn [current s3 with_current mmap_max]. rewrite He.
  change (DRAM_BASE (rooted s)) with (DRAM_BASE s). change (first_free_paddr (rooted s)) with (kernel_end s).
  destruct (Z.leb_spec (DRAM_BASE s / 4096) k); cbn [andb]; [destruct (Z.ltb_spec k (kernel_end s / 4096))|]; [| |].
  - destruct (Hpte k kernel_prot) as [-> ->]; [unfold PAGES in *; lia|]. split; [right; split; [done|]|done]. intros Hlt. exfalso. zdm.
  - destruct (Z.eqb_spec k sbi_page) as [Hx|]; [|by split; [left|]].
    destruct (Hpte (sbi_base / 4096) (PROT_READ ||| PROT_EXEC)) as [-> ->]; [zdm|]. split; [right; split; [done|unfold sbi_page in Hx; lia]|done].
  - destruct (Z.eqb_spec k sbi_page) as [Hx|]; [|by split; [left|]].
    destruct (Hpte (sbi_base / 4096) (PROT_READ ||| PROT_EXEC)) as [-> ->]; [zdm|]. split; [right; split; [done|unfold sbi_page in Hx; lia]|done].
Qed.

Lemma board_pages s : board_ok s -> let j := DRAM_BASE s / 4096 in let N := kernel_pages s in
  DRAM_BASE s = j * 4096 /\ kernel_end s = (j + N) * 4096 /\ 0 <= j /\ 0 < N.
Proof.
  intros [(Hd & Hf & _) Hbs _ _ _] j N. pose proof (kernel_end s) as x. assert (8 <= kernel_free s) by (unfold kernel_free; lia).
  unfold j, N, kernel_pages, kernel_end in *. clear x. repeat split; zdm.
Qed.

Lemma boot_top_range s : board_ok s -> 64 * 4096 <= boot_top s <= 2 ^ 38 /\ boot_top s mod 4096 = 0 /\ boot_top s <= DRAM_BASE s.
Proof.
  intros [(Hd & Hf & Hm) Hbs He Hmem _]. assert (8 <= kernel_free s) by (unfold kernel_free; lia). unfold boot_top, kernel_end in *.
  split; [lia|]. split; [|lia]. destruct (Z.min_spec (DRAM_BASE s) (mem_size s - (first_free_paddr s + kernel_free s * 4096 - DRAM_BASE s))) as [[_ ->]|[_ ->]]; [done|].
  zdm.
Qed.

(** What the start leaves. *)
Record booted (s : pk) (sbi_base kstack : Z) (s' : pk) : Prop := {
  bt_ok : pk_ok 0 s';
  bt_view : same_view (view s') (boot_view s sbi_base);
  bt_current : current s' = MkElf 0 0 (boot_top s) (boot_top s) (boot_top s);
  bt_fds : fds s' = first_fds;
  bt_stack : pages s' !! (kstack - 4096) = Some (zeros 512);
  bt_host : closes (calls s) (calls s') /\ pmem s' = pmem s
}.

(** The last page is the stack of the kernel. *)
Lemma stack_end s sbi_base p m s4 r : let s3 := with_current (MkElf 0 0 (boot_top s) (boot_top s) 0) (with_pages p (with_next_free m (rooted s))) in
  fresh s -> board_ok s -> m + 2 + table_pages 64 <= kernel_free s -> same_view (view s3) (kernel_view s sbi_base) -> stacked s3 (boot_top s) r s4 ->
  wp (kassert (negb (r =? MAP_FAILED));;
      modify (fun s => let c := current s in with_current (MkElf (brk_min c) (brk c) (brk_max c) (mmap_max c) (u64 (r + RISCV_PGSIZE * 64))) s);;
      page ← page_alloc; mret (u64 (page + RISCV_PGSIZE))) (fun _ => False) (booted s sbi_base) s4.
Proof.
  intros s3 Hs Hb Hfree Hview [Hr (P & base & vs & Hvm) Hfr [Hc Hp] Hnx Hv4]. destruct (boot_top_range s Hb) as (Htop & Hal & Hdram).
  assert (Hc4 : current s4 = MkElf 0 0 (boot_top s) (boot_top s) 0) by apply Hfr.
  apply wp_bind. apply wp_assert; [unfold MAP_FAILED; apply negb_true_iff, Z.eqb_neq; lia|]. apply wp_bind, wp_modify. cbv beta zeta. rewrite Hc4. cbn [brk_min brk brk_max mmap_max].
  unfold RISCV_PGSIZE. rewrite u64_small by lia. replace (r + 4096 * 64) with (boot_top s) by lia. set (s5 := with_current _ s4).
  assert (Hvm5 : vm_ok 0 P base vs (fun _ => 0) none_held s5).
  { apply (vm_ok_same 0 0 P base vs (fun _ => 0) none_held none_held s4); [done| |intros f; unfold none_held; lia|apply (files_ok_same 0 _ s4); [done..|apply Hvm]].
    split; try done. cbn. by rewrite Hc4. }
  assert (Hlt : next_free_page s5 < free_pages s5).
  { cbn in Hnx |- *. rewrite (fr_free _ _ Hfr). cbn. lia. }
  destruct (page_alloc_grows P s5 (vm_tables _ _ _ _ _ _ _ Hvm5) Hlt) as (c & s6 & Hal6 & Hg & Hpg & Hok & HP).
  apply wp_bind. unfold wp at 1. rewrite Hal6. apply wp_ret. pose proof (gr_only _ _ _ _ _ Hg) as [E6 _].
  destruct Hok as [Hok _]. rewrite u64_small by lia. split.
  - split; [eexists _, base, vs; by eapply vm_grows| | | |]; rewrite E6.
    + destruct Hb as [(_ & Hf & _) Hbs He _ _]. split; cbn; rewrite ?(fr_paddr _ _ Hfr), ?(fr_dram _ _ Hfr); cbn; [|unfold kernel_end in *|lia].
      * unfold kernel_end. zdm.
      * assert (8 <= kernel_free s) by (unfold kernel_free; lia). lia.
    + cbn. rewrite (fr_lock _ _ Hfr). apply Hs.
    + cbn. rewrite (fr_have _ _ Hfr). apply Hs.
    + cbn. split; cbn; done || lia.
  - unfold boot_view. rewrite <- Hr, <- Hview, <- Hv4. intros k _. unfold view. change (vmrs s6) with (vmrs s6).
    assert (Hv6 : vmrs s6 = vmrs s4) by (by rewrite E6). rewrite (gr_ent _ _ _ _ _ Hg k), Hv6. done.
  - by rewrite E6.
  - rewrite E6. cbn. by rewrite (fr_fds _ _ Hfr).
  - replace (c + 4096 - 4096) with c by lia. by rewrite Hpg, lookup_insert_eq.
  - rewrite E6. cbn. rewrite Hp. by split.
Qed.

Lemma map_user_spec s sbi_base s2 : fresh s -> board_ok s -> 0 <= sbi_base < 2 ^ 64 -> kernel_made sbi_base (kernel_pages s) (rooted s) s2 ->
  wp (map_user (boot_top s)) (fun _ => False) (booted s sbi_base) s2.
Proof.
  intros Hs Hb Hsbi Hmade. destruct (boot_top_range s Hb) as (Htop & Hal & Hdram). pose proof (kernel_made_view s sbi_base s2 Hb Hsbi Hmade) as Hview.
  destruct Hmade as [[P Ht] Ho _]. pose proof Ho as [E Hn]. cbn in Hn.
  assert (Hc2 : current s2 = MkElf 0 0 0 0 0) by (rewrite E; apply (fs_current _ Hs)).
  unfold map_user. apply wp_bind, wp_modify. cbv beta zeta. rewrite Hc2. cbn [brk_min brk stack_top].
  set (s3 := with_current _ s2). specialize (fun k => Hview k 0). cbv zeta in Hview. fold s3 in Hview.
  apply wp_bind. eapply wp_mono; [apply (stack_spec P s3)|done|].
  - destruct Ht as [Ht [A1 A2 A3 A4]]. by split.
  - cbn. rewrite E. apply (fs_vmrs _ Hs).
  - cbn. rewrite E. apply (fs_lock _ Hs).
  - cbn. rewrite E. apply (fs_have _ Hs).
  - done.
  - done.
  - done.
  - apply (files_ok_same 0 _ (with_files first_files (with_fds first_fds s))); [by cbn; rewrite E..|by apply first_files_ok].
  - intros k Hk. by apply Hview.
  - destruct Hb as [_ _ _ _ Hfree]. cbn. rewrite E. cbn. rewrite E in Hn. cbn in Hn. lia.
  - intros r s4 Hst. apply (stack_end s sbi_base (pages s2) (next_free_page s2) s4 r Hs Hb).
    + destruct Hb as [_ _ _ _ Hfree]. lia.
    + rewrite <- E. intros k Hk. by apply Hview.
    + by rewrite <- E.
Qed.

(** C38: from the memory the monitor leaves, with a page for every table that is needed, it makes its
    tables and stops at no assertion.  The invariant of all calls holds; the kernel's own memory is mapped where it
    is, the page of the binary interface at the top, both closed to the program, and the stack of the program below
    the top of its memory, untouched; no other page is mapped, and the stack of the kernel is a page of its own. *)
Theorem boot_loader_ready s sbi_base : fresh s -> board_ok s -> 0 <= sbi_base < 2 ^ 64 ->
  exists kstack s', boot_loader sbi_base s = Ret (kstack, s') /\ booted s sbi_base kstack s'.
Proof.
  intros Hs Hb Hsbi. apply wp_total. apply rooted_run; [done|done|]. destruct (board_pages s Hb) as (Hd & He & Hj & HN).
  destruct (boot_top_range s Hb) as (Htop & _ & Hdram). destruct (kernel_end_u64 s Hb) as (_ & H8 & _). pose proof (bd_free _ Hb) as Hfree.
  pose proof (bd_align _ Hb) as (_ & Hf & _). pose proof (bd_end _ Hb) as Hend. pose proof (bd_base _ Hb) as Hbs. unfold kernel_end in Hend.
  destruct (root_tables (rooted s) (first_free_paddr s)) as [Ht H0]; [split; [lia|done]|done|done|done|change (1 <= kernel_free s); lia|
    change (first_free_paddr s + 4096 * kernel_free s <= 2 ^ 54); lia|done|].
  eapply wp_mono; [apply (map_kernel_spec _ (rooted s) sbi_base (DRAM_BASE s / 4096) (kernel_pages s) Ht H0 Hd He); 
    [change (kernel_end s <= 2 ^ 38); unfold kernel_end; lia|done|done|done|
     change (1 + table_pages (kernel_pages s) + 2 <= kernel_free s); change (table_pages 64) with 4 in Hfree; lia]|done|].
  intros [] s2 Hmade. by apply map_user_spec.
Qed.
End boot.

(** A board with 128 MB of memory, of which the kernel itself takes the first megabyte. *)
Lemma boot_loader_ready_witness : exists kstack s',
  boot_loader (host := demo_host) 0x80002000 demo_pk = Ret (kstack, s') /\ pk_ok 0 s' /\
  view s' 0x7e7f = Untouched None 0x3f000 4096 7 /\ view s' 0x80000 = Present 0x2000000f /\ view s' 0x7ffffff = Present 0x2000080b /\ view s' 0x20 = Unmapped.
Proof.
  assert (Hf : fresh demo_pk) by (split; reflexivity).
  assert (Hb : board_ok demo_pk) by (split; vm_compute; repeat split; discriminate).
  destruct (boot_loader_ready (host := demo_host) demo_pk 0x80002000 Hf Hb ltac:(lia)) as (kstack & s' & Hr & [Hok Hv _ _ _ _]).
  exists kstack, s'. split; [exact Hr|]. split; [exact Hok|].
  rewrite !Hv by (unfold PAGES; lia). vm_compute. repeat split.
Defined.
