(* ===== verification/PkTop.v ===== *)
(** * What the proxy kernel promises

    The theorems about the calls of a program, with a kernel for which their
    hypotheses hold. *)

From S2P Require Import Prelude State Pk PkFile PkMmap PkTree PkWalk PkVm PkMap PkFault PkSpec PkCalls PkSyscall PkUser PkProt PkSafe PkInit.

(** ** A kernel with an empty address space *)

Definition start_root : Z := 0x80100000.
Definition start_regions : Z := 0x80101000.

Definition start : pk :=
  MkPk first_fds first_files [] (<[start_root := zeros 512]> (<[start_regions := zeros 512]> ∅)) (fun _ => 0) false
    (Some (start_regions, replicate MAX_VMR no_vmr)) start_root 2 128 start_root 0x80180000 0x8000000 0x80000000 true
    (MkElf 0x20000 0x20000 0x7e80000 0x7e80000 0x7e80000).

Lemma start_wrd t i : wrd (pages start) t i = 0.
Proof.
  unfold wrd. cbn [pages start]. destruct (decide (t = start_root)) as [->|H1]; [rewrite lookup_insert_eq; apply nthz_zeros|].
  rewrite lookup_insert_ne by done. destruct (decide (t = start_regions)) as [->|H2]; [rewrite lookup_insert_eq; apply nthz_zeros|].
  rewrite lookup_insert_ne, lookup_empty by done. unfold nthz. cbn [default from_option]. destruct (i <? 0); [done|by destruct (Z.to_nat i)].
Qed.

Lemma start_node t i : node (pages start) t i = None.
Proof. unfold node. by rewrite start_wrd, has_0. Qed.

Lemma start_ent k : ent start k = 0.
Proof. unfold ent, ent_of, leaf. by rewrite start_node. Qed.

Lemma start_page a ws : pages start !! a = Some ws -> a = start_root \/ a = start_regions.
Proof.
  cbn [pages start]. intros [[<- _]|[_ H]]%lookup_insert_Some; [by left|].
  apply lookup_insert_Some in H as [[<- _]|[_ H]]; [by right|]. by rewrite lookup_empty in H.
Qed.

Lemma start_vm_ok : vm_ok 0 (<[start_root := (2, 0)]> ∅) start_regions (replicate MAX_VMR no_vmr) (fun _ => 0) none_held start.
Proof.
  assert (Hpage : forall a, a = start_root \/ a = start_regions -> page_ok a).
  { intros a [-> | ->]; (split; [unfold start_root, start_regions; lia|reflexivity]). }
  change start with (with_regions start_regions start). apply regions_vm_ok.
  - split; [split; [by rewrite lookup_insert_eq| |]|split].
    + intros a lp H. apply lookup_insert_Some in H as [[<- _]|[_ H]]; [|by rewrite lookup_empty in H].
      split; [apply Hpage; by left|]. exists (zeros 512). split; [|reflexivity]. cbn [pages start]. by rewrite lookup_insert_eq.
    + intros a l pre i _ _ _ t Hn. by rewrite start_node in Hn.
    + apply Hpage. by left.
    + cbn. lia.
    + vm_compute. congruence.
    + intros a ws Ha. destruct (start_page a ws Ha) as [-> | ->]; [exists 0|exists 1]; (split; [cbn; lia|reflexivity]).
  - apply Hpage. by right.
  - by rewrite lookup_insert_ne.
  - exists (zeros 512). cbn [pages start]. rewrite lookup_insert_ne by done. by rewrite lookup_insert_eq.
  - cbn. lia.
  - intros k _. left. apply start_ent.
  - by apply (first_files_ok 1 start).
Qed.

Lemma start_ok : pk_ok 0 start.
Proof.
  split.
  - eexists _, _, _. exact start_vm_ok.
  - split; cbn; [reflexivity|lia|lia].
  - reflexivity.
  - reflexivity.
  - split; cbn; reflexivity || lia.
Qed.

(** ** All calls *)


Definition demo_pk_calls : list pk_call :=
  [ Mmap 0 0x3000 PROT_READ (MAP_PRIVATE ||| MAP_ANONYMOUS) (-1) 0; Access 0x21000 PROT_READ; Access 0x22000 PROT_WRITE;
    Mmap 0 0x1000 PROT_READ MAP_PRIVATE 1 0; FileCall (Dup 1); Munmap 0x20000 0x2000; Access 0x21000 PROT_READ; Brk 0x23000;
    Write 3 0x22ff0 8; Mkdirat AT_FDCWD 0x10000 8 0 ].
Definition demo_results : list Z := [0x20000; 0; -1; 0x23000; 3; 0; -1; 0x20000; 0; 0].

Definition results_of {A B} (o : outcome (A * B)) : option A := match o with Ret (a, _) => Some a | Fault _ => None end.

Lemma demo_answers h : - 4096 <= s64 (@answer demo_host h).
Proof. destruct h as [|c h]; [by vm_compute|]. cbn [answer demo_host]. by destruct (call_nr c =? SYS_openat). Qed.


(** ** The address space *)

(** C34: mmap, munmap and brk change the view of the address space as they should, and no other page of it: mmap makes
    the pages of the first free range that is long enough, or of the range that is asked for, untouched pages of its
    file, and fails only for bad arguments, a bad descriptor, or when there is no such range or no free region;
    munmap empties its range or refuses it; brk moves the end of the data, within its limits, and maps or empties the
    pages between.  The host is asked for nothing but to close a file with the last region of it, and no byte of the
    memory changes. *)
Theorem address_space_correct {host : Host} n s :
  0 <= n <= 2 ^ 30 -> pk_ok n s ->
  (forall addr length prot flags fd offset, call_wf (mmap_max (current s)) (Mmap addr length prot flags fd offset) ->
     wp (do_mmap addr length prot flags fd offset) (mmap_stops s length flags)
       (fun r s' => pk_ok n s' /\ mmap_call s addr length prot flags fd offset r s') s) /\
  (forall addr length, call_wf (mmap_max (current s)) (Munmap addr length) ->
     exists r s', do_munmap addr length s = Ret (r, s') /\ pk_ok n s' /\ closes (calls s) (calls s') /\ pmem s' = pmem s /\
       if good_range s addr length
       then r = 0 /\ same_view (view s') (with_range (addr / 4096) ((length + 4095) / 4096) (fun _ => Unmapped) (view s))
       else r = - EINVAL /\ s' = s) /\
  (forall addr, call_wf (mmap_max (current s)) (Brk addr) ->
     wp (do_brk addr) (brk_stops s addr) (fun r s' => pk_ok n s' /\ brk_result s addr r s') s).
Proof.
  intros Hn Hs. split; [|split].
  - intros addr length prot flags fd offset (Ha & Hl & Hf).
    eapply wp_mono; [apply (do_mmap_spec n Hn s addr length prot flags fd offset Hs Ha Hl); by apply (pk_searchable n)|done|].
    intros r s' (H1 & _ & H2). done.
  - intros addr length [Ha Hl]. destruct (do_munmap_spec n Hn s addr length Hs Ha Hl) as (r & s' & H1 & H2 & H3 & H4 & _ & H5).
    by exists r, s'.
  - intros addr Ha. eapply wp_mono; [by apply (do_brk_spec n Hn)|done|]. intros r s' (H1 & _ & H2). done.
Qed.

(** Two pages of the file of descriptor 1, from its page 1 on. *)
Definition demo_mmap {host : Host} : M pk Z := do_mmap 0 0x1800 PROT_READ MAP_PRIVATE 1 0x1000.

Lemma demo_mmap_run {host : Host} : exists s', demo_mmap start = Ret (0x20000, s').
Proof.
  assert (Hr : results_of (demo_mmap start) = Some 0x20000) by (vm_compute; reflexivity).
  destruct (demo_mmap start) as [[r s']|e]; [|discriminate]. cbn [results_of] in Hr. injection Hr as ->. by exists s'.
Qed.

Lemma address_space_correct_witness :
  exists s', demo_mmap (host := demo_host) start = Ret (0x20000, s') /\
    view s' 0x20 = Untouched (Some 1%nat) 0x1000 0x1000 PROT_READ /\ view s' 0x21 = Untouched (Some 1%nat) 0x2000 0x800 PROT_READ /\
    view s' 0x22 = Unmapped.
Proof.
  destruct (demo_mmap_run (host := demo_host)) as [s' Hr]. exists s'. split; [exact Hr|].
  assert (Hwf : call_wf (mmap_max (current start)) (Mmap 0 0x1800 PROT_READ MAP_PRIVATE 1 0x1000))
    by (cbn [call_wf]; repeat split; first [lia | intros _; vm_compute; discriminate]).
  pose proof (proj1 (address_space_correct (host := demo_host) 0 start ltac:(lia) start_ok) 0 0x1800 PROT_READ MAP_PRIVATE 1 0x1000 Hwf) as Hm.
  unfold demo_mmap in Hr. unfold wp in Hm. rewrite Hr in Hm. destruct Hm as [_ Hm].
  unfold mmap_call in Hm. cbn [negb orb] in Hm. change (negb (has MAP_PRIVATE MAP_PRIVATE)) with false in Hm.
  change (negb (0x1000 mod 4096 =? 0)) with false in Hm. cbn [orb Z.eqb] in Hm.
  change (mmap_file start MAP_PRIVATE 1) with (Some (Some 1%nat)) in Hm. specialize (Hm eq_refl).
  destruct Hm as (_ & _ & [(Hbad & _)|(j & _ & Hj & _ & _ & Hv)]); [discriminate|].
  assert (j = 0x20) as -> by lia. assert (He : forall k, view start k = Unmapped) by (intros k; unfold view; by rewrite start_ent).
  pose proof (Hv 0x20 ltac:(unfold PAGES; lia)) as H0. pose proof (Hv 0x21 ltac:(unfold PAGES; lia)) as H1. pose proof (Hv 0x22 ltac:(unfold PAGES; lia)) as H2.
  rewrite H0, H1, H2. unfold with_range. rewrite He. split; [reflexivity|]. split; reflexivity.
Defined.

(** ** Accesses *)

(** A host that has the file [content] as descriptor [kd]. *)
Definition serves {host : Host} (kd : Z) (content : list Z) : Prop := forall cs pa len off, 0 <= len -> 0 <= off ->
  let chunk := take (Z.to_nat len) (drop (Z.to_nat off) content) in
  let h := MkCall SYS_pread [kd; pa; len; off; 0; 0; 0] :: cs in answer h = lenz chunk /\ writes h = [(pa, chunk)].


(** A byte of a page that has just been filled. *)
Definition page_byte (file : option nat) (content : list Z) (off len x : Z) : Z :=
  match file with None => 0 | Some _ => if x <? len then content !z (off + x) else 0 end.

(** An access needs no more than the protection gives. *)
Definition allows (p prot : Z) : bool := let t := prot_to_type prot true in prot_to_type p true &&& t =? t.

Lemma land_low x y : 0 <= y < 2 ^ 10 -> x &&& y = (x mod 2 ^ 10) &&& y.
Proof.
  intros Hy. rewrite <- Z.land_ones by lia. rewrite <- Z.land_assoc, (Z.land_comm (Z.ones 10)), Z.land_ones, (Z.mod_small y) by lia. done.
Qed.

Lemma pte_low ppn t : 0 <= ppn < 2 ^ 54 -> 0 <= t < 2 ^ 10 -> pte_create ppn t mod 2 ^ 10 = PTE_V ||| t.
Proof.
  intros Hp Ht. unfold pte_create, PTE_PPN_SHIFT.
  assert (Hu : u64 (ppn <<< 10) = ppn <<< 10) by (rewrite shiftl_mul by lia; apply u64_small; lia).
  rewrite Hu, <- Z.lor_assoc, <- Z.land_ones, Z.land_lor_distr_l by lia.
  rewrite !Z.land_ones by lia. rewrite shiftl_mul, Z.mod_mul, Z.lor_0_l by lia. apply Z.mod_small. split.
  - apply Z.lor_nonneg. unfold PTE_V. lia.
  - destruct (Z.eq_dec (PTE_V ||| t) 0) as [->|]; [lia|]. apply Z.log2_lt_pow2; [pose proof (proj2 (Z.lor_nonneg PTE_V t)); unfold PTE_V in *; lia|].
    rewrite Z.log2_lor by (unfold PTE_V; lia). apply Z.max_lub_lt; [reflexivity|]. destruct (Z.eq_dec t 0) as [->|]; [reflexivity|].
    apply Z.log2_lt_pow2; lia.
Qed.

Lemma fault_allows ppn p prot : 0 <= ppn < 2 ^ 54 ->
  fault_result (pte_create ppn (prot_to_type p true)) prot = if allows p prot then 0 else -1.
Proof.
  intros Hp. pose proof (prot_type_range p true) as Ht. pose proof (prot_type_range prot true) as Ht'.
  unfold fault_result, allows. cbv zeta. rewrite land_low, (pte_low ppn _ Hp Ht).
  - unfold prot_to_type. by destruct (has p PROT_READ), (has p PROT_WRITE), (has p PROT_EXEC), (has prot PROT_READ), (has prot PROT_WRITE), (has prot PROT_EXEC).
  - unfold prot_to_type. by destruct (has prot PROT_READ), (has prot PROT_WRITE), (has prot PROT_EXEC).
Qed.

(** The number of bytes that an untouched page takes from its file. *)
Lemma untouched_len n s k file off len p : pk_ok n s -> 0 <= k < PAGES -> view s k = Untouched file off len p -> 0 < len <= 4096.
Proof.
  intros [(P & base & vs & Hv) _ _ _ _] Hk Hvw.
  destruct (view_cases n P base vs _ none_held s Hv k Hk) as [[_ E]|[(_ & _ & E)|(i & v & _ & _ & Hr & _ & _ & E)]]; rewrite Hvw in E; [done|done|].
  unfold region_page in E. injection E as _ _ -> _. unfold page_len, page_offset. lia.
Qed.

Lemma store_at_in a bs m x : 0 <= x < lenz bs -> store_at a bs m (a + x) = bs !z x.
Proof. intros Hx. unfold store_at. rewrite (proj2 (Z.leb_le a _)), (proj2 (Z.ltb_lt (a + x) _)) by lia. cbn [andb]. f_equal. lia. Qed.
Lemma store_at_out a bs m y : y < a \/ a + lenz bs <= y -> store_at a bs m y = m y.
Proof. intros Hy. unfold store_at. destruct (Z.leb_spec a y), (Z.ltb_spec y (a + lenz bs)); cbn [andb]; lia || done. Qed.

(** What the filling leaves in the memory. *)
Definition filled (s : pk) (k : Z) (file : option nat) (content : list Z) (off len : Z) (m : Z -> Z) : Prop :=
  (forall x, 0 <= x < 4096 -> m (page_pa s k + x) = page_byte file content off len x) /\
  (forall y, y < page_pa s k \/ page_pa s k + 4096 <= y -> m y = pmem s y).

Lemma fill_page_zeros {host : Host} s k off len content :
  exists c m, fill_page s k None off len = Ret (c, m) /\ filled s k None content off len m.
Proof.
  eexists _, _. split; [reflexivity|]. split.
  - intros x Hx. rewrite store_at_in by (rewrite lenz_zeros; lia). apply nthz_zeros.
  - intros y Hy. apply store_at_out. rewrite lenz_zeros by lia. exact Hy.
Qed.

Lemma fill_page_file {host : Host} s k f off len content :
  0 < len <= 4096 -> 0 <= off < 2 ^ 63 -> serves (file_kfd s f) content ->
  if off <? lenz content
  then exists c m, fill_page s k (Some f) off len = Ret (c, m) /\ filled s k (Some f) content off len m
  else fill_page s k (Some f) off len = Fault AssertFail.
Proof.
  intros Hl Ho Hs. unfold fill_page. fold (file_kfd s f). rewrite s64_u64 by lia. cbv zeta.
  destruct (Hs (calls s) (page_pa s k) len off) as [Ha Hw]; [lia|lia|]. cbv zeta in Ha, Hw. fold (pread_call s (file_kfd s f) k len off) in Ha, Hw.
  set (chunk := take _ _) in *. set (c := pread_call s (file_kfd s f) k len off) in *.
  assert (Hc : lenz chunk = Z.min len (Z.max 0 (lenz content - off))).
  { unfold chunk, lenz. rewrite length_take, length_drop. lia. }
  unfold after_call. cbn [pmem with_calls]. rewrite Ha, Hw. cbn [foldl fst snd]. rewrite s64_small by lia.
  destruct (Z.ltb_spec off (lenz content)) as [Hlt|Hge].
  2:{ rewrite (proj2 (Z.ltb_ge 0 _)); [done|]. lia. }
  rewrite (proj2 (Z.ltb_lt 0 _)) by lia. eexists _, _. split; [reflexivity|].
  assert (Hin : forall x, 0 <= x < lenz chunk -> chunk !z x = page_byte (Some f) content off len x).
  { intros x Hx. cbn [page_byte]. rewrite (proj2 (Z.ltb_lt x len)) by lia. unfold chunk. rewrite nthz_take, nthz_drop by lia. done. }
  assert (Hout : forall x, lenz chunk <= x -> 0 <= x -> page_byte (Some f) content off len x = 0).
  { intros x Hx Hx0. cbn [page_byte]. destruct (Z.ltb_spec x len); [|done]. apply nthz_out. lia. }
  destruct (Z.ltb_spec (lenz chunk) 4096).
  - split.
    + intros x Hx. destruct (Z.lt_ge_cases x (lenz chunk)).
      * rewrite store_at_out by lia. rewrite store_at_in by lia. apply Hin. lia.
      * replace (page_pa s k + x) with (page_pa s k + lenz chunk + (x - lenz chunk)) by lia.
        rewrite store_at_in by (rewrite lenz_zeros; lia). rewrite nthz_zeros. symmetry. apply Hout; lia.
    + intros y Hy. rewrite !store_at_out; [done|lia|rewrite lenz_zeros; lia].
  - split.
    + intros x Hx. rewrite store_at_in by lia. apply Hin. lia.
    + intros y Hy. apply store_at_out. lia.
Qed.

(** What an access to a page leaves that had not been accessed before. *)
Definition page_filled (n : Z) (s : pk) (k : Z) (file : option nat) (content : list Z) (off len p : Z) (s' : pk) : Prop :=
  pk_ok n s' /\ frame s s' /\ filled s k file content off len (pmem s') /\
  same_view (view s') (with_range k 1 (fun _ => Present (pte_create (page_ppn s k) (prot_to_type p true))) (view s)).

(** C35: the first access to a page of a mapping fills it: with the bytes of the file, as far as the mapping and the
    file go, and with zeros, and nothing else of the memory changes; the page is present with the protection of the
    mapping from then on, and the access succeeds when that allows it.  A page whose bytes all lie beyond the end of
    the file stops the kernel.  An access to a page that is present is judged by its entry; every other access fails
    and changes nothing. *)
Theorem page_fault_correct {host : Host} n s va prot content :
  0 <= n <= 2 ^ 30 -> pk_ok n s -> 0 <= va < 2 ^ 64 -> let k := va / 4096 in
  match (if k * 4096 <? mmap_max (current s) then view s k else Unmapped) with
  | Unmapped => handle_page_fault va prot s = Ret (-1, s)
  | Present w => handle_page_fault va prot s = Ret (fault_result w prot, s)
  | Untouched file off len p =>
      let done := exists s', handle_page_fault va prot s = Ret (if allows p prot then 0 else -1, s') /\
                    page_filled n s k file content off len p s' in
      match file with
      | None => done
      | Some f => serves (file_kfd s f) content -> 0 <= off < 2 ^ 63 ->
          if off <? lenz content then done else handle_page_fault va prot s = Fault AssertFail
      end
  end.
Proof.
  intros Hn Hs Hva k. pose proof (handle_page_fault_spec n Hn none_held s va prot Hs Hva) as Hf. unfold fault_done in Hf. fold k in Hf.
  pose proof (pk_ok_top n _ s Hs) as Htop. destruct (Z.ltb_spec (k * 4096) (mmap_max (current s))) as [Hk|Hk]; [|exact Hf].
  assert (Hk0 : 0 <= k) by (apply Z.div_pos; lia). assert (Hppn : 0 <= page_ppn s k < 2 ^ 54).
  { pose proof (page_ppn_range s k (po_user n _ s Hs) ltac:(lia)). lia. }
  destruct (view s k) as [|file off len p|w] eqn:Hvw; [exact Hf| |exact Hf].
  pose proof (untouched_len n s k file off len p Hs ltac:(unfold PAGES; lia) Hvw) as Hlen. rewrite (fault_allows _ p prot Hppn) in Hf.
  assert (Hdone : (exists c m, fill_page s k file off len = Ret (c, m) /\ filled s k file content off len m) ->
    exists s', handle_page_fault va prot s = Ret (if allows p prot then 0 else -1, s') /\ page_filled n s k file content off len p s').
  { intros (c & m & Hc & Hm). rewrite Hc in Hf. destruct Hf as (s' & Hr & H1 & _ & Hpm & H2 & H3). exists s'. split; [exact Hr|].
    split; [exact H1|]. split; [exact H2|]. split; [by rewrite Hpm|exact H3]. }
  destruct file as [f|]; [|apply Hdone, fill_page_zeros]. cbv zeta. intros Hserve Hoff.
  pose proof (fill_page_file s k f off len content Hlen Hoff Hserve) as Hfill. destruct (off <? lenz content); [by apply Hdone|].
  by rewrite Hfill in Hf.
Qed.

(** A host with a file of 0x1804 bytes as its descriptor 1. *)
Definition demo_content : list Z := replicate 0x1800 7 ++ [1; 2; 3; 4].
Definition demo_chunk (len off : Z) : list Z := take (Z.to_nat len) (drop (Z.to_nat off) demo_content).
Definition file_host : Host := {|
  answer cs := match cs with MkCall 67 [1; _; len; off; 0; 0; 0] :: _ => lenz (demo_chunk len off) | _ => 0 end;
  writes cs := match cs with MkCall 67 [1; pa; len; off; 0; 0; 0] :: _ => [(pa, demo_chunk len off)] | _ => [] end;
  close_writes _ _ := eq_refl
|}.

Lemma file_host_serves : serves (host := file_host) 1 demo_content.
Proof. intros cs pa len off _ _. split; reflexivity. Qed.

(** The program maps the file and reads from the second page. *)
Lemma page_fault_correct_witness :
  exists s s', demo_mmap (host := file_host) start = Ret (0x20000, s) /\ handle_page_fault (host := file_host) 0x20008 PROT_READ s = Ret (0, s') /\
    pmem s' (page_pa s 0x20) = 7 /\ pmem s' (page_pa s 0x20 + 0x803) = 4 /\ pmem s' (page_pa s 0x20 + 0x804) = 0.
Proof.
  destruct (demo_mmap_run (host := file_host)) as [s Hr]. exists s.
  assert (Hm : pk_ok 0 s /\ mmap_max (current s) = 0x7e80000 /\ view s 0x20 = Untouched (Some 1%nat) 0x1000 0x1000 PROT_READ /\ file_kfd s 1 = 1).
  { pose proof (do_mmap_spec (host := file_host) 0 ltac:(lia) start 0 0x1800 PROT_READ MAP_PRIVATE 1 0x1000 start_ok ltac:(lia) ltac:(lia)) as Hm.
    unfold demo_mmap in Hr. unfold wp in Hm. rewrite Hr in Hm. destruct Hm as (H1 & H2 & _).
    - apply (pk_searchable 0 _ _ _ start_ok). intros _. vm_compute. discriminate.
    - split; [exact H1|]. split; [exact H2|]. assert (Hs : s = match demo_mmap (host := file_host) start with Ret (_, s) => s | _ => start end)
        by (unfold demo_mmap; by rewrite Hr). rewrite Hs. split; vm_compute; reflexivity. }
  destruct Hm as (Hs & Ht & Hv & Hk).
  pose proof (page_fault_correct (host := file_host) 0 s 0x20008 PROT_READ demo_content ltac:(lia) Hs ltac:(lia)) as Hf. cbv zeta in Hf.
  change (0x20008 / 4096) with 0x20 in Hf. rewrite Ht in Hf. change (0x20 * 4096 <? 0x7e80000) with true in Hf. rewrite Hv in Hf. cbv iota in Hf.
  rewrite Hk in Hf. specialize (Hf file_host_serves ltac:(lia)). change (0x1000 <? lenz demo_content) with true in Hf.
  destruct Hf as (s' & Hrun & _ & _ & [Hin _] & _). exists s'. split; [exact Hr|]. split; [exact Hrun|].
  pose proof (Hin 0 ltac:(lia)) as H0. rewrite Z.add_0_r in H0. rewrite H0, (Hin 0x803), (Hin 0x804) by lia. split; [|split]; vm_compute; reflexivity.
Defined.

(** ** mprotect *)

(** C39: mprotect leaves the invariant; an address that is not aligned is refused; for the range of one page it gives a
    page that is present the new protection, refuses what the page's entry or region does not allow, and for a page
    that has not been accessed it changes the protection of every such page of the same region, though only one page
    was asked for. *)
Theorem mprotect_correct {host : Host} n s addr length prot :
  pk_ok n s -> call_wf (mmap_max (current s)) (Mprotect addr length prot) ->
  exists r s', do_mprotect addr length prot s = Ret (r, s') /\ pk_ok n s' /\ calls s' = calls s /\ pmem s' = pmem s /\
    (addr mod 4096 <> 0 -> r = u64 (- EINVAL) /\ s' = s) /\
    (addr mod 4096 = 0 -> 0 < length <= 4096 -> let k := vpn addr in
       match view s k with
       | Unmapped => r = u64 (- ENOMEM) /\ same_view (view s') (view s)
       | Present w =>
           if exceeds w prot then r = u64 (- EACCES) /\ same_view (view s') (view s)
           else r = 0 /\ same_view (view s') (with_range k 1 (fun _ => Present (pte_create (pte_ppn w) (prot_to_type prot true))) (view s))
       | Untouched _ _ _ p =>
           if widens p prot then r = u64 (- EACCES) /\ same_view (view s') (view s)
           else r = 0 /\ same_view (view s') (fun x => if ent s x =? ent s k then reprot prot (view s x) else view s x)
       end).
Proof.
  intros Hs (Ha & Hl & Hal). destruct (do_mprotect_spec n s addr length prot Hs Ha Hl Hal) as (r & s' & H1 & H2 & H3 & H4 & _ & H5 & H6).
  exists r, s'. split; [exact H1|]. split; [exact H2|]. split; [exact H3|]. split; [exact H4|]. split; [exact H5|].
  intros Hm [Hl1 Hl2]. destruct (H6 Hm ltac:(lia) Hl2) as [Hr Hv]. cbv zeta. unfold protect_page in Hr, Hv.
  destruct (view s (vpn addr)) as [|f o l p|w]; [by split|destruct (widens p prot); by split|destruct (exceeds w prot); by split].
Qed.

(** Of two pages that are mapped for reading and writing the first is made read-only: so is the second. *)
Definition protection (v : page_view) : option Z := match v with Untouched _ _ _ p => Some p | _ => None end.

Lemma mprotect_correct_witness :
  exists s1 s2, do_mmap (host := demo_host) 0 0x2000 (PROT_READ ||| PROT_WRITE) (MAP_PRIVATE ||| MAP_ANONYMOUS) (-1) 0 start = Ret (0x20000, s1) /\
    do_mprotect 0x20000 0x1000 PROT_READ s1 = Ret (0, s2) /\ pk_ok 0 s2 /\
    protection (view s1 0x21) = Some (PROT_READ ||| PROT_WRITE) /\ protection (view s2 0x21) = Some PROT_READ.
Proof.
  pose (m := do_mmap (host := demo_host) 0 0x2000 (PROT_READ ||| PROT_WRITE) (MAP_PRIVATE ||| MAP_ANONYMOUS) (-1) 0 start).
  pose (s0 := match m with Ret (_, s) => s | Fault _ => start end).
  pose proof (do_mmap_spec (host := demo_host) 0 ltac:(lia) start 0 0x2000 (PROT_READ ||| PROT_WRITE) (MAP_PRIVATE ||| MAP_ANONYMOUS) (-1) 0 start_ok
    ltac:(lia) ltac:(lia)) as Hm.
  assert (Hr : results_of m = Some 0x20000) by (vm_compute; reflexivity).
  assert (Hv : view s0 0x20 = Untouched None 0 0x1000 3 /\ view s0 0x21 = Untouched None 0x1000 0x1000 3 /\ ent s0 0x21 = ent s0 0x20)
    by (split; [|split]; vm_compute; reflexivity).
  unfold wp in Hm. fold m in Hm. subst s0. destruct m as [[r s]|e] eqn:E; [|discriminate]. cbn [results_of] in Hr. injection Hr as ->.
  destruct Hm as (Hs & _ & _).
  { apply (pk_searchable 0 _ _ _ start_ok). intros _. vm_compute. discriminate. }
  destruct Hv as (Hv0 & Hv1 & He).
  destruct (mprotect_correct (host := demo_host) 0 s 0x20000 0x1000 PROT_READ Hs ltac:(cbn [call_wf]; lia)) as (r & s2 & Hrun & Hs2 & _ & _ & _ & Hpage).
  specialize (Hpage eq_refl ltac:(lia)). cbv zeta in Hpage. change (vpn 0x20000) with 0x20 in Hpage. rewrite Hv0 in Hpage.
  change (widens 3 PROT_READ) with false in Hpage. destruct Hpage as [-> Hw]. exists s, s2. split; [exact E|]. split; [exact Hrun|].
  split; [exact Hs2|]. split; [by rewrite Hv1|]. rewrite (Hw 0x21) by (unfold PAGES; lia). rewrite He, Z.eqb_refl, Hv1. reflexivity.
Defined.

(** ** Buffers *)

(** A host that only reads what it is given to write. *)
Definition only_reads {host : Host} : Prop := forall args cs, writes (MkCall SYS_write args :: cs) = [].

Lemma chunk_len size off (content : list Z) : 0 <= size -> 0 <= off ->
  lenz (take (Z.to_nat size) (drop (Z.to_nat off) content)) = Z.min size (Z.max 0 (lenz content - off)).
Proof. intros Hs Ho. unfold lenz. rewrite length_take, length_drop. lia. Qed.

Lemma sys_pread_run {host : Host} n s fd f buf size off content :
  0 <= n <= 2 ^ 30 -> pk_ok n s -> fd_file s fd = Some f -> 0 <= buf -> 0 <= size -> buf + size <= mmap_max (current s) ->
  serves (file_kfd s f) content -> 0 <= off -> all_ready true s buf size ->
  let r := Z.min size (Z.max 0 (lenz content - off)) in
  exists s', sys_pread fd buf size off s = Ret (r, s') /\ pk_ok n s' /\
    forall va, 0 <= va < mmap_max (current s) ->
      user_byte s' va = if (buf <=? va) && (va <? buf + r) then Some (content !z (off + (va - buf))) else user_byte s va.
Proof.
  intros Hn Hs Hfd Hb Hsz Htop Hserve Hoff Hr r. pose proof (pk_ok_top _ _ _ Hs) as Hmax.
  destruct (wp_total (sys_pread fd buf size off) (fun x s' => x = r /\ pk_ok n s' /\ forall va, 0 <= va < mmap_max (current s) ->
      user_byte s' va = if (buf <=? va) && (va <? buf + r) then Some (content !z (off + (va - buf))) else user_byte s va) s)
    as (x & s' & Hrun & -> & H); [|by exists s'].
  apply (with_file_wp n Hn); [done|congruence|]. intros f' fs Hf' Hf Hkf Hs1. rewrite Hfd in Hf'. injection Hf' as <-.
  destruct (transfer_ready n Hn _ true SYS_pread f buf size [off; 0; 0; 0] (with_files fs s) Hs1 Hf Hb Hsz Htop Hr) as (s2 & Hp & Hrun).
  cbv zeta in Hrun. rewrite (Hkf f) in Hrun. change (buffer_pa (with_files fs s) buf) with (buffer_pa s buf) in Hrun.
  set (c := MkCall SYS_pread _) in Hrun. unfold wp, file_pread. rewrite Hrun.
  destruct (Hserve (calls s2) (buffer_pa s buf) size off Hsz Hoff) as [Ha Hw]. fold c in Ha, Hw. cbv zeta in Ha, Hw.
  pose proof (chunk_len size off content Hsz Hoff) as Hlen. fold r in Hlen. set (chunk := take _ _) in *.
  rewrite Ha, Hlen. split; [by apply pk_held_calls, Hp|].
  cbv zeta. intros fs' cs' Hcl Hok. split; [apply s64_small; subst r; lia|]. split; [exact Hok|]. intros va Hva.
  change (user_byte (with_calls cs' _ _) va) with (user_byte (after_call c s2) va).
  rewrite (host_wrote n _ (with_files fs s) buf size _ s2 c chunk va Hp eq_refl Hb ltac:(lia) Htop Hw Hva), Hlen.
  destruct (Z.leb_spec buf va), (Z.ltb_spec va (buf + r)); cbn [andb]; try done. f_equal. unfold chunk.
  by rewrite nthz_take, nthz_drop by (subst r; lia).
Qed.

Lemma sys_write_run {host : Host} n s fd f buf size :
  0 <= n <= 2 ^ 30 -> pk_ok n s -> fd_file s fd = Some f -> 0 <= buf -> 0 <= size -> buf + size <= mmap_max (current s) ->
  only_reads -> all_ready false s buf size ->
  let pa := buffer_pa s buf in
  let c := MkCall SYS_write [file_kfd s f; pa; size; 0; 0; 0; 0] in
  exists s', sys_write fd buf size s = Ret (s64 (answer (c :: calls s)), s') /\ pk_ok n s' /\ closes (c :: calls s) (calls s') /\ same_bytes s s' /\
    forall i, 0 <= i < size -> user_byte s (buf + i) = Some (pmem s' (pa + i)).
Proof.
  intros Hn Hs Hfd Hb Hsz Htop Hro Hr pa c. pose proof (pk_ok_top _ _ _ Hs) as Hmax.
  destruct (wp_total (sys_write fd buf size) (fun x s' => x = s64 (answer (c :: calls s)) /\ pk_ok n s' /\ closes (c :: calls s) (calls s') /\ same_bytes s s' /\
      forall i, 0 <= i < size -> user_byte s (buf + i) = Some (pmem s' (pa + i))) s)
    as (x & s' & Hrun & -> & H); [|by exists s'].
  apply (with_file_wp n Hn); [done|congruence|]. intros f' fs Hf' Hf Hkf Hs1. rewrite Hfd in Hf'. injection Hf' as <-.
  destruct (transfer_ready n Hn _ false SYS_write f buf size [0; 0; 0; 0] (with_files fs s) Hs1 Hf Hb Hsz Htop Hr) as (s2 & Hp & Hrun).
  cbv zeta in Hrun. rewrite (Hkf f) in Hrun. change (buffer_pa (with_files fs s) buf) with pa in Hrun. fold c in Hrun.
  unfold wp, file_write. rewrite Hrun. destruct Hp as [Hs2 Hf2 Hc2 Hb2 Hp2 _]. cbn in Hc2. rewrite Hc2.
  assert (Hm : after_call c s2 = with_calls (c :: calls s) (pmem s2) s2) by (unfold after_call, c; by rewrite Hc2, Hro).
  split; [by apply pk_held_calls|]. rewrite Hm. cbv zeta. intros fs' cs' Hcl Hok. split; [done|]. split; [exact Hok|]. split; [exact Hcl|].
  split; [intros va Hva; exact (Hb2 va Hva)|]. intros i Hi. cbn.
  assert (Hva : 0 <= buf + i < mmap_max (current s)) by lia. pose proof (Hb2 (buf + i) Hva) as Hbi.
  change (user_byte (with_files fs s) (buf + i)) with (user_byte s (buf + i)) in Hbi. rewrite <- Hbi.
  destruct (Hp2 ((buf + i) / 4096)) as [w Hw]; [unfold page_end; zdm|].
  rewrite (user_byte_present n _ s2 _ w Hs2 ltac:(rewrite (fr_current _ _ Hf2); exact Hva) Hw), (fr_paddr _ _ Hf2). do 2 f_equal. cbn.
  pose proof (us_dram _ (po_user _ _ _ Hs)). unfold pa, buffer_pa. rewrite (proj2 (Z.leb_gt (DRAM_BASE s) buf)) by lia. lia.
Qed.


(** Three pages of zeros at the start of the data, then a read from the file into the first two of them. *)
Definition demo_buffer {host : Host} : M pk Z := do_mmap 0 0x3000 (PROT_READ ||| PROT_WRITE) (MAP_PRIVATE ||| MAP_ANONYMOUS) (-1) 0.

